(* ===== verification/_CoqProject ===== *)
-Q . S2P
Prelude.v
RustStr.v
Py.v
Status.v
Smpp34.v
Tlv.v
Pdu.v
Async.v
Threads.v
Returns.v
F64.v
RateLimit.v
Effects.v
Metrics.v
Outcome.v
Dispatch.v
Scripts.v
Runtime.v
Inbound.v
Config.v
Yaml.v
Receipt.v
Sends.v
Repr.v
Supervisor.v
Install.v
Harness.v
Drive.v
LeakCheck.v
Conformance.v
System.v
Sessions.v
Caps.v
Progress.v
