(* ===== verification/Prelude.v ===== *)
(** * siphon-smpp, verified

    siphon-smpp is the SMPP 3.4 addon of the siphon scripting platform: a server
    that ESMEs bind to, clients that bind to other SMSCs, and Python handlers that
    decide what happens to every message.  This library models the Rust crate
    under [src/src/] (and the decorators of [src/python/smpp.py]), its load harness
    and its leak check as executable definitions, and proves what the parts
    promise, alone and together.

    ** How the program is put together

    [config.rs] loads [smpp.yaml] and the environment into an [SmppConfig].
    [install.rs] puts the namespace [siphon.smpp] into the interpreter; a script's
    decorators register handlers in the host's registry.  [runtime.rs::spawn]
    starts the server, the metrics sampler and one supervisor per bind.  The codec
    (crate [smpp34]) calls the listeners of [runtime.rs] for each bind, PDU and
    lifecycle event; a listener admits the message ([RateLimiter]), lets
    [dispatch.rs] run the handler as one job on the Python executor, and answers
    with what the handler returned ([pyclasses.rs]).  A handler sends through the
    helpers of [sends.rs], which find the session, pace, await the peer's answer
    and classify a missing one ([outcome.rs]).  All tasks share two session lists
    behind mutexes, and each session its limiter.

    Around the crate stand two programs of the repository.  The load harness
    ([harness/src/main.rs]) binds to a gateway, keeps a window of submits in flight
    and reports; the leak check ([examples/leak_check.rs]) runs the crate's per-PDU
    code under an allocator that counts live bytes.

    ** Which file models what

    - [Prelude], [RustStr], [Py]: results and lists; Rust's strings as UTF-8 bytes
      with checked slicing; Python values and exceptions.
    - [Status]: command statuses ([outcome.rs], [parse_smpp_status]).
    - [Smpp34]: the codec's data, and its functions as the class [Smpp34] with the
      laws [Smpp34Laws]; [Smpp34Example] is a codec that satisfies them.
    - [Tlv]: [tlv.rs].  [Pdu]: the classes of [pyclasses.rs].  [Receipt]: its
      delivery receipts.  [Repr]: every [__repr__].
    - [Async]: an async function as a tree of effects, and its runs.  [Threads]:
      tasks that take turns on one shared state, the rule that proves an invariant
      of all of them, and histories, which say whose each step was.  [Returns]: when
      a program returns, or waits for the outside.  [Effects]: the state shared by
      the tasks, and the effects of this program.
    - [F64], [RateLimit]: binary64 with rounding, durations; the token bucket of
      [runtime.rs], section by section.
    - [Metrics]: [metrics.rs].  [Outcome]: [outcome.rs].
    - [Dispatch]: [dispatch.rs].  [Scripts]: registration, from the decorator in
      [smpp.py] to the lookup in [dispatch.rs], and the benchmarks' own lookup
      ([bench_support]).
    - [Runtime]: the listeners, registries, limiter loops and admission of
      [runtime.rs]; [Inbound]: the theorems about what a peer is answered.
      [Supervisor]: [spawn] and [run_bind_loop].
    - [Config], [Yaml]: [config.rs]; the second holds the [Deserialize]s.
    - [Sends]: [sends.rs].  [Install]: [install.rs] and the readouts of [smpp.py].
    - [Harness]: the arguments, mock SMSC and report of the load harness; [Drive]:
      its driver and the tasks it spawns, over a semaphore and shared tallies.
    - [LeakCheck]: the counting allocator, the workloads and the verdict.
    - [Conformance]: the crate's unit tests as checks on these definitions.
    - [System]: every task of the program over one state, and the states they
      reach.  [Sessions]: what the callbacks make of the session lists, and what a
      helper may say of them.  [Caps]: the configured caps.  [Progress]: that the
      tasks return, by the rule of [Returns].

    A Rust struct is a record (in a module of its name when the field names
    repeat), an enum an inductive type with its constructors, a function a
    definition of its name.  [Result] is [result], with [?] as bind.  An integer is
    a [Z]; where the code casts or parses, the width is written out ([wrap],
    [try_from], [fits]).  An [async fn] is a [task], a program over [eff]: each
    lock with its whole critical section, each clock read, sleep, metric, Python
    call, allocation of a session handle or limiter, and each request to a peer is
    one effect, in the order of the source; the environment answers.  An [Arc] is
    an address and a content, so [Arc::ptr_eq] compares what the code compares.

    ** What the theorems show

    - End to end ([System], [Sessions], [Caps]), for every state the tasks can reach
      and every way they interleave: each message of a capped session has a token of
      its own, and the tokens are within the cap; the bound callbacks add to the
      session lists, the unbound ones remove from them, and nothing else touches
      them; a send is reported closed only if an unbound callback closed its
      session; each metric update fits a registered series; no send trips an
      assertion of the codec.
    - To the end ([Progress]): started in any such state, every request, callback
      and send returns if the outside answers its effects and no overload starves
      its limiter, and otherwise waits for such an answer and nothing else; a paced
      message sleeps at most once more than others used its limiter meanwhile, and
      is counted exactly when it slept.  The theorems about runs are about every
      request that ends ([execution_runs]).
    - Serving ([Inbound], [Dispatch], [Scripts]): every request is answered with
      exactly what the script said, or its command's fixed status, and counted
      once; a PDU reaches the first handler of its command, once; binds are closed
      by default; session events reach every handler; a script's decorators are
      served in order; a coroutine's outcome is reported once.
    - Sending ([Sends], [Outcome]): what each helper puts on the wire, on which
      session, after which pace, and that what it reports happened; statuses,
      parameters and bodies survive from script to script.
    - Limiting ([RateLimit]): the window bound on admissions with rounding counted,
      the exact burst, and that the wait a paced caller is given makes a token.
    - Supervision ([Supervisor], [Progress]): the backoff schedule, and that every
      attempt ends, so a bind is always tried again.
    - Text ([Receipt], [Tlv], [Config], [Status]): the receipt parser never panics
      and reads back what an SMSC renders; name and value conversions are
      characterised on every branch; variable expansion is total and
      single-pass.
    - Configuration ([Config], [Yaml], [Install]): which environment variables
      declare and override what, on success and on failure, field by field; which
      documents load, and what each key of the file becomes; what loads is within
      its machine types; routing options come back as they were written; a script
      is shown the configuration, and no password.
    - The load harness ([Drive], [Harness]): whatever the peer answers and however
      the tasks interleave, the driver never has more submits in flight than its
      window, its report accounts for every submit, and it ends; percentiles are
      ranks of what was measured.
    - The leak check ([LeakCheck]): its counter is the live bytes, whatever calls
      interleave; its verdict is about the first and last reading of each phase.
    - The tests ([Conformance]): the crate's unit tests hold of the model.

    ** Bounds and fuel

    Only two text loops take fuel: [expand_loop] and [drop_ws] run on the length of
    their input, which each turn shortens, and their theorems are about all
    inputs.  [hex_min] prints at most sixteen digits, all a [u64] has.  A loop of an
    async function is [Iter], with no bound: [Progress.tasks_return] says that they
    end, assuming of the surroundings that the outside answers, that the clock
    passes the deadline of a sleep, and that other tasks use a limiter finitely
    often while one waits for it; the sampler, the supervisors and the server are
    the loops that do not end, and [Progress.bind_retried] says that each attempt of
    a supervisor does if its client does.  The load driver's loops count down, and
    [Drive.drive_ends] bounds all its effects.  A history ([runs], [exec], [during])
    is a finite trace of any length.

    ** Not modelled

    - The codec: framing, sequence numbers, timers, encoding.  It is a dependency;
      what the sources rely on is [Smpp34Laws].
    - The host: executor, asyncio pool, registry and metrics engine, as effects
      with arbitrary answers or as classes ([ScriptRegistry]).  pyo3's argument
      extraction and class plumbing; a value arrives as its Rust type or as the
      exception pyo3 raises ([Py]).
    - YAML: the parser, serde's derived code and the key paths of its failures are
      the class [Serde], whose laws ([SerdeLaws]) say what the derived code accepts;
      the sources' declarations are its arguments.  The writer is a parameter.
      [str::to_lowercase] beyond ASCII is [UnicodeLower].
    - Environment variables that are not UTF-8: [binds_from_env] reads them with
      [std::env::vars], which panics at one; the environment here has none.
    - Logging, and the wording of exceptions and configuration errors where no
      code reads it.
    - Reuse of addresses: an allocation answers with one never given before.  What
      compares addresses ([bind_gone], [esme_gone]) holds an [Arc] to its own, so
      the allocator cannot give that one away meanwhile.
    - Arithmetic on clocks is on unbounded nanoseconds: [Instant] overflows after
      centuries.
    - Of the load harness and the leak check: parsing of arguments, text layout, and
      how many bytes a workload allocates (an arbitrary effect).  [serve] only
      starts the codec's server with the mock.
    - [lib.rs] (a list of modules), the benches, and the tests that compare the
      codec's wire images, open sockets or run Python: they exercise the crate from
      outside. *)

From Stdlib Require Strings.Byte.
From Stdlib Require Export ZArith Lia.
From stdpp Require Export base tactics option list strings gmap numbers.
#[local] Open Scope Z_scope.

(** ** Fallible computations: Rust's [Result] *)

Inductive result (E A : Type) : Type :=
| Ok (a : A)
| Err (e : E).
Arguments Ok {E A} a.
Arguments Err {E A} e.

#[export] Instance result_bind E : MBind (result E) :=
  fun A B f r => match r with Ok a => f a | Err e => Err e end.
#[export] Instance result_ret E : MRet (result E) := fun A a => Ok a.
#[export] Instance result_fmap E : FMap (result E) :=
  fun A B f r => match r with Ok a => Ok (f a) | Err e => Err e end.

(** [Option::ok_or]. *)
Definition ok_or {E A} (e : E) (o : option A) : result E A :=
  match o with Some a => Ok a | None => Err e end.

(** [Option::unwrap_or]. *)
Definition unwrap_or {A} (d : A) (o : option A) : A := default d o.

(** [Option::or]. *)
Definition opt_or {A} (o1 o2 : option A) : option A :=
  match o1 with Some a => Some a | None => o2 end.

(** [Option::is_some]. *)
Definition is_some {A} (o : option A) : bool := match o with Some _ => true | None => false end.

Definition is_ok {E A} (r : result E A) : bool :=
  match r with Ok _ => true | Err _ => false end.

Lemma result_bind_ok {E A B} (f : A -> result E B) (r : result E A) b :
  (r ≫= f) = Ok b <-> exists a, r = Ok a /\ f a = Ok b.
Proof. destruct r; cbn; naive_solver. Qed.

Lemma result_bind_err {E A B} (f : A -> result E B) (r : result E A) e :
  (r ≫= f) = Err e <-> r = Err e \/ exists a, r = Ok a /\ f a = Err e.
Proof. destruct r; cbn; naive_solver. Qed.

Lemma ok_or_ok {E A} (e : E) (o : option A) a : ok_or e o = Ok a <-> o = Some a.
Proof. destruct o; cbn; naive_solver. Qed.

Lemma ok_or_err {E A} (e e' : E) (o : option A) : ok_or e o = Err e' <-> o = None /\ e' = e.
Proof. destruct o; cbn; naive_solver. Qed.

(** ** Machine integers, kept as [Z] with their width written out *)

Definition wrap (w z : Z) : Z := z mod 2 ^ w.
Definition fits (w z : Z) : bool := (0 <=? z) && (z <? 2 ^ w).

Lemma fits_spec w z : fits w z = true <-> 0 <= z < 2 ^ w.
Proof. unfold fits. rewrite andb_true_iff, Z.leb_le, Z.ltb_lt. tauto. Qed.

Lemma wrap_fits w z : 0 <= w -> fits w (wrap w z) = true.
Proof. intros. apply fits_spec, Z.mod_pos_bound. lia. Qed.

Lemma wrap_small w z : fits w z = true -> wrap w z = z.
Proof. intros ?%fits_spec. by apply Z.mod_small. Qed.

(** Rust's checked narrowing [uN::try_from]. *)
Definition try_from (w z : Z) : option Z := if fits w z then Some z else None.

(** ** Bytes *)

Abbreviation byte := Init.Byte.byte.
Abbreviation bytes := (list Init.Byte.byte).

#[export] Instance byte_eq_dec : EqDecision byte := Stdlib.Strings.Byte.byte_eq_dec.

Definition byte_to_Z (b : byte) : Z := Z.of_N (Stdlib.Strings.Byte.to_N b).

(** The truncating cast [z as u8]. *)
Definition byte_of_Z (z : Z) : byte :=
  default Init.Byte.x00 (Stdlib.Strings.Byte.of_N (Z.to_N (wrap 8 z))).

Lemma byte_to_Z_range b : 0 <= byte_to_Z b < 256.
Proof.
  unfold byte_to_Z. pose proof (Stdlib.Strings.Byte.to_N_bounded b). lia.
Qed.

Lemma byte_to_of_Z z : byte_to_Z (byte_of_Z z) = wrap 8 z.
Proof.
  unfold byte_to_Z, byte_of_Z.
  pose proof (Z.mod_pos_bound z (2 ^ 8) ltac:(lia)) as Hr. unfold wrap in *.
  destruct (Stdlib.Strings.Byte.of_N _) as [b|] eqn:E; cbn.
  - apply Stdlib.Strings.Byte.to_of_N in E. rewrite E. lia.
  - apply Stdlib.Strings.Byte.of_N_None_iff in E. lia.
Qed.

Lemma byte_to_Z_inj b1 b2 : byte_to_Z b1 = byte_to_Z b2 -> b1 = b2.
Proof.
  unfold byte_to_Z. intros H%N2Z.inj.
  pose proof (Stdlib.Strings.Byte.of_to_N b1). pose proof (Stdlib.Strings.Byte.of_to_N b2).
  congruence.
Qed.

Lemma byte_of_to_Z b : byte_of_Z (byte_to_Z b) = b.
Proof.
  apply byte_to_Z_inj. rewrite byte_to_of_Z. apply Z.mod_small, byte_to_Z_range.
Qed.

(** [n.to_be_bytes()] of an [8*n]-bit integer, most significant first. *)
Fixpoint be_bytes (n : nat) (z : Z) : bytes :=
  match n with
  | O => []
  | S n => byte_of_Z (Z.shiftr z (8 * Z.of_nat n)) :: be_bytes n z
  end.

(** [from_be_bytes]. *)
Fixpoint be_value (bs : bytes) : Z :=
  match bs with
  | [] => 0
  | b :: bs => byte_to_Z b * 2 ^ (8 * Z.of_nat (length bs)) + be_value bs
  end.

Lemma be_bytes_length n z : length (be_bytes n z) = n.
Proof. induction n; cbn; congruence. Qed.

Lemma be_value_range bs : 0 <= be_value bs < 2 ^ (8 * Z.of_nat (length bs)).
Proof.
  induction bs as [|b bs IH]; cbn [be_value length]; [lia|].
  pose proof (byte_to_Z_range b).
  replace (8 * Z.of_nat (S (length bs))) with (8 + 8 * Z.of_nat (length bs)) by lia.
  rewrite Z.pow_add_r by lia. change (2 ^ 8) with 256. nia.
Qed.

Lemma be_value_bytes n z : be_value (be_bytes n z) = z mod 2 ^ (8 * Z.of_nat n).
Proof.
  induction n as [|n IH]; [by rewrite Z.mod_1_r|].
  cbn [be_bytes be_value]. rewrite be_bytes_length, IH, byte_to_of_Z. unfold wrap.
  rewrite Z.shiftr_div_pow2 by lia.
  replace (8 * Z.of_nat (S n)) with (8 * Z.of_nat n + 8) by lia.
  rewrite Z.pow_add_r by lia.
  rewrite (Z.rem_mul_r z) by lia. lia.
Qed.

Lemma be_bytes_mod n z : be_bytes n z = be_bytes n (z mod 2 ^ (8 * Z.of_nat n)).
Proof.
  assert (forall m, (m <= n)%nat -> be_bytes m z = be_bytes m (z mod 2 ^ (8 * Z.of_nat n)))
    as H; [|by apply H].
  induction m as [|m IH]; intros; [done|]. cbn [be_bytes]. rewrite <-IH by lia. f_equal.
  apply byte_to_Z_inj. rewrite !byte_to_of_Z. unfold wrap. apply Z.bits_inj'. intros i ?.
  destruct (decide (i < 8)).
  - rewrite !Z.mod_pow2_bits_low, !Z.shiftr_spec, Z.mod_pow2_bits_low by lia. done.
  - rewrite !Z.mod_pow2_bits_high by lia. done.
Qed.

Lemma be_bytes_value bs : be_bytes (length bs) (be_value bs) = bs.
Proof.
  induction bs as [|b bs IH]; [done|]. cbn [length be_bytes be_value].
  pose proof (be_value_range bs). f_equal.
  - rewrite Z.shiftr_div_pow2, Z.div_add_l, Z.div_small, Z.add_0_r by lia. apply byte_of_to_Z.
  - by rewrite be_bytes_mod, Z.add_comm, Z_mod_plus_full, Z.mod_small, IH.
Qed.

Lemma be_bytes_drop n m z : (m <= n)%nat -> drop (n - m) (be_bytes n z) = be_bytes m z.
Proof.
  intros. induction n as [|n IH]; [by replace m with 0%nat by lia|].
  destruct (decide (m = S n)) as [->|]; [by rewrite Nat.sub_diag|].
  replace (S n - m)%nat with (S (n - m)) by lia. cbn. apply IH. lia.
Qed.

(** ** Iterators

    [iter().find(p)]: the first element satisfying [p].
    [any], [retain] and [filter] are [existsb] and [List.filter]. *)
Fixpoint iter_find {A} (p : A -> bool) (l : list A) : option A :=
  match l with
  | [] => None
  | x :: l => if p x then Some x else iter_find p l
  end.

Lemma iter_find_some {A} (p : A -> bool) l x :
  iter_find p l = Some x ->
  exists l1 l2, l = l1 ++ x :: l2 /\ p x = true /\ Forall (fun y => p y = false) l1.
Proof.
  induction l as [|y l IH]; cbn; [done|]. destruct (p y) eqn:E.
  - intros [= ->]. by exists [], l.
  - intros (l1 & l2 & -> & ? & ?)%IH. exists (y :: l1), l2. by repeat constructor.
Qed.

Lemma iter_find_none {A} (p : A -> bool) l :
  iter_find p l = None <-> Forall (fun y => p y = false) l.
Proof.
  induction l as [|y l IH]; cbn; [by split|].
  rewrite list.Forall_cons, <-IH. destruct (p y); naive_solver.
Qed.

Lemma iter_find_in {A} (p : A -> bool) l x : iter_find p l = Some x -> x ∈ l /\ p x = true.
Proof. intros (l1 & l2 & -> & ? & _)%iter_find_some. split; [set_solver|done]. Qed.

Lemma iter_find_exists {A} (p : A -> bool) l x :
  x ∈ l -> p x = true -> exists y, iter_find p l = Some y.
Proof.
  intros Hx Hp. destruct (iter_find p l) as [y|] eqn:E; [eauto|].
  apply iter_find_none in E. rewrite list.Forall_forall in E. specialize (E x Hx). congruence.
Qed.

(** [x] is the first element of [l] with [P]. *)
Definition first_such {A} (P : A -> Prop) (l : list A) (x : A) : Prop :=
  exists l1 l2, l = l1 ++ x :: l2 /\ P x /\ Forall (fun y => ~ P y) l1.

Lemma first_such_unique {A} (P : A -> Prop) l x y : first_such P l x -> first_such P l y -> x = y.
Proof.
  intros (l1 & l2 & -> & Hx & Hl1) (l1' & l2' & E & Hy & Hl1'). revert l1' E Hl1'.
  induction l1 as [|z l1 IH]; intros [|z' l1'] E Hl1'; cbn in E; injection E as -> E.
  - done.
  - by apply list.Forall_cons in Hl1' as [? _].
  - by apply list.Forall_cons in Hl1 as [? _].
  - apply list.Forall_cons in Hl1 as [_ Hl1]. apply list.Forall_cons in Hl1' as [_ Hl1']. by eapply IH.
Qed.

Lemma first_such_in {A} (P : A -> Prop) l x : first_such P l x -> x ∈ l.
Proof. intros (l1 & l2 & -> & _). set_solver. Qed.

(** A search by a decidable property finds the first element that has it. *)
Lemma iter_find_cases {A} (P : A -> Prop) `{!forall x, Decision (P x)} l :
  match iter_find (fun x => bool_decide (P x)) l with
  | Some x => first_such P l x
  | None => forall x, x ∈ l -> ~ P x
  end.
Proof.
  destruct (iter_find _ l) as [x|] eqn:E.
  - apply iter_find_some in E as (l1 & l2 & -> & Hx%bool_decide_eq_true & Hl1).
    exists l1, l2. repeat split; try done. eapply list.Forall_impl; [exact Hl1|].
    intros y. apply bool_decide_eq_false.
  - apply iter_find_none in E. rewrite list.Forall_forall in E. intros x Hx.
    by apply (bool_decide_eq_false (P x)), E.
Qed.

Lemma iter_find_app {A} (p : A -> bool) l1 l2 :
  iter_find p (l1 ++ l2) = opt_or (iter_find p l1) (iter_find p l2).
Proof. induction l1 as [|x l1 IH]; cbn; [done|]. by destruct (p x). Qed.

Lemma iter_find_ext {A} (p q : A -> bool) l :
  (forall x, p x = q x) -> iter_find p l = iter_find q l.
Proof. intros H. induction l as [|x l IH]; cbn; [done|]. by rewrite H, IH. Qed.

(** ** Lists *)

Lemma NoDup_snoc {A} (l : list A) x : NoDup (l ++ [x]) <-> NoDup l /\ x ∉ l.
Proof.
  rewrite list.NoDup_app. split.
  - intros (? & Hd & _). split; [done|]. intros Hx. apply (Hd x Hx). left.
  - intros [? Hx]. split; [done|]. split; [|apply NoDup_singleton].
    by intros y Hy ->%list_elem_of_singleton.
Qed.
