(* ===== verification/RustStr.v ===== *)
(** * Rust strings

    Rust's [String] and [&str] are UTF-8 byte sequences.  A [String] held in a
    record is a Rocq [string] (a byte per [ascii]); the text algorithms of the
    sources work on byte positions, so they are written here over [bytes], with
    [of_str] / [to_str] at the boundary.  The file holds the parts of the
    standard library the sources call: [find], [split_once], [strip_prefix],
    [trim], ASCII case mapping, checked slicing, [from_utf8_lossy] and the
    decimal [parse]. *)

From S2P Require Import Prelude.
#[local] Open Scope Z_scope.

Definition of_str (s : string) : bytes := String.list_byte_of_string s.
Definition to_str (b : bytes) : string := String.string_of_list_byte b.

Lemma of_to_str b : of_str (to_str b) = b.
Proof. apply String.list_byte_of_string_of_list_byte. Qed.
Lemma to_of_str s : to_str (of_str s) = s.
Proof. apply String.string_of_list_byte_of_string. Qed.

#[export] Instance of_str_inj : Inj (=) (=) of_str.
Proof. intros s1 s2 E. by rewrite <-(to_of_str s1), E, to_of_str. Qed.
#[export] Instance to_str_inj : Inj (=) (=) to_str.
Proof. intros s1 s2 E. by rewrite <-(of_to_str s1), E, of_to_str. Qed.

Create HintDb str.
Create Rewrite HintDb str.
#[export] Hint Rewrite of_to_str to_of_str : str.

(** ** Byte classes *)

Definition byte_in (lo hi : Z) (b : byte) : bool :=
  (lo <=? byte_to_Z b) && (byte_to_Z b <=? hi).
Definition is_ascii (b : byte) : bool := byte_in 0 127 b.
(** A UTF-8 continuation byte, [10xxxxxx]. *)
Definition is_cont (b : byte) : bool := byte_in 128 191 b.

Definition to_lower (b : byte) : byte :=
  if byte_in 65 90 b then byte_of_Z (byte_to_Z b + 32) else b.
Definition to_upper (b : byte) : byte :=
  if byte_in 97 122 b then byte_of_Z (byte_to_Z b - 32) else b.

(** [str::to_ascii_lowercase], [str::to_ascii_uppercase]. *)
Definition to_ascii_lowercase : bytes -> bytes := map to_lower.
Definition to_ascii_uppercase : bytes -> bytes := map to_upper.

(** ** Searching *)

(** [str::starts_with]. *)
Fixpoint starts_with (needle hay : bytes) : bool :=
  match needle, hay with
  | [], _ => true
  | n :: needle, h :: hay => bool_decide (n = h) && starts_with needle hay
  | _ :: _, [] => false
  end.

(** [str::find]: the byte position of the first occurrence. *)
Fixpoint str_find (needle hay : bytes) : option nat :=
  if starts_with needle hay then Some O
  else match hay with
       | [] => None
       | _ :: hay => S <$> str_find needle hay
       end.

(** [str::strip_prefix]. *)
Definition strip_prefix (p s : bytes) : option bytes :=
  if starts_with p s then Some (drop (length p) s) else None.

(** [str::split_once]. *)
Definition split_once (sep s : bytes) : option (bytes * bytes) :=
  pos ← str_find sep s; Some (take pos s, drop (pos + length sep) s).

(** [str::split] on a one-byte separator. *)
Fixpoint split_on (sep : byte) (s : bytes) : list bytes :=
  match s with
  | [] => [[]]
  | b :: s =>
      if bool_decide (b = sep) then [] :: split_on sep s
      else match split_on sep s with
           | [] => [[b]]
           | w :: ws => (b :: w) :: ws
           end
  end.

Lemma starts_with_spec needle hay :
  starts_with needle hay = true <-> exists rest, hay = needle ++ rest.
Proof.
  revert hay. induction needle as [|n needle IH]; intros [|h hay]; cbn.
  - naive_solver.
  - naive_solver.
  - split; [done|]. intros [? ?]. done.
  - rewrite andb_true_iff, bool_decide_eq_true, IH. naive_solver.
Qed.

Lemma starts_with_app needle rest : starts_with needle (needle ++ rest) = true.
Proof. apply starts_with_spec. eauto. Qed.

Lemma str_find_some needle hay i :
  str_find needle hay = Some i ->
  exists pre post, hay = pre ++ needle ++ post /\ length pre = i.
Proof.
  revert i. induction hay as [|h hay IH]; intros i; cbn.
  - destruct (starts_with _ _) eqn:E; [|done]. intros [= <-].
    apply starts_with_spec in E as [r ->]. by exists [], r.
  - destruct (starts_with _ _) eqn:E.
    + intros [= <-]. apply starts_with_spec in E as [r ->]. by exists [], r.
    + destruct (str_find needle hay) as [j|] eqn:F; [|done]. cbn. intros [= <-].
      destruct (IH _ eq_refl) as (pre & post & -> & <-). by exists (h :: pre), post.
Qed.

(** [find] returns the first occurrence: nothing matches before it. *)
Lemma str_find_first needle hay i j :
  str_find needle hay = Some i -> (j < i)%nat -> starts_with needle (drop j hay) = false.
Proof.
  revert i j. induction hay as [|h hay IH]; intros i j; cbn.
  - destruct (starts_with _ _); [intros [= <-]; lia|done].
  - destruct (starts_with _ _) eqn:E; [intros [= <-]; lia|].
    destruct (str_find needle hay) as [k|] eqn:F; [|done]. cbn. intros [= <-] ?.
    destruct j as [|j]; [done|]. cbn. apply (IH k); [done|lia].
Qed.

Lemma str_find_none needle hay j :
  str_find needle hay = None -> (j <= length hay)%nat -> starts_with needle (drop j hay) = false.
Proof.
  revert j. induction hay as [|h hay IH]; intros j; cbn.
  - destruct (starts_with _ _) eqn:E; [done|]. intros. by destruct j.
  - destruct (starts_with _ _) eqn:E; [done|].
    destruct (str_find needle hay) as [k|] eqn:F; [done|]. intros _ ?.
    destruct j as [|j]; [done|]. apply IH; [done|lia].
Qed.

Lemma str_find_bound needle hay i :
  str_find needle hay = Some i -> (i + length needle <= length hay)%nat.
Proof.
  intros (pre & post & -> & <-)%str_find_some. rewrite !length_app. lia.
Qed.

Lemma str_find_app_skip needle pre rest :
  (forall j, (j < length pre)%nat -> starts_with needle (drop j (pre ++ rest)) = false) ->
  str_find needle (pre ++ rest) = (fun i => (length pre + i)%nat) <$> str_find needle rest.
Proof.
  induction pre as [|b pre IH]; intros H; cbn [app].
  - cbn. by destruct (str_find needle rest).
  - cbn [str_find]. pose proof (H 0%nat ltac:(cbn; lia)) as H0. cbn in H0. rewrite H0.
    rewrite IH.
    + destruct (str_find needle rest); done.
    + intros j Hj. apply (H (S j)). cbn. lia.
Qed.

Lemma str_find_here needle rest : str_find needle (needle ++ rest) = Some O.
Proof. destruct (needle ++ rest) eqn:E; cbn; rewrite <-E, starts_with_app; done. Qed.

(** ** Checked slicing

    [s[i..j]] panics when the range is not ordered, runs past the end or cuts a
    character; a panic is [None]. *)

Definition is_char_boundary (s : bytes) (i : nat) : bool :=
  (i =? 0)%nat || (i =? length s)%nat ||
  match s !! i with Some b => negb (is_cont b) | None => false end.

Definition slice (s : bytes) (i j : nat) : option bytes :=
  if (i <=? j)%nat && (j <=? length s)%nat && is_char_boundary s i && is_char_boundary s j
  then Some (take (j - i) (drop i s)) else None.

(** ** Well-formed UTF-8, as far as byte positions need it

    A sequence of characters: an ASCII byte alone, or a non-ASCII lead byte
    followed by continuation bytes. *)

Inductive utf8 : bytes -> Prop :=
| utf8_nil : utf8 []
| utf8_ascii b s : is_ascii b = true -> utf8 s -> utf8 (b :: s)
| utf8_multi b cs s :
    is_ascii b = false -> is_cont b = false -> forallb is_cont cs = true ->
    utf8 s -> utf8 (b :: cs ++ s).
#[export] Hint Constructors utf8 : str.

(** ** [String::from_utf8_lossy]

    Each maximal ill-formed subsequence becomes U+FFFD. *)

Definition replacement : bytes :=
  [byte_of_Z 239; byte_of_Z 191; byte_of_Z 189].

(** The admissible second bytes after a three- or four-byte lead. *)
Definition second_ok3 (b0 b1 : byte) : bool :=
  if byte_in 224 224 b0 then byte_in 160 191 b1
  else if byte_in 237 237 b0 then byte_in 128 159 b1
  else byte_in 128 191 b1.
Definition second_ok4 (b0 b1 : byte) : bool :=
  if byte_in 240 240 b0 then byte_in 144 191 b1
  else if byte_in 244 244 b0 then byte_in 128 143 b1
  else byte_in 128 191 b1.

Fixpoint from_utf8_lossy (s : bytes) : bytes :=
  match s with
  | [] => []
  | b0 :: r0 =>
      if is_ascii b0 then b0 :: from_utf8_lossy r0
      else if byte_in 194 223 b0 then
        match r0 with
        | b1 :: r1 =>
            if is_cont b1 then b0 :: b1 :: from_utf8_lossy r1
            else replacement ++ from_utf8_lossy r0
        | [] => replacement
        end
      else if byte_in 224 239 b0 then
        match r0 with
        | b1 :: r1 =>
            if second_ok3 b0 b1 then
              match r1 with
              | b2 :: r2 =>
                  if is_cont b2 then b0 :: b1 :: b2 :: from_utf8_lossy r2
                  else replacement ++ from_utf8_lossy r1
              | [] => replacement
              end
            else replacement ++ from_utf8_lossy r0
        | [] => replacement
        end
      else if byte_in 240 244 b0 then
        match r0 with
        | b1 :: r1 =>
            if second_ok4 b0 b1 then
              match r1 with
              | b2 :: r2 =>
                  if is_cont b2 then
                    match r2 with
                    | b3 :: r3 =>
                        if is_cont b3 then b0 :: b1 :: b2 :: b3 :: from_utf8_lossy r3
                        else replacement ++ from_utf8_lossy r2
                    | [] => replacement
                    end
                  else replacement ++ from_utf8_lossy r1
              | [] => replacement
              end
            else replacement ++ from_utf8_lossy r0
        | [] => replacement
        end
      else replacement ++ from_utf8_lossy r0
  end.

(** Decide byte-range conditions by arithmetic on the byte's value. *)
Ltac byte_range :=
  repeat match goal with
         | H : context [byte_in _ _ _ = _] |- _ => unfold byte_in in H
         | H : is_ascii _ = _ |- _ => unfold is_ascii, byte_in in H
         | H : is_cont _ = _ |- _ => unfold is_cont, byte_in in H
         | H : second_ok3 _ _ = _ |- _ => unfold second_ok3, byte_in in H
         | H : second_ok4 _ _ = _ |- _ => unfold second_ok4, byte_in in H
         end;
  unfold is_ascii, is_cont, byte_in in *;
  repeat match goal with b : byte |- _ =>
    lazymatch goal with
    | _ : 0 <= byte_to_Z b < 256 |- _ => fail
    | _ => pose proof (byte_to_Z_range b)
    end
  end;
  repeat case_match; lia.

Lemma utf8_app s1 s2 : utf8 s1 -> utf8 s2 -> utf8 (s1 ++ s2).
Proof.
  induction 1; intros ?; cbn; [done| |].
  - apply utf8_ascii; auto.
  - rewrite <-app_assoc. apply utf8_multi; auto.
Qed.

Lemma utf8_replacement : utf8 replacement.
Proof. apply (utf8_multi _ [_; _] []); try done. constructor. Qed.
#[export] Hint Resolve utf8_app utf8_replacement : str.

Lemma second_ok3_cont b0 b1 : second_ok3 b0 b1 = true -> is_cont b1 = true.
Proof. intros. byte_range. Qed.
Lemma second_ok4_cont b0 b1 : second_ok4 b0 b1 = true -> is_cont b1 = true.
Proof. intros. byte_range. Qed.

Lemma utf8_lead lo hi b cs s :
  192 <= lo -> byte_in lo hi b = true -> forallb is_cont cs = true ->
  utf8 s -> utf8 (b :: cs ++ s).
Proof. intros. apply utf8_multi; [byte_range|byte_range|done|done]. Qed.

(** What [from_utf8_lossy] produces is a sequence of whole characters. *)
Lemma from_utf8_lossy_utf8 s : utf8 (from_utf8_lossy s).
Proof.
  remember (length s) as n eqn:Hn. revert s Hn.
  induction n as [n IH] using lt_wf_ind; intros s ->.
  assert (forall t, (length t < length s)%nat -> utf8 (from_utf8_lossy t)) as IH'
    by (intros; eapply IH; eauto). clear IH.
  destruct s as [|b0 r0]; cbn -[replacement]; [constructor|].
  cbn in IH'.
  repeat case_match; subst; cbn [length] in IH'; try (apply utf8_app; [apply utf8_replacement|apply IH'; cbn; lia]);
    try apply utf8_replacement.
  - apply utf8_ascii; [done|apply IH'; lia].
  - eapply (utf8_lead _ _ _ [_]); [|eassumption|cbn; by rewrite andb_true_r|apply IH'; lia]; lia.
  - eapply (utf8_lead _ _ _ [_; _]); [|eassumption| |apply IH'; lia]; [lia|].
    cbn. erewrite second_ok3_cont by eassumption. cbn. by rewrite andb_true_r.
  - eapply (utf8_lead _ _ _ [_; _; _]); [|eassumption| |apply IH'; lia]; [lia|].
    cbn. erewrite second_ok4_cont by eassumption. cbn. by rewrite andb_true_r, andb_true_iff.
Qed.

Lemma utf8_head_not_cont b s : utf8 (b :: s) -> is_cont b = false.
Proof. inversion 1; subst; [byte_range|done]. Qed.

(** In well-formed text a byte that follows an ASCII byte starts a character,
    and so does every ASCII byte: cutting next to ASCII never panics. *)
Lemma utf8_after_ascii s1 b s2 : utf8 (s1 ++ b :: s2) -> is_ascii b = true -> utf8 s2.
Proof.
  intros H Hb. remember (s1 ++ b :: s2) as s eqn:E. revert s1 E.
  induction H as [|c s Hc Hs IH|c cs s Hc Hc' Hcs Hs IH]; intros s1 E.
  - by destruct s1.
  - destruct s1 as [|c' s1]; cbn in E; injection E as -> ->; [done|]. by eapply IH.
  - destruct s1 as [|c' s1]; cbn in E; injection E as -> E; [congruence|].
    apply app_eq_inv in E as [(k & -> & E)|(k & -> & E)].
    + destruct k as [|c'' k]; cbn in E; [by apply (IH [])|].
      injection E as <- _.
      rewrite forallb_app in Hcs. cbn in Hcs. exfalso.
      assert (is_cont b = true) by (destruct (forallb _ s1), (is_cont b); done).
      byte_range.
    + by eapply IH.
Qed.

Lemma boundary_ascii s i b :
  s !! i = Some b -> is_ascii b = true -> is_char_boundary s i = true.
Proof.
  intros E ?. unfold is_char_boundary. rewrite E.
  assert (is_cont b = false) as -> by byte_range. cbn. apply orb_true_r.
Qed.

Lemma boundary_after_ascii s i b :
  utf8 s -> s !! i = Some b -> is_ascii b = true -> is_char_boundary s (S i) = true.
Proof.
  intros Hs E Hb. unfold is_char_boundary.
  destruct (s !! S i) as [c|] eqn:E'.
  - apply orb_true_intro. right. apply negb_true_iff, (utf8_head_not_cont c (drop (S (S i)) s)).
    apply (utf8_after_ascii (take i s) b); [|done].
    by rewrite <-(drop_S _ _ _ E'), <-(drop_S _ _ _ E), take_drop.
  - apply orb_true_intro. left. apply orb_true_intro. right. apply Nat.eqb_eq.
    apply lookup_ge_None in E'. apply lookup_lt_Some in E. lia.
Qed.

(** ** [str::trim]

    [ws_len s] is the length of the Unicode [White_Space] character at the start
    of [s], 0 when there is none; [ws_len_rev] reads the same characters from
    the end of a reversed string. *)

Definition is_ascii_ws (b : byte) : bool := byte_in 9 13 b || byte_in 32 32 b.
(** U+0085, U+00A0. *)
Definition is_ws2 (b0 b1 : byte) : bool :=
  byte_in 194 194 b0 && (byte_in 133 133 b1 || byte_in 160 160 b1).
(** U+1680, U+2000-200A, U+2028, U+2029, U+202F, U+205F, U+3000. *)
Definition is_ws3 (b0 b1 b2 : byte) : bool :=
  (byte_in 225 225 b0 && byte_in 154 154 b1 && byte_in 128 128 b2)
  || (byte_in 226 226 b0 && byte_in 128 128 b1
      && (byte_in 128 138 b2 || byte_in 168 169 b2 || byte_in 175 175 b2))
  || (byte_in 226 226 b0 && byte_in 129 129 b1 && byte_in 159 159 b2)
  || (byte_in 227 227 b0 && byte_in 128 128 b1 && byte_in 128 128 b2).

Definition ws_len (s : bytes) : nat :=
  match s with
  | b0 :: r =>
      if is_ascii_ws b0 then 1
      else match r with
           | b1 :: r =>
               if is_ws2 b0 b1 then 2
               else match r with
                    | b2 :: _ => if is_ws3 b0 b1 b2 then 3 else 0
                    | [] => 0
                    end
           | [] => 0
           end
  | [] => 0
  end%nat.

Definition ws_len_rev (s : bytes) : nat :=
  match s with
  | b0 :: r =>
      if is_ascii_ws b0 then 1
      else match r with
           | b1 :: r =>
               if is_ws2 b1 b0 then 2
               else match r with
                    | b2 :: _ => if is_ws3 b2 b1 b0 then 3 else 0
                    | [] => 0
                    end
           | [] => 0
           end
  | [] => 0
  end%nat.

(** Drop leading characters while [len] measures one; each drop shortens the
    string, so the length is fuel enough. *)
Fixpoint drop_ws (len : bytes -> nat) (fuel : nat) (s : bytes) : bytes :=
  match fuel with
  | O => s
  | S fuel => if (len s =? 0)%nat then s else drop_ws len fuel (drop (len s) s)
  end.

Definition trim_start (s : bytes) : bytes := drop_ws ws_len (length s) s.
Definition trim_end (s : bytes) : bytes := rev (drop_ws ws_len_rev (length s) (rev s)).
Definition trim (s : bytes) : bytes := trim_end (trim_start s).

(** Text with no leading and no trailing white space. *)
Definition trimmed (s : bytes) : bool := (ws_len s =? 0)%nat && (ws_len_rev (rev s) =? 0)%nat.

Lemma drop_ws_id len fuel s : len s = O -> drop_ws len fuel s = s.
Proof. destruct fuel; cbn; [done|]. by intros ->. Qed.

Lemma trim_trimmed s : trimmed s = true -> trim s = s.
Proof.
  unfold trimmed. intros [H1%Nat.eqb_eq H2%Nat.eqb_eq]%andb_true_iff.
  unfold trim, trim_end, trim_start.
  rewrite (drop_ws_id ws_len) by done. rewrite drop_ws_id by done. apply rev_involutive.
Qed.

Lemma drop_ws_space len fuel s n :
  (forall t, len (byte_of_Z 32 :: t) = 1%nat) -> (n <= fuel)%nat ->
  drop_ws len fuel (replicate n (byte_of_Z 32) ++ s) = drop_ws len (fuel - n) s.
Proof.
  intros Hl. revert fuel. induction n as [|n IH]; intros fuel ?; cbn [replicate app].
  - by rewrite Nat.sub_0_r.
  - destruct fuel as [|fuel]; [lia|]. cbn. rewrite Hl. cbn. apply IH. lia.
Qed.

(** ** [str::parse] for unsigned integers of [w] bits

    An optional [+], then at least one decimal digit, nothing else, and no
    overflow. *)

Definition digit (b : byte) : option Z :=
  if byte_in 48 57 b then Some (byte_to_Z b - 48) else None.

Fixpoint parse_digits (w acc : Z) (s : bytes) : option Z :=
  match s with
  | [] => Some acc
  | b :: s => d ← digit b; acc' ← try_from w (acc * 10 + d); parse_digits w acc' s
  end.

Definition parse_uint (w : Z) (s : bytes) : option Z :=
  let s := default s (strip_prefix (of_str "+") s) in
  match s with [] => None | _ => parse_digits w 0 s end.

Lemma parse_digits_fits w acc s v :
  fits w acc = true -> parse_digits w acc s = Some v -> fits w v = true.
Proof.
  revert acc. induction s as [|b s IH]; cbn; intros acc Ha; [by intros [= <-]|].
  destruct (digit b) as [d|]; [|done]. cbn. unfold try_from.
  destruct (fits w (acc * 10 + d)) eqn:E; [|done]. cbn. by apply IH.
Qed.

Lemma parse_uint_fits w s v : 0 <= w -> parse_uint w s = Some v -> fits w v = true.
Proof.
  unfold parse_uint. intros Hw H. destruct (default _ _); [done|].
  eapply parse_digits_fits; [|exact H]. apply fits_spec. lia.
Qed.

(** ** Hexadecimal formatting: [{:0nX}] of a value below [16 ^ n] *)

Definition hex_digit (z : Z) : byte :=
  if z <? 10 then byte_of_Z (48 + z) else byte_of_Z (55 + z).

Fixpoint hex_digits (n : nat) (z : Z) : bytes :=
  match n with
  | O => []
  | S n => hex_digit (z / 16 ^ Z.of_nat n mod 16) :: hex_digits n z
  end.

(** [format!("0x{z:0nX}")]. *)
Definition hex_literal (n : nat) (z : Z) : string := to_str (of_str "0x" ++ hex_digits n z).

Lemma hex_digits_length n z : length (hex_digits n z) = n.
Proof. induction n; cbn; congruence. Qed.

Lemma hex_digit_inj z1 z2 :
  0 <= z1 < 16 -> 0 <= z2 < 16 -> hex_digit z1 = hex_digit z2 -> z1 = z2.
Proof.
  intros H1 H2 E%(f_equal byte_to_Z). revert E. unfold hex_digit.
  repeat case_match; rewrite !byte_to_of_Z; unfold wrap; rewrite !Z.mod_small by lia; lia.
Qed.

Lemma hex_digits_inj n z1 z2 :
  0 <= z1 < 16 ^ Z.of_nat n -> 0 <= z2 < 16 ^ Z.of_nat n ->
  hex_digits n z1 = hex_digits n z2 -> z1 = z2.
Proof.
  intros H1 H2 E.
  assert (z1 mod 16 ^ Z.of_nat n = z2 mod 16 ^ Z.of_nat n) as Em;
    [|rewrite !Z.mod_small in Em by done; done].
  clear H1 H2. induction n as [|n IH]; [by rewrite !Z.mod_1_r|].
  cbn [hex_digits] in E. injection E as Eh Et.
  apply hex_digit_inj in Eh; [|apply Z.mod_pos_bound; lia..].
  replace (Z.of_nat (S n)) with (Z.of_nat n + 1) by lia.
  rewrite Z.pow_add_r by lia. rewrite !(Z.rem_mul_r _ (16 ^ Z.of_nat n)) by lia.
  change (16 ^ 1) with 16. rewrite (IH Et). lia.
Qed.

Lemma hex_literal_inj n z1 z2 :
  0 <= z1 < 16 ^ Z.of_nat n -> 0 <= z2 < 16 ^ Z.of_nat n ->
  hex_literal n z1 = hex_literal n z2 -> z1 = z2.
Proof.
  intros ?? E. apply (inj to_str), (inj (of_str "0x" ++.)) in E. by eapply hex_digits_inj.
Qed.

(** ** [Debug] *)

(** [{:?}] of a string, for ASCII text (text beyond ASCII is shown as it is). *)
Definition debug_char (b : byte) : bytes :=
  let z := byte_to_Z b in
  let esc s := byte_of_Z 92 :: s in
  if (z =? 34) || (z =? 92) then esc [b]
  else if z =? 0 then esc (of_str "0")
  else if z =? 9 then esc (of_str "t")
  else if z =? 10 then esc (of_str "n")
  else if z =? 13 then esc (of_str "r")
  else if z <? 16 then esc (of_str "u{" ++ to_ascii_lowercase (hex_digits 1 z) ++ of_str "}")
  else if (z <? 32) || (z =? 127)
  then esc (of_str "u{" ++ to_ascii_lowercase (hex_digits 2 z) ++ of_str "}")
  else [b].
Definition debug_str (s : string) : string :=
  to_str (byte_of_Z 34 :: concat (map debug_char (of_str s)) ++ [byte_of_Z 34]).
Definition debug_opt {A} (debug : A -> string) (o : option A) : string :=
  match o with Some a => "Some(" +:+ debug a +:+ ")" | None => "None" end.
