(* ===== verification/Py.v ===== *)
(** * Python values and exceptions at the script boundary

    What pyo3 hands the Rust code (a value with its Python type) and what the
    Rust code raises: the exception class with the data its message is built
    from.  Message wording is not modelled. *)

From S2P Require Import Prelude.
#[local] Open Scope Z_scope.

(** A Python value as the casts of [tlv.rs] tell values apart.  A [str] carries
    its UTF-8 text, or nothing when it holds lone surrogates and [to_cow]
    raises.  [bool] is a subclass of [int]. *)
Inductive PyObj : Type :=
| PyNone
| PyBytes (b : bytes)
| PyByteArray (b : bytes)
| PyStr (s : option string)
| PyInt (z : Z)
| PyBool (b : bool)
| PyOther (type_name : string).

#[export] Instance PyObj_eq_dec : EqDecision PyObj.
Proof. solve_decision. Defined.

(** The failures raised as [ValueError], with the values they report. *)
Inductive ValueMsg : Type :=
| UnknownTlvName (name : string)
| TlvTagOutOfRange (raw : Z)
| TlvValueNegative (tag : string)
| TlvNotIntegerTyped (tag : string)
| TlvValueTooWide (tag : string) (raw : Z) (width : nat)
| TlvGivenTwice (tag : string)
| UnknownStatus (status : string)
| ReplyTlvsUnsupported (command : string)
| ShortMessageTooLong (command : string) (len : nat) (payload_available : bool)
| BodyGivenTwice (command : string)
| TooManyDestinations (n : nat).

Inductive TypeMsg : Type :=
| TlvKeyType (type_name : string)
| TlvValueType (tag type_name : string).

Inductive RuntimeMsg : Type :=
| RuntimeNotStarted
| SessionCannotReceive (session_id command : string).

Inductive KeyMsg : Type :=
| BindNotBound (bind : string)
| EsmeNotBound (session_id : string).

(** [outcome.rs]'s [SendErrorValue]: the message and attributes of a raised
    [SmppSendError]. *)
Record SendErrorValue : Type := {
  se_message : string;
  se_reason : string;
  se_command : string;
  se_status : option (string * Z);
}.

Inductive PyErr : Type :=
| ValueError (m : ValueMsg)
| TypeError (m : TypeMsg)
| KeyError (m : KeyMsg)
| RuntimeError (m : RuntimeMsg)
| SmppSendError (e : SendErrorValue)
| UnicodeEncodeError
| OverflowError
| ScriptException (text : string).
