(* ===== verification/Status.v ===== *)
(** * Command statuses

    [SmppError] (the codec's [command_status] enum, as far as the sources name
    it) with its numeric values and printed names (Table 5-2, which
    [outcome.rs] copies from the specification), and the two conversions scripts
    rely on: a status name read from a script ([parse_smpp_status]) and a wire
    status shown to one ([status_name]). *)

From S2P Require Import Prelude RustStr Py.
#[local] Open Scope Z_scope.

Inductive SmppError : Set :=
| ESME_ROK
| ESME_RINVMSGLEN
| ESME_RINVCMDLEN
| ESME_RINVCMDID
| ESME_RINVBNDSTS
| ESME_RALYBND
| ESME_RINVPRTFLG
| ESME_RINVREGDLVFLG
| ESME_RSYSERR
| ESME_RINVSRCADR
| ESME_RINVDSTADR
| ESME_RINVMSGID
| ESME_RBINDFAIL
| ESME_RINVPASWD
| ESME_RINVSYSID
| ESME_RCANCELFAIL
| ESME_RREPLACEFAIL
| ESME_RMSGQFUL
| ESME_RINVSERTYP
| ESME_RINVNUMDESTS
| ESME_RINVDLNAME
| ESME_RINVDESTFLAG
| ESME_RINVSUBREP
| ESME_RINVESMCLASS
| ESME_RCNTSUBDL
| ESME_RSUBMITFAIL
| ESME_RINVSRCTON
| ESME_RINVSRCNPI
| ESME_RINVDSTTON
| ESME_RINVDSTNPI
| ESME_RINVSYSTYP
| ESME_RINVREPFLAG
| ESME_RINVNUMMSGS
| ESME_RTHROTTLED
| ESME_RINVSCHED
| ESME_RINVEXPIRY
| ESME_RINVDFTMSGID
| ESME_RX_T_APPN
| ESME_RX_P_APPN
| ESME_RX_R_APPN
| ESME_RQUERYFAIL
| ESME_RINVOPTPARSTREAM
| ESME_ROPTPARNOTALLWD
| ESME_RINVPARLEN
| ESME_RMISSINGOPTPARAM
| ESME_RINVOPTPARAMVAL
| ESME_RDELIVERYFAILURE
| ESME_RUNKNOWNERR.

#[export] Instance SmppError_eq_dec : EqDecision SmppError.
Proof. solve_decision. Defined.

(** The discriminants: [e as u32]. *)
Definition error_code (e : SmppError) : Z :=
  match e with
  | ESME_ROK => 0x00000000
  | ESME_RINVMSGLEN => 0x00000001
  | ESME_RINVCMDLEN => 0x00000002
  | ESME_RINVCMDID => 0x00000003
  | ESME_RINVBNDSTS => 0x00000004
  | ESME_RALYBND => 0x00000005
  | ESME_RINVPRTFLG => 0x00000006
  | ESME_RINVREGDLVFLG => 0x00000007
  | ESME_RSYSERR => 0x00000008
  | ESME_RINVSRCADR => 0x0000000A
  | ESME_RINVDSTADR => 0x0000000B
  | ESME_RINVMSGID => 0x0000000C
  | ESME_RBINDFAIL => 0x0000000D
  | ESME_RINVPASWD => 0x0000000E
  | ESME_RINVSYSID => 0x0000000F
  | ESME_RCANCELFAIL => 0x00000011
  | ESME_RREPLACEFAIL => 0x00000013
  | ESME_RMSGQFUL => 0x00000014
  | ESME_RINVSERTYP => 0x00000015
  | ESME_RINVNUMDESTS => 0x00000033
  | ESME_RINVDLNAME => 0x00000034
  | ESME_RINVDESTFLAG => 0x00000040
  | ESME_RINVSUBREP => 0x00000042
  | ESME_RINVESMCLASS => 0x00000043
  | ESME_RCNTSUBDL => 0x00000044
  | ESME_RSUBMITFAIL => 0x00000045
  | ESME_RINVSRCTON => 0x00000048
  | ESME_RINVSRCNPI => 0x00000049
  | ESME_RINVDSTTON => 0x00000050
  | ESME_RINVDSTNPI => 0x00000051
  | ESME_RINVSYSTYP => 0x00000053
  | ESME_RINVREPFLAG => 0x00000054
  | ESME_RINVNUMMSGS => 0x00000055
  | ESME_RTHROTTLED => 0x00000058
  | ESME_RINVSCHED => 0x00000061
  | ESME_RINVEXPIRY => 0x00000062
  | ESME_RINVDFTMSGID => 0x00000063
  | ESME_RX_T_APPN => 0x00000064
  | ESME_RX_P_APPN => 0x00000065
  | ESME_RX_R_APPN => 0x00000066
  | ESME_RQUERYFAIL => 0x00000067
  | ESME_RINVOPTPARSTREAM => 0x000000C0
  | ESME_ROPTPARNOTALLWD => 0x000000C1
  | ESME_RINVPARLEN => 0x000000C2
  | ESME_RMISSINGOPTPARAM => 0x000000C3
  | ESME_RINVOPTPARAMVAL => 0x000000C4
  | ESME_RDELIVERYFAILURE => 0x000000FE
  | ESME_RUNKNOWNERR => 0x000000FF
  end.

(** The derived [Debug] text, the variant's own name. *)
Definition debug_name (e : SmppError) : string :=
  match e with
  | ESME_ROK => "ESME_ROK"
  | ESME_RINVMSGLEN => "ESME_RINVMSGLEN"
  | ESME_RINVCMDLEN => "ESME_RINVCMDLEN"
  | ESME_RINVCMDID => "ESME_RINVCMDID"
  | ESME_RINVBNDSTS => "ESME_RINVBNDSTS"
  | ESME_RALYBND => "ESME_RALYBND"
  | ESME_RINVPRTFLG => "ESME_RINVPRTFLG"
  | ESME_RINVREGDLVFLG => "ESME_RINVREGDLVFLG"
  | ESME_RSYSERR => "ESME_RSYSERR"
  | ESME_RINVSRCADR => "ESME_RINVSRCADR"
  | ESME_RINVDSTADR => "ESME_RINVDSTADR"
  | ESME_RINVMSGID => "ESME_RINVMSGID"
  | ESME_RBINDFAIL => "ESME_RBINDFAIL"
  | ESME_RINVPASWD => "ESME_RINVPASWD"
  | ESME_RINVSYSID => "ESME_RINVSYSID"
  | ESME_RCANCELFAIL => "ESME_RCANCELFAIL"
  | ESME_RREPLACEFAIL => "ESME_RREPLACEFAIL"
  | ESME_RMSGQFUL => "ESME_RMSGQFUL"
  | ESME_RINVSERTYP => "ESME_RINVSERTYP"
  | ESME_RINVNUMDESTS => "ESME_RINVNUMDESTS"
  | ESME_RINVDLNAME => "ESME_RINVDLNAME"
  | ESME_RINVDESTFLAG => "ESME_RINVDESTFLAG"
  | ESME_RINVSUBREP => "ESME_RINVSUBREP"
  | ESME_RINVESMCLASS => "ESME_RINVESMCLASS"
  | ESME_RCNTSUBDL => "ESME_RCNTSUBDL"
  | ESME_RSUBMITFAIL => "ESME_RSUBMITFAIL"
  | ESME_RINVSRCTON => "ESME_RINVSRCTON"
  | ESME_RINVSRCNPI => "ESME_RINVSRCNPI"
  | ESME_RINVDSTTON => "ESME_RINVDSTTON"
  | ESME_RINVDSTNPI => "ESME_RINVDSTNPI"
  | ESME_RINVSYSTYP => "ESME_RINVSYSTYP"
  | ESME_RINVREPFLAG => "ESME_RINVREPFLAG"
  | ESME_RINVNUMMSGS => "ESME_RINVNUMMSGS"
  | ESME_RTHROTTLED => "ESME_RTHROTTLED"
  | ESME_RINVSCHED => "ESME_RINVSCHED"
  | ESME_RINVEXPIRY => "ESME_RINVEXPIRY"
  | ESME_RINVDFTMSGID => "ESME_RINVDFTMSGID"
  | ESME_RX_T_APPN => "ESME_RX_T_APPN"
  | ESME_RX_P_APPN => "ESME_RX_P_APPN"
  | ESME_RX_R_APPN => "ESME_RX_R_APPN"
  | ESME_RQUERYFAIL => "ESME_RQUERYFAIL"
  | ESME_RINVOPTPARSTREAM => "ESME_RINVOPTPARSTREAM"
  | ESME_ROPTPARNOTALLWD => "ESME_ROPTPARNOTALLWD"
  | ESME_RINVPARLEN => "ESME_RINVPARLEN"
  | ESME_RMISSINGOPTPARAM => "ESME_RMISSINGOPTPARAM"
  | ESME_RINVOPTPARAMVAL => "ESME_RINVOPTPARAMVAL"
  | ESME_RDELIVERYFAILURE => "ESME_RDELIVERYFAILURE"
  | ESME_RUNKNOWNERR => "ESME_RUNKNOWNERR"
  end.

Definition all_errors : list SmppError :=
  [ESME_ROK;
   ESME_RINVMSGLEN;
   ESME_RINVCMDLEN;
   ESME_RINVCMDID;
   ESME_RINVBNDSTS;
   ESME_RALYBND;
   ESME_RINVPRTFLG;
   ESME_RINVREGDLVFLG;
   ESME_RSYSERR;
   ESME_RINVSRCADR;
   ESME_RINVDSTADR;
   ESME_RINVMSGID;
   ESME_RBINDFAIL;
   ESME_RINVPASWD;
   ESME_RINVSYSID;
   ESME_RCANCELFAIL;
   ESME_RREPLACEFAIL;
   ESME_RMSGQFUL;
   ESME_RINVSERTYP;
   ESME_RINVNUMDESTS;
   ESME_RINVDLNAME;
   ESME_RINVDESTFLAG;
   ESME_RINVSUBREP;
   ESME_RINVESMCLASS;
   ESME_RCNTSUBDL;
   ESME_RSUBMITFAIL;
   ESME_RINVSRCTON;
   ESME_RINVSRCNPI;
   ESME_RINVDSTTON;
   ESME_RINVDSTNPI;
   ESME_RINVSYSTYP;
   ESME_RINVREPFLAG;
   ESME_RINVNUMMSGS;
   ESME_RTHROTTLED;
   ESME_RINVSCHED;
   ESME_RINVEXPIRY;
   ESME_RINVDFTMSGID;
   ESME_RX_T_APPN;
   ESME_RX_P_APPN;
   ESME_RX_R_APPN;
   ESME_RQUERYFAIL;
   ESME_RINVOPTPARSTREAM;
   ESME_ROPTPARNOTALLWD;
   ESME_RINVPARLEN;
   ESME_RMISSINGOPTPARAM;
   ESME_RINVOPTPARAMVAL;
   ESME_RDELIVERYFAILURE;
   ESME_RUNKNOWNERR].

(** ** [parse_smpp_status]

    Each arm of the [match] in turn; an unknown spelling is a [ValueError]. *)
Definition parse_smpp_status (s : string) : result PyErr SmppError :=
  if String.eqb s "ESME_ROK" then Ok ESME_ROK else
  if String.eqb s "ESME_RINVMSGLEN" then Ok ESME_RINVMSGLEN else
  if String.eqb s "ESME_RINVCMDLEN" then Ok ESME_RINVCMDLEN else
  if String.eqb s "ESME_RINVCMDID" then Ok ESME_RINVCMDID else
  if String.eqb s "ESME_RINVBNDSTS" then Ok ESME_RINVBNDSTS else
  if String.eqb s "ESME_RALYBND" then Ok ESME_RALYBND else
  if String.eqb s "ESME_RINVPRTFLG" then Ok ESME_RINVPRTFLG else
  if String.eqb s "ESME_RINVREGDLVFLG" then Ok ESME_RINVREGDLVFLG else
  if String.eqb s "ESME_RSYSERR" then Ok ESME_RSYSERR else
  if String.eqb s "ESME_RINVSRCADR" then Ok ESME_RINVSRCADR else
  if String.eqb s "ESME_RINVDSTADR" then Ok ESME_RINVDSTADR else
  if String.eqb s "ESME_RINVMSGID" then Ok ESME_RINVMSGID else
  if String.eqb s "ESME_RBINDFAIL" then Ok ESME_RBINDFAIL else
  if String.eqb s "ESME_RINVPASWD" then Ok ESME_RINVPASWD else
  if String.eqb s "ESME_RINVSYSID" then Ok ESME_RINVSYSID else
  if String.eqb s "ESME_RCANCELFAIL" then Ok ESME_RCANCELFAIL else
  if String.eqb s "ESME_RREPLACEFAIL" then Ok ESME_RREPLACEFAIL else
  if String.eqb s "ESME_RMSGQFUL" then Ok ESME_RMSGQFUL else
  if String.eqb s "ESME_RINVSERTYP" then Ok ESME_RINVSERTYP else
  if String.eqb s "ESME_RINVNUMDESTS" then Ok ESME_RINVNUMDESTS else
  if String.eqb s "ESME_RINVDLNAME" then Ok ESME_RINVDLNAME else
  if String.eqb s "ESME_RINVDESTFLAG" then Ok ESME_RINVDESTFLAG else
  if String.eqb s "ESME_RINVSUBREP" then Ok ESME_RINVSUBREP else
  if String.eqb s "ESME_RINVESMCLASS" then Ok ESME_RINVESMCLASS else
  if String.eqb s "ESME_RCNTSUBDL" then Ok ESME_RCNTSUBDL else
  if String.eqb s "ESME_RSUBMITFAIL" then Ok ESME_RSUBMITFAIL else
  if String.eqb s "ESME_RINVSRCTON" then Ok ESME_RINVSRCTON else
  if String.eqb s "ESME_RINVSRCNPI" then Ok ESME_RINVSRCNPI else
  if String.eqb s "ESME_RINVDSTTON" then Ok ESME_RINVDSTTON else
  if String.eqb s "ESME_RINVDSTNPI" then Ok ESME_RINVDSTNPI else
  if String.eqb s "ESME_RINVSYSTYP" then Ok ESME_RINVSYSTYP else
  if String.eqb s "ESME_RINVREPFLAG" then Ok ESME_RINVREPFLAG else
  if String.eqb s "ESME_RINVNUMMSGS" then Ok ESME_RINVNUMMSGS else
  if String.eqb s "ESME_RTHROTTLED" then Ok ESME_RTHROTTLED else
  if String.eqb s "ESME_RINVSCHED" then Ok ESME_RINVSCHED else
  if String.eqb s "ESME_RINVEXPIRY" then Ok ESME_RINVEXPIRY else
  if String.eqb s "ESME_RINVDFTMSGID" then Ok ESME_RINVDFTMSGID else
  if String.eqb s "ESME_RX_T_APPN" then Ok ESME_RX_T_APPN else
  if String.eqb s "ESME_RX_P_APPN" then Ok ESME_RX_P_APPN else
  if String.eqb s "ESME_RX_R_APPN" then Ok ESME_RX_R_APPN else
  if String.eqb s "ESME_RQUERYFAIL" then Ok ESME_RQUERYFAIL else
  if String.eqb s "ESME_RINVOPTPARSTREAM" then Ok ESME_RINVOPTPARSTREAM else
  if String.eqb s "ESME_ROPTPARNOTALLWD" then Ok ESME_ROPTPARNOTALLWD else
  if String.eqb s "ESME_RINVPARLEN" then Ok ESME_RINVPARLEN else
  if String.eqb s "ESME_RMISSINGOPTPARAM" then Ok ESME_RMISSINGOPTPARAM else
  if String.eqb s "ESME_RINVOPTPARAMVAL" then Ok ESME_RINVOPTPARAMVAL else
  if String.eqb s "ESME_RDELIVERYFAILURE" then Ok ESME_RDELIVERYFAILURE else
  if String.eqb s "ESME_RUNKNOWNERR" then Ok ESME_RUNKNOWNERR else
  Err (ValueError (UnknownStatus s)).
