(* ===== verification/Smpp34.v ===== *)
(** * The interface to the SMPP codec

    [smpp34] is a dependency whose code is not part of this repository.  Its
    data enters as records holding the fields the sources read or set; its
    functions are the operations of the class [Smpp34], a parameter of every
    definition that calls one; what the sources document about them is the
    class [Smpp34Laws].  [Smpp34Example] instantiates both. *)

From S2P Require Import Prelude RustStr Status.
#[local] Open Scope Z_scope.

(** ** Optional parameters *)

Record Tlv : Set := mkTlv { tag : Z; value : bytes }.

#[export] Instance Tlv_eq_dec : EqDecision Tlv.
Proof. solve_decision. Defined.

(** The [TlvTag] variants the sources name. *)
Inductive TlvTag : Set :=
| DestAddrSubunit | DestNetworkType | DestBearerType | DestTelematicsId
| SourceAddrSubunit | SourceNetworkType | SourceBearerType | SourceTelematicsId
| QosTimeToLive | PayloadType | MsMsgWaitFacilities | PrivacyIndicator
| UserMessageReference | UserResponseCode | SourcePort | DestinationPort
| SarMsgRefNum | LanguageIndicator | SarTotalSegments | SarSegmentSeqnum
| ScInterfaceVersion | CallbackNumPresInd | NumberOfMessages | DpfResult
| SetDpf | MsAvailabilityStatus | DeliveryFailureReason | MoreMessagesToSend
| MessageStateTlv | UssdServiceOp | DisplayTime | SmsSignal | MsValidity
| ItsReplyType | MessagePayload | ReceiptedMessageId.

(** ** Request PDUs *)

Module submit_sm.
Record t : Set := mk {
  service_type : string;
  source_addr_ton : Z; source_addr_npi : Z; source_addr : string;
  dest_addr_ton : Z; dest_addr_npi : Z; destination_addr : string;
  esm_class : Z; protocol_id : Z; priority_flag : Z;
  schedule_delivery_time : string; validity_period : string;
  registered_delivery : Z; replace_if_present_flag : Z; data_coding : Z;
  sm_default_msg_id : Z; sm_length : Z; short_message : bytes;
  tlvs : list Tlv;
}.
(** The PDU with the [sm_length] its body gives it. *)
Definition with_length (p : t) : t :=
  mk (service_type p) (source_addr_ton p) (source_addr_npi p) (source_addr p)
    (dest_addr_ton p) (dest_addr_npi p) (destination_addr p) (esm_class p) (protocol_id p)
    (priority_flag p) (schedule_delivery_time p) (validity_period p) (registered_delivery p)
    (replace_if_present_flag p) (data_coding p) (sm_default_msg_id p) (Z.of_nat (length
    (short_message p))) (short_message p) (tlvs p).
End submit_sm.

Module deliver_sm.
Record t : Set := mk {
  service_type : string;
  source_addr_ton : Z; source_addr_npi : Z; source_addr : string;
  dest_addr_ton : Z; dest_addr_npi : Z; destination_addr : string;
  esm_class : Z; protocol_id : Z; priority_flag : Z;
  schedule_delivery_time : string; validity_period : string;
  registered_delivery : Z; replace_if_present_flag : Z; data_coding : Z;
  sm_default_msg_id : Z; sm_length : Z; short_message : bytes;
  tlvs : list Tlv;
}.
(** The PDU with the [sm_length] its body gives it. *)
Definition with_length (p : t) : t :=
  mk (service_type p) (source_addr_ton p) (source_addr_npi p) (source_addr p)
    (dest_addr_ton p) (dest_addr_npi p) (destination_addr p) (esm_class p) (protocol_id p)
    (priority_flag p) (schedule_delivery_time p) (validity_period p) (registered_delivery p)
    (replace_if_present_flag p) (data_coding p) (sm_default_msg_id p) (Z.of_nat (length
    (short_message p))) (short_message p) (tlvs p).
End deliver_sm.

Module data_sm.
Record t : Set := mk {
  service_type : string;
  source_addr_ton : Z; source_addr_npi : Z; source_addr : string;
  dest_addr_ton : Z; dest_addr_npi : Z; destination_addr : string;
  esm_class : Z; registered_delivery : Z; data_coding : Z;
  tlvs : list Tlv;
}.
End data_sm.

Module cancel_sm.
Record t : Set := mk {
  service_type : string; message_id : string;
  source_addr_ton : Z; source_addr_npi : Z; source_addr : string;
  dest_addr_ton : Z; dest_addr_npi : Z; destination_addr : string;
}.
End cancel_sm.

Module query_sm.
Record t : Set := mk {
  message_id : string;
  source_addr_ton : Z; source_addr_npi : Z; source_addr : string;
}.
End query_sm.

Module replace_sm.
Record t : Set := mk {
  message_id : string;
  source_addr_ton : Z; source_addr_npi : Z; source_addr : string;
  schedule_delivery_time : string; validity_period : string;
  registered_delivery : Z; sm_default_msg_id : Z; sm_length : Z;
  short_message : bytes;
}.
(** The PDU with the [sm_length] its body gives it. *)
Definition with_length (p : t) : t :=
  mk (message_id p) (source_addr_ton p) (source_addr_npi p) (source_addr p)
    (schedule_delivery_time p) (validity_period p) (registered_delivery p)
    (sm_default_msg_id p) (Z.of_nat (length (short_message p))) (short_message p).
End replace_sm.

Inductive DestAddress : Set :=
| Sme (dest_addr_ton dest_addr_npi : Z) (destination_addr : string)
| DistributionList (dl_name : string).

Module submit_sm_multi.
Record t : Set := mk {
  service_type : string;
  source_addr_ton : Z; source_addr_npi : Z; source_addr : string;
  dest_addresses : list DestAddress;
  esm_class : Z; protocol_id : Z; priority_flag : Z;
  schedule_delivery_time : string; validity_period : string;
  registered_delivery : Z; replace_if_present_flag : Z; data_coding : Z;
  sm_default_msg_id : Z; sm_length : Z; short_message : bytes;
  tlvs : list Tlv;
}.
(** The PDU with the [sm_length] its body gives it. *)
Definition with_length (p : t) : t :=
  mk (service_type p) (source_addr_ton p) (source_addr_npi p) (source_addr p)
    (dest_addresses p) (esm_class p) (protocol_id p) (priority_flag p)
    (schedule_delivery_time p) (validity_period p) (registered_delivery p)
    (replace_if_present_flag p) (data_coding p) (sm_default_msg_id p) (Z.of_nat (length
    (short_message p))) (short_message p) (tlvs p).
End submit_sm_multi.

Module alert_notification.
Record t : Set := mk {
  source_addr : string; esme_addr : string; ms_availability_status : option Z;
}.
End alert_notification.

Module bind_transceiver.
Record t : Set := mk { system_id : string; password : string }.
End bind_transceiver.

(** A connection, with its addresses already rendered ([to_string]). *)
Record SmppConnectionInformation : Set := mkConn {
  client_address : string; server_address : string;
}.

(** ** Response PDUs, by the fields the sources read *)

Module submit_sm_resp.
Record t : Set := mk { command_status : Z; message_id : option string }.
End submit_sm_resp.
Module submit_sm_multi_resp.
Record t : Set := mk { command_status : Z; message_id : option string }.
End submit_sm_multi_resp.
Module query_sm_resp.
Record t : Set := mk {
  command_status : Z; message_id : string; message_state : Z;
  final_date : string; error_code : Z;
}.
End query_sm_resp.
Module data_sm_resp.
Record t : Set := mk { command_status : Z; message_id : option string; tlvs : list Tlv }.
End data_sm_resp.
Module deliver_sm_resp.
Record t : Set := mk { command_status : Z }.
End deliver_sm_resp.
Module cancel_sm_resp.
Record t : Set := mk { command_status : Z }.
End cancel_sm_resp.
Module replace_sm_resp.
Record t : Set := mk { command_status : Z }.
End replace_sm_resp.
Module bind_resp.
Record t : Set := mk { command_status : Z; system_id : option string }.
End bind_resp.

(** ** Operations *)

Class Smpp34 := {
  (** [SmppError::from_command_status]. *)
  from_command_status : Z -> SmppError;
  (** [t as u16], and the named standard parameters with their tags. *)
  tag_u16 : TlvTag -> Z;
  ALL : list (string * Z);
  (** [TlvList]: the accessors of a decoded parameter list. *)
  get_tlv_raw : list Tlv -> Z -> option Tlv;
  message_payload : list Tlv -> option bytes;
  receipted_message_id : list Tlv -> option string;
  message_state : list Tlv -> option Z;
  user_message_reference : list Tlv -> option Z;
  sar_msg_ref_num : list Tlv -> option Z;
  sar_total_segments : list Tlv -> option Z;
  sar_segment_seqnum : list Tlv -> option Z;
  more_messages_to_send : list Tlv -> option Z;
  network_error_code : list Tlv -> option (Z * Z);
  (** The constructors and builders of the PDUs with a [short_message], from the
      fields set ([sm_length] is theirs to compute); [None]: an assertion of the
      constructor failed, a panic. *)
  submit_sm_build : submit_sm.t -> option submit_sm.t;
  deliver_sm_build : deliver_sm.t -> option deliver_sm.t;
  replace_sm_build : replace_sm.t -> option replace_sm.t;
  submit_sm_multi_build : submit_sm_multi.t -> option submit_sm_multi.t;
  (** [request.accept(..)] and [request.reject(status)]. *)
  submit_sm_accept : submit_sm.t -> string -> submit_sm_resp.t;
  submit_sm_reject : submit_sm.t -> SmppError -> submit_sm_resp.t;
  submit_sm_multi_accept : submit_sm_multi.t -> string -> list DestAddress -> submit_sm_multi_resp.t;
  submit_sm_multi_reject : submit_sm_multi.t -> SmppError -> submit_sm_multi_resp.t;
  data_sm_accept : data_sm.t -> string -> data_sm_resp.t;
  data_sm_reject : data_sm.t -> SmppError -> data_sm_resp.t;
  data_sm_push_tlv : data_sm_resp.t -> Tlv -> data_sm_resp.t;
  query_sm_accept : query_sm.t -> string -> string -> Z -> Z -> query_sm_resp.t;
  query_sm_reject : query_sm.t -> SmppError -> query_sm_resp.t;
  cancel_sm_accept : cancel_sm.t -> cancel_sm_resp.t;
  cancel_sm_reject : cancel_sm.t -> SmppError -> cancel_sm_resp.t;
  replace_sm_accept : replace_sm.t -> replace_sm_resp.t;
  replace_sm_reject : replace_sm.t -> SmppError -> replace_sm_resp.t;
  deliver_sm_accept : deliver_sm.t -> deliver_sm_resp.t;
  deliver_sm_reject : deliver_sm.t -> SmppError -> deliver_sm_resp.t;
  bind_transceiver_accept : bind_transceiver.t -> string -> option Z -> bind_resp.t;
  bind_transceiver_reject : bind_transceiver.t -> SmppError -> bind_resp.t;
  (** [resp.is_success()] of the two responses the sources ask. *)
  submit_sm_is_success : submit_sm_resp.t -> bool;
  data_sm_is_success : data_sm_resp.t -> bool;
}.

(** The parameter carrying a tag. *)
Definition first_tlv (tlvs : list Tlv) (t : Z) : option Tlv :=
  iter_find (fun x => tag x =? t) tlvs.

(** An upper-case spec name with nothing [tag_from_name] would strip. *)
Definition spec_name (n : string) : bool :=
  bool_decide (to_ascii_uppercase (of_str n) = of_str n)
  && trimmed (of_str n) && negb (starts_with (of_str "TLV_") (of_str n)).

Class Smpp34Laws `{Smpp34} : Prop := {
  from_command_status_known e : from_command_status (error_code e) = e;
  from_command_status_unknown s :
    (forall e, error_code e <> s) -> from_command_status s = ESME_RUNKNOWNERR;
  tag_u16_range t : 0 <= tag_u16 t < 65536;
  tag_u16_inj t1 t2 : tag_u16 t1 = tag_u16 t2 -> t1 = t2;
  ALL_names : NoDup (fst <$> ALL);
  ALL_tags : NoDup (snd <$> ALL);
  ALL_spec n t : (n, t) ∈ ALL -> spec_name n = true;
  ALL_complete t : exists n, (n, tag_u16 t) ∈ ALL;
  get_tlv_raw_first l t : NoDup (tag <$> l) -> get_tlv_raw l t = first_tlv l t;
  message_payload_first l :
    NoDup (tag <$> l) -> message_payload l = value <$> first_tlv l (tag_u16 MessagePayload);
  submit_sm_accept_resp r id :
    submit_sm_accept r id = submit_sm_resp.mk 0 (Some id);
  submit_sm_reject_resp r e :
    submit_sm_reject r e = submit_sm_resp.mk (error_code e) None;
  data_sm_accept_resp r id : data_sm_accept r id = data_sm_resp.mk 0 (Some id) [];
  data_sm_reject_resp r e : data_sm_reject r e = data_sm_resp.mk (error_code e) None [];
  data_sm_push_tlv_resp r t :
    data_sm_push_tlv r t =
    data_sm_resp.mk (data_sm_resp.command_status r) (data_sm_resp.message_id r)
      (data_sm_resp.tlvs r ++ [t]);
  submit_sm_build_spec p :
    submit_sm_build p =
    if (length (submit_sm.short_message p) <=? 254)%nat then Some (submit_sm.with_length p) else None;
  deliver_sm_build_spec p :
    deliver_sm_build p =
    if (length (deliver_sm.short_message p) <=? 254)%nat then Some (deliver_sm.with_length p) else None;
  replace_sm_build_spec p :
    replace_sm_build p =
    if (length (replace_sm.short_message p) <=? 254)%nat then Some (replace_sm.with_length p) else None;
  submit_sm_multi_build_spec p :
    submit_sm_multi_build p =
    if (length (submit_sm_multi.short_message p) <=? 254)%nat
       && (length (submit_sm_multi.dest_addresses p) <=? 254)%nat
    then Some (submit_sm_multi.with_length p) else None;
  submit_sm_multi_accept_status r id l : submit_sm_multi_resp.command_status (submit_sm_multi_accept r id l) = 0;
  submit_sm_multi_reject_status r e : submit_sm_multi_resp.command_status (submit_sm_multi_reject r e) = error_code e;
  query_sm_accept_status r id d st er : query_sm_resp.command_status (query_sm_accept r id d st er) = 0;
  query_sm_reject_status r e : query_sm_resp.command_status (query_sm_reject r e) = error_code e;
  cancel_sm_accept_status r : cancel_sm_resp.command_status (cancel_sm_accept r) = 0;
  cancel_sm_reject_status r e : cancel_sm_resp.command_status (cancel_sm_reject r e) = error_code e;
  replace_sm_accept_status r : replace_sm_resp.command_status (replace_sm_accept r) = 0;
  replace_sm_reject_status r e : replace_sm_resp.command_status (replace_sm_reject r e) = error_code e;
  deliver_sm_accept_status r : deliver_sm_resp.command_status (deliver_sm_accept r) = 0;
  deliver_sm_reject_status r e : deliver_sm_resp.command_status (deliver_sm_reject r e) = error_code e;
  bind_transceiver_accept_status r id v : bind_resp.command_status (bind_transceiver_accept r id v) = 0;
  bind_transceiver_reject_status r e : bind_resp.command_status (bind_transceiver_reject r e) = error_code e;
  submit_sm_is_success_spec r :
    submit_sm_is_success r = (submit_sm_resp.command_status r =? 0);
  data_sm_is_success_spec r :
    data_sm_is_success r = (data_sm_resp.command_status r =? 0);
}.

(** ** An instance

    A concrete codec satisfying the laws, for closed examples: the 44 standard
    parameters at their specification tags and the plain response layouts. *)
Module Smpp34Example.

Definition tags : list (string * Z) :=
[("DEST_ADDR_SUBUNIT", 0x0005);
 ("DEST_NETWORK_TYPE", 0x0006);
 ("DEST_BEARER_TYPE", 0x0007);
 ("DEST_TELEMATICS_ID", 0x0008);
 ("SOURCE_ADDR_SUBUNIT", 0x000D);
 ("SOURCE_NETWORK_TYPE", 0x000E);
 ("SOURCE_BEARER_TYPE", 0x000F);
 ("SOURCE_TELEMATICS_ID", 0x0010);
 ("QOS_TIME_TO_LIVE", 0x0017);
 ("PAYLOAD_TYPE", 0x0019);
 ("ADDITIONAL_STATUS_INFO_TEXT", 0x001D);
 ("RECEIPTED_MESSAGE_ID", 0x001E);
 ("MS_MSG_WAIT_FACILITIES", 0x0030);
 ("PRIVACY_INDICATOR", 0x0201);
 ("SOURCE_SUBADDRESS", 0x0202);
 ("DEST_SUBADDRESS", 0x0203);
 ("USER_MESSAGE_REFERENCE", 0x0204);
 ("USER_RESPONSE_CODE", 0x0205);
 ("SOURCE_PORT", 0x020A);
 ("DESTINATION_PORT", 0x020B);
 ("SAR_MSG_REF_NUM", 0x020C);
 ("LANGUAGE_INDICATOR", 0x020D);
 ("SAR_TOTAL_SEGMENTS", 0x020E);
 ("SAR_SEGMENT_SEQNUM", 0x020F);
 ("SC_INTERFACE_VERSION", 0x0210);
 ("CALLBACK_NUM_PRES_IND", 0x0302);
 ("CALLBACK_NUM_ATAG", 0x0303);
 ("NUMBER_OF_MESSAGES", 0x0304);
 ("CALLBACK_NUM", 0x0381);
 ("DPF_RESULT", 0x0420);
 ("SET_DPF", 0x0421);
 ("MS_AVAILABILITY_STATUS", 0x0422);
 ("NETWORK_ERROR_CODE", 0x0423);
 ("MESSAGE_PAYLOAD", 0x0424);
 ("DELIVERY_FAILURE_REASON", 0x0425);
 ("MORE_MESSAGES_TO_SEND", 0x0426);
 ("MESSAGE_STATE", 0x0427);
 ("USSD_SERVICE_OP", 0x0501);
 ("DISPLAY_TIME", 0x1201);
 ("SMS_SIGNAL", 0x1203);
 ("MS_VALIDITY", 0x1204);
 ("ALERT_ON_MESSAGE_DELIVERY", 0x130C);
 ("ITS_REPLY_TYPE", 0x1380);
 ("ITS_SESSION_INFO", 0x1383)].

Definition tag_code (t : TlvTag) : Z :=
match t with
| DestAddrSubunit => 0x0005
| DestNetworkType => 0x0006
| DestBearerType => 0x0007
| DestTelematicsId => 0x0008
| SourceAddrSubunit => 0x000D
| SourceNetworkType => 0x000E
| SourceBearerType => 0x000F
| SourceTelematicsId => 0x0010
| QosTimeToLive => 0x0017
| PayloadType => 0x0019
| ReceiptedMessageId => 0x001E
| MsMsgWaitFacilities => 0x0030
| PrivacyIndicator => 0x0201
| UserMessageReference => 0x0204
| UserResponseCode => 0x0205
| SourcePort => 0x020A
| DestinationPort => 0x020B
| SarMsgRefNum => 0x020C
| LanguageIndicator => 0x020D
| SarTotalSegments => 0x020E
| SarSegmentSeqnum => 0x020F
| ScInterfaceVersion => 0x0210
| CallbackNumPresInd => 0x0302
| NumberOfMessages => 0x0304
| DpfResult => 0x0420
| SetDpf => 0x0421
| MsAvailabilityStatus => 0x0422
| MessagePayload => 0x0424
| DeliveryFailureReason => 0x0425
| MoreMessagesToSend => 0x0426
| MessageStateTlv => 0x0427
| UssdServiceOp => 0x0501
| DisplayTime => 0x1201
| SmsSignal => 0x1203
| MsValidity => 0x1204
| ItsReplyType => 0x1380
end.

Definition from_status (s : Z) : SmppError :=
default ESME_RUNKNOWNERR (iter_find (fun e => error_code e =? s) all_errors).

(** A fixed-width integer parameter, read only at its width. *)
Definition int_tlv (width : nat) (t : TlvTag) (l : list Tlv) : option Z :=
x ← first_tlv l (tag_code t);
if (length (value x) =? width)%nat then Some (be_value (value x)) else None.

(** A C-octet string without its terminating NUL. *)
Definition cstring (b : bytes) : string :=
to_str (match str_find [byte_of_Z 0] b with Some i => take i b | None => b end).

#[export] Instance codec : Smpp34 := {
from_command_status := from_status;
tag_u16 := tag_code;
ALL := tags;
get_tlv_raw := first_tlv;
message_payload l := value <$> first_tlv l (tag_code MessagePayload);
receipted_message_id l := cstring ∘ value <$> first_tlv l (tag_code ReceiptedMessageId);
message_state := int_tlv 1 MessageStateTlv;
user_message_reference := int_tlv 2 UserMessageReference;
sar_msg_ref_num := int_tlv 2 SarMsgRefNum;
sar_total_segments := int_tlv 1 SarTotalSegments;
sar_segment_seqnum := int_tlv 1 SarSegmentSeqnum;
more_messages_to_send := int_tlv 1 MoreMessagesToSend;
network_error_code l :=
  x ← first_tlv l 0x0423;
  match value x with
  | b :: c => if (length c =? 2)%nat then Some (byte_to_Z b, be_value c) else None
  | [] => None
  end;
submit_sm_build p :=
  if (length (submit_sm.short_message p) <=? 254)%nat then Some (submit_sm.with_length p) else None;
deliver_sm_build p :=
  if (length (deliver_sm.short_message p) <=? 254)%nat then Some (deliver_sm.with_length p) else None;
replace_sm_build p :=
  if (length (replace_sm.short_message p) <=? 254)%nat then Some (replace_sm.with_length p) else None;
submit_sm_multi_build p :=
  if (length (submit_sm_multi.short_message p) <=? 254)%nat
     && (length (submit_sm_multi.dest_addresses p) <=? 254)%nat
  then Some (submit_sm_multi.with_length p) else None;
submit_sm_accept _ id := submit_sm_resp.mk 0 (Some id);
submit_sm_reject _ e := submit_sm_resp.mk (error_code e) None;
submit_sm_multi_accept _ id _ := submit_sm_multi_resp.mk 0 (Some id);
submit_sm_multi_reject _ e := submit_sm_multi_resp.mk (error_code e) None;
data_sm_accept _ id := data_sm_resp.mk 0 (Some id) [];
data_sm_reject _ e := data_sm_resp.mk (error_code e) None [];
data_sm_push_tlv r t :=
  data_sm_resp.mk (data_sm_resp.command_status r) (data_sm_resp.message_id r)
    (data_sm_resp.tlvs r ++ [t]);
query_sm_accept _ id date st err := query_sm_resp.mk 0 id st date err;
query_sm_reject _ e := query_sm_resp.mk (error_code e) "" 0 "" 0;
cancel_sm_accept _ := cancel_sm_resp.mk 0;
cancel_sm_reject _ e := cancel_sm_resp.mk (error_code e);
replace_sm_accept _ := replace_sm_resp.mk 0;
replace_sm_reject _ e := replace_sm_resp.mk (error_code e);
deliver_sm_accept _ := deliver_sm_resp.mk 0;
deliver_sm_reject _ e := deliver_sm_resp.mk (error_code e);
bind_transceiver_accept _ id _ := bind_resp.mk 0 (Some id);
bind_transceiver_reject _ e := bind_resp.mk (error_code e) None;
submit_sm_is_success r := submit_sm_resp.command_status r =? 0;
data_sm_is_success r := data_sm_resp.command_status r =? 0;
}.

Lemma tags_spec : Forall (fun row => spec_name (fst row) = true) tags.
Proof. apply (bool_decide_unpack _). vm_compute. exact I. Qed.

#[export] Instance codec_laws : Smpp34Laws.
Proof.
split; try done.
- by destruct e.
- intros s Hs. change (from_status s = ESME_RUNKNOWNERR). unfold from_status.
  destruct (iter_find _ all_errors) as [e|] eqn:E; [|done].
  apply iter_find_in in E as [_ E%Z.eqb_eq]. by destruct (Hs e).
- intros t. destruct t; cbn; lia.
- intros t1 t2. destruct t1, t2; cbn; intros E; try done; discriminate E.
- apply (bool_decide_unpack _). vm_compute. exact I.
- apply (bool_decide_unpack _). vm_compute. exact I.
- intros n t Hin. pose proof tags_spec as H. rewrite list.Forall_forall in H.
  apply (H (n, t) Hin).
- intros t. cbn.
  enough (exists row, row ∈ tags /\ snd row = tag_code t) as ([n z] & ? & ?) by (exists n; naive_solver).
  assert (exists row, iter_find (fun row => snd row =? tag_code t) tags = Some row) as [row E].
  { destruct t; eexists; reflexivity. }
  apply iter_find_in in E as [? ?%Z.eqb_eq]. eauto.
Qed.

End Smpp34Example.
