(* ===== verification/Tlv.v ===== *)
(** * Optional parameters: [tlv.rs]

    The conversion between a script's [tlvs={...}] dict and the codec's list:
    key resolution ([tag_from_name], [tag_from_py]), value encoding at the
    specification's width ([value_to_bytes]) and the dict loop ([tlvs_from_py],
    [tlvs_to_py]). *)

From S2P Require Import Prelude RustStr Py Status Smpp34.
#[local] Open Scope Z_scope.

Section Tlv.
Context `{Smpp34}.

(** ** Definitions *)

(** Integer-typed parameters and their width in octets. *)
Definition INT_WIDTHS : list (TlvTag * nat) :=
  [(DestAddrSubunit, 1); (DestNetworkType, 1); (DestBearerType, 1); (DestTelematicsId, 2); (SourceAddrSubunit, 1); (SourceNetworkType, 1); (SourceBearerType, 1); (SourceTelematicsId, 1); (QosTimeToLive, 4); (PayloadType, 1); (MsMsgWaitFacilities, 1); (PrivacyIndicator, 1); (UserMessageReference, 2); (UserResponseCode, 1); (SourcePort, 2); (DestinationPort, 2); (SarMsgRefNum, 2); (LanguageIndicator, 1); (SarTotalSegments, 1); (SarSegmentSeqnum, 1); (ScInterfaceVersion, 1); (CallbackNumPresInd, 1); (NumberOfMessages, 1); (DpfResult, 1); (SetDpf, 1); (MsAvailabilityStatus, 1); (DeliveryFailureReason, 1); (MoreMessagesToSend, 1); (MessageStateTlv, 1); (UssdServiceOp, 1); (DisplayTime, 1); (SmsSignal, 2); (MsValidity, 1); (ItsReplyType, 1)]%nat.

Definition int_width (t : Z) : option nat :=
  snd <$> iter_find (fun row => tag_u16 (fst row) =? t) INT_WIDTHS.

Definition tag_from_name (name : string) : option Z :=
  let wanted := to_ascii_uppercase (trim (of_str name)) in
  let wanted := default wanted (strip_prefix (of_str "TLV_") wanted) in
  snd <$> iter_find (fun row => bool_decide (of_str (fst row) = wanted)) ALL.

Definition name_for_tag (t : Z) : option string :=
  fst <$> iter_find (fun row => snd row =? t) ALL.

Definition py_type_name (o : PyObj) : string :=
  match o with
  | PyNone => "NoneType" | PyBytes _ => "bytes" | PyByteArray _ => "bytearray"
  | PyStr _ => "str" | PyInt _ => "int" | PyBool _ => "bool" | PyOther n => n
  end.

(** [is_instance_of::<PyInt>]: a Python [bool] is an [int]. *)
Definition as_py_int (o : PyObj) : option Z :=
  match o with
  | PyInt z => Some z
  | PyBool b => Some (Z.b2z b)
  | _ => None
  end.

(** [extract::<i64>] of an [int]. *)
Definition extract_i64 (z : Z) : result PyErr Z :=
  if (- 2 ^ 63 <=? z) && (z <? 2 ^ 63) then Ok z else Err OverflowError.

Definition tag_from_py (key : PyObj) : result PyErr Z :=
  match key with
  | PyStr None => Err UnicodeEncodeError
  | PyStr (Some name) => ok_or (ValueError (UnknownTlvName name)) (tag_from_name name)
  | _ =>
      match as_py_int key with
      | Some z =>
          raw ← extract_i64 z;
          ok_or (ValueError (TlvTagOutOfRange raw)) (try_from 16 raw)
      | None => Err (TypeError (TlvKeyType (py_type_name key)))
      end
  end.

Definition describe_tag (t : Z) : string :=
  match name_for_tag t with
  | Some name => name +:+ " (" +:+ hex_literal 4 t +:+ ")"
  | None => hex_literal 4 t
  end.

Definition value_to_bytes (t : Z) (v : PyObj) : result PyErr bytes :=
  match v with
  | PyBytes b => Ok b
  | PyByteArray b => Ok b
  | PyStr None => Err UnicodeEncodeError
  | PyStr (Some s) => Ok (of_str s ++ [byte_of_Z 0])
  | _ =>
      match as_py_int v with
      | Some z =>
          raw ← ok_or (ValueError (TlvValueNegative (describe_tag t))) (try_from 64 z);
          width ← ok_or (ValueError (TlvNotIntegerTyped (describe_tag t))) (int_width t);
          let max := if (8 <=? width)%nat then 2 ^ 64 - 1
                     else Z.shiftl 1 (Z.of_nat width * 8) - 1 in
          if max <? raw
          then Err (ValueError (TlvValueTooWide (describe_tag t) raw width))
          else Ok (drop (8 - width) (be_bytes 8 raw))
      | None => Err (TypeError (TlvValueType (describe_tag t) (py_type_name v)))
      end
  end.

(** The loop of [tlvs_from_py] over the dict's items, in insertion order. *)
Fixpoint tlvs_from_items (out : list Tlv) (items : list (PyObj * PyObj)) : result PyErr (list Tlv) :=
  match items with
  | [] => Ok out
  | (key, v) :: items =>
      t ← tag_from_py key;
      if existsb (fun x => tag x =? t) out
      then Err (ValueError (TlvGivenTwice (describe_tag t)))
      else b ← value_to_bytes t v; tlvs_from_items (out ++ [mkTlv t b]) items
  end.

Definition tlvs_from_py (dict : option (list (PyObj * PyObj))) : result PyErr (list Tlv) :=
  match dict with
  | None => Ok []
  | Some items => tlvs_from_items [] items
  end.

End Tlv.

(** A Python dict keyed by integers: [set_item] replaces the value of a key in
    place and appends a new key. *)
Fixpoint dict_set {V} (d : list (Z * V)) (k : Z) (v : V) : list (Z * V) :=
  match d with
  | [] => [(k, v)]
  | (k', v') :: d => if k' =? k then (k', v) :: d else (k', v') :: dict_set d k v
  end.

Definition dict_get {V} (d : list (Z * V)) (k : Z) : option V :=
  snd <$> iter_find (fun row => fst row =? k) d.

Definition tlvs_to_py (tlvs : list Tlv) : list (Z * bytes) :=
  fold_left (fun d x => dict_set d (tag x) (value x)) tlvs [].

(** ** Theorems *)

Section Theorems.
Context `{Smpp34}.

Lemma int_width_bound t w : int_width t = Some w -> (1 <= w <= 4)%nat.
Proof.
  unfold int_width. intros (row & E & ->)%fmap_Some. apply iter_find_in in E as [E _].
  assert (Forall (fun row : TlvTag * nat => (1 <= row.2 <= 4)%nat) INT_WIDTHS) as F
    by (repeat constructor).
  rewrite list.Forall_forall in F. by apply F.
Qed.

Lemma be_bytes_unique n z bs :
  0 <= z < 2 ^ (8 * Z.of_nat n) -> be_bytes n z = bs <-> length bs = n /\ be_value bs = z.
Proof.
  intros Hz. split.
  - intros <-. rewrite be_bytes_length, be_value_bytes, Z.mod_small by done. done.
  - intros [<- <-]. apply be_bytes_value.
Qed.

(** C28: an integer given for a TLV is accepted exactly when the tag is one of
    the integer-typed parameters and the value fits the specification's width;
    what goes on the wire is then the big-endian encoding at that width, never
    a width chosen from the value. *)
Theorem value_to_bytes_int t z bs :
  value_to_bytes t (PyInt z) = Ok bs <->
  exists w, int_width t = Some w /\ length bs = w /\ be_value bs = z.
Proof.
  unfold value_to_bytes. cbn [as_py_int]. cbv zeta.
  rewrite result_bind_ok. setoid_rewrite ok_or_ok. setoid_rewrite result_bind_ok.
  setoid_rewrite ok_or_ok. unfold try_from. split.
  - intros (raw & Hraw & w & Hw & E). pose proof (int_width_bound _ _ Hw).
    destruct (fits 64 z) eqn:F; [|done]. injection Hraw as <-. apply fits_spec in F.
    exists w. split; [done|]. replace (8 <=? w)%nat with false in E by (symmetry; apply Nat.leb_gt; lia).
    rewrite Z.shiftl_1_l, (Z.mul_comm _ 8) in E.
    destruct (_ <? z) eqn:L; [done|]. apply Z.ltb_ge in L. rewrite be_bytes_drop in E by lia.
    assert (be_bytes w z = bs) as <- by congruence. apply be_bytes_unique; [lia|done].
  - intros (w & Hw & Hl & <-). pose proof (int_width_bound _ _ Hw).
    pose proof (be_value_range bs) as R. rewrite Hl in R.
    assert (2 ^ (8 * Z.of_nat w) <= 2 ^ 64) by (apply Z.pow_le_mono_r; lia).
    exists (be_value bs). replace (fits 64 _) with true by (symmetry; apply fits_spec; lia).
    split; [done|]. exists w. split; [done|].
    replace (8 <=? w)%nat with false by (symmetry; apply Nat.leb_gt; lia).
    rewrite Z.shiftl_1_l, (Z.mul_comm _ 8).
    replace (_ <? be_value bs) with false by (symmetry; apply Z.ltb_ge; lia). rewrite be_bytes_drop by lia.
    f_equal. by apply be_bytes_unique.
Qed.

(** One accepted dict item. *)
Definition item_ok (item : PyObj * PyObj) (x : Tlv) : Prop :=
  tag_from_py item.1 = Ok (tag x) /\ value_to_bytes (tag x) item.2 = Ok (value x).

Lemma existsb_tag t l : existsb (fun x => tag x =? t) l = true <-> t ∈ tag <$> l.
Proof.
  rewrite existsb_exists, list_elem_of_fmap. split.
  - intros (x & Hin & <-%Z.eqb_eq). exists x. by rewrite list_elem_of_In.
  - intros (x & -> & Hin). exists x. by rewrite <-list_elem_of_In, Z.eqb_eq.
Qed.

Lemma tlvs_from_items_ok items acc out :
  NoDup (tag <$> acc) ->
  tlvs_from_items acc items = Ok out <->
  exists new, out = acc ++ new /\ NoDup (tag <$> out) /\ Forall2 item_ok items new.
Proof.
  revert acc. induction items as [|[k v] items IH]; intros acc Hacc; cbn [tlvs_from_items].
  - split; [intros [= <-]; exists []; by rewrite app_nil_r|].
    intros (new & -> & _ & E%Forall2_nil_inv_l). by rewrite E, app_nil_r.
  - rewrite result_bind_ok. split.
    + intros (t & Ht & E). destruct (existsb _ _) eqn:Ex; [done|].
      apply result_bind_ok in E as (b & Hb & E).
      apply IH in E as (new & -> & Hnd & Hf).
      * exists (mkTlv t b :: new). rewrite <-app_assoc in *. cbn in *.
        repeat split; auto. constructor; [split|]; done.
      * rewrite fmap_app. apply NoDup_snoc. split; [done|].
        cbn. rewrite <-existsb_tag. congruence.
    + intros (new & -> & Hnd & Hf). apply Forall2_cons_inv_l in Hf as ([t b] & new' & [Ht Hb] & Hf & ->).
      cbn in *. exists t. split; [done|].
      assert (existsb (fun x => tag x =? t) acc = false) as ->.
      { apply not_true_is_false. rewrite existsb_tag. rewrite fmap_app in Hnd.
        apply list.NoDup_app in Hnd as (_ & Hd & _). intros Hx. apply (Hd t Hx). cbn. left. }
      rewrite Hb. cbn. change (mkTlv t b :: new') with ([mkTlv t b] ++ new') in *.
      rewrite (app_assoc acc [mkTlv t b]) in *. apply IH.
      * rewrite fmap_app in Hnd. by apply list.NoDup_app in Hnd as [? _].
      * by exists new'.
Qed.

(** A script's dict is accepted exactly when every key resolves, every
    value encodes and no two keys name the same tag; the parameters go out in
    the dict's order, one per item. *)
Theorem tlvs_from_py_ok items out :
  tlvs_from_py (Some items) = Ok out <-> NoDup (tag <$> out) /\ Forall2 item_ok items out.
Proof.
  cbn. rewrite tlvs_from_items_ok by constructor. naive_solver.
Qed.

(** ** Names *)

(** What [tag_from_name] compares with the spec names. *)
Definition wanted_name (name : string) : bytes :=
  let wanted := to_ascii_uppercase (trim (of_str name)) in
  default wanted (strip_prefix (of_str "TLV_") wanted).

Lemma strip_prefix_app p s : strip_prefix p (p ++ s) = Some s.
Proof. unfold strip_prefix. by rewrite starts_with_app, drop_app_length. Qed.

Lemma strip_prefix_some p s r : strip_prefix p s = Some r <-> s = p ++ r.
Proof.
  split; [|intros ->; apply strip_prefix_app]. unfold strip_prefix.
  destruct (starts_with p s) eqn:E; [|done]. intros [= <-].
  apply starts_with_spec in E as [r ->]. by rewrite drop_app_length.
Qed.

Lemma ALL_name_tag `{!Smpp34Laws} n t : (n, t) ∈ ALL -> name_for_tag t = Some n.
Proof.
  intros Hin. unfold name_for_tag.
  destruct (iter_find_exists (fun row : string * Z => row.2 =? t) ALL (n, t) Hin) as [[n' t'] E];
    [apply Z.eqb_refl|].
  rewrite E. cbn. f_equal. apply iter_find_in in E as [Hin' E]. cbn in E. apply Z.eqb_eq in E as ->.
  pose proof ALL_tags as Hnd. apply list_elem_of_lookup in Hin as [i Hi], Hin' as [j Hj].
  assert (i = j) as <-; [|congruence].
  eapply (NoDup_lookup _ _ _ t Hnd); rewrite list_lookup_fmap, ?Hi, ?Hj; done.
Qed.

Lemma ALL_name_unique `{!Smpp34Laws} n t t' : (n, t) ∈ ALL -> (n, t') ∈ ALL -> t = t'.
Proof.
  intros [i Hi]%list_elem_of_lookup [j Hj]%list_elem_of_lookup. pose proof ALL_names as Hnd.
  assert (i = j) as <-; [|congruence].
  eapply (NoDup_lookup _ _ _ n Hnd); rewrite list_lookup_fmap, ?Hi, ?Hj; done.
Qed.

(** C29: a name resolves to a tag exactly when, trimmed and upper-cased and with
    an optional [TLV_] prefix, it is the spec name [name_for_tag] shows for that
    tag: every name shown to a script is accepted back, in any letter case. *)
Theorem tag_from_name_spec `{!Smpp34Laws} name t :
  tag_from_name name = Some t <->
  exists n, name_for_tag t = Some n /\
    (to_ascii_uppercase (trim (of_str name)) = of_str n \/
     to_ascii_uppercase (trim (of_str name)) = of_str "TLV_" ++ of_str n).
Proof.
  unfold tag_from_name. cbv zeta. set (u := to_ascii_uppercase _). split.
  - intros ([n t'] & E & Et)%fmap_Some. cbn in Et. subst t'.
    apply iter_find_in in E as [Hin Hw%bool_decide_eq_true]. cbn in Hw.
    exists n. split; [by apply ALL_name_tag|].
    destruct (strip_prefix _ u) as [r|] eqn:Es; cbn in Hw; [|by left].
    apply strip_prefix_some in Es. right. rewrite Es. f_equal. exact (eq_sym Hw).
  - intros (n & Hn & Hu). unfold name_for_tag in Hn.
    apply fmap_Some in Hn as ([n' t'] & E & ->). apply iter_find_in in E as [Hin E].
    cbn in E. apply Z.eqb_eq in E as ->. cbn [fst] in *.
    assert (default u (strip_prefix (of_str "TLV_") u) = of_str n') as ->.
    { destruct Hu as [-> | ->]; [|by rewrite strip_prefix_app].
      pose proof (ALL_spec _ _ Hin) as Hs. unfold spec_name in Hs.
      unfold strip_prefix. by destruct (starts_with _ (of_str n')); [rewrite andb_false_r in Hs|]. }
    destruct (iter_find_exists (fun row : string * Z => bool_decide (of_str row.1 = of_str n')) ALL (n', t) Hin)
      as [[n2 t2] E]; [by apply bool_decide_eq_true|].
    rewrite E. cbn. f_equal. apply iter_find_in in E as [Hin2 E%bool_decide_eq_true].
    cbn in E. apply (inj of_str) in E as ->. by eapply ALL_name_unique.
Qed.

(** ** Decoded parameters back through a dict *)

Lemma dict_get_set {V} (d : list (Z * V)) k v k' :
  dict_get (dict_set d k v) k' = if k =? k' then Some v else dict_get d k'.
Proof.
  unfold dict_get. induction d as [|[j w] d IH]; cbn; [by destruct (k =? k')|].
  destruct (j =? k) eqn:E; cbn.
  - apply Z.eqb_eq in E as ->. by destruct (k =? k').
  - destruct (j =? k') eqn:E'; cbn; [|apply IH].
    destruct (k =? k') eqn:E''; [|done]. lia.
Qed.

Lemma dict_set_fresh {V} (d : list (Z * V)) k v :
  k ∉ d.*1 -> dict_set d k v = d ++ [(k, v)].
Proof.
  induction d as [|[j w] d IH]; cbn; [done|]. intros Hk.
  apply not_elem_of_cons in Hk as [? ?]. destruct (j =? k) eqn:E; [lia|]. by rewrite IH.
Qed.

Lemma dict_set_keys {V} (d : list (Z * V)) k v :
  k ∈ d.*1 -> (dict_set d k v).*1 = d.*1.
Proof.
  induction d as [|[j w] d IH]; cbn; [by intros ?%not_elem_of_nil|].
  intros [->|Hk]%elem_of_cons; [by rewrite Z.eqb_refl|].
  destruct (j =? k); cbn; [done|]. by rewrite IH.
Qed.

Lemma dict_set_NoDup {V} (d : list (Z * V)) k v :
  NoDup d.*1 -> NoDup (dict_set d k v).*1.
Proof.
  intros Hd. destruct (decide (k ∈ d.*1)); [by rewrite dict_set_keys|].
  rewrite dict_set_fresh, fmap_app by done. by apply NoDup_snoc.
Qed.

Lemma dict_set_in {V} (d : list (Z * V)) k v k' :
  k' ∈ (dict_set d k v).*1 <-> k' = k \/ k' ∈ d.*1.
Proof.
  destruct (decide (k ∈ d.*1)); [rewrite dict_set_keys by done; naive_solver|].
  rewrite dict_set_fresh, fmap_app, elem_of_app by done. cbn.
  rewrite list_elem_of_singleton. tauto.
Qed.

Lemma tlvs_to_py_snoc l x : tlvs_to_py (l ++ [x]) = dict_set (tlvs_to_py l) (tag x) (value x).
Proof. unfold tlvs_to_py. by rewrite fold_left_app. Qed.

Lemma tlvs_to_py_keys l t : t ∈ (tlvs_to_py l).*1 <-> t ∈ tag <$> l.
Proof.
  induction l as [|x l IH] using rev_ind; [done|].
  rewrite tlvs_to_py_snoc, dict_set_in, fmap_app, elem_of_app, IH. cbn.
  rewrite list_elem_of_singleton. tauto.
Qed.

Lemma tlvs_to_py_NoDup l : NoDup (tlvs_to_py l).*1.
Proof.
  induction l as [|x l IH] using rev_ind; [constructor|].
  rewrite tlvs_to_py_snoc. by apply dict_set_NoDup.
Qed.

Lemma tlvs_to_py_get l t : dict_get (tlvs_to_py l) t = value <$> first_tlv (rev l) t.
Proof.
  induction l as [|x l IH] using rev_ind; [done|].
  rewrite tlvs_to_py_snoc, dict_get_set, rev_unit, IH. cbn. by destruct (tag x =? t).
Qed.

Lemma tlvs_to_py_id l : NoDup (tag <$> l) -> tlvs_to_py l = (fun x => (tag x, value x)) <$> l.
Proof.
  induction l as [|x l IH] using rev_ind; [done|]. rewrite fmap_app.
  intros [Hnd Hx]%NoDup_snoc. rewrite tlvs_to_py_snoc, dict_set_fresh, IH, fmap_app by
    (rewrite ?tlvs_to_py_keys; done). done.
Qed.

(** A script handing the dict it read to a send helper. *)
Definition py_items (d : list (Z * bytes)) : list (PyObj * PyObj) :=
  (fun row => (PyInt row.1, PyBytes row.2)) <$> d.

Lemma item_ok_raw t b : fits 16 t = true -> item_ok (PyInt t, PyBytes b) (mkTlv t b).
Proof.
  intros Ht. split; [|done]. cbn. unfold extract_i64.
  pose proof (proj1 (fits_spec _ _) Ht).
  replace ((- 2 ^ 63 <=? t) && (t <? 2 ^ 63)) with true by lia.
  cbn. unfold try_from. by rewrite Ht.
Qed.

(** C18: the parameters a script reads off a PDU can be handed back to a send
    helper: the dict is always accepted, each tag keeps the value the script saw
    (the last one when the peer repeated a tag), and a PDU without repetition
    round-trips to the identical list. *)
Theorem tlvs_py_roundtrip l :
  Forall (fun x => fits 16 (tag x) = true) l ->
  exists out, tlvs_from_py (Some (py_items (tlvs_to_py l))) = Ok out /\
    (forall t, value <$> first_tlv out t = value <$> first_tlv (rev l) t) /\
    (NoDup (tag <$> l) -> out = l).
Proof.
  intros Hl. exists ((fun row => mkTlv row.1 row.2) <$> tlvs_to_py l). split; [|split].
  - cbn. rewrite tlvs_from_items_ok by constructor. eexists. split; [done|].
    rewrite <-list_fmap_compose. split; [apply tlvs_to_py_NoDup|].
    unfold py_items. apply Forall2_fmap_2, Forall_Forall2_diag, list.Forall_forall.
    intros [t b] Hin. apply item_ok_raw. cbn.
    assert (t ∈ tag <$> l) as (x & -> & Hx)%list_elem_of_fmap.
    { apply tlvs_to_py_keys, list_elem_of_fmap. by exists (t, b). }
    rewrite list.Forall_forall in Hl. by apply Hl.
  - intros t. rewrite <-tlvs_to_py_get. unfold dict_get, first_tlv.
    induction (tlvs_to_py l) as [|[t' b] d IH]; [done|]. cbn. by destruct (t' =? t).
  - intros Hnd. rewrite tlvs_to_py_id, <-list_fmap_compose by done.
    etransitivity; [|apply list_fmap_id]. apply list_fmap_ext. by intros ? [].
Qed.

End Theorems.

(** ** Witnesses *)

Import Smpp34Example.

Lemma tag_from_name_spec_witness : tag_from_name " tlv_message_state " = Some 0x0427.
Proof.
  apply (tag_from_name_spec " tlv_message_state " 0x0427). exists "MESSAGE_STATE".
  split; [reflexivity|]. right. reflexivity.
Defined.

Lemma tlvs_py_roundtrip_witness :
  tlvs_from_py (Some (py_items (tlvs_to_py [mkTlv 0x1400 [byte_of_Z 7]; mkTlv 0x0427 [byte_of_Z 2]])))
  = Ok [mkTlv 0x1400 [byte_of_Z 7]; mkTlv 0x0427 [byte_of_Z 2]].
Proof.
  destruct (tlvs_py_roundtrip [mkTlv 0x1400 [byte_of_Z 7]; mkTlv 0x0427 [byte_of_Z 2]])
    as (out & E & _ & Hid).
  - repeat constructor.
  - rewrite E, Hid; [reflexivity|]. apply (bool_decide_unpack _). vm_compute. exact I.
Defined.

(** The encodings the specification prints for the integer parameters. *)
Example sar_msg_ref_num_bytes :
  value_to_bytes 0x020C (PyInt 4660) = Ok [byte_of_Z 0x12; byte_of_Z 0x34].
Proof. vm_compute. reflexivity. Qed.
Example message_payload_rejects_int :
  value_to_bytes 0x0424 (PyInt 1)
  = Err (ValueError (TlvNotIntegerTyped "MESSAGE_PAYLOAD (0x0424)")).
Proof. vm_compute. reflexivity. Qed.
Example given_twice :
  tlvs_from_py (Some [(PyStr (Some "MESSAGE_STATE"), PyInt 2); (PyInt 0x0427, PyInt 2)])
  = Err (ValueError (TlvGivenTwice "MESSAGE_STATE (0x0427)")).
Proof. vm_compute. reflexivity. Qed.
