(* ===== verification/Pdu.v ===== *)
(** * What a script sees: [pyclasses.rs]

    The classes handed to handlers ([Pdu], [Bind], [AlertNotification],
    [Session]) with the constructors that fill them from decoded PDUs, and the
    values handlers return ([PduReply], [BindResult]).  Delivery receipts are in
    [Receipt.v]. *)

From S2P Require Import Prelude RustStr Py Status Smpp34 Tlv.
#[local] Open Scope Z_scope.

Module Pdu.
Record t : Set := mk {
  command : string;
  message_id : string;
  service_type : string;
  source_addr_ton : Z;
  source_addr_npi : Z;
  source_addr : string;
  dest_addr_ton : Z;
  dest_addr_npi : Z;
  destination_addr : string;
  esm_class : Z;
  protocol_id : Z;
  priority_flag : Z;
  schedule_delivery_time : string;
  validity_period : string;
  registered_delivery : Z;
  replace_if_present_flag : Z;
  data_coding : Z;
  sm_default_msg_id : Z;
  sm_length : Z;
  destinations : list string;
  short_message : bytes;
  tlvs : list Tlv;
}.
End Pdu.

#[export] Instance Pdu_eq_dec : EqDecision Pdu.t.
Proof. solve_decision. Defined.

(** ** Construction from decoded PDUs *)

Definition from_submit (s : submit_sm.t) : Pdu.t := {|
  Pdu.command := "submit_sm";
  Pdu.message_id := "";
  Pdu.service_type := submit_sm.service_type s;
  Pdu.source_addr_ton := submit_sm.source_addr_ton s;
  Pdu.source_addr_npi := submit_sm.source_addr_npi s;
  Pdu.source_addr := submit_sm.source_addr s;
  Pdu.dest_addr_ton := submit_sm.dest_addr_ton s;
  Pdu.dest_addr_npi := submit_sm.dest_addr_npi s;
  Pdu.destination_addr := submit_sm.destination_addr s;
  Pdu.esm_class := submit_sm.esm_class s;
  Pdu.protocol_id := submit_sm.protocol_id s;
  Pdu.priority_flag := submit_sm.priority_flag s;
  Pdu.schedule_delivery_time := submit_sm.schedule_delivery_time s;
  Pdu.validity_period := submit_sm.validity_period s;
  Pdu.registered_delivery := submit_sm.registered_delivery s;
  Pdu.replace_if_present_flag := submit_sm.replace_if_present_flag s;
  Pdu.data_coding := submit_sm.data_coding s;
  Pdu.sm_default_msg_id := submit_sm.sm_default_msg_id s;
  Pdu.sm_length := submit_sm.sm_length s;
  Pdu.destinations := [];
  Pdu.short_message := submit_sm.short_message s;
  Pdu.tlvs := submit_sm.tlvs s;
|}.

Definition from_deliver (d : deliver_sm.t) : Pdu.t := {|
  Pdu.command := "deliver_sm";
  Pdu.message_id := "";
  Pdu.service_type := deliver_sm.service_type d;
  Pdu.source_addr_ton := deliver_sm.source_addr_ton d;
  Pdu.source_addr_npi := deliver_sm.source_addr_npi d;
  Pdu.source_addr := deliver_sm.source_addr d;
  Pdu.dest_addr_ton := deliver_sm.dest_addr_ton d;
  Pdu.dest_addr_npi := deliver_sm.dest_addr_npi d;
  Pdu.destination_addr := deliver_sm.destination_addr d;
  Pdu.esm_class := deliver_sm.esm_class d;
  Pdu.protocol_id := deliver_sm.protocol_id d;
  Pdu.priority_flag := deliver_sm.priority_flag d;
  Pdu.schedule_delivery_time := deliver_sm.schedule_delivery_time d;
  Pdu.validity_period := deliver_sm.validity_period d;
  Pdu.registered_delivery := deliver_sm.registered_delivery d;
  Pdu.replace_if_present_flag := deliver_sm.replace_if_present_flag d;
  Pdu.data_coding := deliver_sm.data_coding d;
  Pdu.sm_default_msg_id := deliver_sm.sm_default_msg_id d;
  Pdu.sm_length := deliver_sm.sm_length d;
  Pdu.destinations := [];
  Pdu.short_message := deliver_sm.short_message d;
  Pdu.tlvs := deliver_sm.tlvs d;
|}.

Definition from_data (d : data_sm.t) : Pdu.t := {|
  Pdu.command := "data_sm";
  Pdu.message_id := "";
  Pdu.service_type := data_sm.service_type d;
  Pdu.source_addr_ton := data_sm.source_addr_ton d;
  Pdu.source_addr_npi := data_sm.source_addr_npi d;
  Pdu.source_addr := data_sm.source_addr d;
  Pdu.dest_addr_ton := data_sm.dest_addr_ton d;
  Pdu.dest_addr_npi := data_sm.dest_addr_npi d;
  Pdu.destination_addr := data_sm.destination_addr d;
  Pdu.esm_class := data_sm.esm_class d;
  Pdu.protocol_id := 0;
  Pdu.priority_flag := 0;
  Pdu.schedule_delivery_time := "";
  Pdu.validity_period := "";
  Pdu.registered_delivery := data_sm.registered_delivery d;
  Pdu.replace_if_present_flag := 0;
  Pdu.data_coding := data_sm.data_coding d;
  Pdu.sm_default_msg_id := 0;
  Pdu.sm_length := 0;
  Pdu.destinations := [];
  Pdu.short_message := [];
  Pdu.tlvs := data_sm.tlvs d;
|}.

Definition from_cancel (c : cancel_sm.t) : Pdu.t := {|
  Pdu.command := "cancel_sm";
  Pdu.message_id := cancel_sm.message_id c;
  Pdu.service_type := cancel_sm.service_type c;
  Pdu.source_addr_ton := cancel_sm.source_addr_ton c;
  Pdu.source_addr_npi := cancel_sm.source_addr_npi c;
  Pdu.source_addr := cancel_sm.source_addr c;
  Pdu.dest_addr_ton := cancel_sm.dest_addr_ton c;
  Pdu.dest_addr_npi := cancel_sm.dest_addr_npi c;
  Pdu.destination_addr := cancel_sm.destination_addr c;
  Pdu.esm_class := 0;
  Pdu.protocol_id := 0;
  Pdu.priority_flag := 0;
  Pdu.schedule_delivery_time := "";
  Pdu.validity_period := "";
  Pdu.registered_delivery := 0;
  Pdu.replace_if_present_flag := 0;
  Pdu.data_coding := 0;
  Pdu.sm_default_msg_id := 0;
  Pdu.sm_length := 0;
  Pdu.destinations := [];
  Pdu.short_message := [];
  Pdu.tlvs := [];
|}.

Definition from_query (q : query_sm.t) : Pdu.t := {|
  Pdu.command := "query_sm";
  Pdu.message_id := query_sm.message_id q;
  Pdu.service_type := "";
  Pdu.source_addr_ton := query_sm.source_addr_ton q;
  Pdu.source_addr_npi := query_sm.source_addr_npi q;
  Pdu.source_addr := query_sm.source_addr q;
  Pdu.dest_addr_ton := 0;
  Pdu.dest_addr_npi := 0;
  Pdu.destination_addr := "";
  Pdu.esm_class := 0;
  Pdu.protocol_id := 0;
  Pdu.priority_flag := 0;
  Pdu.schedule_delivery_time := "";
  Pdu.validity_period := "";
  Pdu.registered_delivery := 0;
  Pdu.replace_if_present_flag := 0;
  Pdu.data_coding := 0;
  Pdu.sm_default_msg_id := 0;
  Pdu.sm_length := 0;
  Pdu.destinations := [];
  Pdu.short_message := [];
  Pdu.tlvs := [];
|}.

Definition from_replace (r : replace_sm.t) : Pdu.t := {|
  Pdu.command := "replace_sm";
  Pdu.message_id := replace_sm.message_id r;
  Pdu.service_type := "";
  Pdu.source_addr_ton := replace_sm.source_addr_ton r;
  Pdu.source_addr_npi := replace_sm.source_addr_npi r;
  Pdu.source_addr := replace_sm.source_addr r;
  Pdu.dest_addr_ton := 0;
  Pdu.dest_addr_npi := 0;
  Pdu.destination_addr := "";
  Pdu.esm_class := 0;
  Pdu.protocol_id := 0;
  Pdu.priority_flag := 0;
  Pdu.schedule_delivery_time := replace_sm.schedule_delivery_time r;
  Pdu.validity_period := replace_sm.validity_period r;
  Pdu.registered_delivery := replace_sm.registered_delivery r;
  Pdu.replace_if_present_flag := 0;
  Pdu.data_coding := 0;
  Pdu.sm_default_msg_id := replace_sm.sm_default_msg_id r;
  Pdu.sm_length := replace_sm.sm_length r;
  Pdu.destinations := [];
  Pdu.short_message := replace_sm.short_message r;
  Pdu.tlvs := [];
|}.

Definition from_submit_multi (m : submit_sm_multi.t) : Pdu.t := {|
  Pdu.command := "submit_sm_multi";
  Pdu.message_id := "";
  Pdu.service_type := submit_sm_multi.service_type m;
  Pdu.source_addr_ton := submit_sm_multi.source_addr_ton m;
  Pdu.source_addr_npi := submit_sm_multi.source_addr_npi m;
  Pdu.source_addr := submit_sm_multi.source_addr m;
  Pdu.dest_addr_ton := 0;
  Pdu.dest_addr_npi := 0;
  Pdu.destination_addr := "";
  Pdu.esm_class := submit_sm_multi.esm_class m;
  Pdu.protocol_id := submit_sm_multi.protocol_id m;
  Pdu.priority_flag := submit_sm_multi.priority_flag m;
  Pdu.schedule_delivery_time := submit_sm_multi.schedule_delivery_time m;
  Pdu.validity_period := submit_sm_multi.validity_period m;
  Pdu.registered_delivery := submit_sm_multi.registered_delivery m;
  Pdu.replace_if_present_flag := submit_sm_multi.replace_if_present_flag m;
  Pdu.data_coding := submit_sm_multi.data_coding m;
  Pdu.sm_default_msg_id := submit_sm_multi.sm_default_msg_id m;
  Pdu.sm_length := submit_sm_multi.sm_length m;
  Pdu.destinations := (fun d => match d with
                                  | Sme _ _ destination_addr => destination_addr
                                  | DistributionList dl_name => dl_name
                                  end) <$> submit_sm_multi.dest_addresses m;
  Pdu.short_message := submit_sm_multi.short_message m;
  Pdu.tlvs := submit_sm_multi.tlvs m;
|}.

(** ** The handler's reply *)

Module PduReply.
Record t : Set := mk {
  command_status : SmppError;
  message_id : option string;
  message_state : option Z;
  final_date : string;
  error_code : Z;
  tlvs : list Tlv;
}.

Definition default_ok : t := mk ESME_ROK None None "" 0 [].
End PduReply.

(** [PduReply(...)] called by a script. *)
Definition PduReply_new `{Smpp34} (command_status : string) (message_id : option string)
    (tlvs : option (list (PyObj * PyObj))) : result PyErr PduReply.t :=
  command_status ← parse_smpp_status command_status;
  tlvs ← tlvs_from_py tlvs;
  Ok (PduReply.mk command_status message_id None "" 0 tlvs).

(** ** [Pdu] methods *)

Section Methods.
Context `{Smpp34}.

Definition is_tpdu (self : Pdu.t) : bool := negb (Z.land (Pdu.esm_class self) 0x40 =? 0).
Definition is_dlr (self : Pdu.t) : bool := negb (Z.land (Pdu.esm_class self) 0x04 =? 0).

Definition body (self : Pdu.t) : bytes :=
  match message_payload (Pdu.tlvs self) with
  | Some payload => payload
  | None => Pdu.short_message self
  end.

Definition pdu_message_payload (self : Pdu.t) : option bytes := message_payload (Pdu.tlvs self).

Definition pdu_tlvs (self : Pdu.t) : list (Z * bytes) := tlvs_to_py (Pdu.tlvs self).

Definition pdu_tlv (self : Pdu.t) (key : PyObj) : result PyErr (option bytes) :=
  t ← tag_from_py key; Ok (value <$> get_tlv_raw (Pdu.tlvs self) t).

Definition pdu_receipted_message_id (self : Pdu.t) : option string :=
  receipted_message_id (Pdu.tlvs self).
Definition pdu_message_state (self : Pdu.t) : option Z := message_state (Pdu.tlvs self).
Definition pdu_user_message_reference (self : Pdu.t) : option Z :=
  user_message_reference (Pdu.tlvs self).
Definition pdu_sar_msg_ref_num (self : Pdu.t) : option Z := sar_msg_ref_num (Pdu.tlvs self).
Definition pdu_sar_total_segments (self : Pdu.t) : option Z := sar_total_segments (Pdu.tlvs self).
Definition pdu_sar_segment_seqnum (self : Pdu.t) : option Z := sar_segment_seqnum (Pdu.tlvs self).
Definition pdu_more_messages_to_send (self : Pdu.t) : option Z :=
  more_messages_to_send (Pdu.tlvs self).
Definition pdu_network_error_code (self : Pdu.t) : option (Z * Z) :=
  network_error_code (Pdu.tlvs self).

Definition reply (self : Pdu.t) (command_status : string) (message_id : option string)
    (tlvs : option (list (PyObj * PyObj))) : result PyErr PduReply.t :=
  cs ← parse_smpp_status command_status;
  tlvs ← tlvs_from_py tlvs;
  if negb (bool_decide (tlvs = [])) && negb (String.eqb (Pdu.command self) "data_sm")
  then Err (ValueError (ReplyTlvsUnsupported (Pdu.command self)))
  else Ok (PduReply.mk cs message_id None "" 0 tlvs).

Definition reply_query (self : Pdu.t) (message_state : Z) (message_id : option string)
    (final_date : string) (error_code : Z) : PduReply.t :=
  PduReply.mk ESME_ROK (opt_or message_id (Some (Pdu.message_id self))) (Some message_state)
    final_date error_code [].

End Methods.

(** ** Binds *)

Module BindResult.
Record t : Set := mk { accept : bool; status : SmppError; reason : string }.
End BindResult.

Module Bind.
Record t : Set := mk { system_id : string; password : string; client_addr : string }.

Definition accept (self : t) : BindResult.t := BindResult.mk true ESME_ROK "".

Definition reject (self : t) (status reason : string) : result PyErr BindResult.t :=
  status ← parse_smpp_status status; Ok (BindResult.mk false status reason).
End Bind.

(** [bool(result)]. *)
Definition BindResult_bool (self : BindResult.t) : bool := BindResult.accept self.

(** ** Alerts and sessions *)

Module AlertNotification.
Record t : Set := mk {
  source_addr : string; esme_addr : string; ms_availability_status : option Z;
}.

Definition from_alert (a : alert_notification.t) : t :=
  mk (alert_notification.source_addr a) (alert_notification.esme_addr a)
    (alert_notification.ms_availability_status a).
End AlertNotification.

Inductive SourceKind : Set := SourceBind | EsmeServer.

Module Session.
Record t : Set := mk {
  kind : SourceKind; session_id : string; system_id : string; client_addr : string;
}.

(** The [kind] a script reads. *)
Definition kind_name (self : t) : string :=
  match kind self with SourceBind => "bind" | EsmeServer => "esme" end.
End Session.
