(* ===== verification/Async.v ===== *)
(** * Asynchronous code as programs over effects

    An [async fn] is a tree of effects: at each [Vis] it performs one effect and
    continues with the answer, which the environment (the peer, the script, the
    clock, another task holding the lock in between) chooses.  [Iter] is a loop.
    [runs p tr a] says that [p] can finish with [a] having performed the effects
    of [tr] with the recorded answers; a statement about every run therefore
    holds whatever the other tasks do between two effects of this one.

    An effect whose answer type is [X] and whose body is a function on shared
    state is a critical section: the guard is taken, the body runs, the guard is
    dropped. *)

From S2P Require Import Prelude.

Section Prog.
Context {E : Type -> Type}.

Inductive prog : Type -> Type :=
| Ret {A} (a : A) : prog A
| Vis {A X} (e : E X) (k : X -> prog A) : prog A
| Iter {A S B} (body : S -> prog (S + B)) (s : S) (k : B -> prog A) : prog A.

Fixpoint bind {A B} (f : A -> prog B) (p : prog A) : prog B :=
  match p in prog A return (A -> prog B) -> prog B with
  | Ret a => fun f => f a
  | Vis e k => fun f => Vis e (fun x => bind f (k x))
  | Iter body s k => fun f => Iter body s (fun b => bind f (k b))
  end f.

(** Perform one effect. *)
Definition trigger {X} (e : E X) : prog X := Vis e Ret.

(** [loop { .. }]: [inl] goes round again, [inr] leaves. *)
Definition iter {S B} (body : S -> prog (S + B)) (s : S) : prog B := Iter body s Ret.

(** ** Runs *)

Inductive event : Type :=
| Ev {X} (e : E X) (answer : X).

Definition trace := list event.

(** The turns of a loop, given the runs of its body. *)
Inductive turns {S B} (R : S -> trace -> S + B -> Prop) : S -> trace -> B -> Prop :=
| turns_done s tr b : R s tr (inr b) -> turns R s tr b
| turns_more s tr s' tr' b :
    R s tr (inl s') -> turns R s' tr' b -> turns R s (tr ++ tr') b.

Fixpoint runs {A} (p : prog A) (tr : trace) (a : A) : Prop :=
  match p in prog A return A -> Prop with
  | Ret b => fun a => tr = [] /\ a = b
  | Vis e k => fun a => exists x tr', tr = Ev e x :: tr' /\ runs (k x) tr' a
  | @Iter _ T B body s k => fun a =>
      exists tr1 tr2 b, tr = tr1 ++ tr2 /\ turns (fun s => runs (body s)) s tr1 b /\ runs (k b) tr2 a
  end a.

(** Every effect [p] can perform satisfies [P]. *)
Fixpoint always (P : forall X, E X -> Prop) {A} (p : prog A) : Prop :=
  match p with
  | Ret _ => True
  | Vis e k => P _ e /\ forall x, always P (k x)
  | Iter body s k => (forall s, always P (body s)) /\ forall b, always P (k b)
  end.

(** [p] is a finite tree: it never loops, so it returns under every
    environment that answers its effects. *)
Fixpoint loop_free {A} (p : prog A) : Prop :=
  match p with
  | Ret _ => True
  | Vis e k => forall x, loop_free (k x)
  | Iter _ _ _ => False
  end.

(** The result under an environment that answers every effect by a function,
    for closed examples. *)
Fixpoint run_with (h : forall X, E X -> X) {A} (p : prog A) : option A :=
  match p with
  | Ret a => Some a
  | Vis e k => run_with h (k (h _ e))
  | Iter _ _ _ => None
  end.

(** ** Laws *)

Lemma runs_ret {A} (a b : A) tr : runs (Ret a) tr b <-> tr = [] /\ b = a.
Proof. done. Qed.

Lemma runs_vis {A X} (e : E X) (k : X -> prog A) tr a :
  runs (Vis e k) tr a <-> exists x tr', tr = Ev e x :: tr' /\ runs (k x) tr' a.
Proof. done. Qed.

Lemma runs_iter {T B} (body : T -> prog (T + B)) s tr b :
  runs (iter body s) tr b <-> turns (fun s => runs (body s)) s tr b.
Proof.
  split.
  - intros (tr1 & tr2 & b' & -> & ? & -> & ->). by rewrite app_nil_r.
  - intros. exists tr, [], b. by rewrite app_nil_r.
Qed.

Lemma runs_trigger {X} (e : E X) tr x : runs (trigger e) tr x <-> tr = [Ev e x].
Proof. cbn. naive_solver. Qed.

Lemma runs_bind {A B} (p : prog A) (f : A -> prog B) tr b :
  runs (bind f p) tr b <->
  exists tr1 tr2 a, tr = tr1 ++ tr2 /\ runs p tr1 a /\ runs (f a) tr2 b.
Proof.
  revert tr. induction p as [A a|A X e k IH|A T B0 body IHb s k IH]; intros tr; cbn.
  - split; [intros; by exists [], tr, a|]. intros (? & ? & ? & -> & [-> ->] & ?). assumption.
  - split.
    + intros (x & tr' & -> & (tr1 & tr2 & a & -> & ? & ?)%IH).
      exists (Ev e x :: tr1), tr2, a. split; [done|]. eauto.
    + intros (? & tr2 & a & -> & (x & tr' & -> & ?) & ?).
      exists x, (tr' ++ tr2). split; [done|]. apply IH. eauto 6.
  - split.
    + intros (tr1 & ? & b' & -> & ? & (tr2 & tr3 & a & -> & ? & ?)%IH).
      exists (tr1 ++ tr2), tr3, a. rewrite app_assoc. split; [done|]. eauto 7.
    + intros (? & tr3 & a & -> & (tr1 & tr2 & b' & -> & ? & ?) & ?).
      exists tr1, (tr2 ++ tr3), b'. rewrite app_assoc. split; [done|]. split; [done|].
      apply IH. eauto 6.
Qed.

Lemma always_bind (P : forall X, E X -> Prop) {A B} (p : prog A) (f : A -> prog B) :
  always P p -> (forall a, always P (f a)) -> always P (bind f p).
Proof. induction p; cbn; naive_solver. Qed.

Lemma always_mono (P Q : forall X, E X -> Prop) {A} (p : prog A) :
  (forall X e, P X e -> Q X e) -> always P p -> always Q p.
Proof. intros HPQ. induction p; cbn; naive_solver. Qed.

Lemma always_runs (P : forall X, E X -> Prop) {A} (p : prog A) tr a :
  always P p -> runs p tr a -> Forall (fun ev => match ev with Ev e _ => P _ e end) tr.
Proof.
  revert tr. induction p as [A a'|A X e k IH|A T B0 body IHb s k IH]; intros tr; cbn.
  - by intros _ [-> _].
  - intros [? ?] (x & tr' & -> & ?). constructor; eauto.
  - intros [Hb Hk] (tr1 & tr2 & b & -> & Ht & Hr). apply list.Forall_app. split; [|by eapply IH].
    clear Hr. induction Ht; [by eapply IHb|]. apply list.Forall_app.
    split; [by eapply IHb|auto].
Qed.

Lemma loop_free_bind {A B} (p : prog A) (f : A -> prog B) :
  loop_free p -> (forall a, loop_free (f a)) -> loop_free (bind f p).
Proof. induction p; cbn; naive_solver. Qed.

Lemma run_with_bind h {A B} (p : prog A) (f : A -> prog B) :
  run_with h (bind f p) = (a ← run_with h p; run_with h (f a)).
Proof. induction p; cbn; auto. Qed.

(** A program that does not loop returns under every environment. *)
Lemma loop_free_returns h {A} (p : prog A) : loop_free p -> exists a, run_with h p = Some a.
Proof. induction p; cbn; naive_solver. Qed.

End Prog.

Arguments prog E : clear implicits.
Arguments event E : clear implicits.
Arguments trace E : clear implicits.

(** [result]-valued programs: [?] in an [async fn]. *)
Definition try {E Er A B} (p : prog E (result Er A)) (f : A -> prog E (result Er B))
    : prog E (result Er B) :=
  bind (fun r => match r with Ok a => f a | Err e => Ret (Err e) end) p.

Declare Scope async_scope.
Delimit Scope async_scope with async.
Notation "x <-? p ; k" := (try p (fun x => k%async))
  (at level 20, p at level 100, k at level 200, right associativity) : async_scope.
Notation "x <- p ; k" := (bind (fun x => k%async) p)
  (at level 20, p at level 100, k at level 200, right associativity) : async_scope.
Notation "p ;; k" := (bind (fun _ => k%async) p)
  (at level 100, k at level 200, right associativity) : async_scope.

(** Take a run apart, one effect at a time. *)
Ltac run_step :=
  match goal with
  | H : runs (bind _ _) _ _ |- _ =>
      let tr1 := fresh "tr" in let tr2 := fresh "tr" in let a := fresh "a" in
      let H1 := fresh "Hrun" in let H2 := fresh "Hrun" in
      apply runs_bind in H as (tr1 & tr2 & a & -> & H1 & H2)
  | H : runs (try _ _) _ _ |- _ => unfold try in H
  | H : runs (trigger _) _ _ |- _ => apply runs_trigger in H; subst
  | H : runs (Ret _) _ _ |- _ => apply runs_ret in H as [-> H]; simplify_eq
  end.

(** Prove a condition on every effect of a program, branch by branch. *)
Ltac always_tac :=
  repeat match goal with
    | |- always _ (bind _ _) => apply always_bind
    | |- always _ (try _ _) => unfold try
    | |- always _ (trigger _) => split; [|intros; exact I]
    | |- always _ (Ret _) => exact I
    | |- always _ (Vis _ _) => split
    | |- always _ (iter _ _) => split; [|intros; exact I]
    | |- always _ (match ?x with _ => _ end) => destruct x
    | |- always _ (let '(_, _) := ?x in _) => destruct x
    | |- forall _, _ => intros
    end; try exact I; try done.
