(* ===== verification/Threads.v ===== *)
(** * Tasks side by side

    [Async.runs] describes one task whose effects the environment answers.  Here
    several tasks take turns on one shared state: [step] performs one effect of a
    task, [sstep] lets any task of a pool do so, and [exec] is a sequence of such
    turns.  [wp] is the condition on a task that makes an invariant of the shared
    state provable: every effect it performs respects the protocol, given the
    facts its earlier effects established, which never become false. *)

From S2P Require Import Prelude Async.

(** ** One task, step by step *)

Section Step.
Context {E : Type -> Type}.

(** One effect, or the start of a loop's turn. *)
Definition step {A} (p : prog E A) (o : option (event E)) (p' : prog E A) : Prop :=
  match p in prog _ A return prog E A -> Prop with
  | Ret _ => fun _ => False
  | Vis e k => fun p' => exists x, o = Some (Ev e x) /\ p' = k x
  | Iter body s k => fun p' => o = None /\
      p' = bind (fun r => match r with inl s => Iter body s k | inr b => k b end) (body s)
  end p'.

Definition events_of (o : option (event E)) : trace E :=
  match o with Some ev => [ev] | None => [] end.

Inductive steps {A} : prog E A -> trace E -> prog E A -> Prop :=
| steps_refl p : steps p [] p
| steps_step p o p' tr p'' : step p o p' -> steps p' tr p'' -> steps p (events_of o ++ tr) p''.

Lemma steps_trans {A} (p p' p'' : prog E A) tr tr' :
  steps p tr p' -> steps p' tr' p'' -> steps p (tr ++ tr') p''.
Proof. induction 1; intros; [done|]. rewrite <-app_assoc. econstructor; eauto. Qed.

Lemma step_runs {A} (p p' : prog E A) o tr a :
  step p o p' -> runs p' tr a -> runs p (events_of o ++ tr) a.
Proof.
  destruct p as [A a0|A X e k|A S B body s k]; cbn; [done| |].
  - intros (x & -> & ->) Hr. eauto.
  - intros [-> ->] Hr. apply runs_bind in Hr as (tr1 & tr2 & [s'|b] & -> & Hb & Hr); cbn in Hr.
    + destruct Hr as (tr3 & tr4 & b & -> & Ht & Hk).
      exists (tr1 ++ tr3), tr4, b. split; [by cbn; rewrite app_assoc|]. split; [|done].
      by eapply turns_more.
    + exists tr1, tr2, b. split; [done|]. split; [by apply turns_done|done].
Qed.

Lemma steps_runs {A} (p p' : prog E A) tr tr' a :
  steps p tr p' -> runs p' tr' a -> runs p (tr ++ tr') a.
Proof.
  induction 1 as [|p o p' tr p'' Hs _ IH]; intros Hr; [done|].
  rewrite <-app_assoc. eapply step_runs; [exact Hs|]. auto.
Qed.

Lemma turns_steps {A T B} (body : T -> prog E (T + B)) (k : B -> prog E A) :
  (forall s tr r, runs (body s) tr r ->
     forall f : T + B -> prog E A, steps (bind f (body s)) tr (f r)) ->
  forall s tr b, turns (fun s => runs (body s)) s tr b -> steps (Iter body s k) tr (k b).
Proof.
  intros Hb s tr b Ht.
  induction Ht as [s tr b Hr|s tr s' tr' b Hr _ IH];
    (eapply (steps_step _ None); [by split|]; cbn [events_of app]).
  - exact (Hb _ _ _ Hr (fun r => match r with inl s => Iter body s k | inr b => k b end)).
  - eapply steps_trans; [|exact IH].
    exact (Hb _ _ _ Hr (fun r => match r with inl s => Iter body s k | inr b => k b end)).
Qed.

Lemma runs_steps_bind {A B} (p : prog E A) (f : A -> prog E B) tr a :
  runs p tr a -> steps (bind f p) tr (f a).
Proof.
  revert B f tr a. induction p as [A a0|A X e k IH|A T B0 body IHb s k IH]; intros B f tr a.
  - intros [-> ->]. constructor.
  - intros (x & tr' & -> & Hr). eapply (steps_step _ (Some (Ev e x))); [by exists x|]. by apply IH.
  - intros (tr1 & tr2 & b & -> & Ht & Hr). eapply steps_trans; [|by apply IH].
    cbn. eapply (turns_steps body (fun b => bind f (k b))); [|exact Ht]. intros s' tr r Hr' f'. by apply IHb.
Qed.

(** The big steps of [runs] are sequences of small ones. *)
Theorem runs_steps {A} (p : prog E A) tr a : runs p tr a <-> steps p tr (Ret a).
Proof.
  split; [|intros Hs; rewrite <-(app_nil_r tr); eapply steps_runs; [exact Hs|done]].
  revert tr a. induction p as [A a0|A X e k IH|A T B0 body _ s k IH]; intros tr a.
  - intros [-> ->]. constructor.
  - intros (x & tr' & -> & Hr). eapply (steps_step _ (Some (Ev e x))); [by exists x|]. by apply IH.
  - intros (tr1 & tr2 & b & -> & Ht & Hr). eapply steps_trans; [|by apply IH].
    eapply turns_steps; [|exact Ht]. intros s' tr r Hr' f'. by apply runs_steps_bind.
Qed.

Lemma steps_nil_vis {A X} (e : E X) (c : X -> prog E A) q : steps (Vis e c) [] q -> q = Vis e c.
Proof.
  intros Hs. inversion Hs as [|p o p' tr q' Hst Hs']; subst; [done|].
  destruct Hst as (x & -> & ->). done.
Qed.

(** A program that starts with an effect did that one first. *)
Lemma steps_vis_inv {A X} (e : E X) (c : X -> prog E A) ev tr q :
  steps (Vis e c) (ev :: tr) q -> exists x, ev = Ev e x /\ steps (c x) tr q.
Proof.
  intros Hs. remember (Vis e c) as p eqn:Ep. remember (ev :: tr) as tr0 eqn:Et.
  destruct Hs as [p|p o p' tr' q Hst Hs]; [done|]. subst p. destruct Hst as (x & -> & ->).
  injection Et as <- <-. by exists x.
Qed.

(** The moment before an event. *)
Lemma steps_split {A} (p : prog E A) tr1 ev tr2 q :
  steps p (tr1 ++ ev :: tr2) q -> exists p1 p2, steps p tr1 p1 /\ step p1 (Some ev) p2 /\ steps p2 tr2 q.
Proof.
  intros Hs. remember (tr1 ++ ev :: tr2) as tr eqn:Et. revert tr1 Et.
  induction Hs as [p|p o p' tr q Hst Hs IH]; intros tr1 Et; [by destruct tr1|].
  destruct o as [ev'|]; cbn [events_of app] in Et.
  - destruct tr1 as [|ev1 tr1]; cbn [app] in Et; injection Et as -> Et.
    + subst tr. exists p, p'. split; [constructor|done].
    + destruct (IH _ Et) as (p1 & p2 & H1 & H2). exists p1, p2. split; [|done].
      by apply (steps_step _ (Some ev1) p').
  - destruct (IH _ Et) as (p1 & p2 & H1 & H2). exists p1, p2. split; [|done].
    by apply (steps_step _ None p').
Qed.

End Step.

(** ** What a task knows *)

(** [P k e]: with the facts [k], [e] is an effect the protocol allows; [gain e x]
    are the facts the answer [x] adds.  A turn of a loop may start with whatever
    facts the turns before it added; what follows the loop knows those of its
    last one. *)
Section Wp.
Context {E : Type -> Type} {F : Type}.
Context (P : list F -> forall X, E X -> Prop) (gain : forall X, E X -> X -> list F).

Fixpoint wp {A} (k : list F) (p : prog E A) (Q : list F -> A -> Prop) : Prop :=
  match p in prog _ A return (list F -> A -> Prop) -> Prop with
  | Ret a => fun Q => Q k a
  | Vis e c => fun Q => P k _ e /\ forall x, wp (gain _ e x ++ k) (c x) Q
  | @Iter _ A T B body s c => fun Q =>
      forall k' s, k ⊆ k' ->
        wp k' (body s) (fun k2 r => match r with inl _ => True | inr b => wp k2 (c b) Q end)
  end Q.

Lemma wp_post {A} k (p : prog E A) Q Q' :
  wp k p Q -> (forall k' a, k ⊆ k' -> Q k' a -> Q' k' a) -> wp k p Q'.
Proof.
  revert k. induction p as [A a|A X e c IH|A T B body IHb s c IH]; intros k; cbn.
  - intros HQ HQQ. by apply HQQ.
  - intros [He Hc] HQQ. split; [done|]. intros x. eapply IH; [apply Hc|].
    intros k' a Hk. apply HQQ. set_solver.
  - intros Hb HQQ k' s' Hk. eapply IHb; [by apply Hb|]. intros k2 [s2|b] Hk2; [done|].
    intros Hc. eapply IH; [exact Hc|]. intros k3 a Hk3. apply HQQ. set_solver.
Qed.

Lemma wp_bind {A B} k (p : prog E A) (f : A -> prog E B) Q :
  wp k p (fun k' a => wp k' (f a) Q) -> wp k (bind f p) Q.
Proof.
  revert k. induction p as [A a|A X e c IH|A T B0 body _ s c IH]; intros k; cbn; [done| |].
  - intros [? Hc]. split; [done|]. intros x. by apply IH.
  - intros Hb k' s' Hk. eapply wp_post; [by apply Hb|]. intros k2 [s2|b] _; [done|]. by apply IH.
Qed.

(** A task whose effects need no fact. *)
Lemma always_wp {A} k (p : prog E A) :
  always (fun X e => forall k, P k X e) p -> wp k p (fun _ _ => True).
Proof.
  revert k. induction p as [A a|A X e c IH|A T B body IHb s c IH]; intros k; cbn; [done|naive_solver|].
  intros [Hb Hc] k' s' _. eapply wp_post; [by apply IHb|]. intros k2 [s2|b] _ _; [done|by apply IH].
Qed.

(** A task of whose effects the facts at hand allow all there are. *)
Lemma wp_from {A} (ok : forall X, E X -> Prop) k (p : prog E A) :
  always ok p -> (forall k' X e, k ⊆ k' -> ok X e -> P k' X e) -> wp k p (fun _ _ => True).
Proof.
  intros Hp Hk. assert (k ⊆ k) as Hkk by done. revert Hp Hkk. generalize k at 2 3.
  induction p as [A a|A X e c IH|A T B body IHb s c IH]; intros k0; cbn; [done| |].
  - intros [He Hc] Hk0. split; [by apply Hk|]. intros x. apply IH; [apply Hc|set_solver].
  - intros [Hb Hc] Hk0 k' s' Hk'. eapply wp_post; [apply IHb; [apply Hb|set_solver]|].
    intros k2 [s2|b] Hk2 _; [done|]. apply IH; [apply Hc|set_solver].
Qed.

(** One step keeps the condition, and its effect is allowed. *)
Definition gained (o : option (event E)) : list F :=
  match o with Some (Ev e x) => gain _ e x | None => [] end.

Lemma wp_step {A} k (p p' : prog E A) o :
  wp k p (fun _ _ => True) -> step p o p' ->
  wp (gained o ++ k) p' (fun _ _ => True) /\
  match o with Some (Ev e _) => P k _ e | None => True end.
Proof.
  destruct p as [A a|A X e c|A T B body s c]; cbn; [done| |].
  - intros [He Hc] (x & -> & ->). split; [apply Hc|done].
  - intros Hb [-> ->]. split; [|done]. apply wp_bind. eapply wp_post; [by apply Hb|].
    intros k' [s'|b] Hk; cbn; [|done]. intros _ k2 s2 Hk2. apply Hb. set_solver.
Qed.

End Wp.

(** *** What a task did so far

    With its own events as the facts, a condition on each effect given the ones
    before it. *)
Section Obeys.
Context {E : Type -> Type} (R : trace E -> forall X, E X -> Prop).

Definition recorded X (e : E X) (x : X) : list (event E) := [Ev e x].
Definition allowed (k : list (event E)) X (e : E X) : Prop := R (rev k) X e.

Definition obeys {A} (tr : trace E) (p : prog E A) : Prop :=
  wp allowed recorded (rev tr) p (fun _ _ => True).

Lemma obeys_steps {A} tr (p q : prog E A) tr' :
  obeys tr p -> steps p tr' q -> obeys (tr ++ tr') q.
Proof.
  intros Hp Hs. revert tr Hp. induction Hs as [p|p o p1 tr1 p2 Hst _ IH]; intros tr Hp.
  - by rewrite app_nil_r.
  - destruct (wp_step _ _ _ _ _ _ Hp Hst) as [Hp1 _]. rewrite app_assoc. apply IH.
    unfold obeys. rewrite rev_app_distr. by destruct o as [[X e x]|].
Qed.

(** The next effect of a task that did [tr']. *)
Lemma obeys_next {A} tr (p q q' : prog E A) tr' X (e : E X) x :
  obeys tr p -> steps p tr' q -> step q (Some (Ev e x)) q' -> R (tr ++ tr') X e.
Proof.
  intros Hp Hs Hst. apply (obeys_steps _ _ _ _ Hp) in Hs.
  destruct (wp_step _ _ _ _ _ _ Hs Hst) as [_ Ha]. unfold allowed in Ha. by rewrite rev_involutive in Ha.
Qed.

End Obeys.

(** ** A pool of tasks over a shared state *)

Record Thread (E : Type -> Type) : Type := mkThread { th_type : Type; th_prog : prog E th_type }.
Arguments mkThread {E th_type} th_prog.
Arguments th_type {E} _.
Arguments th_prog {E} _.

Section Pool.
Context {E : Type -> Type} {W : Type}.
(** How the shared state answers an effect, how it moves on its own, and which
    tasks may be started. *)
Context (wstep : W -> forall X, E X -> X -> W -> Prop) (tick : W -> W -> Prop).
Context (service : Thread E -> Prop).

Definition sys : Type := W * list (Thread E).

Inductive sstep : sys -> option (event E) -> sys -> Prop :=
| sstep_run w pool i A (p p' : prog E A) X (e : E X) x w' :
    pool !! i = Some (mkThread p) -> step p (Some (Ev e x)) p' -> wstep w X e x w' ->
    sstep (w, pool) (Some (Ev e x)) (w', <[i := mkThread p']> pool)
| sstep_turn w pool i A (p p' : prog E A) :
    pool !! i = Some (mkThread p) -> step p None p' -> sstep (w, pool) None (w, <[i := mkThread p']> pool)
| sstep_spawn w pool t : service t -> sstep (w, pool) None (w, pool ++ [t])
| sstep_tick w pool w' : tick w w' -> sstep (w, pool) None (w', pool).

Inductive exec : sys -> trace E -> sys -> Prop :=
| exec_refl s : exec s [] s
| exec_step s o s' tr s'' : sstep s o s' -> exec s' tr s'' -> exec s (events_of o ++ tr) s''.

Lemma exec_trans s tr s' tr' s'' : exec s tr s' -> exec s' tr' s'' -> exec s (tr ++ tr') s''.
Proof. induction 1; intros; [done|]. rewrite <-app_assoc. econstructor; eauto. Qed.

Lemma exec_run w pool i A (p p' : prog E A) X (e : E X) x w' tr s :
  pool !! i = Some (mkThread p) -> step p (Some (Ev e x)) p' -> wstep w X e x w' ->
  exec (w', <[i := mkThread p']> pool) tr s -> exec (w, pool) (Ev e x :: tr) s.
Proof. intros. eapply (exec_step _ (Some (Ev e x))); [by eapply sstep_run|done]. Qed.

Lemma exec_spawn w pool t tr s :
  service t -> exec (w, pool ++ [t]) tr s -> exec (w, pool) tr s.
Proof. intros. eapply (exec_step _ None); [by apply sstep_spawn|done]. Qed.

Lemma exec_tick w pool w' tr s : tick w w' -> exec (w', pool) tr s -> exec (w, pool) tr s.
Proof. intros. eapply (exec_step _ None); [by eapply sstep_tick|done]. Qed.

Lemma exec_app tr1 tr2 s s' :
  exec s (tr1 ++ tr2) s' -> exists s1, exec s tr1 s1 /\ exec s1 tr2 s'.
Proof.
  intros Hr. remember (tr1 ++ tr2) as tr eqn:Et. revert tr1 Et.
  induction Hr as [s|s o s1 tr s2 Hst Hr IH]; intros tr1 Et.
  - symmetry in Et. apply app_nil in Et as [-> ->]. exists s. split; constructor.
  - destruct o as [ev|]; cbn in Et.
    + destruct tr1 as [|ev' tr1]; cbn in Et.
      * subst tr2. exists s. split; [constructor|]. by eapply (exec_step _ (Some ev)).
      * injection Et as -> Et. destruct (IH _ Et) as (s1' & H1 & H2). exists s1'. split; [|done].
        by eapply (exec_step _ (Some ev')).
    + destruct (IH _ Et) as (s1' & H1 & H2). exists s1'. split; [|done].
      by eapply (exec_step _ None).
Qed.

(** The states around the first effect of an execution. *)
Lemma exec_head s ev tr s' :
  exec s (ev :: tr) s' ->
  exists s1 s2, exec s [] s1 /\ (let 'Ev e x := ev in wstep s1.1 _ e x s2.1) /\
    exec s [ev] s2 /\ exec s2 tr s'.
Proof.
  intros Hr. remember (ev :: tr) as tr0 eqn:Et.
  induction Hr as [s|s o s1 tr1 s2 Hst Hr IH]; [done|]. destruct o as [ev'|]; cbn in Et.
  - injection Et as -> ->. exists s, s1. split; [constructor|].
    split; [|split; [|done]; apply (exec_step _ _ _ [] _ Hst), exec_refl].
    change (match Some ev with Some (Ev e x) => wstep s.1 _ e x s1.1 | None => True end).
    by destruct Hst.
  - destruct (IH Et) as (s3 & s4 & H3 & Hw & H4 & H5). exists s3, s4.
    repeat split; [by eapply (exec_step _ None)|done|by eapply (exec_step _ None)|done].
Qed.

(** One task of the pool runs while the others wait. *)
Inductive alone {A} : W -> prog E A -> trace E -> W -> prog E A -> Prop :=
| alone_refl w p : alone w p [] w p
| alone_run w X (e : E X) c x w1 tr w2 p :
    wstep w X e x w1 -> alone w1 (c x) tr w2 p -> alone w (Vis e c) (Ev e x :: tr) w2 p
| alone_turn w p p1 tr w2 p2 : step p None p1 -> alone w p1 tr w2 p2 -> alone w p tr w2 p2.

Lemma exec_alone {A} w (p : prog E A) tr w' p' before after :
  alone w p tr w' p' ->
  exec (w, before ++ mkThread p :: after) tr (w', before ++ mkThread p' :: after).
Proof.
  assert (forall q q' : prog E A, <[length before := mkThread q']> (before ++ mkThread q :: after)
            = before ++ mkThread q' :: after) as Hins.
  { intros q q'. rewrite insert_app_r_alt by done. by rewrite Nat.sub_diag. }
  induction 1 as [w p|w X e c x w1 tr w2 p Hw Hal IH|w p p1 tr w2 p2 Hst Hal IH].
  - constructor.
  - eapply (exec_run _ _ (length before)); [by apply list_lookup_middle|by exists x|exact Hw|].
    by rewrite Hins.
  - eapply (exec_step _ None); [eapply (sstep_turn _ _ (length before));
      [by apply list_lookup_middle|exact Hst]|]. by rewrite Hins.
Qed.

(** *** Who did what

    An execution that keeps a log: every effect with the task that performed it
    and the state it was performed on.  A task goes by its number, in the order the
    tasks were started. *)

Record entry : Type := mkEntry { en_task : nat; en_world : W; en_event : event E }.

Record history : Type := mkHistory {
  h_tasks : list (Thread E);
  h_log : list entry;
  h_state : sys;
}.

Inductive hstep : history -> option entry -> history -> Prop :=
| hstep_run ts log w pool i t X (e : E X) x p w' :
    pool !! i = Some t -> step (th_prog t) (Some (Ev e x)) p -> wstep w X e x w' ->
    hstep (mkHistory ts log (w, pool)) (Some (mkEntry i w (Ev e x)))
      (mkHistory ts (log ++ [mkEntry i w (Ev e x)]) (w', <[i := mkThread p]> pool))
| hstep_turn ts log w pool i t p :
    pool !! i = Some t -> step (th_prog t) None p ->
    hstep (mkHistory ts log (w, pool)) None (mkHistory ts log (w, <[i := mkThread p]> pool))
| hstep_spawn ts log w pool t :
    service t -> hstep (mkHistory ts log (w, pool)) None (mkHistory (ts ++ [t]) log (w, pool ++ [t]))
| hstep_tick ts log w pool w' :
    tick w w' -> hstep (mkHistory ts log (w, pool)) None (mkHistory ts log (w', pool)).

(** From one history to a later one, and what was logged on the way. *)
Inductive during : history -> list entry -> history -> Prop :=
| during_refl H : during H [] H
| during_step H o H1 h H2 : hstep H o H1 -> during H1 h H2 -> during H (option_list o ++ h) H2.

Definition start (w : W) : history := mkHistory [] [] (w, []).

(** What one task did. *)
Definition own (i : nat) (h : list entry) : trace E :=
  en_event <$> List.filter (fun en => (en_task en =? i)%nat) h.

Lemma own_app i h1 h2 : own i (h1 ++ h2) = own i h1 ++ own i h2.
Proof. unfold own. by rewrite List.filter_app, fmap_app. Qed.

Lemma own_same i w ev : own i [mkEntry i w ev] = [ev].
Proof. unfold own. cbn. by rewrite Nat.eqb_refl. Qed.

Lemma own_other i j w ev : i <> j -> own j [mkEntry i w ev] = [].
Proof. unfold own. cbn. intros Hne%Nat.eqb_neq. by rewrite Hne. Qed.

(** Where an event of a task is in the log. *)
Lemma own_cons_inv i h ev tr :
  own i h = ev :: tr ->
  exists h1 en h2, h = h1 ++ en :: h2 /\ en_task en = i /\ en_event en = ev /\ own i h1 = [] /\ own i h2 = tr.
Proof.
  induction h as [|en h IH]; [done|]. intros Eo. change (en :: h) with ([en] ++ h) in Eo.
  rewrite own_app in Eo. destruct en as [j w ev']. destruct (decide (j = i)) as [->|Hne].
  - rewrite own_same in Eo. injection Eo as -> Eo. by exists [], (mkEntry i w ev), h.
  - rewrite own_other in Eo by done. destruct (IH Eo) as (h1 & en & h2 & -> & Hi & Hev & H1 & H2).
    exists (mkEntry j w ev' :: h1), en, h2. repeat split; [done|done| |done].
    change (mkEntry j w ev' :: h1) with ([mkEntry j w ev'] ++ h1). by rewrite own_app, own_other.
Qed.

Lemma own_app_inv i h tr1 tr2 :
  own i h = tr1 ++ tr2 -> exists h1 h2, h = h1 ++ h2 /\ own i h1 = tr1 /\ own i h2 = tr2.
Proof.
  revert h. induction tr1 as [|ev tr1 IH]; intros h Eo; [by exists [], h|].
  apply own_cons_inv in Eo as (h1 & en & h2 & -> & Hi & Hev & H1 & Eo).
  destruct (IH h2 Eo) as (h3 & h4 & -> & H3 & H4). exists (h1 ++ en :: h3), h4.
  split; [by rewrite <-app_assoc|]. split; [|done].
  change (en :: h3) with ([en] ++ h3). rewrite !own_app, H1, H3. destruct en as [j w ev'].
  cbn in Hi, Hev. subst. by rewrite own_same.
Qed.

Lemma elem_of_own i h ev : ev ∈ own i h -> exists en, en ∈ h /\ en_task en = i /\ en_event en = ev.
Proof.
  intros (en & -> & Hin)%list_elem_of_fmap. apply list_elem_of_In, List.filter_In in Hin as [Hin Hi].
  exists en. split; [by apply list_elem_of_In|]. by apply Nat.eqb_eq in Hi.
Qed.

Lemma during_trans H h H1 h' H2 : during H h H1 -> during H1 h' H2 -> during H (h ++ h') H2.
Proof. induction 1; intros; [done|]. rewrite <-app_assoc. econstructor; eauto. Qed.

Lemma during_app H h1 h2 H' :
  during H (h1 ++ h2) H' -> exists H1, during H h1 H1 /\ during H1 h2 H'.
Proof.
  intros Hd. remember (h1 ++ h2) as h eqn:Eh. revert h1 Eh.
  induction Hd as [H|H o H1 h H2 Hst Hd IH]; intros h1 Eh.
  - symmetry in Eh. apply app_nil in Eh as [-> ->]. exists H. split; constructor.
  - destruct o as [en|]; cbn [option_list app] in Eh.
    + destruct h1 as [|en' h1]; cbn [app] in Eh.
      * subst h2. exists H. split; [constructor|]. by eapply (during_step _ (Some en)).
      * injection Eh as -> Eh. destruct (IH _ Eh) as (H3 & H4 & H5). exists H3. split; [|done].
        by eapply (during_step _ (Some en')).
    + destruct (IH _ Eh) as (H3 & H4 & H5). exists H3. split; [|done]. by eapply (during_step _ None).
Qed.

Lemma during_cons H en h H' :
  during H (en :: h) H' ->
  exists H1 H2, during H [] H1 /\ hstep H1 (Some en) H2 /\ during H2 h H'.
Proof.
  intros Hd. remember (en :: h) as h0 eqn:Eh.
  induction Hd as [H|H o H1 h1 H2 Hst Hd IH]; [done|]. destruct o as [en'|]; cbn [option_list app] in Eh.
  - injection Eh as -> ->. exists H, H1. split; [constructor|done].
  - destruct (IH Eh) as (H3 & H4 & Hq & Hr). exists H3, H4. split; [|done].
    by eapply (during_step _ None).
Qed.

(** The histories around an entry. *)
Lemma during_at H h1 en h2 H' :
  during H (h1 ++ en :: h2) H' ->
  exists H1 H2, during H h1 H1 /\ hstep H1 (Some en) H2 /\ during H2 h2 H'.
Proof.
  intros (H0 & Ha & Hb)%during_app. apply during_cons in Hb as (H1 & H2 & Hc & Hs & Hd).
  exists H1, H2. split; [|done]. rewrite <-(app_nil_r h1). by eapply during_trans.
Qed.

Lemma hstep_run_inv H en H' :
  hstep H (Some en) H' ->
  (h_state H).1 = en_world en /\ h_log H' = h_log H ++ [en] /\ h_tasks H' = h_tasks H /\
  let 'Ev e x := en_event en in wstep (en_world en) _ e x (h_state H').1.
Proof. intros Hs. by inversion Hs; subst. Qed.

Lemma during_log H h H' : during H h H' -> h_log H' = h_log H ++ h /\ h_tasks H `prefix_of` h_tasks H'.
Proof.
  induction 1 as [H|H o H1 h H2 Hst _ [-> IH]]; [by rewrite app_nil_r|].
  destruct Hst; cbn [h_log h_tasks option_list app] in *; rewrite <- ?app_assoc; (split; [done|]); try done.
  etrans; [|exact IH]. by exists [t].
Qed.

(** The histories are the executions, with their log. *)
Lemma hstep_sstep H o H' :
  hstep H o H' -> sstep (h_state H) (en_event <$> o) (h_state H').
Proof.
  destruct 1 as [ts log w pool i t X e x p w' Hi Hst Hw|ts log w pool i t p Hi Hst| |];
    [destruct t as [A q]|destruct t as [A q]|..]; cbn in *; by econstructor.
Qed.

Lemma during_exec H h H' : during H h H' -> exec (h_state H) (en_event <$> h) (h_state H').
Proof.
  induction 1 as [|H o H1 h H2 Hst _ IH]; [constructor|]. apply hstep_sstep in Hst.
  rewrite fmap_app. destruct o as [en|]; [by apply (exec_step _ (Some (en_event en)) (h_state H1))|].
  by apply (exec_step _ None (h_state H1)).
Qed.

Lemma exec_during s tr s' ts log :
  exec s tr s' ->
  exists H' h, during (mkHistory ts log s) h H' /\ h_state H' = s' /\ en_event <$> h = tr.
Proof.
  intros Hx. revert ts log. induction Hx as [s|s o s1 tr s2 Hst _ IH]; intros ts log.
  - eexists _, []. split; [constructor|done].
  - destruct Hst as [w pool i A p p' X e x w' Hi Hst Hw|w pool i A p p' Hi Hst|w pool t Ht|w pool w' Ht].
    + destruct (IH ts (log ++ [mkEntry i w (Ev e x)])) as (H' & h & Hd & <- & <-).
      exists H', (mkEntry i w (Ev e x) :: h). split; [|done].
      eapply (during_step _ (Some _)); [by eapply hstep_run|exact Hd].
    + destruct (IH ts log) as (H' & h & Hd & <- & <-). exists H', h. split; [|done].
      eapply (during_step _ None); [by eapply hstep_turn|exact Hd].
    + destruct (IH (ts ++ [t]) log) as (H' & h & Hd & <- & <-). exists H', h. split; [|done].
      eapply (during_step _ None); [by eapply hstep_spawn|exact Hd].
    + destruct (IH ts log) as (H' & h & Hd & <- & <-). exists H', h. split; [|done].
      eapply (during_step _ None); [by eapply hstep_tick|exact Hd].
Qed.

(** One task runs while the others wait, logged. *)
Lemma own_all i h : Forall (fun en => en_task en = i) h -> own i h = en_event <$> h.
Proof.
  induction 1 as [|en h Hi _ IH]; [done|]. unfold own in *. cbn. by rewrite Hi, Nat.eqb_refl, fmap_cons, IH.
Qed.

Lemma own_none i j h : i <> j -> Forall (fun en => en_task en = i) h -> own j h = [].
Proof.
  intros Hne. induction 1 as [|en h Hi _ IH]; [done|]. unfold own in *. cbn. rewrite Hi.
  by destruct (Nat.eqb_spec i j).
Qed.

Lemma during_alone {A} w (p : prog E A) tr w' p' ts before after :
  alone w p tr w' p' -> forall log, exists h,
    during (mkHistory ts log (w, before ++ mkThread p :: after)) h
      (mkHistory ts (log ++ h) (w', before ++ mkThread p' :: after)) /\
    en_event <$> h = tr /\ Forall (fun en => en_task en = length before) h.
Proof.
  assert (forall q q' : prog E A, <[length before := mkThread q']> (before ++ mkThread q :: after)
            = before ++ mkThread q' :: after) as Hins.
  { intros q q'. rewrite insert_app_r_alt by done. by rewrite Nat.sub_diag. }
  induction 1 as [w p|w X e c x w1 tr w2 p Hw Hal IH|w p p1 tr w2 p2 Hst Hal IH]; intros log.
  - exists []. rewrite app_nil_r. repeat split; constructor.
  - destruct (IH (log ++ [mkEntry (length before) w (Ev e x)])) as (h & Hd & <- & Hall).
    exists (mkEntry (length before) w (Ev e x) :: h). split; [|split; [done|by constructor]].
    rewrite <-app_assoc in Hd. eapply (during_step _ (Some _)); [|exact Hd].
    assert (step (th_prog (mkThread (Vis e c))) (Some (Ev e x)) (c x)) as Hst by (by exists x).
    pose proof (hstep_run ts log w (before ++ mkThread (Vis e c) :: after) (length before) _ _ _ _ _ _
      (list_lookup_middle _ _ _ _ eq_refl) Hst Hw) as Hh.
    by rewrite Hins in Hh.
  - destruct (IH log) as (h & Hd & <- & Hall). exists h. split; [|done].
    eapply (during_step _ None); [|exact Hd].
    pose proof (hstep_turn ts log w (before ++ mkThread p :: after) (length before) (mkThread p) p1
      (list_lookup_middle _ _ _ _ eq_refl) Hst) as Hh.
    by rewrite Hins in Hh.
Qed.

(** What a log says is what happened: each task is where its own events lead, it
    is one of the program's, and the shared state answered each effect. *)
Definition kept (t : Thread E) (tr : trace E) (t' : Thread E) : Prop :=
  exists q, t' = mkThread q /\ steps (th_prog t) tr q.

Record faithful (H : history) : Prop := {
  fa_tasks : Forall service (h_tasks H);
  fa_length : length (h_state H).2 = length (h_tasks H);
  fa_own i t : h_tasks H !! i = Some t ->
    exists t', (h_state H).2 !! i = Some t' /\ kept t (own i (h_log H)) t';
  fa_answers : Forall (fun en => exists w', let 'Ev e x := en_event en in wstep (en_world en) _ e x w')
                 (h_log H);
  fa_known : Forall (fun en => (en_task en < length (h_tasks H))%nat) (h_log H);
}.

Lemma start_faithful w : faithful (start w).
Proof. by split. Qed.

Lemma own_nil i h n : Forall (fun en => (en_task en < n)%nat) h -> (n <= i)%nat -> own i h = [].
Proof.
  intros Hall Hn. unfold own. induction Hall as [|en h Hen _ IH]; [done|]. cbn.
  destruct (Nat.eqb_spec (en_task en) i); [lia|done].
Qed.

Lemma kept_step t tr t1 o (p : prog E (th_type t1)) :
  kept t tr t1 -> step (th_prog t1) o p -> kept t (tr ++ events_of o) (mkThread p).
Proof.
  intros (q & -> & Hs) Hst. exists p. split; [done|]. eapply steps_trans; [exact Hs|].
  rewrite <-(app_nil_r (events_of o)). eapply steps_step; [exact Hst|constructor].
Qed.

Lemma hstep_faithful H o H' : faithful H -> hstep H o H' -> faithful H'.
Proof.
  intros [Ht Hl Ho Ha Hk] Hst.
  destruct Hst as [ts log w pool i t X e x p w' Hi Hst Hw|ts log w pool i t p Hi Hst
    |ts log w pool t Hs|ts log w pool w' _]; cbn [h_tasks h_log h_state fst snd] in *.
  - split; cbn [h_tasks h_log h_state fst snd]; [done|by rewrite length_insert| | |].
    + intros j u Hj. destruct (Ho j u Hj) as (u' & Hu' & Hkept). rewrite own_app.
      destruct (decide (i = j)) as [->|Hne].
      * rewrite Hi in Hu'. injection Hu' as <-. rewrite list_lookup_insert_eq by (by eapply lookup_lt_Some).
        eexists. split; [done|]. rewrite own_same. by eapply (kept_step _ _ _ (Some _)).
      * rewrite list_lookup_insert_ne by done. exists u'. split; [done|].
        by rewrite own_other, app_nil_r.
    + apply list.Forall_app. split; [done|]. constructor; [by exists w'|done].
    + apply list.Forall_app. split; [done|]. constructor; [|done]. cbn.
      apply lookup_lt_Some in Hi. lia.
  - split; cbn [h_tasks h_log h_state fst snd]; [done|by rewrite length_insert| |done|done].
    intros j u Hj. destruct (Ho j u Hj) as (u' & Hu' & Hkept). destruct (decide (i = j)) as [->|Hne].
    + rewrite Hi in Hu'. injection Hu' as <-. rewrite list_lookup_insert_eq by (by eapply lookup_lt_Some).
      eexists. split; [done|]. pose proof (kept_step _ _ _ _ _ Hkept Hst) as Hk'. by rewrite app_nil_r in Hk'.
    + rewrite list_lookup_insert_ne by done. by exists u'.
  - split; cbn [h_tasks h_log h_state fst snd]; [|by rewrite !length_app, Hl| |done|].
    + apply list.Forall_app. split; [done|]. by constructor.
    + intros j u [Hj|[Hj Hu]]%lookup_app_Some.
      * destruct (Ho j u Hj) as (u' & Hu' & Hkept). exists u'. split; [by apply lookup_app_l_Some|done].
      * apply list_lookup_singleton_Some in Hu as [Ej ->]. exists u. split.
        { rewrite lookup_app_r by lia. rewrite Hl, Ej. done. }
        rewrite (own_nil _ _ (length ts)) by (done || lia). exists (th_prog u). split; [by destruct u|constructor].
    + eapply list.Forall_impl; [exact Hk|]. cbn. intros en. rewrite length_app. lia.
  - by split.
Qed.

Lemma during_faithful H h H' : faithful H -> during H h H' -> faithful H'.
Proof. intros Hf Hd. induction Hd; [done|]. eauto using hstep_faithful. Qed.

(** What a condition on a task says of its next effect. *)
Lemma hstep_obeys (R : trace E -> forall X, E X -> Prop) H en H' t :
  faithful H -> hstep H (Some en) H' -> h_tasks H !! en_task en = Some t -> obeys R [] (th_prog t) ->
  let 'Ev e _ := en_event en in R (own (en_task en) (h_log H)) _ e.
Proof.
  intros Hf Hst Ht Hob. inversion Hst as [ts log w pool i u X e x p w' Hi Hsp Hw| | |]; subst.
  cbn [h_tasks h_log en_task en_event] in *. destruct (fa_own _ Hf i t Ht) as (u' & Hu & q & -> & Hs).
  cbn [h_state snd] in Hu. rewrite Hi in Hu. injection Hu as ->.
  exact (obeys_next R [] _ _ _ _ _ _ _ Hob Hs Hsp).
Qed.

Lemma hstep_task H en H' :
  faithful H -> hstep H (Some en) H' -> exists t, h_tasks H !! en_task en = Some t /\ service t.
Proof.
  intros Hf Hst. inversion Hst as [ts log w pool i u X e x p w' Hi Hsp Hw| | |]; subst.
  cbn [en_task]. pose proof (fa_length _ Hf) as Hl. cbn [h_state snd h_tasks] in *.
  apply lookup_lt_Some in Hi. destruct (lookup_lt_is_Some_2 ts i) as [t Ht]; [lia|].
  exists t. split; [done|]. pose proof (fa_tasks _ Hf) as Hall. by eapply list.Forall_lookup_1.
Qed.

(** *** Invariants *)

Context {F : Type} (P : list F -> forall X, E X -> Prop) (gain : forall X, E X -> X -> list F).
Context (I : W -> Prop) (valid : W -> F -> Prop).

(** What makes the protocol sound: an allowed effect keeps the invariant and
    every fact, and the facts it adds hold; so does the passing of time. *)
Record sound : Prop := {
  sound_mono k k' X (e : E X) : k ⊆ k' -> P k X e -> P k' X e;
  sound_wstep w k X (e : E X) x w' :
    I w -> (forall f, f ∈ k -> valid w f) -> P k X e -> wstep w X e x w' ->
    I w' /\ (forall f, valid w f -> valid w' f) /\ (forall f, f ∈ gain X e x -> valid w' f);
  sound_tick w w' : I w -> tick w w' -> I w' /\ forall f, valid w f -> valid w' f;
  sound_service t : service t -> wp P gain [] (th_prog t) (fun _ _ => True);
}.

Context (S : sound).

Definition thread_ok (w : W) (t : Thread E) : Prop :=
  exists k, (forall f, f ∈ k -> valid w f) /\ wp P gain k (th_prog t) (fun _ _ => True).

Definition sys_ok (s : sys) : Prop := I s.1 /\ Forall (thread_ok s.1) s.2.

Lemma thread_ok_mono w w' t :
  (forall f, valid w f -> valid w' f) -> thread_ok w t -> thread_ok w' t.
Proof. intros Hv (k & Hk & Hwp). exists k. split; [|done]. intros f Hf. by apply Hv, Hk. Qed.

Lemma pool_mono w w' pool :
  (forall f, valid w f -> valid w' f) -> Forall (thread_ok w) pool -> Forall (thread_ok w') pool.
Proof. intros Hv Hp. eapply list.Forall_impl; [exact Hp|]. intros t. by apply thread_ok_mono. Qed.

(** One turn: the invariant holds again, and the effect was an allowed one. *)
Lemma sstep_ok s o s' :
  sys_ok s -> sstep s o s' ->
  sys_ok s' /\ match o with
               | Some (Ev e x) => exists k, (forall f, f ∈ k -> valid s.1 f) /\ P k _ e /\ wstep s.1 _ e x s'.1
               | None => s'.1 = s.1 \/ tick s.1 s'.1
               end.
Proof.
  intros [HI Hp] Hs. destruct Hs as [w pool i A p p' X e x w' Hi Hst Hw|w pool i A p p' Hi Hst
    |w pool t Ht|w pool w' Ht]; cbn [fst snd] in *.
  - destruct (list.Forall_lookup_1 _ _ _ _ Hp Hi) as (k & Hk & Hwp).
    destruct (wp_step _ _ _ _ _ _ Hwp Hst) as [Hwp' He].
    destruct (sound_wstep S _ _ _ _ _ _ HI Hk He Hw) as (HI' & Hv & Hg).
    split; [|by exists k]. split; [done|]. apply Forall_insert; [by eapply pool_mono|].
    exists (gain _ e x ++ k). split; [|exact Hwp']. intros f [?|?]%elem_of_app; auto.
  - destruct (list.Forall_lookup_1 _ _ _ _ Hp Hi) as (k & Hk & Hwp).
    destruct (wp_step _ _ _ _ _ _ Hwp Hst) as [Hwp' _].
    split; [|by left]. split; [done|]. apply Forall_insert; [done|]. by exists k.
  - split; [|by left]. split; [done|]. apply list.Forall_app. split; [done|]. constructor; [|done].
    exists []. split; [set_solver|]. by apply (sound_service S).
  - destruct (sound_tick S _ _ HI Ht) as [HI' Hv]. split; [|by right].
    split; [done|]. by eapply pool_mono.
Qed.

(** Reachable states satisfy the invariant, and every effect performed on the
    way was an allowed one. *)
Lemma exec_ok s tr s' :
  sys_ok s -> exec s tr s' ->
  sys_ok s' /\ Forall (fun ev => match ev with Ev e _ => exists k, P k _ e end) tr.
Proof.
  intros Hs He. induction He as [s|s o s' tr s'' Hst He IH]; [by split|].
  destruct (sstep_ok _ _ _ Hs Hst) as [Hs' Ho]. destruct (IH Hs') as [? ?]. split; [done|].
  apply list.Forall_app. split; [|done]. destruct o as [[X e x]|]; repeat constructor.
  destruct Ho as (k & _ & Hk & _). by exists k.
Qed.

(** A fact, once it holds, holds in every later state. *)
Lemma exec_valid s tr s' f : sys_ok s -> exec s tr s' -> valid s.1 f -> valid s'.1 f.
Proof.
  intros Hs He. induction He as [s|s o s' tr s'' Hst He IH]; [done|]. intros Hf.
  destruct (sstep_ok _ _ _ Hs Hst) as [Hs' Ho]. apply IH; [done|]. destruct Hs as [HI _].
  destruct o as [[X e x]|].
  - destruct Ho as (k & Hk & Hp & Hw). destruct (sound_wstep S _ _ _ _ _ _ HI Hk Hp Hw) as (_ & Hv & _).
    by apply Hv.
  - destruct Ho as [->|Ht]; [done|]. destruct (sound_tick S _ _ HI Ht) as [_ Hv]. by apply Hv.
Qed.

End Pool.
