(* ===== verification/Returns.v ===== *)
(** * Programs that return

    [Async.runs] describes what a program that returns did.  Here is the other
    half: a program [returns] when no execution of it is infinite and none stops
    anywhere but at a result.  [may] says how the surroundings can answer an
    effect: which answer, and the state it leaves.  Where the surroundings need
    not answer every effect, a program [rests]: it returns, or waits at one of
    those for an answer that does not come.  [ends] is the rule to prove it by,
    effect by effect, with a loop as a least fixed point. *)

From stdpp Require Import relations.
From S2P Require Import Prelude Async Threads.

Section Returns.
Context {E : Type -> Type} {W : Type}.
Context (may : W -> forall X, E X -> X -> W -> Prop).
(** The effects that may be left without an answer. *)
Context (waits : forall X, E X -> bool).

(** ** Executions of one program *)

Definition answered (w : W) (o : option (event E)) (w' : W) : Prop :=
  match o with
  | Some (Ev e x) => may w _ e x w'
  | None => w' = w
  end.

Definition estep {A} : relation (W * prog E A) :=
  fun '(w, p) '(w', p') => exists o, step p o p' /\ answered w o w'.

(** Every execution from [p] is finite, and where it can go no further the
    program has returned, in a state and with a result that satisfy [Q]. *)
Definition returns {A} (Q : W -> A -> Prop) (w : W) (p : prog E A) : Prop :=
  sn estep (w, p) /\
  forall w' p', rtc estep (w, p) (w', p') -> nf estep (w', p') -> exists a, p' = Ret a /\ Q w' a.

(** The same, but for the effects that may be left without an answer. *)
Definition waiting {A} (p : prog E A) : Prop :=
  match p with Vis e _ => waits _ e = true | _ => False end.

Definition rests {A} (Q : W -> A -> Prop) (w : W) (p : prog E A) : Prop :=
  sn estep (w, p) /\
  forall w' p', rtc estep (w, p) (w', p') -> nf estep (w', p') ->
    waiting p' \/ exists a, p' = Ret a /\ Q w' a.

Lemma ret_nf {A} w (a : A) : nf estep (w, Ret a).
Proof. by intros ([w' p'] & o & Hs & _). Qed.

Lemma rests_ret {A} (Q : W -> A -> Prop) w a : Q w a -> rests Q w (Ret a).
Proof.
  intros HQ. split.
  - constructor. intros c Hc. destruct (ret_nf w a). by exists c.
  - intros w' p' Hr _. right. inversion Hr as [|? c ? Hc]; subst; [by exists a|].
    destruct (ret_nf w a). by exists c.
Qed.

Lemma rests_step {A} (Q : W -> A -> Prop) w (p : prog E A) :
  waiting p \/ red estep (w, p) ->
  (forall w' p', estep (w, p) (w', p') -> rests Q w' p') -> rests Q w p.
Proof.
  intros Hred Hall. split.
  - constructor. intros [w' p'] Hs. by apply Hall.
  - intros w' p' Hr Hnf. inversion Hr as [|? [w1 p1] ? Hs Hr']; subst.
    + destruct Hred; [by left|by destruct Hnf].
    + destruct (Hall _ _ Hs) as [_ Hend]. by apply Hend.
Qed.

Lemma rests_vis {A X} (Q : W -> A -> Prop) w (e : E X) (k : X -> prog E A) :
  waits _ e = true \/ (exists x w', may w _ e x w') ->
  (forall x w', may w _ e x w' -> rests Q w' (k x)) -> rests Q w (Vis e k).
Proof.
  intros Hx Hk. apply rests_step.
  - destruct Hx as [Hx|(x & w' & Hm)]; [by left|right].
    exists (w', k x). exists (Some (Ev e x)). split; [by exists x|done].
  - intros w1 p1 (o & (x1 & -> & ->) & Ha). by apply Hk.
Qed.

(** Where every effect is answered, to rest is to return. *)
Lemma rests_returns {A} (Q : W -> A -> Prop) w (p : prog E A) :
  (forall X e, waits X e = false) -> rests Q w p -> returns Q w p.
Proof.
  intros Hw [Hsn Hend]. split; [done|]. intros w' p' Hr Hnf. destruct (Hend _ _ Hr Hnf) as [Hp|?]; [|done].
  destruct p' as [|? ? e|]; cbn in Hp; [done| |done]. by rewrite Hw in Hp.
Qed.

(** The surroundings along a trace. *)
Inductive answers : W -> trace E -> W -> Prop :=
| answers_nil w : answers w [] w
| answers_cons w X (e : E X) x w1 tr w2 :
    may w X e x w1 -> answers w1 tr w2 -> answers w (Ev e x :: tr) w2.

(** What a finished execution did is a run: what a theorem says of every run, it
    says of every execution. *)
Lemma execution_runs {A} w (p : prog E A) w' (a : A) :
  rtc estep (w, p) (w', Ret a) -> exists tr, runs p tr a /\ answers w tr w'.
Proof.
  intros Hr. remember (w, p) as c eqn:Ec. remember (w', Ret a) as c' eqn:Ec'. revert w p Ec.
  induction Hr as [c|c [w1 p1] c2 Hs _ IH]; intros w p ->.
  - injection Ec' as -> ->. exists []. split; [done|constructor].
  - destruct Hs as (o & Hs & Ha). destruct (IH Ec' w1 p1 eq_refl) as (tr & Hrun & Htr).
    exists (events_of o ++ tr). split; [by eapply step_runs|].
    destruct o as [[X e x]|]; cbn in Ha; [by econstructor|by subst].
Qed.

Lemma rests_run {A} (Q : W -> A -> Prop) w (p : prog E A) :
  rests Q w p -> rests (fun w' a => Q w' a /\ exists tr, runs p tr a /\ answers w tr w') w p.
Proof.
  intros [Hsn Hend]. split; [done|]. intros w' p' Hr Hnf.
  destruct (Hend w' p' Hr Hnf) as [Hp|(a & -> & Ha)]; [by left|right].
  exists a. split; [done|]. split; [done|]. by apply execution_runs.
Qed.

Lemma rests_post {A} (Q Q' : W -> A -> Prop) w (p : prog E A) :
  rests Q w p -> (forall w' a, Q w' a -> Q' w' a) -> rests Q' w p.
Proof.
  intros [Hsn Hend] HQ. split; [done|]. intros w' p' Hr Hnf.
  destruct (Hend w' p' Hr Hnf) as [Hp|(a & -> & Ha)]; [by left|right; eauto].
Qed.

(** ** The rule *)

Fixpoint ends {A} (p : prog E A) (Q : W -> A -> Prop) (w : W) : Prop :=
  match p in prog _ A return (W -> A -> Prop) -> Prop with
  | Ret a => fun Q => Q w a
  | Vis e k => fun Q =>
      (waits _ e = true \/ exists x w', may w _ e x w') /\
      forall x w', may w _ e x w' -> ends (k x) Q w'
  | @Iter _ A T B body s k => fun Q =>
      forall P : T -> W -> Prop,
        (forall s w,
           ends (body s) (fun w' r => match r with
                                      | inl s' => P s' w'
                                      | inr b => ends (k b) Q w'
                                      end) w -> P s w) ->
        P s w
  end Q.

Lemma ends_post {A} (p : prog E A) (Q Q' : W -> A -> Prop) w :
  ends p Q w -> (forall w a, Q w a -> Q' w a) -> ends p Q' w.
Proof.
  intros Hp HQ. revert w Hp. induction p as [A a|A X e k IH|A T B body IHb s k IH]; intros w; cbn.
  - apply HQ.
  - intros [Hx Hk]. split; [done|]. intros x w' Hm. by eapply IH, Hk.
  - intros Hl P HP. apply Hl. intros s' w' Hb. apply HP. eapply IHb; [|exact Hb].
    intros w2 [s2|b]; [done|]. by apply IH.
Qed.

Lemma ends_bind {A B} (p : prog E A) (f : A -> prog E B) Q w :
  ends p (fun w' a => ends (f a) Q w') w -> ends (bind f p) Q w.
Proof.
  revert w. induction p as [A a|A X e k IH|A T B0 body _ s k IH]; intros w; cbn; [done| |].
  - intros [Hx Hk]. split; [done|]. intros x w' Hm. by apply IH, Hk.
  - intros Hl P HP. apply Hl. intros s' w' Hb. apply HP. eapply ends_post; [exact Hb|].
    intros w2 [s2|b]; [done|]. by apply IH.
Qed.

(** A loop ends when each turn that goes round again leaves a smaller number
    with which its invariant holds. *)
Lemma ends_iter {A T B} (Inv : nat -> T -> W -> Prop)
    (body : T -> prog E (T + B)) (k : B -> prog E A) Q n s w :
  (forall n s w, Inv n s w ->
     ends (body s) (fun w' r => match r with
                                | inl s' => exists n', (n' < n)%nat /\ Inv n' s' w'
                                | inr b => ends (k b) Q w'
                                end) w) ->
  Inv n s w -> ends (Iter body s k) Q w.
Proof.
  intros Hturn Hinv P HP. revert s w Hinv.
  induction n as [n IH] using lt_wf_ind. intros s w Hinv. apply HP.
  eapply ends_post; [by eapply Hturn|]. intros w' [s'|b]; [|done]. intros (n' & Hlt & Hinv').
  by eapply IH.
Qed.

(** A program that starts with one that [ends] rests if what follows does. *)
Lemma ends_then {A B} (p : prog E A) (f : A -> prog E B) (R : W -> A -> Prop) (Q : W -> B -> Prop) w :
  ends p R w -> (forall w' a, R w' a -> rests Q w' (f a)) -> rests Q w (bind f p).
Proof.
  revert B f R Q w. induction p as [A a|A X e k IH|A T B0 body IHb s k IH]; intros B f R Q w; cbn.
  - intros HR Hf. by apply Hf.
  - intros [Hx Hk] Hf. apply rests_vis; [done|]. intros x w' Hm. eapply IH; [|exact Hf]. by apply Hk.
  - intros Hl Hf. apply (Hl (fun s w => rests Q w (Iter body s (fun b => bind f (k b))))).
    clear s w Hl. intros s w Hb. apply rests_step.
    + right. eexists (w, _), None. by repeat split.
    + intros w1 p1 (o & [-> ->] & Ha). cbn in Ha. subst w1.
      eapply IHb; [exact Hb|]. intros w' [s'|b] Hr; [exact Hr|]. by eapply IH.
Qed.

Theorem ends_rests {A} (p : prog E A) (Q : W -> A -> Prop) w : ends p Q w -> rests Q w p.
Proof.
  revert w. induction p as [A a|A X e k IH|A T B body _ s k IH]; intros w; cbn.
  - apply rests_ret.
  - intros [Hx Hk]. apply rests_vis; [done|]. intros x w' Hm. by apply IH, Hk.
  - intros Hl. apply (Hl (fun s w => rests Q w (Iter body s k))).
    clear s w Hl. intros s w Hb. apply rests_step.
    + right. eexists (w, _), None. by repeat split.
    + intros w1 p1 (o & [-> ->] & Ha). cbn in Ha. subst w1.
      eapply ends_then; [exact Hb|]. intros w' [s'|b] Hr; [exact Hr|]. by apply IH.
Qed.

End Returns.
