(* ===== verification/F64.v ===== *)
(** * Binary64 arithmetic and durations

    The limiter computes in [f64].  A finite [f64] is the rational it denotes,
    and an operation is the exact operation followed by [rnd], rounding to 53
    significant bits, ties to even, as IEEE 754 prescribes.  Every value the
    limiter computes is non-negative and either zero or between 2^-60 and 2^70,
    so no exponent limit is reached and [rnd] has none.

    A [Duration] or an [Instant] is its number of nanoseconds. *)

From Stdlib Require Import QArith Qround Qpower Lqa.
From S2P Require Import Prelude.
#[local] Open Scope Q_scope.

Definition pow2 (e : Z) : Q := 2 ^ e.

(** The binade of a positive rational. *)
Definition ilog2 (x : Q) : Z :=
  let e := (Z.log2 (Qnum x) - Z.log2 (QDen x))%Z in
  if Qle_bool (pow2 e) x then e else (e - 1)%Z.

(** The nearest integer, the even one of two. *)
Definition round_half_even (q : Q) : Z :=
  let f := Qfloor q in
  match Qcompare (q - inject_Z f) (1 # 2) with
  | Lt => f
  | Gt => (f + 1)%Z
  | Eq => if Z.even f then f else (f + 1)%Z
  end.

Definition rnd (x : Q) : Q :=
  if Qle_bool x 0 then 0
  else let e := (ilog2 x - 52)%Z in
       Qred (inject_Z (round_half_even (x / pow2 e)) * pow2 e).

Definition f_add (a b : Q) : Q := rnd (a + b).
Definition f_sub (a b : Q) : Q := rnd (a - b).
Definition f_mul (a b : Q) : Q := rnd (a * b).
Definition f_div (a b : Q) : Q := rnd (a / b).
Definition f_min (a b : Q) : Q := if Qle_bool a b then a else b.

(** ** Durations *)

Definition NANOS_PER_SEC : Z := 1000000000.

(** [duration_since]: zero when the clock reads earlier. *)
Definition duration_since (now earlier : Z) : Z := Z.max 0 (now - earlier).

(** [Duration::as_secs_f64]. *)
Definition as_secs_f64 (ns : Z) : Q :=
  f_add (rnd (inject_Z (ns / NANOS_PER_SEC)))
        (f_div (inject_Z (ns mod NANOS_PER_SEC)) (inject_Z NANOS_PER_SEC)).

(** [Duration::from_secs_f64]: to the nearest nanosecond. *)
Definition from_secs_f64 (secs : Q) : Z := round_half_even (secs * inject_Z NANOS_PER_SEC).

(** ** Powers of two *)

Lemma pow2_pos e : 0 < pow2 e.
Proof. apply Qpower_0_lt. reflexivity. Qed.

Lemma pow2_add a b : pow2 (a + b) == pow2 a * pow2 b.
Proof. apply Qpower_plus. discriminate. Qed.

Lemma pow2_mono a b : (a <= b)%Z -> pow2 a <= pow2 b.
Proof. intros. apply Qpower_le_compat_l; [done|discriminate]. Qed.

Lemma pow2_Z e : (0 <= e)%Z -> pow2 e == inject_Z (2 ^ e).
Proof. intros. unfold pow2. by rewrite Zpower_Qpower. Qed.

Lemma pow2_sub a b : pow2 a == pow2 (a - b) * pow2 b.
Proof. rewrite <-pow2_add. by replace (a - b + b)%Z with a by lia. Qed.

(** ** Rounding to an integer *)

Lemma inject_Z_le a b : (a <= b)%Z -> inject_Z a <= inject_Z b.
Proof. by rewrite <-Zle_Qle. Qed.

Lemma inject_Z_succ a : inject_Z (a + 1) == inject_Z a + 1.
Proof. by rewrite inject_Z_plus. Qed.

(** [round_half_even q] is the floor or the next integer, whichever is nearer. *)
Lemma round_half_even_cases q :
  (round_half_even q = Qfloor q /\ q - inject_Z (Qfloor q) <= 1 # 2) \/
  (round_half_even q = (Qfloor q + 1)%Z /\ (1 # 2) <= q - inject_Z (Qfloor q)).
Proof.
  unfold round_half_even. cbv zeta. destruct (Qcompare _ _) eqn:E.
  - apply Qeq_alt in E. destruct (Z.even _); [left|right]; split; try done; lra.
  - apply Qlt_alt in E. left. split; [done|lra].
  - apply Qgt_alt in E. right. split; [done|lra].
Qed.

Lemma round_half_even_Z z : round_half_even (inject_Z z) = z.
Proof.
  unfold round_half_even. rewrite Qfloor_Z. cbv zeta.
  replace (Qcompare _ _) with Lt; [done|]. symmetry. rewrite <-Qlt_alt. lra.
Qed.

Lemma round_half_even_err q :
  inject_Z (round_half_even q) <= q + (1 # 2) /\ q - (1 # 2) <= inject_Z (round_half_even q).
Proof.
  pose proof (Qfloor_le q). pose proof (Qlt_floor q) as Hf. rewrite inject_Z_succ in Hf.
  destruct (round_half_even_cases q) as [[-> ?]|[-> ?]]; rewrite ?inject_Z_succ; split; lra.
Qed.

#[export] Instance round_half_even_proper : Proper (Qeq ==> eq) round_half_even.
Proof.
  intros p q E. unfold round_half_even. rewrite (Qfloor_comp _ _ E). cbv zeta.
  by rewrite (Qcompare_comp _ _ (Qminus_comp _ _ E _ _ (Qeq_refl _)) _ _ (Qeq_refl (1 # 2))).
Qed.

Lemma round_half_even_mono p q : p <= q -> (round_half_even p <= round_half_even q)%Z.
Proof.
  intros Hpq. destruct (Qlt_le_dec p q) as [Hlt|?]; [|by rewrite (Qle_antisym p q)].
  pose proof (Qfloor_resp_le _ _ Hpq).
  destruct (round_half_even_cases p) as [[-> ?]|[-> Hp]], (round_half_even_cases q) as [[-> Hq]|[-> ?]];
    try lia.
  destruct (decide (Qfloor p = Qfloor q)) as [E|]; [|lia].
  rewrite E in Hp. lra.
Qed.

Lemma round_half_even_le_Z q z : q <= inject_Z z -> (round_half_even q <= z)%Z.
Proof. intros H%round_half_even_mono. by rewrite round_half_even_Z in H. Qed.
Lemma round_half_even_ge_Z q z : inject_Z z <= q -> (z <= round_half_even q)%Z.
Proof. intros H%round_half_even_mono. by rewrite round_half_even_Z in H. Qed.

(** ** The binade *)

Lemma ilog2_spec x : 0 < x -> pow2 (ilog2 x) <= x /\ x < pow2 (ilog2 x + 1).
Proof.
  intros Hx. destruct x as [n d]. assert (0 < n)%Z as Hn by (unfold Qlt in Hx; cbn in Hx; lia).
  unfold ilog2. cbn [Qnum Qden]. cbv zeta.
  pose proof (Z.log2_spec n Hn) as [Hn1 Hn2]. pose proof (Z.log2_spec (Zpos d) ltac:(lia)) as [Hd1 Hd2].
  set (a := Z.log2 n) in *. set (b := Z.log2 (Zpos d)) in *.
  assert (0 <= a)%Z by apply Z.log2_nonneg. assert (0 <= b)%Z by apply Z.log2_nonneg.
  rewrite <-!Z.add_1_r in *.
  assert (n # d == inject_Z n / inject_Z (Zpos d)) as Ex by apply Qmake_Qdiv.
  assert (0 < inject_Z (Zpos d)) by reflexivity.
  assert (forall q, q * inject_Z (Zpos d) <= inject_Z n -> q <= n # d) as Hle.
  { intros q Hq. rewrite Ex. by apply Qle_shift_div_l. }
  assert (forall q, inject_Z n < q * inject_Z (Zpos d) -> n # d < q) as Hlt.
  { intros q Hq. rewrite Ex. by apply Qlt_shift_div_r. }
  rewrite Zle_Qle in Hn1, Hd1. rewrite Zlt_Qlt in Hn2, Hd2.
  rewrite <-!pow2_Z in Hn1, Hn2, Hd1, Hd2 by lia.
  pose proof (pow2_pos b). pose proof (pow2_pos (b + 1)).
  destruct (Qle_bool _ _) eqn:E.
  - apply Qle_bool_iff in E. split; [done|]. apply Hlt.
    pose proof (pow2_pos (a - b + 1)). rewrite (pow2_sub (a + 1) b) in Hn2.
    replace (a + 1 - b)%Z with (a - b + 1)%Z in Hn2 by lia. nra.
  - assert (~ pow2 (a - b) <= n # d) as E' by (rewrite <-Qle_bool_iff; congruence).
    apply Qnot_le_lt in E'. replace (a - b - 1 + 1)%Z with (a - b)%Z by lia. split; [|done].
    apply Hle. pose proof (pow2_pos (a - b - 1)). rewrite (pow2_sub a (b + 1)) in Hn1.
    replace (a - (b + 1))%Z with (a - b - 1)%Z in Hn1 by lia. nra.
Qed.

Lemma ilog2_mono x y : 0 < x -> x <= y -> (ilog2 x <= ilog2 y)%Z.
Proof.
  intros Hx Hxy. destruct (Z.le_gt_cases (ilog2 x) (ilog2 y)) as [|Hgt]; [done|].
  pose proof (ilog2_spec x Hx). pose proof (ilog2_spec y ltac:(lra)).
  pose proof (pow2_mono (ilog2 y + 1) (ilog2 x) ltac:(lia)). lra.
Qed.

(** ** Rounding to 53 bits *)

(** Half a unit in the last place of 1. *)
Definition ulp_half : Q := 1 # 9007199254740992.

Lemma rnd_neg x : x <= 0 -> rnd x = 0.
Proof. intros H. unfold rnd. by rewrite (proj2 (Qle_bool_iff _ _) H). Qed.

Lemma rnd_pos x :
  0 < x -> rnd x == inject_Z (round_half_even (x / pow2 (ilog2 x - 52))) * pow2 (ilog2 x - 52).
Proof.
  intros H. unfold rnd. destruct (Qle_bool x 0) eqn:E.
  - apply Qle_bool_iff in E. lra.
  - cbv zeta. apply Qred_correct.
Qed.

(** The scaled value has 53 bits. *)
Lemma scaled_range x :
  0 < x -> pow2 52 <= x / pow2 (ilog2 x - 52) /\ x / pow2 (ilog2 x - 52) < pow2 53.
Proof.
  intros Hx. pose proof (ilog2_spec x Hx) as [H1 H2]. pose proof (pow2_pos (ilog2 x - 52)).
  split; [apply Qle_shift_div_l|apply Qlt_shift_div_r]; try done; rewrite <-pow2_add.
  - by replace (52 + (ilog2 x - 52))%Z with (ilog2 x) by lia.
  - by replace (53 + (ilog2 x - 52))%Z with (ilog2 x + 1)%Z by lia.
Qed.

Lemma scaled_mul x : x / pow2 (ilog2 x - 52) * pow2 (ilog2 x - 52) == x.
Proof. pose proof (pow2_pos (ilog2 x - 52)). field. lra. Qed.

Lemma rnd_range x : 0 < x -> pow2 (ilog2 x) <= rnd x /\ rnd x <= pow2 (ilog2 x + 1).
Proof.
  intros Hx. rewrite (rnd_pos x Hx). pose proof (scaled_range x Hx) as [H1 H2].
  rewrite (pow2_Z 52) in H1 by lia. rewrite (pow2_Z 53) in H2 by lia. pose proof (pow2_pos (ilog2 x - 52)).
  pose proof (inject_Z_le _ _ (round_half_even_ge_Z _ _ H1)) as H3.
  pose proof (inject_Z_le _ _ (round_half_even_le_Z _ _ (Qlt_le_weak _ _ H2))) as H4.
  rewrite (pow2_sub (ilog2 x) (ilog2 x - 52)), (pow2_sub (ilog2 x + 1) (ilog2 x - 52)).
  replace (ilog2 x - (ilog2 x - 52))%Z with 52%Z by lia.
  replace (ilog2 x + 1 - (ilog2 x - 52))%Z with 53%Z by lia.
  rewrite (pow2_Z 52), (pow2_Z 53) by lia. split; apply Qmult_le_compat_r; lra.
Qed.

Lemma rnd_nonneg x : 0 <= rnd x.
Proof.
  destruct (Qlt_le_dec 0 x) as [Hx|Hx]; [|rewrite rnd_neg by done; lra].
  pose proof (rnd_range x Hx). pose proof (pow2_pos (ilog2 x)). lra.
Qed.

(** The relative error is at most [ulp_half]. *)
Lemma rnd_err x : 0 <= x -> rnd x <= x * (1 + ulp_half) /\ x * (1 - ulp_half) <= rnd x.
Proof.
  intros Hx0. destruct (Qlt_le_dec 0 x) as [Hx|Hx]; [|rewrite rnd_neg by done; unfold ulp_half; lra].
  rewrite (rnd_pos x Hx). pose proof (scaled_range x Hx) as [H1 _].
  pose proof (pow2_pos (ilog2 x - 52)). pose proof (scaled_mul x).
  set (q := x / pow2 (ilog2 x - 52)) in *. pose proof (round_half_even_err q) as [H3 H4].
  change (pow2 52) with (4503599627370496 # 1) in H1.
  set (n := inject_Z (round_half_even q)) in *. set (p := pow2 (ilog2 x - 52)) in *.
  unfold ulp_half. split.
  - assert (n <= q * (1 + (1 # 9007199254740992))) by lra. nra.
  - assert (q * (1 - (1 # 9007199254740992)) <= n) by lra. nra.
Qed.

Lemma rnd_mono x y : x <= y -> rnd x <= rnd y.
Proof.
  intros Hxy. destruct (Qlt_le_dec 0 x) as [Hx|Hx];
    [|rewrite (rnd_neg x) by done; apply rnd_nonneg].
  assert (0 < y) as Hy by lra. pose proof (ilog2_mono x y Hx Hxy).
  destruct (decide (ilog2 x = ilog2 y)) as [E|].
  - rewrite (rnd_pos x Hx), (rnd_pos y Hy), E. pose proof (pow2_pos (ilog2 y - 52)).
    apply Qmult_le_compat_r; [|lra]. apply inject_Z_le, round_half_even_mono.
    apply Qle_shift_div_l; [done|]. unfold Qdiv. rewrite <-Qmult_assoc, (Qmult_comm (/ _)).
    rewrite Qmult_inv_r by lra. lra.
  - pose proof (rnd_range x Hx). pose proof (rnd_range y Hy).
    pose proof (pow2_mono (ilog2 x + 1) (ilog2 y) ltac:(lia)). lra.
Qed.

#[export] Instance rnd_proper : Proper (Qeq ==> Qeq) rnd.
Proof. intros x y E. apply Qle_antisym; apply rnd_mono; lra. Qed.

(** Integers of at most 53 bits are exact. *)
Lemma rnd_Z z : (0 <= z < 2 ^ 53)%Z -> rnd (inject_Z z) == inject_Z z.
Proof.
  intros Hz. destruct (decide (z = 0)%Z) as [->|]; [done|].
  assert (0 < inject_Z z) as Hx by (rewrite <-(Zlt_Qlt 0); lia).
  rewrite (rnd_pos _ Hx). set (e := ilog2 (inject_Z z)).
  assert (e <= 52)%Z as He.
  { pose proof (ilog2_spec _ Hx) as [H _]. fold e in H.
    destruct (Z.le_gt_cases e 52) as [|Hgt]; [done|].
    pose proof (pow2_mono 53 e ltac:(lia)) as H53. rewrite (pow2_Z 53) in H53 by lia.
    assert (inject_Z (2 ^ 53) <= inject_Z z) as Hle by lra. rewrite <-Zle_Qle in Hle. lia. }
  assert (inject_Z z / pow2 (e - 52) == inject_Z (z * 2 ^ (52 - e))) as ->.
  { rewrite inject_Z_mult, <-pow2_Z by lia.
    assert (pow2 (52 - e) * pow2 (e - 52) == 1) as E.
    { rewrite <-pow2_add. by replace (52 - e + (e - 52))%Z with 0%Z by lia. }
    pose proof (pow2_pos (e - 52)).
    rewrite <-(Qmult_1_r (inject_Z z)) at 1. rewrite <-E. field. lra. }
  rewrite round_half_even_Z, inject_Z_mult, <-pow2_Z by lia.
  rewrite <-Qmult_assoc, <-pow2_add. replace (52 - e + (e - 52))%Z with 0%Z by lia.
  change (pow2 0) with 1. lra.
Qed.

(** A result is never rounded past an integer bound. *)
Lemma rnd_le_Z x z : (0 <= z < 2 ^ 53)%Z -> x <= inject_Z z -> rnd x <= inject_Z z.
Proof. intros Hz Hx. rewrite <-(rnd_Z z Hz). by apply rnd_mono. Qed.

Lemma f_min_le_l a b : f_min a b <= a.
Proof.
  unfold f_min. destruct (Qle_bool a b) eqn:E; [lra|].
  assert (~ a <= b) as H by (rewrite <-Qle_bool_iff; congruence). apply Qnot_le_lt in H. lra.
Qed.
Lemma f_min_le_r a b : f_min a b <= b.
Proof. unfold f_min. destruct (Qle_bool a b) eqn:E; [by apply Qle_bool_iff in E|lra]. Qed.
Lemma f_min_glb a b c : c <= a -> c <= b -> c <= f_min a b.
Proof. unfold f_min. by destruct (Qle_bool a b). Qed.

(** ** Elapsed time *)

Definition secs (ns : Z) : Q := inject_Z ns / inject_Z NANOS_PER_SEC.

Lemma secs_split ns :
  secs ns == inject_Z (ns / NANOS_PER_SEC) + inject_Z (ns mod NANOS_PER_SEC) / inject_Z NANOS_PER_SEC.
Proof.
  unfold secs. rewrite (Z.div_mod ns NANOS_PER_SEC) at 1 by done.
  rewrite inject_Z_plus, inject_Z_mult. field. discriminate.
Qed.

Lemma secs_nonneg ns : (0 <= ns)%Z -> 0 <= secs ns.
Proof.
  intros. unfold secs. apply Qle_shift_div_l; [reflexivity|]. rewrite Qmult_0_l.
  by rewrite <-(Zle_Qle 0).
Qed.

Lemma secs_add a b : secs (a + b) == secs a + secs b.
Proof. unfold secs. rewrite inject_Z_plus. field. discriminate. Qed.

Lemma as_secs_f64_nonneg ns : 0 <= as_secs_f64 ns.
Proof. apply rnd_nonneg. Qed.

(** Three roundings at most separate [as_secs_f64] from the exact time. *)
Lemma as_secs_f64_le ns :
  (0 <= ns)%Z -> as_secs_f64 ns <= secs ns * ((1 + ulp_half) * (1 + ulp_half)).
Proof.
  intros Hns. unfold as_secs_f64, f_add, f_div. rewrite (secs_split ns).
  assert (0 <= ns / NANOS_PER_SEC)%Z by (apply Z.div_pos; [done|reflexivity]).
  assert (0 <= ns mod NANOS_PER_SEC)%Z by (apply Z.mod_pos_bound; reflexivity).
  set (s := inject_Z (ns / NANOS_PER_SEC)). set (f := inject_Z (ns mod NANOS_PER_SEC) / _).
  assert (0 <= s) by (by apply (inject_Z_le 0)).
  assert (0 <= f) by (by apply (secs_nonneg (ns mod NANOS_PER_SEC))).
  pose proof (rnd_nonneg s). pose proof (rnd_nonneg f).
  pose proof (rnd_err s ltac:(done)) as [Hs _]. pose proof (rnd_err f ltac:(done)) as [Hf _].
  pose proof (rnd_err (rnd s + rnd f) ltac:(lra)) as [Hr _].
  unfold ulp_half in *. lra.
Qed.

Lemma as_secs_f64_0 : as_secs_f64 0 == 0.
Proof. reflexivity. Qed.
