(* ===== verification/RateLimit.v ===== *)
(** * The token bucket: [RateLimiter] of [runtime.rs]

    [Bucket] is the state behind the limiter's mutex.  [acquire_section] and
    [try_acquire_section] are what the two methods do while they hold it, with
    the clock they read inside; the loop around the first, with its sleep, is
    [acquire] in [Runtime.v]. *)

From Stdlib Require Import QArith Lqa.
From S2P Require Import Prelude F64.
#[local] Open Scope Z_scope.

Record Bucket : Set := mkBucket {
  tokens : Q;
  max : Q;
  refill_per_sec : Q;
  last : Z;
}.

(** [RateLimiter::new], at the clock [now]. *)
Definition new_bucket (rate now : Z) : Bucket :=
  let r := inject_Z (Z.max rate 1) in
  {| tokens := r; max := r; refill_per_sec := r; last := now |}.

(** [None]: a token was taken.  [Some wait]: none was there; sleep that long. *)
Definition acquire_section (now : Z) (b : Bucket) : Bucket * option Z :=
  let elapsed := as_secs_f64 (duration_since now (last b)) in
  let t := f_min (f_add (tokens b) (f_mul elapsed (refill_per_sec b))) (max b) in
  if Qle_bool 1 t
  then (mkBucket (f_sub t 1) (max b) (refill_per_sec b) now, None)
  else let deficit := f_sub 1 t in
       (mkBucket t (max b) (refill_per_sec b) now,
        Some (from_secs_f64 (f_div deficit (refill_per_sec b)))).

Definition try_acquire_section (now : Z) (b : Bucket) : Bucket * bool :=
  let elapsed := as_secs_f64 (duration_since now (last b)) in
  let t := f_min (f_add (tokens b) (f_mul elapsed (refill_per_sec b))) (max b) in
  if Qle_bool 1 t
  then (mkBucket (f_sub t 1) (max b) (refill_per_sec b) now, true)
  else (mkBucket t (max b) (refill_per_sec b) now, false).

(** ** Invariant *)

(** A bucket of capacity [r]: between empty and full, refilled at [r]. *)
Record bucket_wf (r : Z) (b : Bucket) : Prop := {
  wf_rate : 1 <= r < 2 ^ 32;
  wf_max : max b = inject_Z r;
  wf_refill : refill_per_sec b = inject_Z r;
  wf_tokens : (0 <= tokens b <= inject_Z r)%Q;
}.

Lemma new_bucket_wf rate now : 0 <= rate < 2 ^ 32 -> bucket_wf (Z.max rate 1) (new_bucket rate now).
Proof.
  intros. split; cbn -[inject_Z]; [lia|done|done|]. split; [|lra].
  apply (inject_Z_le 0). lia.
Qed.

(** The two methods take a token under the same condition and leave the same
    bucket. *)
Lemma acquire_try now b :
  try_acquire_section now b =
  ((acquire_section now b).1, bool_decide ((acquire_section now b).2 = None)).
Proof. unfold try_acquire_section, acquire_section. cbv zeta. by destruct (Qle_bool 1 _). Qed.

(** The level after the refill. *)
Definition refilled (now : Z) (b : Bucket) : Q :=
  f_min (f_add (tokens b) (f_mul (as_secs_f64 (duration_since now (last b))) (refill_per_sec b)))
        (max b).

Section Wf.
Context {r : Z} {b : Bucket} (Hwf : bucket_wf r b).

Lemma refilled_range now : (0 <= refilled now b <= inject_Z r)%Q.
Proof.
  destruct Hwf as [Hr Hm _ _]. unfold refilled. split.
  - apply f_min_glb; [apply rnd_nonneg|]. rewrite Hm. apply (inject_Z_le 0). lia.
  - rewrite <-Hm. apply f_min_le_r.
Qed.

(** Time can only add what the rate allows, up to rounding. *)
Lemma refilled_le now :
  last b <= now ->
  (refilled now b <= tokens b + tokens b * ulp_half
                     + inject_Z r * secs (now - last b) * (1 + (1 # 1125899906842624)))%Q.
Proof.
  intros Hnow. destruct Hwf as [Hr _ Hf Ht]. unfold refilled. rewrite Hf.
  eapply Qle_trans; [apply f_min_le_l|]. unfold f_add, f_mul.
  unfold duration_since. rewrite Z.max_r by lia.
  pose proof (as_secs_f64_le (now - last b) ltac:(lia)) as He.
  pose proof (as_secs_f64_nonneg (now - last b)). pose proof (secs_nonneg (now - last b) ltac:(lia)).
  set (el := as_secs_f64 _) in *. set (t := secs _) in *.
  assert (1 <= inject_Z r)%Q by (apply (inject_Z_le 1); lia).
  assert (el * inject_Z r <= inject_Z r * t * ((1 + ulp_half) * (1 + ulp_half)))%Q as Hel by nra.
  pose proof (rnd_err (el * inject_Z r) ltac:(nra)) as [Hm _].
  pose proof (rnd_nonneg (el * inject_Z r)).
  pose proof (rnd_err (tokens b + rnd (el * inject_Z r)) ltac:(lra)) as [Ha _].
  assert (0 <= inject_Z r * t)%Q by nra.
  set (x := (inject_Z r * t)%Q) in *. unfold ulp_half in *. lra.
Qed.

Lemma try_acquire_wf now : bucket_wf r (try_acquire_section now b).1.
Proof.
  pose proof (refilled_range now) as Ht. destruct Hwf as [Hr Hm Hf _].
  unfold try_acquire_section. cbv zeta. change (f_min _ _) with (refilled now b).
  destruct (Qle_bool 1 _) eqn:E; split; try done.
  apply Qle_bool_iff in E. cbn [tokens fst]. unfold f_sub. split; [apply rnd_nonneg|].
  apply rnd_le_Z; [lia|]. lra.
Qed.

(** One call: a token taken plus the level left never exceeds the level found
    plus the refill, up to rounding. *)
Lemma try_acquire_step now :
  last b <= now ->
  (tokens (try_acquire_section now b).1
   + inject_Z (Z.b2z (try_acquire_section now b).2)
   <= tokens b + inject_Z r * secs (now - last b) * (1 + (1 # 1125899906842624))
      + inject_Z r * (1 # 4503599627370496))%Q.
Proof.
  intros Hnow. pose proof (refilled_le now Hnow) as Hle. pose proof (refilled_range now).
  pose proof (wf_tokens _ _ Hwf). unfold ulp_half in Hle.
  unfold try_acquire_section. cbv zeta. change (f_min _ _) with (refilled now b).
  destruct (Qle_bool 1 _) eqn:E; cbn [fst snd tokens Z.b2z].
  - apply Qle_bool_iff in E. unfold f_sub.
    pose proof (rnd_err (refilled now b - 1) ltac:(lra)) as [Hs _].
    change (inject_Z 1) with 1%Q. unfold ulp_half in Hs. lra.
  - change (inject_Z 0) with 0%Q. lra.
Qed.

(** Whatever was there before, a call leaves at most a full bucket behind. *)
Lemma try_acquire_full now :
  (tokens (try_acquire_section now b).1
   + inject_Z (Z.b2z (try_acquire_section now b).2)
   <= inject_Z r + inject_Z r * (1 # 4503599627370496))%Q.
Proof.
  pose proof (refilled_range now) as Hle.
  assert (1 <= inject_Z r)%Q by (apply (inject_Z_le 1); destruct Hwf; lia).
  unfold try_acquire_section. cbv zeta. change (f_min _ _) with (refilled now b).
  destruct (Qle_bool 1 _) eqn:E; cbn [fst snd tokens Z.b2z].
  - apply Qle_bool_iff in E. unfold f_sub.
    pose proof (rnd_err (refilled now b - 1) ltac:(lra)) as [Hs _].
    change (inject_Z 1) with 1%Q. unfold ulp_half in Hs. lra.
  - change (inject_Z 0) with 0%Q. lra.
Qed.

End Wf.

(** ** Histories

    The calls on one limiter, in the order its mutex admits them, each with the
    clock it read. *)

Inductive call : Set := CAcquire | CTryAcquire.

Definition run_call (c : call) (now : Z) (b : Bucket) : Bucket * bool :=
  match c with
  | CAcquire => let '(b, wait) := acquire_section now b in (b, bool_decide (wait = None))
  | CTryAcquire => try_acquire_section now b
  end.

(** The final bucket and the number of tokens handed out. *)
Fixpoint run_calls (b : Bucket) (calls : list (call * Z)) : Bucket * Z :=
  match calls with
  | [] => (b, 0)
  | (c, now) :: calls =>
      let '(b, granted) := run_call c now b in
      let '(b, n) := run_calls b calls in
      (b, Z.b2z granted + n)
  end.

(** The clock never runs backwards. *)
Fixpoint clock_ok (t : Z) (calls : list (call * Z)) : Prop :=
  match calls with
  | [] => True
  | (_, now) :: calls => t <= now /\ clock_ok now calls
  end.

Lemma run_call_try c now b : run_call c now b = try_acquire_section now b.
Proof. destruct c; [|done]. cbn. rewrite acquire_try. by destruct (acquire_section now b). Qed.

Lemma try_acquire_last now b : last (try_acquire_section now b).1 = now.
Proof. unfold try_acquire_section. cbv zeta. by destruct (Qle_bool 1 _). Qed.

Lemma run_calls_wf r b calls : bucket_wf r b -> bucket_wf r (run_calls b calls).1.
Proof.
  revert b. induction calls as [|[c now] calls IH]; intros b Hwf; [done|]. cbn.
  rewrite run_call_try. pose proof (try_acquire_wf Hwf now) as Hwf'.
  destruct (try_acquire_section now b) as [b' g]. specialize (IH b' Hwf').
  by destruct (run_calls b' calls).
Qed.

(** The end of a history: the clock of the last call. *)
Fixpoint end_time (t : Z) (calls : list (call * Z)) : Z :=
  match calls with
  | [] => t
  | (_, now) :: calls => end_time now calls
  end.

Lemma run_calls_last b calls : last (run_calls b calls).1 = end_time (last b) calls.
Proof.
  revert b. induction calls as [|[c now] calls IH]; intros b; [done|]. cbn.
  rewrite run_call_try. pose proof (try_acquire_last now b) as Hl.
  destruct (try_acquire_section now b) as [b' g]. specialize (IH b'). cbn in Hl. rewrite <-Hl, <-IH.
  by destruct (run_calls b' calls).
Qed.

Lemma run_calls_app b calls calls' :
  run_calls b (calls ++ calls') =
  ((run_calls (run_calls b calls).1 calls').1,
   (run_calls b calls).2 + (run_calls (run_calls b calls).1 calls').2).
Proof.
  revert b. induction calls as [|[c now] calls IH]; intros b; cbn [app run_calls fst snd].
  - rewrite Z.add_0_l. by destruct (run_calls b calls').
  - destruct (run_call c now b) as [b' g]. rewrite IH. destruct (run_calls b' calls) as [b'' n].
    cbn [fst snd]. by rewrite Z.add_assoc.
Qed.

Lemma clock_ok_app t calls calls' :
  clock_ok t (calls ++ calls') <-> clock_ok t calls /\ clock_ok (end_time t calls) calls'.
Proof. revert t. induction calls as [|[c now] calls IH]; intros t; cbn; [tauto|]. rewrite IH. tauto. Qed.

Lemma run_calls_bound r b calls :
  bucket_wf r b -> clock_ok (last b) calls ->
  (tokens (run_calls b calls).1 + inject_Z (run_calls b calls).2
   <= tokens b
      + inject_Z r * secs (end_time (last b) calls - last b) * (1 + (1 # 1125899906842624))
      + inject_Z (Z.of_nat (length calls)) * (inject_Z r * (1 # 4503599627370496)))%Q.
Proof.
  revert b. induction calls as [|[c now] calls IH]; intros b Hwf Hc.
  - cbn [end_time run_calls fst snd length]. rewrite Z.sub_diag.
    assert (secs 0 == 0)%Q as -> by reflexivity. change (inject_Z (Z.of_nat 0)) with 0%Q.
    change (inject_Z 0) with 0%Q. lra.
  - destruct Hc as [Hle Hc]. cbn [end_time run_calls]. rewrite run_call_try.
    pose proof (try_acquire_wf Hwf now) as Hwf'. pose proof (try_acquire_step Hwf now Hle) as Hs.
    pose proof (try_acquire_last now b) as Hl.
    destruct (try_acquire_section now b) as [b' g]. cbn [fst snd] in *.
    specialize (IH b' Hwf'). rewrite Hl in IH. specialize (IH Hc).
    destruct (run_calls b' calls) as [b'' n]. cbn [fst snd] in *.
    replace (end_time now calls - last b) with ((now - last b) + (end_time now calls - now)) by lia.
    rewrite secs_add, inject_Z_plus. cbn [length].
    rewrite Nat2Z.inj_succ, <-Z.add_1_r, inject_Z_succ.
    set (R := inject_Z r) in *. set (s1 := secs (now - last b)) in *.
    set (s2 := secs (end_time now calls - now)) in *. set (k := inject_Z (Z.of_nat _)) in *.
    assert (R * (s1 + s2) == R * s1 + R * s2)%Q as -> by ring.
    assert ((k + 1) * (R * (1 # 4503599627370496)) ==
            k * (R * (1 # 4503599627370496)) + R * (1 # 4503599627370496))%Q as -> by ring.
    lra.
Qed.

(** The clock of the first call. *)
Definition start_time (t : Z) (calls : list (call * Z)) : Z :=
  match calls with
  | [] => t
  | (_, now) :: _ => now
  end.

(** In any window of a history. *)
Lemma run_calls_window r b calls :
  bucket_wf r b -> clock_ok (last b) calls ->
  (inject_Z (run_calls b calls).2
   <= inject_Z r
      + inject_Z r * secs (end_time (last b) calls - start_time (last b) calls)
        * (1 + (1 # 1125899906842624))
      + inject_Z (Z.of_nat (length calls)) * (inject_Z r * (1 # 4503599627370496)))%Q.
Proof.
  intros Hwf. assert (1 <= inject_Z r)%Q by (apply (inject_Z_le 1); destruct Hwf; lia).
  destruct calls as [|[c now] calls]; cbn [end_time start_time clock_ok run_calls length].
  - intros _. rewrite Z.sub_diag. assert (secs 0 == 0)%Q as -> by reflexivity.
    cbn [snd]. change (inject_Z (Z.of_nat 0)) with 0%Q. change (inject_Z 0) with 0%Q. lra.
  - intros [Hle Hc]. rewrite run_call_try.
    pose proof (try_acquire_wf Hwf now) as Hwf'. pose proof (try_acquire_full Hwf now) as Hs.
    pose proof (try_acquire_last now b) as Hl.
    destruct (try_acquire_section now b) as [b' g]. cbn [fst snd] in *.
    pose proof (run_calls_bound r b' calls Hwf') as Hb. rewrite Hl in Hb. specialize (Hb Hc).
    pose proof (wf_tokens _ _ (run_calls_wf _ _ calls Hwf')).
    destruct (run_calls b' calls) as [b'' n]. cbn [fst snd] in *.
    rewrite inject_Z_plus, Nat2Z.inj_succ, <-Z.add_1_r, inject_Z_succ.
    set (R := inject_Z r) in *. set (k := inject_Z (Z.of_nat _)) in *.
    set (x := (R * secs _ * _)%Q) in *.
    assert ((k + 1) * (R * (1 # 4503599627370496)) ==
            k * (R * (1 # 4503599627370496)) + R * (1 # 4503599627370496))%Q as -> by ring.
    lra.
Qed.

(** C9: whatever calls reach a limiter and however [acquire] and [try_acquire]
    are mixed, the messages admitted in any window of its history never exceed
    one second's burst plus the configured rate over the window; the only excess
    is the rounding of [f64], at most [rate * 2^-52] tokens per call and a
    relative [2^-50] on the refill. *)
Theorem admission_bound rate b before calls :
  bucket_wf rate b -> clock_ok (last b) (before ++ calls) ->
  let t := end_time (last b) before in
  (inject_Z ((run_calls b (before ++ calls)).2 - (run_calls b before).2)
   <= inject_Z rate
      + inject_Z rate * secs (end_time t calls - start_time t calls) * (1 + (1 # 1125899906842624))
      + inject_Z (Z.of_nat (length calls)) * (inject_Z rate * (1 # 4503599627370496)))%Q.
Proof.
  intros Hwf Hc t. pose proof (run_calls_wf _ _ before Hwf) as Hwf'.
  apply clock_ok_app in Hc as [_ Hc]. rewrite <-run_calls_last in Hc.
  pose proof (run_calls_window _ _ _ Hwf' Hc) as Hb.
  rewrite run_calls_app. unfold t. rewrite run_calls_last in Hb.
  cbn [snd]. rewrite Z.add_simpl_l. exact Hb.
Qed.

Lemma admission_bound_witness :
  (inject_Z ((run_calls (new_bucket 1 0)
                ([(CTryAcquire, 0)] ++ [(CTryAcquire, 1000000000); (CAcquire, 1500000000)])%Z).2
             - (run_calls (new_bucket 1 0) [(CTryAcquire, 0)]%Z).2)
   <= inject_Z 1 + inject_Z 1 * secs (1500000000 - 1000000000) * (1 + (1 # 1125899906842624))
      + inject_Z (Z.of_nat 2) * (inject_Z 1 * (1 # 4503599627370496)))%Q.
Proof.
  apply (admission_bound 1 (new_bucket 1 0) [(CTryAcquire, 0)]
           [(CTryAcquire, 1000000000); (CAcquire, 1500000000)]).
  - apply (new_bucket_wf 1 0). lia.
  - cbn. lia.
Defined.

(** ** Bursts *)

Definition level (b : Bucket) (r k now : Z) : Prop :=
  max b = inject_Z r /\ refill_per_sec b = inject_Z r /\ last b = now /\ (tokens b == inject_Z k)%Q.

Lemma refilled_same r k now b :
  1 <= r < 2 ^ 32 -> 0 <= k <= r -> level b r k now -> (refilled now b == inject_Z k)%Q.
Proof.
  intros Hr Hk (Hm & Hf & Hl & Ht). unfold refilled. rewrite Hl, Hm, Hf.
  unfold duration_since. rewrite Z.sub_diag, Z.max_id. unfold f_add, f_mul.
  assert (rnd (tokens b + rnd (as_secs_f64 0 * inject_Z r)) == inject_Z k)%Q as E.
  { rewrite as_secs_f64_0, Ht, Qmult_0_l. rewrite (rnd_neg 0), Qplus_0_r by lra.
    apply rnd_Z. lia. }
  pose proof (inject_Z_le k r ltac:(lia)).
  pose proof (f_min_le_l (rnd (tokens b + rnd (as_secs_f64 0 * inject_Z r))) (inject_Z r)).
  pose proof (f_min_glb (rnd (tokens b + rnd (as_secs_f64 0 * inject_Z r))) (inject_Z r) (inject_Z k)).
  lra.
Qed.

Lemma burst_step r k now b :
  1 <= r < 2 ^ 32 -> 0 <= k <= r -> level b r k now ->
  (try_acquire_section now b).2 = (1 <=? k) /\
  level (try_acquire_section now b).1 r (Z.max 0 (k - 1)) now.
Proof.
  intros Hr Hk Hb. pose proof (refilled_same r k now b Hr Hk Hb) as Ht.
  destruct Hb as (Hm & Hf & Hl & _).
  unfold try_acquire_section. cbv zeta. change (f_min _ _) with (refilled now b).
  destruct (Qle_bool 1 _) eqn:E; cbn [fst snd].
  - apply Qle_bool_iff in E. rewrite Ht, <-(Zle_Qle 1) in E.
    split; [lia|]. split; [done|]. split; [done|]. split; [done|]. cbn [tokens]. unfold f_sub.
    rewrite Ht, Z.max_r by lia. rewrite <-(rnd_Z (k - 1)) by lia.
    apply rnd_proper. unfold Z.sub. rewrite inject_Z_plus. reflexivity.
  - assert (~ (1 <= refilled now b)%Q) as E' by (rewrite <-Qle_bool_iff; congruence).
    rewrite Ht, <-(Zle_Qle 1) in E'. split; [lia|]. split; [done|]. split; [done|].
    split; [done|]. cbn [tokens]. rewrite Ht. by replace (Z.max 0 (k - 1)) with k by lia.
Qed.

Lemma burst_from r k now b n :
  1 <= r < 2 ^ 32 -> 0 <= k <= r -> level b r k now ->
  (run_calls b (replicate n (CTryAcquire, now))).2 = Z.min k (Z.of_nat n).
Proof.
  intros Hr. revert k b. induction n as [|n IH]; intros k b Hk Hb; [cbn; lia|].
  cbn [replicate run_calls run_call]. pose proof (burst_step r k now b Hr Hk Hb) as [Eg Hb'].
  destruct (try_acquire_section now b) as [b' g]. cbn [fst snd] in *.
  specialize (IH (Z.max 0 (k - 1)) _ ltac:(lia) Hb'). destruct (run_calls b' _) as [b'' m]. cbn [snd] in *.
  rewrite IH, Eg. destruct (1 <=? k) eqn:E; cbn [Z.b2z]; lia.
Qed.

(** A fresh limiter passes a burst of exactly one second's worth of messages
    at once and refuses the next one, whatever the rate; rate 0 counts as 1. *)
Theorem burst_exact rate now n :
  0 <= rate < 2 ^ 32 ->
  (run_calls (new_bucket rate now) (replicate n (CTryAcquire, now))).2
  = Z.min (Z.max rate 1) (Z.of_nat n).
Proof.
  intros Hr. apply (burst_from (Z.max rate 1)); [lia|lia|]. by repeat split.
Qed.

Lemma burst_exact_witness :
  (run_calls (new_bucket 5 0) (replicate 7 (CTryAcquire, 0))).2 = 5.
Proof. rewrite (burst_exact 5 0 7); [reflexivity|lia]. Defined.

(** ** Pacing *)

Lemma as_secs_f64_ge ns :
  (0 <= ns) -> (secs ns * ((1 - ulp_half) * (1 - ulp_half)) <= as_secs_f64 ns)%Q.
Proof.
  intros Hns. unfold as_secs_f64, f_add, f_div. rewrite (secs_split ns).
  assert (0 <= ns / NANOS_PER_SEC) by (apply Z.div_pos; [done|reflexivity]).
  assert (0 <= ns mod NANOS_PER_SEC) by (apply Z.mod_pos_bound; reflexivity).
  set (s := inject_Z (ns / NANOS_PER_SEC)). set (f := (inject_Z (ns mod NANOS_PER_SEC) / _)%Q).
  assert (0 <= s)%Q by (by apply (inject_Z_le 0)).
  assert (0 <= f)%Q by (by apply (secs_nonneg (ns mod NANOS_PER_SEC))).
  pose proof (rnd_nonneg s). pose proof (rnd_nonneg f).
  pose proof (rnd_err s ltac:(done)) as [_ Hs]. pose proof (rnd_err f ltac:(done)) as [_ Hf].
  pose proof (rnd_err (rnd s + rnd f) ltac:(lra)) as [_ Hr].
  unfold ulp_half in *. lra.
Qed.

Lemma from_secs_f64_ge q : (q <= secs (from_secs_f64 q) + (1 # 2000000000))%Q.
Proof.
  unfold from_secs_f64, secs. pose proof (round_half_even_err (q * inject_Z NANOS_PER_SEC)) as [_ H].
  set (n := inject_Z (round_half_even _)) in *.
  change (inject_Z NANOS_PER_SEC) with (1000000000 # 1)%Q in *.
  assert (n / (1000000000 # 1) == n * (1 # 1000000000))%Q as -> by reflexivity. lra.
Qed.

Lemma from_secs_f64_nonneg q : (0 <= q)%Q -> 0 <= from_secs_f64 q.
Proof.
  intros Hq. apply round_half_even_ge_Z. change (inject_Z NANOS_PER_SEC) with (1000000000 # 1)%Q.
  change (inject_Z 0) with 0%Q. lra.
Qed.

(** The refill after a pause longer than the requested wait makes a token. *)
Lemma wait_refills (r d t el : Q) (w : Z) :
  (1 <= r)%Q -> (0 <= t)%Q -> (t < 1)%Q -> d = f_sub 1 t -> w = from_secs_f64 (f_div d r) ->
  (secs (w + 1) * ((1 - ulp_half) * (1 - ulp_half)) <= el)%Q ->
  (1 <= f_add t (f_mul el r))%Q.
Proof.
  intros Hr Ht0 Ht1 -> -> Hel. unfold f_add, f_mul, f_sub, f_div in *.
  assert (1 == rnd 1)%Q as -> by (symmetry; apply (rnd_Z 1); lia). apply rnd_mono.
  pose proof (rnd_err (1 - t) ltac:(lra)) as [Hdu Hd]. pose proof (rnd_nonneg (1 - t)).
  set (d := rnd (1 - t)) in *.
  assert (0 <= d / r)%Q as Hdr by (apply Qle_shift_div_l; lra).
  pose proof (rnd_err (d / r) Hdr) as [_ Hq]. pose proof (from_secs_f64_ge (rnd (d / r))) as Hw.
  rewrite secs_add in Hel. set (w := secs (from_secs_f64 _)) in *.
  change (secs 1) with (1 # 1000000000)%Q in Hel.
  assert (d / r * r == d)%Q as Ed by (field; lra).
  assert (el * r >= (d / r * (1 - ulp_half) + (1 # 2000000000)) * ((1 - ulp_half) * (1 - ulp_half)) * r)%Q
    as Her.
  { apply Qmult_le_compat_r; [|lra]. eapply Qle_trans; [|exact Hel].
    apply Qmult_le_compat_r; [lra|unfold ulp_half; lra]. }
  assert (0 <= el * r)%Q as Hel0.
  { eapply Qle_trans; [|exact Her]. unfold ulp_half in *.
    apply Qmult_le_0_compat; [|lra]. apply Qmult_le_0_compat; [lra|lra]. }
  pose proof (rnd_err (el * r) Hel0) as [_ Hm].
  assert ((d / r * (1 - ulp_half) + (1 # 2000000000)) * ((1 - ulp_half) * (1 - ulp_half)) * r ==
          (d / r * r * (1 - ulp_half) + (1 # 2000000000) * r) * ((1 - ulp_half) * (1 - ulp_half)))%Q
    as E by ring.
  rewrite E, Ed in Her. unfold ulp_half in *. lra.
Qed.

(** A paced caller sleeps once.  When [acquire] finds no token, its next try
    at any clock past the wait it asked for takes one, unless another caller was
    served in between: the wait computed from the deficit is long enough in spite
    of rounding, to [f64] and to whole nanoseconds. *)
Theorem acquire_wakes r b now b1 wait now' :
  bucket_wf r b -> acquire_section now b = (b1, Some wait) -> now + wait < now' ->
  (acquire_section now' b1).2 = None /\ 0 <= wait.
Proof.
  intros Hwf E Hnow'. pose proof (refilled_range Hwf now) as [Hlo _].
  destruct Hwf as [Hr Hm Hf _]. unfold acquire_section in E. cbv zeta in E.
  change (f_min _ _) with (refilled now b) in E.
  destruct (Qle_bool 1 (refilled now b)) eqn:Eq; [done|]. injection E as <- <-.
  assert (~ (1 <= refilled now b)%Q) as Ht%Qnot_le_lt by (rewrite <-Qle_bool_iff; congruence).
  set (wait := from_secs_f64 _) in *.
  assert (0 <= wait) as Hw by (apply from_secs_f64_nonneg, rnd_nonneg).
  split; [|done].
  assert (1 <= inject_Z r)%Q as Hr1 by (apply (inject_Z_le 1); lia).
  unfold acquire_section. cbv zeta. cbn [tokens max refill_per_sec last].
  match goal with |- context [Qle_bool 1 ?t] => assert (Qle_bool 1 t = true) as -> end; [|done].
  apply Qle_bool_iff, f_min_glb; [|by rewrite Hm].
  eapply (wait_refills _ _ _ _ wait); [by rewrite Hf|done|done|done|done|].
  unfold duration_since. rewrite Z.max_r by lia.
  eapply Qle_trans; [|apply as_secs_f64_ge; lia]. apply Qmult_le_compat_r; [|unfold ulp_half; lra].
  unfold secs. apply Qmult_le_compat_r; [|done]. apply inject_Z_le. lia.
Qed.
