(* ===== verification/Effects.v ===== *)
(** * The shared state and the effects of the runtime

    The data the tasks share ([State], [BindSession], [EsmeSession] of
    [runtime.rs]) and the signature [eff] of everything an async function of the
    sources does besides computing: lock a mutex, read the clock, sleep, count a
    metric, run Python on the executor, send a PDU and wait for its response. *)

From Stdlib Require Import QArith.
From S2P Require Import Prelude RustStr Py Status Smpp34 Tlv Pdu Async RateLimit.
#[local] Open Scope Z_scope.

(** ** Shared data *)

(** [Arc]: an address and what it points to. *)
Record Arc (A : Type) : Type := mkArc { ptr : nat; get : A }.
Arguments mkArc {A} ptr get.
Arguments ptr {A} _.
Arguments get {A} _.

Definition ptr_eq {A} (a b : Arc A) : bool := (ptr a =? ptr b)%nat.

(** The codec's session handles, by the fields the sources read. *)
Module SMSC.
Record t : Set := mk { session_id : string; system_id : string; server_address : string }.
End SMSC.
Module ESME.
Record t : Set := mk {
  session_id : string; system_id : string; client_address : string; can_receive : bool;
}.
End ESME.

(** [Arc<RateLimiter>]: the bucket it names is shared state. *)
Definition Limiter : Type := nat.

Record BindSession : Type := mkBindSession {
  bs_name : string;
  bs_smsc : Arc SMSC.t;
  bs_throttle : option Limiter;
  bs_response_timer : Z;
}.

Record EsmeSession : Type := mkEsmeSession {
  es_esme : Arc ESME.t;
  es_throttle : option Limiter;
  es_response_timer : Z;
}.

Inductive ThrottleAction : Set := Pace | Reject.

#[export] Instance ThrottleAction_eq_dec : EqDecision ThrottleAction.
Proof. solve_decision. Defined.

(** The fields of [State] that never change after [spawn]; its two mutexes and
    [listen_failure] are reached by effects. *)
Record StateConfig : Type := mkStateConfig {
  inbound_max_mps : Z;
  inbound_throttle_action : ThrottleAction;
  inbound_response_timer : Z;
}.

(** ** Python objects of the dispatch layer *)

(** [RegisteredHandler]: [callable] is the object's identity. *)
Record RegisteredHandler : Type := mkHandler {
  callable : nat;
  is_async : bool;
  key : option string;
}.

(** What a handler returned, as the converters tell values apart. *)
Inductive PyVal : Type :=
| VNone
| VPduReply (r : PduReply.t)
| VBindResult (r : BindResult.t)
| VOther (truthy : result string bool).

(** An argument built for a handler. *)
Inductive PyArg : Type :=
| APdu (p : Pdu.t)
| AAlert (a : AlertNotification.t)
| ABind (b : Bind.t)
| ASession (s : Session.t).

(** A job the executor did not finish: what [catch_unwind] caught. *)
Inductive JobFailure : Type :=
| PayloadStr (text : string)
| PayloadString (text : string)
| PayloadOther.

(** What arrives over a handler's oneshot before the deadline. *)
Inductive Received (A : Type) : Type :=
| RecvValue (a : A)
| RecvDropped
| RecvTimeout.
Arguments RecvValue {A} a.
Arguments RecvDropped {A}.
Arguments RecvTimeout {A}.

(** ** Requests on a session, and what answers them *)

Inductive request : Type -> Type :=
| ReqSubmit (smsc : Arc SMSC.t) (pdu : submit_sm.t) : request (result SmppError submit_sm_resp.t)
| ReqSubmitMulti (smsc : Arc SMSC.t) (pdu : submit_sm_multi.t)
    : request (result SmppError submit_sm_multi_resp.t)
| ReqDataVia (smsc : Arc SMSC.t) (pdu : data_sm.t) : request (result SmppError data_sm_resp.t)
| ReqCancel (smsc : Arc SMSC.t) (pdu : cancel_sm.t) : request (result SmppError cancel_sm_resp.t)
| ReqQuery (smsc : Arc SMSC.t) (pdu : query_sm.t) : request (result SmppError query_sm_resp.t)
| ReqReplace (smsc : Arc SMSC.t) (pdu : replace_sm.t) : request (result SmppError replace_sm_resp.t)
| ReqDeliver (esme : Arc ESME.t) (pdu : deliver_sm.t) : request (result SmppError deliver_sm_resp.t)
| ReqDataTo (esme : Arc ESME.t) (pdu : data_sm.t) : request (result SmppError data_sm_resp.t)
| ReqAlert (esme : Arc ESME.t) (source_addr_ton source_addr_npi : Z) (source_addr : string)
    (esme_addr_ton esme_addr_npi : Z) (esme_addr : string) (ms_availability_status : option Z)
    : request unit
| ReqUnbindSmsc (smsc : Arc SMSC.t) : request unit
| ReqUnbindEsme (esme : Arc ESME.t) : request unit.

(** ** What a client and the server are started with *)

(** The listener of one outbound bind; [connect_failed] is the flag of [FlagStore]
    and [FlagLoad]. *)
Record BindListener : Type := mkBindListener {
  bl_bind_name : string;
  bl_max_msg_per_sec : Z;
  bl_response_timer : Z;
}.

Inductive BIND_TYPE : Set := TX | RX | TRX.

(** The arguments of [SmppClient::new_with_default_timers], in order. *)
Record ClientArgs : Type := mkClientArgs {
  ca_host : string; ca_port : Z; ca_tls : bool; ca_bind_type : BIND_TYPE;
  ca_system_id : string; ca_password : string; ca_system_type : string;
  ca_arg8 : Z; ca_arg9 : Z; ca_arg10 : string; ca_listener : BindListener;
  ca_session_init : Z; ca_enquire_link : Z; ca_inactivity : Z; ca_response : Z;
  ca_arg16 : Z; ca_arg17 : Z;
}.

(** Those of [SmppServer::new_with_default_timers], after the address. *)
Record ServerArgs : Type := mkServerArgs {
  sa_port : Z; sa_session_init : Z; sa_enquire_link : Z; sa_inactivity : Z; sa_response : Z;
  sa_last : Z;
}.

(** ** The signature *)

Inductive eff : Type -> Type :=
(** A section under [State.binds], [State.esmes] or a limiter's mutex; the
    limiter's also reads the clock. *)
| LockBinds {X} (f : list BindSession -> list BindSession * X) : eff X
| LockEsmes {X} (f : list EsmeSession -> list EsmeSession * X) : eff X
| LockBucket {X} (l : Limiter) (f : Z -> Bucket -> Bucket * X) : eff X
(** [Arc::new]; for a limiter, of a bucket filled at the current clock. *)
| NewSmsc (s : SMSC.t) : eff (Arc SMSC.t)
| NewEsme (e : ESME.t) : eff (Arc ESME.t)
| NewLimiter (f : Z -> Bucket) : eff Limiter
(** [OnceLock::set] on [listen_failure]: whether it was empty. *)
| ListenFailureSet (error : string) : eff bool
| ListenFailureGet : eff (option string)
(** Clock. *)
| Now : eff Z
| Sleep (ns : Z) : eff unit
| IntervalTick (ns : Z) : eff unit
(** The metrics engine: present or not; its calls. *)
| MetricsStore : eff bool
| CounterInc (name : string) (labels : list (string * string)) (v : Z) : eff unit
| HistogramObserve (name : string) (labels : list (string * string)) (v : Q) : eff unit
| GaugeSet (name : string) (labels : list (string * string)) (v : Z) : eff unit
(** A job on siphon's Python executor: admitted, or lost; and, after it ran,
    whether a panic took its result. *)
| JobStart : eff (option JobFailure)
| JobEnd : eff (option JobFailure)
(** Inside a job: the handlers registered under a kind, an argument object, a
    call, and the asyncio pool. *)
| PyHandlers (kind : string) : eff (list RegisteredHandler)
| PyNewArg (a : PyArg) : eff (result string unit)
| PyCall (callable : nat) (args : list PyArg) : eff (result string PyVal)
| PyClose : eff unit
| PoolTimeout : eff (option Z)
| PoolWrap : eff (result string unit)
| PoolSubmit : eff (result string unit)
(** Await the oneshot of a coroutine for at most [ns]. *)
| AwaitOneshot (ns : Z) : eff (Received (result string PyVal))
(** Put a PDU on a session and wait. *)
| Request {R} (r : request R) : eff R
(** A bind's supervisor: its shared flag and its client. *)
| FlagStore (b : bool) : eff unit
| FlagLoad : eff bool
| ClientStart (args : ClientArgs) : eff unit
| ClientAlive : eff bool
| ClientDrop : eff unit
(** The inbound server: [start] with an address (rendered) and its arguments. *)
| ServerStart (addr : string) (args : ServerArgs) : eff unit
(** [std::future::pending]: no answer, ever. *)
| Park : eff Empty_set
(** A Rust panic: no answer. *)
| Panic : eff Empty_set.

Abbreviation task := (prog eff).

(** A section that only reads. *)
Definition reading {S X} (f : S -> X) : S -> S * X := fun s => (s, f s).

Definition panic {A} : task A := Vis Panic (fun e : Empty_set => match e with end).
