(* ===== verification/Metrics.v ===== *)
(** * Metrics: [metrics.rs]

    The emit helpers, each a no-op when the host has no metrics engine, the
    sampling of the session lists and the registration of the series.  The
    engine itself is the host's. *)

From Stdlib Require Import QArith.
From S2P Require Import Prelude Async Effects.
#[local] Open Scope Z_scope.
#[local] Open Scope async_scope.

Definition BINDS := "siphon_smpp_binds".
Definition PDUS := "siphon_smpp_pdus_total".
Definition THROTTLED := "siphon_smpp_throttled_total".
Definition RECONNECTS := "siphon_smpp_bind_reconnects_total".
Definition DISPATCH_ERRORS := "siphon_smpp_dispatch_errors_total".
Definition DISPATCH_DURATION := "siphon_smpp_dispatch_duration_seconds".
Definition BIND_REQUESTS := "siphon_smpp_bind_requests_total".
Definition CONNECT_FAILURES := "siphon_smpp_bind_connect_failures_total".

Definition INBOUND := "inbound".
Definition EGRESS := "egress".
Definition ACCEPTED := "accepted".
Definition REJECTED := "rejected".
Definition BOUND := "bound".

Definition SAMPLE_INTERVAL : Z := 10 * 1000000000.

Definition DURATION_BUCKETS : list Q :=
  [1 # 1000; 5 # 1000; 1 # 100; 25 # 1000; 5 # 100; 1 # 10; 25 # 100; 5 # 10; 1; 25 # 10]%Q.

(** ** Registration *)

Inductive series_kind : Type := Gauge | Counter | Histogram (buckets : list Q).

(** What one [register_*] call is given. *)
Record series : Type := mkSeries {
  s_name : string; s_help : string; s_labels : list string; s_kind : series_kind;
}.

Definition all_series : list series :=
  [mkSeries BINDS "Current SMPP bind sessions" ["direction"; "state"] Gauge;
   mkSeries PDUS "SMPP PDUs handled, by direction, command and wire result"
     ["direction"; "command"; "result"] Counter;
   mkSeries THROTTLED "SMPP PDUs paced or rejected by a rate limiter" ["direction"] Counter;
   mkSeries RECONNECTS "Outbound SMPP bind reconnects (an established session dropped)" ["bind"] Counter;
   mkSeries DISPATCH_ERRORS "SMPP dispatches where the script handler raised" ["command"] Counter;
   mkSeries DISPATCH_DURATION "SMPP script handler dispatch duration in seconds" ["command"]
     (Histogram DURATION_BUCKETS);
   mkSeries BIND_REQUESTS "Inbound SMPP bind requests, by outcome" ["result"] Counter;
   mkSeries CONNECT_FAILURES "Outbound SMPP bind attempts that never reached a session (TCP connect, TLS handshake or socket setup failed)"
     ["bind"] Counter].

(** [register] is the host store's, which reports a duplicate as an error;
    [note] logs it and goes on. *)
Definition register_all {Store} (register : Store -> series -> Store * result string unit)
    (cm : Store) : Store :=
  fold_left (fun cm s => fst (register cm s)) all_series cm.

Definition enabled : task bool := trigger MetricsStore.

Definition when_store (p : task unit) : task unit :=
  store <- trigger MetricsStore; if (store : bool) then p else Ret tt.

Definition record_pdu (direction command result : string) : task unit :=
  when_store (trigger (CounterInc PDUS
    [("direction", direction); ("command", command); ("result", result)] 1)).

Definition record_throttled (direction : string) : task unit :=
  when_store (trigger (CounterInc THROTTLED [("direction", direction)] 1)).

Definition record_bind_reconnect (bind : string) : task unit :=
  when_store (trigger (CounterInc RECONNECTS [("bind", bind)] 1)).

Definition record_bind_connect_failure (bind : string) : task unit :=
  when_store (trigger (CounterInc CONNECT_FAILURES [("bind", bind)] 1)).

Definition record_dispatch_error (command : string) : task unit :=
  when_store (trigger (CounterInc DISPATCH_ERRORS [("command", command)] 1)).

Definition observe_dispatch (command : string) (seconds : Q) : task unit :=
  when_store (trigger (HistogramObserve DISPATCH_DURATION [("command", command)] seconds)).

Definition record_bind_request (result : string) : task unit :=
  when_store (trigger (CounterInc BIND_REQUESTS [("result", result)] 1)).

(** [(egress, inbound)]. *)
Definition sample_binds : task (Z * Z) :=
  egress <- trigger (LockBinds (reading (fun l => Z.of_nat (length l))));
  inbound <- trigger (LockEsmes (reading (fun l => Z.of_nat (length l))));
  Ret (egress, inbound).

Definition set_binds (egress inbound : Z) : task unit :=
  trigger (GaugeSet BINDS [("direction", EGRESS); ("state", BOUND)] egress) ;;
  trigger (GaugeSet BINDS [("direction", INBOUND); ("state", BOUND)] inbound).

(** The sampler task: it never returns. *)
Definition sampler : task Empty_set :=
  iter (fun _ : unit =>
    trigger (IntervalTick SAMPLE_INTERVAL) ;;
    sample <- sample_binds;
    set_binds sample.1 sample.2 ;;
    Ret (inl tt)) tt.

(** [install]: nothing without a metrics engine; else the registrations, and the
    sampler to spawn. *)
Definition install {Store} (register : Store -> series -> Store * result string unit)
    (custom_metrics : option Store) : option (Store * task Empty_set) :=
  cm ← custom_metrics; Some (register_all register cm, sampler).

(** ** What a trace counted *)

(** The labels of a counter's increments in a trace, in order. *)
Definition counted (name : string) (tr : trace eff) : list (list (string * string)) :=
  tr ≫= fun ev => match ev with
                  | Ev (CounterInc n labels v) _ => if String.eqb n name then [labels] else []
                  | Ev _ _ => []
                  end.

(** The metrics engine was up, or down, throughout. *)
Definition store_is (b : bool) (ev : event eff) : Prop :=
  match ev with
  | @Ev _ X e x =>
      match e in eff X return X -> Prop with
      | MetricsStore => fun x => x = b
      | _ => fun _ => True
      end x
  end.
Definition metrics_on (tr : trace eff) : Prop := Forall (store_is true) tr.

Lemma counted_app name tr1 tr2 : counted name (tr1 ++ tr2) = counted name tr1 ++ counted name tr2.
Proof. apply bind_app. Qed.

Lemma metrics_on_app tr1 tr2 : metrics_on (tr1 ++ tr2) <-> metrics_on tr1 /\ metrics_on tr2.
Proof. apply list.Forall_app. Qed.

(** [e] does not touch a counter. *)
Definition no_counter X (e : eff X) : Prop :=
  match e with CounterInc _ _ _ => False | _ => True end.

Lemma no_counter_counted {A} (p : task A) tr a name :
  always no_counter p -> runs p tr a -> counted name tr = [].
Proof.
  intros Hp Hr. pose proof (always_runs _ _ _ _ Hp Hr) as H. clear Hr.
  induction H as [|[X e x] tr He _ IH]; [done|].
  change (Ev e x :: tr) with ([Ev e x] ++ tr). rewrite counted_app, IH. by destruct e.
Qed.

(** A helper counts once when the engine is up. *)
Lemma when_store_counted n name labels v tr u :
  runs (when_store (trigger (CounterInc n labels v))) tr u -> metrics_on tr ->
  counted name tr = if String.eqb n name then [labels] else [].
Proof.
  unfold when_store. intros H Hon. run_step. run_step. apply metrics_on_app in Hon as [Hs _].
  inversion_clear Hs as [|? ? Hb _]. cbn in Hb. subst a. run_step. cbn. by rewrite app_nil_r.
Qed.

Create HintDb metrics.
#[export] Hint Unfold record_pdu record_throttled record_bind_reconnect
  record_bind_connect_failure record_dispatch_error observe_dispatch record_bind_request
  when_store enabled : metrics.
