(* ===== verification/Outcome.v ===== *)
(** * What came back for a request: [outcome.rs]

    Status names, the response fields the send helpers report ([Reply]) and the
    decision what an [Err] from the codec means ([classify], [settle]). *)

From stdpp Require Import pretty.
From S2P Require Import Prelude RustStr Py Status Smpp34 Async Effects.
#[local] Open Scope Z_scope.
#[local] Open Scope async_scope.

Definition STATUS_RTHROTTLED : Z := 0x00000058.
Definition STATUS_RMSGQFUL : Z := 0x00000014.

Definition is_throttle (status : Z) : bool :=
  (status =? STATUS_RTHROTTLED) || (status =? STATUS_RMSGQFUL).

Section StatusName.
Context `{Smpp34}.

Definition status_name (status : Z) : string :=
  let known := from_command_status status in
  if error_code known =? status then debug_name known else hex_literal 8 status.

End StatusName.

(** ** The parts of a response every send helper reports *)

Class Reply (R : Type) := {
  reply_status : R -> Z;
  reply_message_id : R -> string;
}.

#[export] Instance Reply_submit_sm_resp : Reply submit_sm_resp.t := {
  reply_status := submit_sm_resp.command_status;
  reply_message_id r := default "" (submit_sm_resp.message_id r);
}.
#[export] Instance Reply_submit_sm_multi_resp : Reply submit_sm_multi_resp.t := {
  reply_status := submit_sm_multi_resp.command_status;
  reply_message_id r := default "" (submit_sm_multi_resp.message_id r);
}.
#[export] Instance Reply_query_sm_resp : Reply query_sm_resp.t := {
  reply_status := query_sm_resp.command_status;
  reply_message_id := query_sm_resp.message_id;
}.
#[export] Instance Reply_deliver_sm_resp : Reply deliver_sm_resp.t := {
  reply_status := deliver_sm_resp.command_status;
  reply_message_id _ := "";
}.
#[export] Instance Reply_data_sm_resp : Reply data_sm_resp.t := {
  reply_status := data_sm_resp.command_status;
  reply_message_id _ := "";
}.
#[export] Instance Reply_cancel_sm_resp : Reply cancel_sm_resp.t := {
  reply_status := cancel_sm_resp.command_status;
  reply_message_id _ := "";
}.
#[export] Instance Reply_replace_sm_resp : Reply replace_sm_resp.t := {
  reply_status := replace_sm_resp.command_status;
  reply_message_id _ := "";
}.

(** ** Failures *)

Inductive SendFailure : Set :=
| Nack (status : SmppError)
| Timeout (timer : Z)
| Closed
| Unanswered.

#[export] Instance SendFailure_eq_dec : EqDecision SendFailure.
Proof. solve_decision. Defined.

Definition reason (f : SendFailure) : string :=
  match f with
  | Nack _ => "nack"
  | Timeout _ => "timeout"
  | Closed => "closed"
  | Unanswered => "unanswered"
  end.

(** A duration's whole milliseconds. *)
Definition as_millis (ns : Z) : Z := ns / 1000000.

Definition describe (f : SendFailure) : string :=
  match f with
  | Nack status =>
      "peer answered generic_nack " +:+ debug_name status
      +:+ " (" +:+ hex_literal 8 (error_code status) +:+ ")"
  | Timeout timer => "no response within " +:+ pretty (as_millis timer) +:+ " ms"
  | Closed => "session closed before a response arrived"
  | Unanswered => "failed without a response (the session reported ESME_RSYSERR: a generic_nack carrying it, a response of another type, or a failed write)"
  end.

Definition into_pyerr (f : SendFailure) (command target : string) : PyErr :=
  SmppSendError {|
    se_message := target +:+ " " +:+ command +:+ ": " +:+ describe f;
    se_reason := reason f;
    se_command := command;
    se_status := match f with
                 | Nack status => Some (debug_name status, error_code status)
                 | _ => None
                 end;
  |}.

(** The attributes set on the exception instance: [reason], [command],
    [command_status], [command_status_code]. *)
Definition instance_attrs (v : SendErrorValue) : list (string * PyObj) :=
  [("reason", PyStr (Some (se_reason v))); ("command", PyStr (Some (se_command v)))]
  ++ match se_status v with
     | Some (name, code) =>
         [("command_status", PyStr (Some name)); ("command_status_code", PyInt code)]
     | None => [("command_status", PyNone); ("command_status_code", PyNone)]
     end.

(** What a script catches: an [SmppSendError], its message, and the attributes set
    on it. *)
Record Raised : Type := mkRaised { ra_message : string; ra_attrs : list (string * PyObj) }.

(** What is handed to Python: an instance to raise as it is, or the argument to
    build one from. *)
Inductive SendErrorObject : Type :=
| OInstance (r : Raised)
| OMessage (text : string).

Section Raise.
(** The interpreter: calling the class, and setting one attribute. *)
Context (call1 : string -> result string unit) (setattr : string -> PyObj -> result string unit).

Fixpoint set_attrs (attrs : list (string * PyObj)) : result string (list (string * PyObj)) :=
  match attrs with
  | [] => Ok []
  | (name, value) :: attrs =>
      _ ← setattr name value;
      set ← set_attrs attrs;
      Ok ((name, value) :: set)
  end.

(** [SendErrorValue::instance]: every [?] leaves at the first error. *)
Definition instance (v : SendErrorValue) : result string Raised :=
  _ ← call1 (se_message v);
  set ← set_attrs (instance_attrs v);
  Ok (mkRaised (se_message v) set).

(** [SendErrorValue::into_pyobject]: raised with its message alone rather than
    not at all. *)
Definition into_pyobject (v : SendErrorValue) : SendErrorObject :=
  match instance v with
  | Ok value => OInstance value
  | Err error => OMessage (se_message v)
  end.

(** Python's [raise] of an exception given a value: an instance as it is, else
    the class applied to it. *)
Definition raised (o : SendErrorObject) : Raised :=
  match o with
  | OInstance r => r
  | OMessage text => mkRaised text []
  end.

Lemma set_attrs_ok attrs set : set_attrs attrs = Ok set -> set = attrs.
Proof.
  revert set. induction attrs as [|[name value] attrs IH]; intros set; cbn; [naive_solver|].
  rewrite result_bind_ok. intros (u & _ & (l & Hl & [= <-])%result_bind_ok). by rewrite (IH l Hl).
Qed.

(** A failed send is raised with its message whatever the interpreter does, and
    with all its attributes or none. *)
Lemma raised_whole v :
  ra_message (raised (into_pyobject v)) = se_message v /\
  (ra_attrs (raised (into_pyobject v)) = instance_attrs v \/
   ra_attrs (raised (into_pyobject v)) = []).
Proof.
  unfold into_pyobject. destruct (instance v) as [r|e] eqn:Ei; cbn; [|by split; [|right]].
  apply result_bind_ok in Ei as (u & _ & (set & Hs & [= <-])%result_bind_ok).
  split; [done|left]. by apply set_attrs_ok.
Qed.

End Raise.

Definition classify (error : SmppError) (waited response_timer : Z) (session_gone : bool)
    : SendFailure :=
  if negb (bool_decide (error = ESME_RSYSERR)) then Nack error
  else if response_timer <=? waited then Timeout response_timer
  else if session_gone then Closed
  else Unanswered.

(** Await a send; on failure only, ask whether the session is gone. *)
Definition settle {R} (send : task (result SmppError R)) (response_timer : Z)
    (session_gone : task bool) : task (result SendFailure R) :=
  started <- trigger Now;
  answer <- send;
  match answer with
  | Ok response => Ret (Ok response)
  | Err error =>
      now <- trigger Now;
      let waited := Z.max 0 (now - started) in
      gone <- session_gone;
      Ret (Err (classify error waited response_timer gone))
  end.

(** ** Theorems *)

Lemma debug_name_inj e1 e2 : debug_name e1 = debug_name e2 -> e1 = e2.
Proof. destruct e1, e2; intros E; try done; discriminate E. Qed.

Lemma error_code_inj e1 e2 : error_code e1 = error_code e2 -> e1 = e2.
Proof. destruct e1, e2; intros E; try done; discriminate E. Qed.

Lemma debug_name_not_hex e z : debug_name e <> hex_literal 8 z.
Proof.
  intros E%(f_equal of_str). unfold hex_literal in E. rewrite of_to_str in E.
  destruct e; discriminate E.
Qed.

(** [parse_smpp_status] reads exactly the printed names. *)
Lemma parse_smpp_status_name e : parse_smpp_status (debug_name e) = Ok e.
Proof. by destruct e. Qed.

Lemma parse_smpp_status_ok s e : parse_smpp_status s = Ok e -> s = debug_name e.
Proof.
  unfold parse_smpp_status.
  repeat match goal with
         | |- (if String.eqb s ?n then _ else _) = _ -> _ =>
             destruct (String.eqb_spec s n) as [->|_]; [by intros [= <-]|]
         end.
  discriminate.
Qed.

Section Theorems.
Context `{!Smpp34, !Smpp34Laws}.

(** C35: scripts and peers name statuses the same way: a status a script writes
    is accepted exactly when it is the name [status_name] shows for a known
    code, and it stands for that code; two different 32-bit codes are never
    shown as the same text, an unknown one keeping its own value. *)
Theorem status_names :
  (forall s e, parse_smpp_status s = Ok e <-> s = status_name (error_code e)) /\
  (forall s1 s2, fits 32 s1 = true -> fits 32 s2 = true ->
     status_name s1 = status_name s2 -> s1 = s2).
Proof.
  split.
  - intros s e. unfold status_name. rewrite from_command_status_known, Z.eqb_refl.
    split; [apply parse_smpp_status_ok|intros ->; apply parse_smpp_status_name].
  - intros s1 s2 H1%fits_spec H2%fits_spec. unfold status_name. intros E.
    destruct (error_code _ =? s1) eqn:E1, (error_code _ =? s2) eqn:E2.
    + apply debug_name_inj in E. rewrite E in E1. lia.
    + by apply debug_name_not_hex in E.
    + symmetry in E. by apply debug_name_not_hex in E.
    + eapply (hex_literal_inj 8); [..|done]; lia.
Qed.

End Theorems.

(** *** Why a request failed

    What can end a request without its response, and what the sender then
    observes: the documented behaviour of the codec.  The response timer does
    not fire before it has elapsed, and a session is dropped from the registry
    before its requests are released. *)

Inductive cause : Set :=
| PeerNack (e : SmppError)
| TimerFired
| SessionEnded
| WriteFailed
| WrongResponse.

Inductive observed (timer : Z) : cause -> SmppError -> Z -> bool -> Prop :=
| obs_nack e waited gone : observed timer (PeerNack e) e waited gone
| obs_timer waited gone : timer <= waited -> observed timer TimerFired ESME_RSYSERR waited gone
| obs_ended waited : observed timer SessionEnded ESME_RSYSERR waited true
| obs_write waited gone : observed timer WriteFailed ESME_RSYSERR waited gone
| obs_wrong waited gone : observed timer WrongResponse ESME_RSYSERR waited gone.

(** C20: the reason a script is given is never one that did not happen where the
    sources promise it: a reported nack carries the status the peer sent; a fired
    timer is reported as a timeout and nothing before the timer is; a session
    that ended early is reported closed; and only a nack other than
    ESME_RSYSERR is reported as a nack. *)
Theorem classify_sound timer c e waited gone :
  observed timer c e waited gone ->
  let f := classify e waited timer gone in
  (forall s, f = Nack s <-> c = PeerNack s /\ s <> ESME_RSYSERR) /\
  (c = TimerFired -> f = Timeout timer) /\
  (forall t, f = Timeout t -> t = timer /\ timer <= waited) /\
  (c = SessionEnded -> waited < timer -> f = Closed) /\
  (f = Closed -> gone = true /\ waited < timer) /\
  (f = Unanswered -> c <> TimerFired /\ c <> SessionEnded).
Proof.
  intros Hobs f. unfold f, classify.
  destruct (decide (e = ESME_RSYSERR)) as [->|Hne].
  - rewrite bool_decide_eq_true_2 by done. cbn [negb].
    destruct (Z.leb_spec timer waited), gone; inversion Hobs; subst; try lia;
      repeat split; try intros; naive_solver lia.
  - rewrite bool_decide_eq_false_2 by done. cbn [negb].
    inversion Hobs; subst; try done. repeat split; naive_solver.
Qed.

Lemma classify_sound_witness :
  classify ESME_RSYSERR 20 30000 true = Closed.
Proof.
  refine (proj1 (proj2 (proj2 (proj2 (classify_sound 30000 SessionEnded ESME_RSYSERR 20 true _)))) _ _).
  - constructor.
  - reflexivity.
  - reflexivity.
Defined.

Import Smpp34Example.

Lemma status_names_witness : parse_smpp_status "ESME_RTHROTTLED" = Ok ESME_RTHROTTLED.
Proof. apply (proj1 (status_names)). reflexivity. Defined.

Example vendor_status : status_name 0x401 = "0x00000401".
Proof. vm_compute. reflexivity. Qed.
Example timeout_text :
  se_message match into_pyerr (Timeout 30000000000) "submit_sm" "bind" with
             | SmppSendError v => v | _ => Build_SendErrorValue "" "" "" None end
  = "bind submit_sm: no response within 30000 ms".
Proof. vm_compute. reflexivity. Qed.
