(* ===== verification/Dispatch.v ===== *)
(** * Running script handlers: [dispatch.rs]

    Every event is one job on the Python executor that finds the handler, builds
    its arguments, calls it and converts what it returned; a coroutine's result
    arrives over a oneshot ([settle_started]).  A [DispatchError] is its text.

    A job's body is inlined between [JobStart] and [JobEnd]: the executor may
    refuse it, or lose its result to a panic. *)

From stdpp Require Import pretty.
From S2P Require Import Prelude RustStr Py Status Smpp34 Pdu Async Effects.
#[local] Open Scope Z_scope.
#[local] Open Scope async_scope.

Definition PDU_KIND := "smpp.on_pdu".
Definition BIND_KIND := "smpp.on_bind".
Definition SESSION_KIND := "smpp.on_session".

Definition SETTLE_BACKSTOP : Z := 5 * 1000000000.

Definition DispatchError : Set := string.

Definition from_job_failure (payload : JobFailure) : DispatchError :=
  match payload with
  | PayloadStr text => text
  | PayloadString text => text
  | PayloadOther => "script handler job panicked"
  end.

(** ** The executor job *)

Definition on_executor {T} (job : task T) : task (result DispatchError T) :=
  refused <- trigger JobStart;
  match refused with
  | Some payload => Ret (Err (from_job_failure payload))
  | None =>
      r <- job;
      lost <- trigger JobEnd;
      match lost with
      | Some payload => Ret (Err (from_job_failure payload))
      | None => Ret (Ok r)
      end
  end.

(** A handler that was called: its result, or the time its coroutine has. *)
Inductive Started (T : Type) : Type :=
| Done (r : result DispatchError T)
| Pending (timeout : Z).
Arguments Done {T} r.
Arguments Pending {T} timeout.

Definition as_secs (ns : Z) : Z := ns / 1000000000.

(** [Completion]: what turns a coroutine's outcome into the value sent over the
    oneshot, on the loop thread. *)
Definition completion_result {T} (convert : PyVal -> T) (outcome : result string PyVal)
    : result DispatchError T :=
  match outcome with
  | Ok value => Ok (convert value)
  | Err error => Err error
  end.

Definition settle_started {T} (convert : PyVal -> T) (s : Started T) : task (result DispatchError T) :=
  match s with
  | Done r => Ret r
  | Pending timeout =>
      received <- trigger (AwaitOneshot (timeout + SETTLE_BACKSTOP));
      Ret (match received with
           | RecvValue outcome => completion_result convert outcome
           | RecvDropped => Err "the asyncio loop dropped the handler before it settled"
           | RecvTimeout =>
               Err ("async handler did not settle within "
                    +:+ pretty (as_secs (timeout + SETTLE_BACKSTOP))
                    +:+ "s; its asyncio loop is not turning")
           end)
  end.

(** Hand a coroutine to the asyncio pool. *)
Definition submit_coroutine {T} : task (result string (Started T)) :=
  pool <- trigger PoolTimeout;
  match pool with
  | None =>
      Ret (Err "RuntimeError: async handler with no asyncio pool installed; siphon installs one at startup")
  | Some timeout =>
      wrapped <-? trigger PoolWrap;
      submitted <- trigger PoolSubmit;
      match submitted with
      | Err error => trigger PyClose ;; Ret (Err error)
      | Ok _ => Ret (Ok (Pending timeout))
      end
  end.

Definition invoke {T} (handler : RegisteredHandler) (args : list PyArg) (convert : PyVal -> T)
    : task (Started T) :=
  returned <- trigger (PyCall (callable handler) args);
  match returned with
  | Err error => Ret (Done (Err error))
  | Ok returned =>
      if negb (is_async handler) then Ret (Done (Ok (convert returned)))
      else
        started <- submit_coroutine;
        match started with
        | Ok started => Ret started
        | Err error => trigger PyClose ;; Ret (Done (Err error))
        end
  end.

(** [key.is_none() || handler.key == key]. *)
Definition key_matches (wanted : option string) (handler : RegisteredHandler) : bool :=
  bool_decide (wanted = None) || bool_decide (key handler = wanted).

Definition first_matching (kind : string) (wanted : option string) : task (option RegisteredHandler) :=
  handlers <- trigger (PyHandlers kind);
  Ret (iter_find (key_matches wanted) handlers).

(** The argument tuple: the first object and, for a PDU, its session. *)
Definition arguments (first : PyArg) (session : option Session.t) : task (result string (list PyArg)) :=
  made <-? trigger (PyNewArg first);
  match session with
  | Some session =>
      made <-? trigger (PyNewArg (ASession session));
      Ret (Ok [first; ASession session])
  | None => Ret (Ok [first])
  end.

(** The part common to the jobs below: build the arguments and call. *)
Definition call_with {T} (handler : RegisteredHandler) (first : PyArg) (session : option Session.t)
    (convert : PyVal -> T) : task (Started T) :=
  args <- arguments first session;
  match args with
  | Ok args => invoke handler args convert
  | Err error => Ret (Done (Err error))
  end.

(** What [pdu], [alert] and [bind] share: the job that finds the first handler
    and calls it, and the wait for its result.  [None]: no handler. *)
Definition run_event {T} (kind : string) (wanted : option string) (first : PyArg)
    (session : option Session.t) (convert : PyVal -> T) : task (option (result DispatchError T)) :=
  started <- on_executor (
    handler <- first_matching kind wanted;
    match handler with
    | None => Ret None
    | Some handler =>
        started <- call_with handler first session convert;
        Ret (Some started)
    end);
  match started with
  | Err error => Ret (Some (Err error))
  | Ok None => Ret None
  | Ok (Some started) =>
      r <- settle_started convert started; Ret (Some r)
  end.

(** ** PDUs and alerts *)

(** What a [@smpp.on_pdu] handler's return value means as a reply. *)
Definition pdu_reply (value : PyVal) : PduReply.t :=
  match value with
  | VPduReply r => r
  | _ => PduReply.default_ok
  end.

Definition pdu (command : string) (p : Pdu.t) (session : Session.t)
    : task (option (result DispatchError PduReply.t)) :=
  run_event PDU_KIND (Some command) (APdu p) (Some session) pdu_reply.

Definition unit_of (_ : PyVal) : unit := tt.

Definition alert (a : AlertNotification.t) (session : Session.t) : task (result DispatchError unit) :=
  r <- run_event PDU_KIND (Some "alert_notification") (AAlert a) (Some session) unit_of;
  Ret (default (Ok tt) r).

(** ** Binds *)

Module BindOutcome.
Record t : Set := mk { accept : bool; status : SmppError; reason : string }.
Definition reject (reason : string) : t := mk false ESME_RBINDFAIL reason.
End BindOutcome.

Definition bind_outcome (value : PyVal) : BindOutcome.t :=
  match value with
  | VNone => BindOutcome.reject "handler returned None"
  | VBindResult r =>
      BindOutcome.mk (BindResult.accept r) (BindResult.status r) (BindResult.reason r)
  | VPduReply _ => BindOutcome.mk true ESME_ROK ""
  | VOther (Ok true) => BindOutcome.mk true ESME_ROK ""
  | VOther _ => BindOutcome.reject "handler returned a non-truthy value"
  end.

(** The two texts a failed dispatch is reported with depend on where it failed:
    before the handler was called, or in it. *)
Definition bind (b : Bind.t) : task BindOutcome.t :=
  started <- on_executor (
    handler <- first_matching BIND_KIND None;
    match handler with
    | None => Ret None
    | Some handler =>
        started <- call_with handler (ABind b) None bind_outcome;
        Ret (Some started)
    end);
  match started with
  | Err error => Ret (BindOutcome.reject ("@smpp.on_bind did not run: " +:+ error))
  | Ok None => Ret (BindOutcome.reject "no @smpp.on_bind handler registered")
  | Ok (Some started) =>
      outcome <- settle_started bind_outcome started;
      Ret (match outcome with
           | Ok outcome => outcome
           | Err error => BindOutcome.reject ("@smpp.on_bind raised: " +:+ error)
           end)
  end.

(** ** Session events *)

(** Where a run of session handlers stopped: at the end, or waiting for a
    coroutine with the handlers still to run. *)
Inductive SessionStep : Type :=
| Finished
| Awaiting (pending : Started unit) (remaining : list RegisteredHandler).

Fixpoint run_session (session : Session.t) (remaining : list RegisteredHandler) : task SessionStep :=
  match remaining with
  | [] => Ret Finished
  | handler :: remaining =>
      started <- call_with handler (ASession session) None unit_of;
      match started with
      | Done _ => run_session session remaining
      | Pending timeout => Ret (Awaiting (Pending timeout) remaining)
      end
  end.

Definition session (event : string) (s : Session.t) : task unit :=
  step <- on_executor (
    handlers <- trigger (PyHandlers SESSION_KIND);
    run_session s (List.filter (fun h => bool_decide (key h = Some event)) handlers));
  iter (fun step : result DispatchError SessionStep =>
    match step with
    | Err _ => Ret (inr tt)
    | Ok Finished => Ret (inr tt)
    | Ok (Awaiting pending remaining) =>
        settle_started unit_of pending ;;
        step <- on_executor (run_session s remaining);
        Ret (inl step)
    end) step.

(** ** [Completion]: one outcome per coroutine

    [finish] is taken by the first of [done] and [fail]; later calls find it
    gone. *)
Inductive completion_call : Type :=
| CompletionDone (value : PyVal)
| CompletionFail (error : string).

Definition completion_outcome (c : completion_call) : result string PyVal :=
  match c with CompletionDone v => Ok v | CompletionFail e => Err e end.

(** How a coroutine ended under the pool's deadline: with a value, or with an
    exception, its text, whether it is an [Exception], and whether the scope had
    expired. *)
Inductive coroutine_end : Type :=
| CoroutineReturned (value : PyVal)
| CoroutineRaised (error : string) (is_exception : bool) (expired : bool).

Definition timeout_text (name timeout : string) : string :=
  "TimeoutError: async handler " +:+ name +:+ " did not settle within " +:+ timeout +:+ "s".

(** [await_handler]'s calls on its [completion]; [name] is the coroutine's, and
    [timeout] its deadline in seconds, rendered. *)
Definition await_handler (name timeout : string) (e : coroutine_end) : list completion_call :=
  match e with
  | CoroutineReturned value => [CompletionDone value]
  | CoroutineRaised error _ expired =>
      if expired then [CompletionFail (timeout_text name timeout)] else [CompletionFail error]
  end.

(** What the wrapper itself ends with: an exception that is no [Exception] goes
    on to the loop. *)
Definition await_handler_raises (e : coroutine_end) : bool :=
  match e with
  | CoroutineReturned _ => false
  | CoroutineRaised _ is_exception _ => negb is_exception
  end.

(** [take]: whether [finish] was there, and what is left. *)
Definition completion_take (finish : bool) : bool * bool := (finish, false).

Definition completion_step {T} (convert : PyVal -> T) (finish : bool) (c : completion_call)
    : bool * list (result DispatchError T) :=
  let '(taken, finish) := completion_take finish in
  (finish, if taken then [completion_result convert (completion_outcome c)] else []).

(** What is sent over the oneshot by a sequence of calls. *)
Fixpoint completion_run {T} (convert : PyVal -> T) (finish : bool) (calls : list completion_call)
    : list (result DispatchError T) :=
  match calls with
  | [] => []
  | c :: calls =>
      let '(finish, sent) := completion_step convert finish c in
      sent ++ completion_run convert finish calls
  end.

(** ** Traces *)

(** The handler calls of a trace, with their arguments. *)
Definition py_calls (tr : trace eff) : list (nat * list PyArg) :=
  tr ≫= fun ev => match ev with Ev (PyCall c args) _ => [(c, args)] | Ev _ _ => [] end.

(** The values a handler produced in a trace: what its call returned, or, for a
    coroutine function, what its coroutine settled to. *)
Definition value_of (h : RegisteredHandler) (ev : event eff) : list (result string PyVal) :=
  match ev with
  | @Ev _ X e x =>
      match e in eff X return X -> list (result string PyVal) with
      | PyCall _ _ => fun x => if is_async h then [] else [x]
      | AwaitOneshot _ => fun x =>
          match x with RecvValue v => if is_async h then [v] else [] | _ => [] end
      | _ => fun _ => []
      end x
  end.
Definition py_values (h : RegisteredHandler) (tr : trace eff) : list (result string PyVal) :=
  tr ≫= value_of h.

(** The registry as a trace saw it, and of which kind. *)
Definition registered_of (ev : event eff) : list (string * list RegisteredHandler) :=
  match ev with
  | @Ev _ X e x =>
      match e in eff X return X -> list (string * list RegisteredHandler) with
      | PyHandlers kind => fun x => [(kind, x)]
      | _ => fun _ => []
      end x
  end.
Definition registries (tr : trace eff) : list (string * list RegisteredHandler) := tr ≫= registered_of.

Lemma py_calls_app tr1 tr2 : py_calls (tr1 ++ tr2) = py_calls tr1 ++ py_calls tr2.
Proof. apply bind_app. Qed.
Lemma py_values_app h tr1 tr2 : py_values h (tr1 ++ tr2) = py_values h tr1 ++ py_values h tr2.
Proof. apply bind_app. Qed.
Lemma registries_app tr1 tr2 : registries (tr1 ++ tr2) = registries tr1 ++ registries tr2.
Proof. apply bind_app. Qed.

(** The executor took every job of a trace and kept its result, and every
    argument object was built. *)
Definition undisturbed_event (ev : event eff) : Prop :=
  match ev with
  | @Ev _ X e x =>
      match e in eff X return X -> Prop with
      | JobStart => fun x => x = None
      | JobEnd => fun x => x = None
      | PyNewArg _ => fun x => x = Ok tt
      | _ => fun _ => True
      end x
  end.
Definition undisturbed (tr : trace eff) : Prop := Forall undisturbed_event tr.

Lemma undisturbed_app tr1 tr2 : undisturbed (tr1 ++ tr2) <-> undisturbed tr1 /\ undisturbed tr2.
Proof. apply list.Forall_app. Qed.

Lemma undisturbed_cons ev tr : undisturbed (ev :: tr) <-> undisturbed_event ev /\ undisturbed tr.
Proof. apply list.Forall_cons. Qed.

Create Rewrite HintDb trace.
#[export] Hint Rewrite py_calls_app py_values_app registries_app undisturbed_app undisturbed_cons : trace.

(** Split a run on the value it inspects next. *)
Ltac run_case :=
  match goal with
  | H : runs (match ?x with _ => _ end) _ _ |- _ =>
      let E := fresh "E" in destruct x eqn:E; subst; cbn [negb] in *
  end.
Ltac run_all := repeat first [run_step | run_case].

(** What a called handler contributes to a trace: one call, of that handler and
    with those arguments, unless an argument could not be built or the executor
    let go of the job; and, when it gave a value, that value converted. *)
Definition one_call {T} (h : RegisteredHandler) (args : list PyArg) (convert : PyVal -> T)
    (tr : trace eff) (r : result DispatchError T) : Prop :=
  (py_calls tr = [] /\ ~ undisturbed tr /\ (exists e, r = Err e)) \/
  (py_calls tr = [(callable h, args)] /\
   (((undisturbed tr -> forall v, Ok v ∉ py_values h tr) /\ exists e, r = Err e) \/
    exists v, Ok v ∈ py_values h tr /\ r = Ok (convert v))).

(** A trace that shows its own disturbance. *)
Ltac disturbed :=
  let Hu := fresh "Hu" in intros Hu; autorewrite with trace in Hu; cbn in Hu; destruct_and?; discriminate.

Lemma call_with_settle {T} (h : RegisteredHandler) first session (convert : PyVal -> T) tr1 s tr2 r :
  runs (call_with h first session convert) tr1 s -> runs (settle_started convert s) tr2 r ->
  one_call h (first :: match session with Some s => [ASession s] | None => [] end) convert
    (tr1 ++ tr2) r /\ registries (tr1 ++ tr2) = [].
Proof.
  intros H1 H2. unfold call_with, arguments, invoke, submit_coroutine, settle_started, one_call in *.
  destruct session; run_all; cbn; (split; [|reflexivity]);
    try (left; split; [reflexivity|split; [disturbed|eauto]]; fail); right; (split; [reflexivity|]).
  all: destruct (is_async h) eqn:Ea; try discriminate.
  all: try (right; eexists; split; [|reflexivity]; cbn; rewrite ?Ea; set_solver).
  all: try (left; split; [intros _ v; cbn; rewrite ?Ea; set_solver|eexists; reflexivity]).
  all: match goal with a : Received (result string PyVal) |- _ => destruct a as [[]| |] end; cbn;
    first [ left; split; [intros _ v; cbn; rewrite ?Ea; set_solver|eexists; reflexivity]
          | right; eexists; split; [|reflexivity]; rewrite ?Ea; set_solver ].
Qed.

(** Only the Python part of a trace, and its disturbances, matter. *)
Lemma one_call_view {T} h args (convert : PyVal -> T) tr tr' r :
  (undisturbed tr' -> undisturbed tr) -> py_calls tr' = py_calls tr ->
  py_values h tr' = py_values h tr ->
  one_call h args convert tr r -> one_call h args convert tr' r.
Proof. intros Hu Hc Hv. unfold one_call. rewrite Hc, Hv. naive_solver. Qed.

Lemma call_with_calls {T} (h : RegisteredHandler) first session (convert : PyVal -> T) tr s :
  runs (call_with h first session convert) tr s ->
  (py_calls tr = [] \/
   py_calls tr = [(callable h, first :: match session with Some s => [ASession s] | None => [] end)])
  /\ registries tr = [].
Proof.
  intros H1. unfold call_with, arguments, invoke, submit_coroutine in *.
  destruct session; run_all; cbn; (split; [auto|reflexivity]).
Qed.

(** The handlers an event is for: those under its key, or all of them. *)
Definition serves (wanted : option string) (h : RegisteredHandler) : Prop :=
  match wanted with None => True | Some k => key h = Some k end.

(** [o] is the first handler of [hs] that serves. *)
Definition first_serving (wanted : option string) (hs : list RegisteredHandler)
    (o : option RegisteredHandler) : Prop :=
  match o with
  | Some h => serves wanted h /\
      exists before after, hs = before ++ h :: after /\ Forall (fun h' => ~ serves wanted h') before
  | None => Forall (fun h' => ~ serves wanted h') hs
  end.

Lemma key_matches_serves wanted h : key_matches wanted h = true <-> serves wanted h.
Proof.
  unfold key_matches, serves. rewrite orb_true_iff, !bool_decide_eq_true.
  destruct wanted; naive_solver.
Qed.

Lemma find_first_serving wanted hs : first_serving wanted hs (iter_find (key_matches wanted) hs).
Proof.
  assert (forall l, Forall (fun h => key_matches wanted h = false) l ->
                    Forall (fun h => ~ serves wanted h) l) as Hnot.
  { intros l Hl. eapply list.Forall_impl; [exact Hl|]. cbn. intros h Hh Hs%key_matches_serves. congruence. }
  destruct (iter_find _ hs) as [h|] eqn:E; cbn.
  - apply iter_find_some in E as (l1 & l2 & -> & Hh%key_matches_serves & Hl). eauto 6.
  - apply iter_find_none in E. auto.
Qed.

(** How an event was handled, read off its trace. *)
Definition found (kind : string) (wanted : option string) (tr : trace eff)
    (o : option RegisteredHandler) : Prop :=
  exists hs, registries tr = [(kind, hs)] /\ first_serving wanted hs o.

Inductive dispatched {T} (kind : string) (wanted : option string) (args : list PyArg)
    (convert : PyVal -> T) (tr : trace eff) : option (result DispatchError T) -> Prop :=
(** the executor refused the job *)
| dispatched_refused e :
    ~ undisturbed tr -> registries tr = [] -> py_calls tr = [] ->
    dispatched kind wanted args convert tr (Some (Err e))
(** no handler; the job's result may still be lost *)
| dispatched_none :
    found kind wanted tr None -> py_calls tr = [] -> dispatched kind wanted args convert tr None
| dispatched_lost e :
    ~ undisturbed tr -> found kind wanted tr None -> py_calls tr = [] ->
    dispatched kind wanted args convert tr (Some (Err e))
| dispatched_call h r :
    found kind wanted tr (Some h) -> one_call h args convert tr r ->
    dispatched kind wanted args convert tr (Some r).

(** The job alone: [on_executor] of the search and the call. *)
Definition event_job {T} (kind : string) (wanted : option string) (first : PyArg)
    (session : option Session.t) (convert : PyVal -> T) : task (option (Started T)) :=
  handler <- first_matching kind wanted;
  match handler with
  | None => Ret None
  | Some handler =>
      started <- call_with handler first session convert;
      Ret (Some started)
  end.

Definition args_of (first : PyArg) (session : option Session.t) : list PyArg :=
  first :: match session with Some s => [ASession s] | None => [] end.

Lemma one_call_err {T} h args (convert : PyVal -> T) tr e :
  ~ undisturbed tr -> py_calls tr = [] \/ py_calls tr = [(callable h, args)] ->
  one_call h args convert tr (Err e).
Proof. intros Hn [?|?]; [left|right]; naive_solver. Qed.

Lemma event_job_run {T} kind wanted first session (convert : PyVal -> T) tr o :
  runs (event_job kind wanted first session convert) tr o ->
  exists hs trc, tr = Ev (PyHandlers kind) hs :: trc /\
    match iter_find (key_matches wanted) hs with
    | None => trc = [] /\ o = None
    | Some h => exists st, o = Some st /\ runs (call_with h first session convert) trc st
    end.
Proof.
  unfold event_job, first_matching. intros H. repeat run_step. cbn [app].
  match goal with H : runs (match ?x with _ => _ end) _ _ |- _ => destruct x eqn:E end; repeat run_step.
  - eexists _, _. split; [reflexivity|]. rewrite E, app_nil_r. eauto.
  - eexists _, _. split; [reflexivity|]. by rewrite E.
Qed.

Lemma found_app wanted kind hs tr1 tr2 tr3 :
  registries tr1 = [] -> registries (tr2 ++ tr3) = [] ->
  found kind wanted (tr1 ++ (Ev (PyHandlers kind) hs :: tr2) ++ tr3) (iter_find (key_matches wanted) hs).
Proof.
  intros H1 H2. exists hs. split; [|apply find_first_serving]. rewrite registries_app, H1. cbn.
  rewrite registries_app in *. apply app_nil in H2 as [-> ->]. done.
Qed.

(** A run of the job, and of the wait for what it started. *)
Lemma event_job_dispatched {T} kind wanted first session (convert : PyVal -> T) tr1 started tr2 r :
  runs (on_executor (event_job kind wanted first session convert)) tr1 started ->
  match started with
  | Err e => tr2 = [] /\ r = Some (Err e)
  | Ok None => tr2 = [] /\ r = None
  | Ok (Some st) => exists out, runs (settle_started convert st) tr2 out /\ r = Some out
  end ->
  dispatched kind wanted (args_of first session) convert (tr1 ++ tr2) r.
Proof.
  intros H1 H2. unfold on_executor in H1.
  run_step. run_step.
  run_case; [run_step; destruct H2 as [-> ->]; apply dispatched_refused; [disturbed|done..]|].
  repeat run_step.
  match goal with H : runs (event_job _ _ _ _ _) _ _ |- _ =>
    apply event_job_run in H as (hs & trc & -> & Hjob) end.
  destruct (iter_find _ hs) as [h|] eqn:Eh.
  - destruct Hjob as (st & -> & Hc). pose proof (call_with_calls _ _ _ _ _ _ Hc) as [Hp Hreg].
    run_case; repeat run_step.
    + destruct H2 as [-> ->]. eapply dispatched_call.
      * rewrite <-Eh. rewrite app_nil_r. apply (found_app _ _ _ [Ev JobStart None]); [done|].
        by rewrite registries_app, Hreg.
      * apply one_call_err; [disturbed|]. cbn. autorewrite with trace. cbn. rewrite ?app_nil_r. exact Hp.
    + destruct H2 as (out & Hs & ->). destruct (call_with_settle _ _ _ _ _ _ _ _ Hc Hs) as [Hone Hreg2].
      eapply dispatched_call.
      * rewrite <-Eh, <-!app_assoc. apply (found_app _ _ _ [Ev JobStart None]); [done|].
        rewrite !registries_app in *. exact Hreg2.
      * eapply one_call_view; [..|exact Hone].
        -- intros Hu. autorewrite with trace in Hu |- *. cbn in Hu. tauto.
        -- by rewrite !py_calls_app, <-!app_assoc.
        -- by rewrite !py_values_app, <-!app_assoc.
  - destruct Hjob as (-> & ->). pose proof (find_first_serving wanted hs) as Hf. rewrite Eh in Hf.
    run_case; repeat run_step; destruct H2 as [-> ->];
      [apply dispatched_lost; [disturbed|..]|apply dispatched_none];
      try reflexivity; eexists; (split; [|exact Hf]); done.
Qed.

Lemma run_event_dispatched {T} kind wanted first session (convert : PyVal -> T) tr r :
  runs (run_event kind wanted first session convert) tr r ->
  dispatched kind wanted (args_of first session) convert tr r.
Proof.
  unfold run_event. intros H. run_step. eapply event_job_dispatched; [eassumption|].
  destruct a as [[st|]|e]; repeat run_step; eauto. rewrite app_nil_r. eauto.
Qed.

(** C11: a PDU reaches exactly one handler, the first one the script registered
    for its command at that moment, called once with the PDU and its session; the
    reply is what that handler returned or settled to (anything that is not a
    [PduReply] counts as an accept).  It is an error only when the handler gave
    no value or the executor let go of the job, and [None] means that no handler
    was registered for the command and none was called. *)
Theorem pdu_dispatched command p s tr r :
  runs (pdu command p s) tr r ->
  dispatched PDU_KIND (Some command) [APdu p; ASession s] pdu_reply tr r.
Proof. apply run_event_dispatched. Qed.

Lemma first_serving_any hs h : first_serving None hs (Some h) -> exists hs', hs = h :: hs'.
Proof.
  intros (_ & [|h' before] & after & -> & Hb); [eauto|].
  apply list.Forall_cons in Hb as [[] _]. done.
Qed.

(** The values that accept a bind. *)
Definition accepting (v : PyVal) : bool :=
  match v with
  | VBindResult r => BindResult.accept r
  | VPduReply _ => true
  | VOther (Ok true) => true
  | _ => false
  end.

Lemma bind_outcome_accept v : BindOutcome.accept (bind_outcome v) = accepting v.
Proof. by destruct v as [| | |[[]|]]. Qed.

(** C10: binds are closed by default: an inbound bind is accepted only when the
    first registered [@smpp.on_bind] handler was called with that bind and itself
    returned (or settled to) an accepting value.  No handler, no return value, a
    raised exception, a timeout, a refused or lost job all reject. *)
Theorem bind_closed_by_default b tr o :
  runs (bind b) tr o -> BindOutcome.accept o = true ->
  exists h hs v,
    registries tr = [(BIND_KIND, h :: hs)] /\ py_calls tr = [(callable h, [ABind b])] /\
    Ok v ∈ py_values h tr /\ accepting v = true /\ o = bind_outcome v.
Proof.
  unfold bind. intros H Ha. run_step.
  match goal with H : runs (on_executor _) _ _ |- _ => rename H into Hj end.
  destruct a as [[st|]|e]; repeat run_step; try discriminate.
  eassert (dispatched BIND_KIND None (args_of (ABind b) None) bind_outcome _ (Some a)) as Hd
    by (eapply event_job_dispatched; [exact Hj|]; eexists; split; [eassumption|reflexivity]).
  rewrite app_nil_r. inversion Hd as [? ? ?| |? ? ?|h r (hs & Hreg & Hf) Hone]; subst; try discriminate.
  destruct Hone as [(_ & _ & e & ->)|(Hp & [(_ & e & ->)|(v & Hv & ->)])]; try discriminate.
  apply first_serving_any in Hf as (hs' & ->).
  exists h, hs', v. rewrite bind_outcome_accept in Ha. done.
Qed.

(** Whatever a handler's coroutine does, exactly one result is reported for
    it, and the right one: the value it returned, converted; the deadline when it
    was cancelled for running past it; else the exception it ended with.  Later
    reports, in any number and order, change nothing. *)
Theorem completion_once {T} (convert : PyVal -> T) name timeout e more :
  exists r, completion_run convert true (await_handler name timeout e ++ more) = [r] /\
    r = match e with
        | CoroutineReturned v => Ok (convert v)
        | CoroutineRaised _ _ true => Err (timeout_text name timeout)
        | CoroutineRaised error _ false => Err error
        end.
Proof.
  assert (forall calls, completion_run convert false calls = []) as Hno
    by (intros calls; induction calls as [|c calls IH]; [done|exact IH]).
  destruct e as [v|error exc []]; eexists; (split; [cbn; by rewrite Hno|done]).
Qed.

(** ** Session hooks *)

Definition session_call (s : Session.t) (h : RegisteredHandler) : nat * list PyArg :=
  (callable h, [ASession s]).

Lemma call_session_undisturbed h s tr st :
  runs (call_with h (ASession s) None unit_of) tr st -> undisturbed tr ->
  py_calls tr = [session_call s h].
Proof.
  intros H Hu. unfold call_with, arguments, invoke, submit_coroutine in *.
  run_all; cbn in *; autorewrite with trace in *; cbn in *; try reflexivity.
  all: destruct Hu as [Hu _]; simplify_eq.
Qed.

Lemma settle_started_calls {T} (convert : PyVal -> T) st tr r :
  runs (settle_started convert st) tr r -> py_calls tr = [].
Proof. intros H. unfold settle_started in H. destruct st; run_all; reflexivity. Qed.

Lemma run_session_calls s remaining tr step :
  runs (run_session s remaining) tr step -> undisturbed tr ->
  exists ran, py_calls tr = session_call s <$> ran /\
    match step with
    | Finished => remaining = ran
    | Awaiting _ rest => remaining = ran ++ rest
    end.
Proof.
  revert tr. induction remaining as [|h remaining IH]; intros tr H Hu.
  - cbn [run_session] in H. repeat run_step. by exists [].
  - cbn [run_session] in H. run_step. apply undisturbed_app in Hu as [Hu1 Hu2].
    match goal with H : runs (call_with _ _ _ _) _ _ |- _ =>
      pose proof (call_session_undisturbed _ _ _ _ H Hu1) as Hc end.
    rewrite py_calls_app, Hc. destruct a as [r|timeout].
    + destruct (IH _ ltac:(eassumption) Hu2) as (ran & Hp & Hs). exists (h :: ran).
      rewrite Hp. split; [done|]. destruct step; by subst.
    + repeat run_step. by exists [h].
Qed.

Lemma on_executor_undisturbed {T} (job : task T) tr r :
  runs (on_executor job) tr r -> undisturbed tr ->
  exists trj a, r = Ok a /\ runs job trj a /\ undisturbed trj /\ py_calls tr = py_calls trj /\
    registries tr = registries trj.
Proof.
  intros H Hu. unfold on_executor in H. run_step. run_step.
  apply undisturbed_app in Hu as [[Hs _]%undisturbed_cons Hu]. cbn in Hs. subst a.
  repeat run_step. autorewrite with trace in Hu. destruct Hu as (Hj & [He _] & _).
  cbn in He. subst. repeat run_step. eexists _, _. split; [done|]. split; [eassumption|].
  split; [done|]. rewrite !py_calls_app, !registries_app. cbn. by rewrite !app_nil_r.
Qed.

(** C19: when the executor is not shedding, a session event runs every
    [@smpp.on_session] handler registered for it exactly once and in registration
    order, each after the previous one finished, and a handler that raises, or
    whose coroutine fails, never keeps the later ones from running. *)
Theorem session_runs_all event s tr :
  runs (session event s) tr tt -> undisturbed tr ->
  exists hs, head (registries tr) = Some (SESSION_KIND, hs) /\
    py_calls tr = session_call s <$> List.filter (fun h => bool_decide (key h = Some event)) hs.
Proof.
  unfold session. intros H Hu. run_step. apply undisturbed_app in Hu as [Hu1 Hu2].
  match goal with H : runs (on_executor _) _ _ |- _ =>
    apply on_executor_undisturbed in H as (trj & step & -> & Hj & Huj & Hpj & Hrj); [|done] end.
  repeat run_step.
  match goal with H : runs (run_session _ _) _ _ |- _ => rename H into Hrs end.
  rewrite undisturbed_app in Huj. destruct Huj as [_ Huj].
  destruct (run_session_calls _ _ _ _ Hrs Huj) as (ran & Hp & Hstep).
  eexists. split; [rewrite registries_app, Hrj; reflexivity|].
  rewrite py_calls_app, Hpj. cbn [app].
  change (py_calls (Ev (PyHandlers SESSION_KIND) a :: tr2)) with (py_calls tr2). rewrite Hp. clear Hpj Hrj Hp.
  match goal with H : runs (iter _ _) _ _ |- _ => rename H into Hit end.
  apply runs_iter in Hit as Ht. clear Hit. remember (Ok step) as st eqn:Est.
  remember (List.filter _ _) as hs eqn:Ehs. clear Ehs Hrs Huj.
  revert hs step ran Est Hstep Hu2. induction Ht as [st trb b Hb|st trb st' trc b Hb Ht IH];
    intros hs step ran -> Hstep Hu2.
  - destruct step as [|pending rest]; repeat run_step. by rewrite app_nil_r.
  - destruct step as [|pending rest]; repeat run_step.
    autorewrite with trace in Hu2. destruct Hu2 as ((Hs & He & _) & Hu2).
    match goal with H : runs (settle_started _ _) _ _ |- _ => apply settle_started_calls in H as Hsc end.
    match goal with H : runs (on_executor _) _ _ |- _ =>
      apply on_executor_undisturbed in H as (trj' & step' & -> & Hj' & Huj' & Hpj' & _); [|done] end.
    simplify_eq. destruct (run_session_calls _ _ _ _ Hj' Huj') as (ran' & Hp' & Hstep').
    specialize (IH rest step' ran' eq_refl Hstep' Hu2).
    rewrite !py_calls_app, Hsc, Hpj', Hp'. cbn [app].
    change (py_calls []) with (@nil (nat * list PyArg)). by rewrite app_nil_r, IH, fmap_app.
Qed.

(** ** Witnesses *)

Definition example_pdu : Pdu.t := from_query (query_sm.mk "m1" 1 1 "100").
Definition example_session : Session.t := Session.mk EsmeServer "s1" "esme" "10.0.0.1".

Lemma pdu_dispatched_witness :
  dispatched PDU_KIND (Some "query_sm") [APdu example_pdu; ASession example_session] pdu_reply
    [Ev JobStart None; Ev (PyHandlers PDU_KIND) [mkHandler 7 false (Some "query_sm")];
     Ev (PyNewArg (APdu example_pdu)) (Ok tt); Ev (PyNewArg (ASession example_session)) (Ok tt);
     Ev (PyCall 7 [APdu example_pdu; ASession example_session]) (Ok VNone); Ev JobEnd None]
    (Some (Ok PduReply.default_ok)).
Proof. apply (pdu_dispatched "query_sm"). cbn. repeat eexists. Defined.

Lemma bind_closed_by_default_witness :
  exists h hs v, registries
    [Ev JobStart None; Ev (PyHandlers BIND_KIND) [mkHandler 3 false None];
     Ev (PyNewArg (ABind (Bind.mk "u" "p" "a"))) (Ok tt);
     Ev (PyCall 3 [ABind (Bind.mk "u" "p" "a")]) (Ok (VOther (Ok true))); Ev JobEnd None]
    = [(BIND_KIND, h :: hs)] /\ accepting v = true.
Proof.
  destruct (bind_closed_by_default (Bind.mk "u" "p" "a")
    [Ev JobStart None; Ev (PyHandlers BIND_KIND) [mkHandler 3 false None];
     Ev (PyNewArg (ABind (Bind.mk "u" "p" "a"))) (Ok tt);
     Ev (PyCall 3 [ABind (Bind.mk "u" "p" "a")]) (Ok (VOther (Ok true))); Ev JobEnd None]
    (BindOutcome.mk true ESME_ROK "")) as (h & hs & v & ? & _ & _ & ? & _).
  - cbn. repeat eexists.
  - reflexivity.
  - by exists h, hs, v.
Defined.

Lemma session_runs_all_witness :
  exists hs, head (registries
    [Ev JobStart None; Ev (PyHandlers SESSION_KIND) [mkHandler 3 false (Some "bound")];
     Ev (PyNewArg (ASession example_session)) (Ok tt);
     Ev (PyCall 3 [ASession example_session]) (Err "boom"); Ev JobEnd None]) = Some (SESSION_KIND, hs).
Proof.
  destruct (session_runs_all "bound" example_session
    [Ev JobStart None; Ev (PyHandlers SESSION_KIND) [mkHandler 3 false (Some "bound")];
     Ev (PyNewArg (ASession example_session)) (Ok tt);
     Ev (PyCall 3 [ASession example_session]) (Err "boom"); Ev JobEnd None]) as (hs & ? & _).
  - cbn. repeat eexists; [exact (eq_refl : [] = [] ++ [])|]. by apply turns_done.
  - repeat constructor.
  - by exists hs.
Defined.
