(* ===== verification/Scripts.v ===== *)
(** * Registration: [python/smpp.py]'s decorators and [dispatch.rs]'s view of them

    A script's [@smpp.on_pdu], [@smpp.on_bind] and [@smpp.on_session] put a
    [RegisteredHandler] in the options of a registration; [HandlerSource] takes it
    out again on every event ([bench_support] takes it from a fixed list).  The
    registry between the two is the host's, the class [ScriptRegistry]: what was
    registered under a kind, in order. *)

From S2P Require Import Prelude Py Status Pdu Async Effects Dispatch.

(** ** The host's registry *)

(** A value in a registration's options, as the cast to [RegisteredHandler] tells
    them apart. *)
Inductive OptionObj : Type :=
| OHandler (h : RegisteredHandler)
| OStr (s : string)
| OOther.

(** A Python dict with string keys; [None] when there is none. *)
Definition Options : Type := option (list (string * OptionObj)).

Class ScriptRegistry : Type := {
  registry : Type;
  empty_registry : registry;
  (** [register(kind, filter, fn, is_async, options)]. *)
  register : registry -> string -> option string -> nat -> bool -> Options -> registry;
  (** The options of the handlers under a kind. *)
  handlers_for : registry -> string -> list Options;
}.

(** In registration order. *)
Class ScriptRegistryLaws `{ScriptRegistry} : Prop := {
  handlers_for_empty kind : handlers_for empty_registry kind = [];
  handlers_for_register r kind' filter fn is_async options kind :
    handlers_for (register r kind' filter fn is_async options) kind =
    handlers_for r kind ++ (if String.eqb kind' kind then [options] else []);
}.

(** ** [dispatch.rs] *)

Definition HANDLER_OPTION := "_handler".

(** [get_item] of a dict. *)
Definition get_option (d : list (string * OptionObj)) (k : string) : option OptionObj :=
  snd <$> iter_find (fun row => String.eqb row.1 k) d.

(** [None]: not made by the decorators, skipped. *)
Definition registered (options : Options) : option RegisteredHandler :=
  match options ≫= (fun d => get_option d HANDLER_OPTION) with
  | Some (OHandler handler) => Some handler
  | _ => None
  end.

Definition handlers `{ScriptRegistry} (self : registry) (kind : string) : list RegisteredHandler :=
  omap registered (handlers_for self kind).

(** *** [bench_support] *)

(** [ScriptHandlers] over [Fixed]: the kind and the handler of each registration. *)
Definition ScriptHandlers : Type := list (string * RegisteredHandler).

(** [HandlerSource for Fixed]. *)
Definition fixed_handlers (self : ScriptHandlers) (kind : string) : list RegisteredHandler :=
  (List.filter (fun row => String.eqb row.1 kind) self).*2.

(** Each item is a [(kind, options)] pair, or the exception that iterating or
    extracting it raised; the handlers so far are carried along. *)
Fixpoint from_registrations (handlers : ScriptHandlers)
    (registrations : list (result PyErr (string * Options))) : result PyErr ScriptHandlers :=
  match registrations with
  | [] => Ok handlers
  | item :: registrations =>
      row ← item;
      let '(kind, options) := row in
      match registered options with
      | Some handler => from_registrations (handlers ++ [(kind, handler)]) registrations
      | None => from_registrations handlers registrations
      end
  end.

(** [ScriptHandlers::pdu]: the reply's status. *)
Definition bench_pdu (command : string) (pdu : Pdu.t) (session : Session.t) : task (option SmppError) :=
  (r <- Dispatch.pdu command pdu session;
   Ret (match r with
        | Some (Ok reply) => Some (PduReply.command_status reply)
        | _ => None
        end))%async.

(** ** [smpp.py] *)

(** A function of a script: its identity, and whether
    [asyncio.iscoroutinefunction] holds of it. *)
Record Function : Type := mkFunction { fn : nat; fn_async : bool }.

(** [d[k] = v] of a dict. *)
Fixpoint set_option (d : list (string * OptionObj)) (k : string) (v : OptionObj)
    : list (string * OptionObj) :=
  match d with
  | [] => [(k, v)]
  | (k', v') :: d => if String.eqb k' k then (k, v) :: d else (k', v') :: set_option d k v
  end.

Section Decorators.
Context `{ScriptRegistry}.

Definition _register (r : registry) (kind : string) (filter : option string) (f : Function)
    (key : option string) (options : Options) : registry :=
  let is_async := fn_async f in
  let options := default [] options in
  let options := set_option options HANDLER_OPTION (OHandler (mkHandler (fn f) is_async key)) in
  register r kind filter (fn f) is_async (Some options).

Definition on_bind (r : registry) (f : Function) : registry :=
  _register r "smpp.on_bind" None f None None.
Definition on_pdu (command : string) (r : registry) (f : Function) : registry :=
  _register r "smpp.on_pdu" None f (Some command) (Some [("command", OStr command)]).
Definition on_session (event : string) (r : registry) (f : Function) : registry :=
  _register r "smpp.on_session" (Some event) f (Some event) (Some [("event", OStr event)]).

(** ** A script *)

(** What a script does at load time, in order; [Foreign] is a registration that
    bypasses the decorators. *)
Inductive decoration : Type :=
| OnBind (f : Function)
| OnPdu (command : string) (f : Function)
| OnSession (event : string) (f : Function)
| Foreign (kind : string) (filter : option string) (f : Function) (options : Options).

Definition decorate (r : registry) (d : decoration) : registry :=
  match d with
  | OnBind f => on_bind r f
  | OnPdu command f => on_pdu command r f
  | OnSession event f => on_session event r f
  | Foreign kind filter f options => register r kind filter (fn f) (fn_async f) options
  end.
Definition load (script : list decoration) : registry := fold_left decorate script empty_registry.

(** The handlers the decorators of a kind make. *)
Definition decorated (kind : string) (d : decoration) : option RegisteredHandler :=
  match d with
  | OnBind f => if String.eqb kind BIND_KIND then Some (mkHandler (fn f) (fn_async f) None) else None
  | OnPdu command f =>
      if String.eqb kind PDU_KIND then Some (mkHandler (fn f) (fn_async f) (Some command)) else None
  | OnSession event f =>
      if String.eqb kind SESSION_KIND then Some (mkHandler (fn f) (fn_async f) (Some event)) else None
  | Foreign _ _ _ _ => None
  end.

Definition genuine (d : decoration) : Prop :=
  match d with Foreign _ _ _ options => registered options = None | _ => True end.

Context `{!ScriptRegistryLaws}.

Lemma handlers_decorate r d kind :
  genuine d -> handlers (decorate r d) kind = handlers r kind ++ option_list (decorated kind d).
Proof.
  intros Hd. unfold handlers.
  destruct d as [f|c f|e f|k fl f o]; cbn [decorate decorated]; unfold on_bind, on_pdu, on_session, _register;
    rewrite handlers_for_register, omap_app; f_equal; rewrite String.eqb_sym;
    unfold BIND_KIND, PDU_KIND, SESSION_KIND; destruct (String.eqb kind _); try done.
  cbn in Hd |- *. by rewrite Hd.
Qed.

(** C24: a script is served as it is written: the handlers of an event kind are
    those its decorators of that kind made, each with its command or event, in
    the order of the script, and registrations made without the decorators are
    skipped; so the handler a PDU reaches is the first function the script
    decorated for its command, and a bind reaches the first of all. *)
Theorem script_served script :
  Forall genuine script ->
  (forall kind, handlers (load script) kind = omap (decorated kind) script) /\
  (forall command,
     first_serving (Some command) (handlers (load script) PDU_KIND)
       ((fun f => mkHandler (fn f) (fn_async f) (Some command)) <$>
          head (omap (fun d => match d with
                               | OnPdu c f => if String.eqb c command then Some f else None
                               | _ => None
                               end) script))).
Proof.
  intros Hs.
  assert (forall kind, handlers (load script) kind = omap (decorated kind) script) as Hh.
  { intros kind. unfold load.
    assert (handlers empty_registry kind = []) as He by (unfold handlers; by rewrite handlers_for_empty).
    change (omap (decorated kind) script) with ([] ++ omap (decorated kind) script).
    rewrite <-He. clear He. generalize empty_registry. induction Hs as [|d script Hd _ IH]; intros r; cbn.
    - by rewrite app_nil_r.
    - rewrite IH, handlers_decorate, <-app_assoc by done. by destruct (decorated kind d). }
  split; [exact Hh|]. intros command. rewrite Hh. clear Hh Hs.
  induction script as [|d script IH]; [constructor|].
  destruct d as [f|c f|e f|k fl f o]; cbn; try exact IH.
  destruct (String.eqb_spec c command) as [->|Hne]; cbn.
  - split; [done|]. by exists [], (omap (decorated PDU_KIND) script).
  - destruct (head _) as [g|]; cbn in *.
    + destruct IH as (Hk & before & after & -> & Hb). split; [done|].
      eexists (_ :: before), after. split; [done|]. constructor; [|done]. cbn. congruence.
    + constructor; [|done]. cbn. congruence.
Qed.

(** What the decorators passed to the registry. *)
Definition registration (d : decoration) : string * Options :=
  match d with
  | OnBind f => (BIND_KIND, Some [(HANDLER_OPTION, OHandler (mkHandler (fn f) (fn_async f) None))])
  | OnPdu command f =>
      (PDU_KIND, Some [("command", OStr command);
                       (HANDLER_OPTION, OHandler (mkHandler (fn f) (fn_async f) (Some command)))])
  | OnSession event f =>
      (SESSION_KIND, Some [("event", OStr event);
                           (HANDLER_OPTION, OHandler (mkHandler (fn f) (fn_async f) (Some event)))])
  | Foreign kind _ _ options => (kind, options)
  end.

Lemma handlers_registration r d kind :
  handlers (decorate r d) kind = handlers r kind ++
    (if String.eqb (registration d).1 kind then option_list (registered (registration d).2) else []).
Proof.
  unfold handlers. destruct d as [f|c f|e f|k fl f o]; cbn [decorate]; unfold on_bind, on_pdu, on_session, _register;
    rewrite handlers_for_register, omap_app; f_equal; cbn [registration fst snd]; unfold BIND_KIND, PDU_KIND, SESSION_KIND;
    destruct (String.eqb _ kind); by rewrite ?app_nil_r.
Qed.

(** What a benchmark dispatches to is what the gateway would: the handlers taken
    from a script's registrations are, kind by kind, those the registry serves. *)
Lemma bench_serves_script script :
  exists fixed, from_registrations [] ((fun d => Ok (registration d)) <$> script) = Ok fixed /\
    forall kind, fixed_handlers fixed kind = handlers (load script) kind.
Proof.
  unfold load.
  assert (forall kind, fixed_handlers [] kind = handlers empty_registry kind) as Hz.
  { intros kind. unfold handlers. by rewrite handlers_for_empty. }
  revert Hz. generalize empty_registry, (@nil (string * RegisteredHandler)).
  induction script as [|d script IH]; intros r fixed Hz; cbn; [by exists fixed|].
  destruct (registration d) as [k o] eqn:E. cbn.
  destruct (registered o) as [h|] eqn:Eo; apply IH; intros kind;
    rewrite handlers_registration, E; cbn [fst snd]; rewrite Eo, <-Hz; cbn [option_list].
  - unfold fixed_handlers. rewrite List.filter_app, fmap_app. cbn. by destruct (String.eqb k kind).
  - destruct (String.eqb k kind); by rewrite app_nil_r.
Qed.

End Decorators.

(** ** A concrete registry *)

Module ScriptExample.
#[local] Instance host : ScriptRegistry := {
  registry := list (string * Options);
  empty_registry := [];
  register r kind _ _ _ options := r ++ [(kind, options)];
  handlers_for r kind := omap (fun row => if String.eqb row.1 kind then Some row.2 else None) r;
}.

#[local] Instance host_laws : ScriptRegistryLaws.
Proof.
  split; [done|]. intros r kind' fl f a o kind. cbn. rewrite omap_app. f_equal.
  cbn. by destruct (String.eqb kind' kind).
Qed.

Definition script : list decoration :=
  [OnPdu "deliver_sm" (mkFunction 1 true); Foreign PDU_KIND None (mkFunction 2 false) None;
   OnBind (mkFunction 3 false); OnPdu "submit_sm" (mkFunction 4 true);
   OnPdu "submit_sm" (mkFunction 5 false)].

Lemma script_served_witness :
  first_serving (Some "submit_sm") (handlers (load script) PDU_KIND)
    (Some (mkHandler 4 true (Some "submit_sm"))).
Proof.
  refine (proj2 (script_served script _) "submit_sm"). repeat constructor.
Defined.
End ScriptExample.
