(* ===== verification/Runtime.v ===== *)
(** * The runtime's listeners: [runtime.rs]

    [State]'s server-side listener, [BindListener]'s client-side one, the session
    registries they keep, the admission of inbound messages and the helpers that
    turn a handler's reply into a response PDU.  The shared lists are reached
    through [LockBinds] / [LockEsmes]; a limiter through [LockBucket].  Logging is
    left out. *)

From S2P Require Import Prelude RustStr Py Status Smpp34 Tlv Pdu Async F64 RateLimit Effects.
From S2P Require Import Metrics Outcome Dispatch.
#[local] Open Scope Z_scope.
#[local] Open Scope async_scope.

(** ** Registries *)

(** True when [smsc] is no longer a registered outbound session. *)
Definition bind_gone (smsc : Arc SMSC.t) : task bool :=
  trigger (LockBinds (reading (fun binds =>
    negb (existsb (fun b => ptr_eq (bs_smsc b) smsc) binds)))).

Definition esme_gone (esme : Arc ESME.t) : task bool :=
  trigger (LockEsmes (reading (fun esmes =>
    negb (existsb (fun e => ptr_eq (es_esme e) esme) esmes)))).

(** [e.esme.session_id == session_id]. *)
Definition esme_is (session_id : string) (e : EsmeSession) : bool :=
  bool_decide (ESME.session_id (get (es_esme e)) = session_id).
Definition smsc_is (session_id : string) (b : BindSession) : bool :=
  bool_decide (SMSC.session_id (get (bs_smsc b)) = session_id).

(** [.find(..).map(|e| e.esme.clone())]. *)
Definition esme_lookup (session_id : string) (esmes : list EsmeSession) : option (Arc ESME.t) :=
  es_esme <$> iter_find (esme_is session_id) esmes.
Definition smsc_lookup (session_id : string) (binds : list BindSession) : option (Arc SMSC.t) :=
  bs_smsc <$> iter_find (smsc_is session_id) binds.

(** ** The limiter's methods *)

(** [RateLimiter::acquire]: whether it had to wait. *)
Definition acquire (l : Limiter) : task bool :=
  iter (fun waited =>
    wait <- trigger (LockBucket l acquire_section);
    match wait with
    | None => Ret (inr waited)
    | Some wait => trigger (Sleep wait) ;; Ret (inl true)
    end) false.

Definition try_acquire (l : Limiter) : task bool := trigger (LockBucket l try_acquire_section).

(** ** Dispatch helpers *)

Section Codec.
Context `{Smpp34}.

Definition with_resp_tlvs (resp : data_sm_resp.t) (tlvs : list Tlv) : data_sm_resp.t :=
  fold_left data_sm_push_tlv tlvs resp.

Definition submit_sm_response (request : submit_sm.t) (reply : PduReply.t) : submit_sm_resp.t :=
  if bool_decide (PduReply.command_status reply = ESME_ROK)
  then submit_sm_accept request (default "" (PduReply.message_id reply))
  else submit_sm_reject request (PduReply.command_status reply).

Definition data_sm_response (request : data_sm.t) (reply : PduReply.t) : data_sm_resp.t :=
  let resp :=
    if bool_decide (PduReply.command_status reply = ESME_ROK)
    then data_sm_accept request (default "" (PduReply.message_id reply))
    else data_sm_reject request (PduReply.command_status reply) in
  with_resp_tlvs resp (PduReply.tlvs reply).

Definition dispatch_pdu_opt (command : string) (p : Pdu.t) (session : Session.t)
    : task (option (result DispatchError PduReply.t)) :=
  metrics <- enabled;
  started <- (if (metrics : bool) then now <- trigger Now; Ret (Some now) else Ret None);
  r <- Dispatch.pdu command p session;
  match r with
  | None => Ret None
  | Some r =>
      match started with
      | Some started =>
          now <- trigger Now;
          observe_dispatch command (as_secs_f64 (duration_since now started))
      | None => Ret tt
      end ;;
      (if is_ok r then Ret tt else record_dispatch_error command) ;;
      Ret (Some r)
  end.

Definition dispatch_pdu (command : string) (p : Pdu.t) (session : Session.t)
    : task (result DispatchError PduReply.t) :=
  r <- dispatch_pdu_opt command p session;
  Ret (default (Ok PduReply.default_ok) r).

(** ** Admission of inbound messages *)

Inductive InboundAdmit : Set := Proceed | Throttled.

(** The limiter of a session: [.find(..).and_then(|e| e.throttle.clone())]. *)
Definition session_limiter (session_id : string) (esmes : list EsmeSession) : option Limiter :=
  match iter_find (esme_is session_id) esmes with
  | Some e => es_throttle e
  | None => None
  end.

Definition admit_inbound (self : StateConfig) (session_id : string) : task InboundAdmit :=
  limiter <- trigger (LockEsmes (reading (session_limiter session_id)));
  match limiter with
  | None => Ret Proceed
  | Some limiter =>
      match inbound_throttle_action self with
      | Pace =>
          waited <- acquire limiter;
          (if (waited : bool) then record_throttled INBOUND else Ret tt) ;;
          Ret Proceed
      | Reject =>
          granted <- try_acquire limiter;
          if (granted : bool) then Ret Proceed
          else record_throttled INBOUND ;; Ret Throttled
      end
  end.

(** ** [SmppServerListener for State] *)

Definition session_system_id (session_id : string) (esmes : list EsmeSession) : string :=
  default "" ((fun e => ESME.system_id (get (es_esme e))) <$> iter_find (esme_is session_id) esmes).

Definition esme_session (session_id : string) (conn : SmppConnectionInformation) : task Session.t :=
  system_id <- trigger (LockEsmes (reading (session_system_id session_id)));
  Ret (Session.mk EsmeServer session_id system_id (client_address conn)).

Definition on_listen_failed (error : string) : task unit :=
  first <- trigger (ListenFailureSet error); Ret tt.

(** Transmitter and receiver binds are refused outright. *)
Definition on_bind_transmitter {Req Resp} (reject : Req -> SmppError -> Resp) (request : Req)
    : task Resp :=
  record_bind_request REJECTED ;; Ret (reject request ESME_RINVSYSID).
Definition on_bind_receiver {Req Resp} (reject : Req -> SmppError -> Resp) (request : Req)
    : task Resp :=
  record_bind_request REJECTED ;; Ret (reject request ESME_RINVSYSID).

Definition on_bind_transceiver (request : bind_transceiver.t) (conn : SmppConnectionInformation)
    : task bind_resp.t :=
  outcome <- Dispatch.bind (Bind.mk (bind_transceiver.system_id request)
                              (bind_transceiver.password request) (client_address conn));
  if negb (BindOutcome.accept outcome)
  then record_bind_request REJECTED ;;
       Ret (bind_transceiver_reject request (BindOutcome.status outcome))
  else record_bind_request ACCEPTED ;;
       Ret (bind_transceiver_accept request (bind_transceiver.system_id request) (Some 0x34)).

Definition on_submit_sm (self : StateConfig) (request : submit_sm.t)
    (conn : SmppConnectionInformation) (session_id : string) : task submit_sm_resp.t :=
  verdict <- admit_inbound self session_id;
  match verdict with
  | Throttled =>
      record_pdu INBOUND "submit_sm" REJECTED ;; Ret (submit_sm_reject request ESME_RTHROTTLED)
  | Proceed =>
      let p := from_submit request in
      session <- esme_session session_id conn;
      r <- dispatch_pdu "submit_sm" p session;
      match r with
      | Ok reply =>
          let resp := submit_sm_response request reply in
          record_pdu INBOUND "submit_sm" (if submit_sm_is_success resp then ACCEPTED else REJECTED) ;;
          Ret resp
      | Err _ =>
          record_pdu INBOUND "submit_sm" REJECTED ;; Ret (submit_sm_reject request ESME_RSYSERR)
      end
  end.

Definition on_data_sm (self : StateConfig) (request : data_sm.t)
    (conn : SmppConnectionInformation) (session_id : string) : task data_sm_resp.t :=
  verdict <- admit_inbound self session_id;
  match verdict with
  | Throttled =>
      record_pdu INBOUND "data_sm" REJECTED ;; Ret (data_sm_reject request ESME_RTHROTTLED)
  | Proceed =>
      let p := from_data request in
      session <- esme_session session_id conn;
      r <- dispatch_pdu_opt "data_sm" p session;
      match r with
      | None => record_pdu INBOUND "data_sm" REJECTED ;; Ret (data_sm_reject request ESME_RSYSERR)
      | Some (Ok reply) =>
          let resp := data_sm_response request reply in
          record_pdu INBOUND "data_sm" (if data_sm_is_success resp then ACCEPTED else REJECTED) ;;
          Ret resp
      | Some (Err _) =>
          record_pdu INBOUND "data_sm" REJECTED ;; Ret (data_sm_reject request ESME_RSYSERR)
      end
  end.

Definition on_cancel_sm (request : cancel_sm.t) (conn : SmppConnectionInformation)
    (session_id : string) : task cancel_sm_resp.t :=
  let p := from_cancel request in
  session <- esme_session session_id conn;
  r <- dispatch_pdu_opt "cancel_sm" p session;
  match r with
  | None => record_pdu INBOUND "cancel_sm" REJECTED ;; Ret (cancel_sm_reject request ESME_RCANCELFAIL)
  | Some (Ok reply) =>
      if bool_decide (PduReply.command_status reply = ESME_ROK)
      then record_pdu INBOUND "cancel_sm" ACCEPTED ;; Ret (cancel_sm_accept request)
      else record_pdu INBOUND "cancel_sm" REJECTED ;;
           Ret (cancel_sm_reject request (PduReply.command_status reply))
  | Some (Err _) =>
      record_pdu INBOUND "cancel_sm" REJECTED ;; Ret (cancel_sm_reject request ESME_RCANCELFAIL)
  end.

Definition on_query_sm (request : query_sm.t) (conn : SmppConnectionInformation)
    (session_id : string) : task query_sm_resp.t :=
  let p := from_query request in
  session <- esme_session session_id conn;
  r <- dispatch_pdu_opt "query_sm" p session;
  match r with
  | None => record_pdu INBOUND "query_sm" REJECTED ;; Ret (query_sm_reject request ESME_RQUERYFAIL)
  | Some (Ok reply) =>
      if bool_decide (PduReply.command_status reply = ESME_ROK)
      then record_pdu INBOUND "query_sm" ACCEPTED ;;
           Ret (query_sm_accept request (default "" (PduReply.message_id reply))
                  (PduReply.final_date reply) (default 0 (PduReply.message_state reply))
                  (PduReply.error_code reply))
      else record_pdu INBOUND "query_sm" REJECTED ;;
           Ret (query_sm_reject request (PduReply.command_status reply))
  | Some (Err _) =>
      record_pdu INBOUND "query_sm" REJECTED ;; Ret (query_sm_reject request ESME_RQUERYFAIL)
  end.

Definition on_replace_sm (request : replace_sm.t) (conn : SmppConnectionInformation)
    (session_id : string) : task replace_sm_resp.t :=
  let p := from_replace request in
  session <- esme_session session_id conn;
  r <- dispatch_pdu_opt "replace_sm" p session;
  match r with
  | None =>
      record_pdu INBOUND "replace_sm" REJECTED ;; Ret (replace_sm_reject request ESME_RREPLACEFAIL)
  | Some (Ok reply) =>
      if bool_decide (PduReply.command_status reply = ESME_ROK)
      then record_pdu INBOUND "replace_sm" ACCEPTED ;; Ret (replace_sm_accept request)
      else record_pdu INBOUND "replace_sm" REJECTED ;;
           Ret (replace_sm_reject request (PduReply.command_status reply))
  | Some (Err _) =>
      record_pdu INBOUND "replace_sm" REJECTED ;; Ret (replace_sm_reject request ESME_RREPLACEFAIL)
  end.

Definition on_submit_sm_multi (self : StateConfig) (request : submit_sm_multi.t)
    (conn : SmppConnectionInformation) (session_id : string) : task submit_sm_multi_resp.t :=
  verdict <- admit_inbound self session_id;
  match verdict with
  | Throttled =>
      record_pdu INBOUND "submit_sm_multi" REJECTED ;;
      Ret (submit_sm_multi_reject request ESME_RTHROTTLED)
  | Proceed =>
      let p := from_submit_multi request in
      session <- esme_session session_id conn;
      r <- dispatch_pdu_opt "submit_sm_multi" p session;
      match r with
      | None =>
          record_pdu INBOUND "submit_sm_multi" REJECTED ;;
          Ret (submit_sm_multi_reject request ESME_RSYSERR)
      | Some (Ok reply) =>
          if bool_decide (PduReply.command_status reply = ESME_ROK)
          then record_pdu INBOUND "submit_sm_multi" ACCEPTED ;;
               Ret (submit_sm_multi_accept request (default "" (PduReply.message_id reply)) [])
          else record_pdu INBOUND "submit_sm_multi" REJECTED ;;
               Ret (submit_sm_multi_reject request (PduReply.command_status reply))
      | Some (Err _) =>
          record_pdu INBOUND "submit_sm_multi" REJECTED ;;
          Ret (submit_sm_multi_reject request ESME_RSYSERR)
      end
  end.

Definition on_timeout (session_id : string) : task unit :=
  esme <- trigger (LockEsmes (reading (esme_lookup session_id)));
  match esme with
  | Some esme => trigger (Request (ReqUnbindEsme esme))
  | None => Ret tt
  end.

(** [(cap > 0).then(|| Arc::new(RateLimiter::new(cap)))]. *)
Definition new_throttle (cap : Z) : task (option Limiter) :=
  if 0 <? cap then l <- trigger (NewLimiter (new_bucket cap)); Ret (Some l) else Ret None.

Definition on_esme_bound (self : StateConfig) (esme : ESME.t) (session_id : string) : task unit :=
  let session := Session.mk EsmeServer session_id (ESME.system_id esme) (ESME.client_address esme) in
  throttle <- new_throttle (inbound_max_mps self);
  arc <- trigger (NewEsme esme);
  trigger (LockEsmes (fun esmes =>
    (esmes ++ [mkEsmeSession arc throttle (inbound_response_timer self)], tt))) ;;
  Dispatch.session "bound" session.

(** The section of [on_esme_unbound]: what the session was, and the list
    without it. *)
Definition esme_remove (session_id : string) (esmes : list EsmeSession)
    : list EsmeSession * option (string * string) :=
  (List.filter (fun e => negb (esme_is session_id e)) esmes,
   (fun e => (ESME.system_id (get (es_esme e)), ESME.client_address (get (es_esme e)))) <$>
     iter_find (esme_is session_id) esmes).

Definition on_esme_unbound (session_id : string) : task unit :=
  removed <- trigger (LockEsmes (esme_remove session_id));
  let '(system_id, client_addr) := default ("", "") removed in
  Dispatch.session "unbound" (Session.mk EsmeServer session_id system_id client_addr).

(** ** [SmppClientListener for BindListener] *)

Definition bind_session (self : BindListener) (session_id : string)
    (conn : SmppConnectionInformation) : Session.t :=
  Session.mk SourceBind session_id (bl_bind_name self) (server_address conn).

Definition on_connection_failed (self : BindListener) (error : string) : task unit :=
  record_bind_connect_failure (bl_bind_name self) ;;
  trigger (FlagStore true).

Definition on_deliver_sm (self : BindListener) (request : deliver_sm.t)
    (conn : SmppConnectionInformation) (session_id : string) : task deliver_sm_resp.t :=
  let p := from_deliver request in
  let session := bind_session self session_id conn in
  r <- dispatch_pdu "deliver_sm" p session;
  match r with
  | Ok reply =>
      if bool_decide (PduReply.command_status reply = ESME_ROK)
      then record_pdu EGRESS "deliver_sm" ACCEPTED ;; Ret (deliver_sm_accept request)
      else record_pdu EGRESS "deliver_sm" REJECTED ;;
           Ret (deliver_sm_reject request (PduReply.command_status reply))
  | Err _ =>
      record_pdu EGRESS "deliver_sm" REJECTED ;; Ret (deliver_sm_reject request ESME_RSYSERR)
  end.

Definition bind_on_data_sm (self : BindListener) (request : data_sm.t)
    (conn : SmppConnectionInformation) (session_id : string) : task data_sm_resp.t :=
  let p := from_data request in
  let session := bind_session self session_id conn in
  r <- dispatch_pdu_opt "data_sm" p session;
  match r with
  | None => record_pdu EGRESS "data_sm" REJECTED ;; Ret (data_sm_reject request ESME_RSYSERR)
  | Some (Ok reply) =>
      let resp := data_sm_response request reply in
      record_pdu EGRESS "data_sm" (if data_sm_is_success resp then ACCEPTED else REJECTED) ;;
      Ret resp
  | Some (Err _) =>
      record_pdu EGRESS "data_sm" REJECTED ;; Ret (data_sm_reject request ESME_RSYSERR)
  end.

Definition on_alert_notification (self : BindListener) (request : alert_notification.t)
    (conn : SmppConnectionInformation) (session_id : string) : task unit :=
  let a := AlertNotification.from_alert request in
  let session := bind_session self session_id conn in
  r <- Dispatch.alert a session;
  match r with
  | Ok _ => record_pdu EGRESS "alert_notification" ACCEPTED
  | Err _ =>
      record_dispatch_error "alert_notification" ;;
      record_pdu EGRESS "alert_notification" REJECTED
  end.

Definition bind_on_timeout (session_id : string) : task unit :=
  smsc <- trigger (LockBinds (reading (smsc_lookup session_id)));
  match smsc with
  | Some smsc => trigger (Request (ReqUnbindSmsc smsc))
  | None => Ret tt
  end.

Definition on_smsc_bound (self : BindListener) (smsc : SMSC.t) (session_id : string) : task unit :=
  throttle <- new_throttle (bl_max_msg_per_sec self);
  let session := Session.mk SourceBind session_id (bl_bind_name self) (SMSC.server_address smsc) in
  arc <- trigger (NewSmsc smsc);
  trigger (LockBinds (fun binds =>
    (binds ++ [mkBindSession (bl_bind_name self) arc throttle (bl_response_timer self)], tt))) ;;
  Dispatch.session "bound" session.

(** The section of [on_smsc_unbound]: the list without the session, and whether
    it was there. *)
Definition smsc_remove (session_id : string) (binds : list BindSession) : list BindSession * bool :=
  let kept := List.filter (fun b => negb (smsc_is session_id b)) binds in
  (kept, (length kept <? length binds)%nat).

Definition on_smsc_unbound (self : BindListener) (session_id : string) : task unit :=
  removed <- trigger (LockBinds (smsc_remove session_id));
  if (removed : bool)
  then Dispatch.session "unbound" (Session.mk SourceBind session_id (bl_bind_name self) "")
  else Ret tt.

End Codec.
