(* ===== verification/Inbound.v ===== *)
(** * Inbound requests are answered: theorems about the listeners

    For each request a peer can send, on a server session ([inbound_pdu]) or on
    one of our binds ([bind_pdu]): what the script was shown, which status goes
    back and what is counted. *)

From S2P Require Import Prelude RustStr Py Status Smpp34 Tlv Pdu Async F64 RateLimit Effects.
From S2P Require Import Metrics Outcome Dispatch Runtime.
#[local] Open Scope Z_scope.
#[local] Open Scope async_scope.

(** ** Traces that neither run Python nor count a PDU *)

Definition quiet X (e : eff X) : Prop :=
  match e with
  | CounterInc n _ _ => n <> PDUS
  | PyHandlers _ => False
  | PyCall _ _ => False
  | AwaitOneshot _ => False
  | _ => True
  end.

(** Prove that a program is [quiet]. *)
Ltac quiet_tac := autounfold with metrics; always_tac.

Record silent (tr : trace eff) : Prop := {
  silent_counted : counted PDUS tr = [];
  silent_calls : py_calls tr = [];
  silent_registries : registries tr = [];
  silent_values h : py_values h tr = [];
}.

Lemma silent_nil : silent [].
Proof. done. Qed.

Lemma silent_app tr1 tr2 : silent tr1 -> silent tr2 -> silent (tr1 ++ tr2).
Proof.
  intros [H1 H2 H3 H4] [H5 H6 H7 H8]. split; intros.
  - by rewrite counted_app, H1, H5.
  - by rewrite py_calls_app, H2, H6.
  - by rewrite registries_app, H3, H7.
  - by rewrite py_values_app, H4, H8.
Qed.

Lemma quiet_silent {A} (p : task A) tr a : always quiet p -> runs p tr a -> silent tr.
Proof.
  intros Hp Hr. pose proof (always_runs _ _ _ _ Hp Hr) as H. clear Hr.
  induction H as [|[X e x] tr He _ IH]; [apply silent_nil|].
  apply (silent_app [_]); [|done].
  destruct e; try done. cbn in He. split; try done. cbn.
  by destruct (String.eqb_spec name PDUS).
Qed.

(** A dispatch is read off the Python part of its trace and its disturbances. *)
Lemma dispatched_view {T} kind wanted args (convert : PyVal -> T) tr tr' r :
  (undisturbed tr' -> undisturbed tr) ->
  py_calls tr' = py_calls tr -> registries tr' = registries tr ->
  (forall h, py_values h tr' = py_values h tr) ->
  dispatched kind wanted args convert tr r -> dispatched kind wanted args convert tr' r.
Proof.
  intros Hu Ec Er Ev Hd. unfold found in *.
  destruct Hd as [e|Hf|e ? Hf|h r Hf Hone];
    [apply dispatched_refused|apply dispatched_none|apply dispatched_lost|eapply dispatched_call];
    unfold found in *; rewrite ?Ec, ?Er; auto; [by intros ?%Hu..|exact Hf|].
  eapply one_call_view; [..|exact Hone]; auto.
Qed.

(** Parts without Python around a dispatch leave it what it was. *)
Lemma dispatched_frame {T} kind wanted args (convert : PyVal -> T) tr1 tr tr2 r :
  silent tr1 ->
  py_calls tr2 = [] /\ registries tr2 = [] /\ (forall h, py_values h tr2 = []) ->
  dispatched kind wanted args convert tr r ->
  dispatched kind wanted args convert (tr1 ++ tr ++ tr2) r.
Proof.
  intros [_ Hc1 Hr1 Hv1] (Hc2 & Hr2 & Hv2). apply dispatched_view.
  - rewrite !undisturbed_app. tauto.
  - rewrite !py_calls_app, Hc1, Hc2. apply app_nil_r.
  - rewrite !registries_app, Hr1, Hr2. apply app_nil_r.
  - intros h. rewrite !py_values_app, Hv1, Hv2. apply app_nil_r.
Qed.

(** ** Counting *)

Definition pdu_labels (direction command : string) (accepted : bool) : list (string * string) :=
  [("direction", direction); ("command", command);
   ("result", if accepted then ACCEPTED else REJECTED)].

Lemma record_pdu_silent direction command res tr u :
  runs (record_pdu direction command res) tr u ->
  py_calls tr = [] /\ registries tr = [] /\ (forall h, py_values h tr = []).
Proof.
  unfold record_pdu, when_store. intros H. run_step. run_step. destruct a; run_all; by repeat split.
Qed.

Lemma dispatch_no_counter command p s : always no_counter (Dispatch.pdu command p s).
Proof.
  unfold Dispatch.pdu, run_event, on_executor, first_matching, call_with, arguments, invoke,
    submit_coroutine, settle_started.
  always_tac.
Qed.

Section Theorems.
Context `{!Smpp34, !Smpp34Laws}.

Lemma dispatch_opt_spec command p s tr r :
  runs (dispatch_pdu_opt command p s) tr r ->
  dispatched PDU_KIND (Some command) [APdu p; ASession s] pdu_reply tr r /\ counted PDUS tr = [].
Proof.
  unfold dispatch_pdu_opt. intros Hr. do 3 run_step.
  rename Hrun into He, Hrun1 into Hn, Hrun0 into Hd, Hrun3 into Hp.
  pose proof (no_counter_counted _ _ _ PDUS (dispatch_no_counter _ _ _) Hd) as Hc.
  apply run_event_dispatched in Hd.
  assert (silent tr0) as Hs0 by (eapply quiet_silent; [|exact He]; quiet_tac).
  assert (silent tr) as Hs1 by (eapply quiet_silent; [|exact Hn]; quiet_tac).
  assert (exists tr', tr3 = tr' /\ silent tr' /\ r = a1) as (tr' & -> & Hs3 & ->).
  { exists tr3. split; [done|]. destruct a1 as [out|]; [|repeat run_step; split; [apply silent_nil|done]].
    do 2 run_step. repeat run_step. split; [|done]. rewrite app_nil_r.
    apply silent_app; (eapply quiet_silent; [|eassumption]); quiet_tac. }
  rewrite app_assoc. split.
  - apply dispatched_frame; [by apply silent_app|by destruct Hs3|done].
  - rewrite !counted_app, Hc, (silent_counted _ Hs0), (silent_counted _ Hs1),
      (silent_counted _ Hs3). done.
Qed.

(** The status a dispatch is answered with: the reply's own status and nothing
    else, [no_handler] when the script registered none, [failed] when the
    handler raised or could not be run. *)
Definition verdict (no_handler failed : SmppError) (d : option (result DispatchError PduReply.t)) : Z :=
  error_code match d with
             | None => no_handler
             | Some (Ok reply) => PduReply.command_status reply
             | Some (Err _) => failed
             end.

Lemma error_code_ok e : (error_code e =? 0) = bool_decide (e = ESME_ROK).
Proof. by destruct e. Qed.

(** What [answered] says of a run: the script was shown [p] on a session, the
    status is the dispatch's verdict, and the PDU is counted once with the label
    the status on the wire deserves. *)
Definition answered (direction command : string) (p : Pdu.t) (no_handler failed : SmppError)
    (sess : Session.t) (tr : trace eff) (status : Z) : Prop :=
  exists d, dispatched PDU_KIND (Some command) [APdu p; ASession sess] pdu_reply tr d /\
    status = verdict no_handler failed d /\
    (metrics_on tr -> counted PDUS tr = [pdu_labels direction command (status =? 0)]).

(** The tail of a handler: record the result of a dispatch. *)
Lemma answered_intro direction command p no_handler failed sess tr0 tr1 tr2 d u res tr status :
  silent tr0 ->
  dispatched PDU_KIND (Some command) [APdu p; ASession sess] pdu_reply tr1 d -> counted PDUS tr1 = [] ->
  runs (record_pdu direction command res) tr2 u ->
  status = verdict no_handler failed d ->
  res = (if status =? 0 then ACCEPTED else REJECTED) ->
  tr = tr0 ++ tr1 ++ tr2 ->
  answered direction command p no_handler failed sess tr status.
Proof.
  intros Hs0 Hd Hc Hr Hst -> ->. exists d. split; [|split; [done|]].
  - apply dispatched_frame; [done|by eapply record_pdu_silent|done].
  - intros Hon. rewrite !counted_app, (silent_counted _ Hs0), Hc. rewrite !metrics_on_app in Hon.
    unfold record_pdu in Hr. by rewrite (when_store_counted _ _ _ _ _ _ Hr) by apply Hon.
Qed.

Lemma answered_prefix direction command p no_handler failed sess tr0 tr status :
  silent tr0 -> answered direction command p no_handler failed sess tr status ->
  answered direction command p no_handler failed sess (tr0 ++ tr) status.
Proof.
  intros Hs (d & Hd & Hst & Hc). exists d. split; [|split; [done|]].
  - rewrite <-(app_nil_r tr). by apply dispatched_frame.
  - intros [_ Hon]%metrics_on_app. by rewrite counted_app, (silent_counted _ Hs), Hc.
Qed.

(** ** Requests on a server session *)

Lemma admit_silent cfg sid tr a : runs (admit_inbound cfg sid) tr a -> silent tr.
Proof.
  apply quiet_silent. unfold admit_inbound, acquire, try_acquire. quiet_tac.
Qed.

Lemma admit_throttled cfg sid tr :
  runs (admit_inbound cfg sid) tr Throttled ->
  inbound_throttle_action cfg = Reject /\
  exists l, Ev (LockBucket l try_acquire_section) false ∈ tr.
Proof.
  unfold admit_inbound. intros Hr. run_step. run_step. destruct a as [l|]; [|by run_step].
  destruct (inbound_throttle_action cfg); [by repeat run_step|].
  unfold try_acquire in *. repeat run_step. destruct a; [by run_step|]. repeat run_step.
  split; [done|]. exists l. set_solver.
Qed.

Lemma esme_session_spec sid conn tr s :
  runs (esme_session sid conn) tr s ->
  silent tr /\ exists system_id, s = Session.mk EsmeServer sid system_id (client_address conn).
Proof.
  intros Hr. split; [eapply quiet_silent; [|exact Hr]; unfold esme_session; quiet_tac|].
  unfold esme_session in Hr. repeat run_step. eauto.
Qed.

End Theorems.

(** The requests an ESME can send. *)
Inductive inbound_pdu : Type :=
| InSubmit (r : submit_sm.t)
| InData (r : data_sm.t)
| InCancel (r : cancel_sm.t)
| InQuery (r : query_sm.t)
| InReplace (r : replace_sm.t)
| InSubmitMulti (r : submit_sm_multi.t).

Definition inbound_command (i : inbound_pdu) : string :=
  match i with
  | InSubmit _ => "submit_sm" | InData _ => "data_sm" | InCancel _ => "cancel_sm"
  | InQuery _ => "query_sm" | InReplace _ => "replace_sm" | InSubmitMulti _ => "submit_sm_multi"
  end.

Definition inbound_view (i : inbound_pdu) : Pdu.t :=
  match i with
  | InSubmit r => from_submit r | InData r => from_data r | InCancel r => from_cancel r
  | InQuery r => from_query r | InReplace r => from_replace r | InSubmitMulti r => from_submit_multi r
  end.

(** The message PDUs are rate-limited. *)
Definition gated (i : inbound_pdu) : bool :=
  match i with InSubmit _ | InData _ | InSubmitMulti _ => true | _ => false end.

Definition no_handler_status (i : inbound_pdu) : SmppError :=
  match i with
  | InSubmit _ => ESME_ROK | InData _ => ESME_RSYSERR | InCancel _ => ESME_RCANCELFAIL
  | InQuery _ => ESME_RQUERYFAIL | InReplace _ => ESME_RREPLACEFAIL | InSubmitMulti _ => ESME_RSYSERR
  end.

Definition failed_status (i : inbound_pdu) : SmppError :=
  match i with
  | InSubmit _ => ESME_RSYSERR | InData _ => ESME_RSYSERR | InCancel _ => ESME_RCANCELFAIL
  | InQuery _ => ESME_RQUERYFAIL | InReplace _ => ESME_RREPLACEFAIL | InSubmitMulti _ => ESME_RSYSERR
  end.

Section Inbound.
Context `{!Smpp34}.

(** The listener's method for a request, and the status it answers with. *)
Definition handle_inbound (cfg : StateConfig) (i : inbound_pdu) (conn : SmppConnectionInformation)
    (sid : string) : task Z :=
  match i with
  | InSubmit r => x <- on_submit_sm cfg r conn sid; Ret (submit_sm_resp.command_status x)
  | InData r => x <- on_data_sm cfg r conn sid; Ret (data_sm_resp.command_status x)
  | InCancel r => x <- on_cancel_sm r conn sid; Ret (cancel_sm_resp.command_status x)
  | InQuery r => x <- on_query_sm r conn sid; Ret (query_sm_resp.command_status x)
  | InReplace r => x <- on_replace_sm r conn sid; Ret (replace_sm_resp.command_status x)
  | InSubmitMulti r =>
      x <- on_submit_sm_multi cfg r conn sid; Ret (submit_sm_multi_resp.command_status x)
  end.

Context `{!Smpp34Laws}.

Lemma submit_response_status r reply :
  submit_sm_resp.command_status (submit_sm_response r reply)
  = error_code (PduReply.command_status reply).
Proof.
  unfold submit_sm_response. case_bool_decide as E.
  - by rewrite submit_sm_accept_resp, E.
  - by rewrite submit_sm_reject_resp.
Qed.

Lemma with_resp_tlvs_spec resp tlvs :
  with_resp_tlvs resp tlvs =
  data_sm_resp.mk (data_sm_resp.command_status resp) (data_sm_resp.message_id resp)
    (data_sm_resp.tlvs resp ++ tlvs).
Proof.
  unfold with_resp_tlvs. revert resp. induction tlvs as [|t tlvs IH]; intros resp; cbn.
  - rewrite app_nil_r. by destruct resp.
  - rewrite IH, data_sm_push_tlv_resp. cbn. by rewrite <-app_assoc.
Qed.

Lemma data_response_status r reply :
  data_sm_resp.command_status (data_sm_response r reply) = error_code (PduReply.command_status reply).
Proof.
  unfold data_sm_response. rewrite with_resp_tlvs_spec. cbn. case_bool_decide as E.
  - by rewrite data_sm_accept_resp, E.
  - by rewrite data_sm_reject_resp.
Qed.

Lemma resp_success_submit r : submit_sm_is_success r = (submit_sm_resp.command_status r =? 0).
Proof. apply submit_sm_is_success_spec. Qed.

(** What a rate-limited request that was refused did. *)
Definition throttled (command : string) (tr : trace eff) (status : Z) : Prop :=
  status = error_code ESME_RTHROTTLED /\ py_calls tr = [] /\ registries tr = [] /\
  (exists l, Ev (LockBucket l try_acquire_section) false ∈ tr) /\
  (metrics_on tr -> counted PDUS tr = [pdu_labels INBOUND command false]).

Lemma throttled_intro cfg sid command tr0 tr1 u :
  runs (admit_inbound cfg sid) tr0 Throttled ->
  runs (record_pdu INBOUND command REJECTED) tr1 u ->
  inbound_throttle_action cfg = Reject /\
  throttled command (tr0 ++ tr1) (error_code ESME_RTHROTTLED).
Proof.
  intros Ha Hr. pose proof (admit_silent _ _ _ _ Ha) as Hs.
  apply admit_throttled in Ha as [? [l Hl]].
  pose proof (record_pdu_silent _ _ _ _ _ Hr) as (Hc & Hg & _). split; [done|].
  split; [done|]. rewrite py_calls_app, registries_app, Hc, Hg, (silent_calls _ Hs), (silent_registries _ Hs).
  split; [done|]. split; [done|]. split; [exists l; set_solver|].
  intros Hon. apply metrics_on_app in Hon as [_ Hon]. unfold record_pdu in Hr.
  by rewrite counted_app, (silent_counted _ Hs), (when_store_counted _ _ _ _ _ _ Hr).
Qed.

(** Split on the outcome of the dispatch and of what follows it. *)
Ltac outcome_cases :=
  match goal with
  | H : runs (dispatch_pdu_opt _ _ _) _ ?d |- _ =>
      let Hd := fresh "Hd" in let Hc := fresh "Hc" in
      apply dispatch_opt_spec in H as [Hd Hc]; destruct d as [[?reply|?e]|]; cbn [default from_option id] in *;
      run_all
  end.

(** The statuses of the codec's responses. *)
Ltac resp_status :=
  rewrite ?submit_response_status, ?data_response_status, ?submit_sm_reject_resp,
    ?data_sm_reject_resp, ?cancel_sm_accept_status, ?cancel_sm_reject_status,
    ?query_sm_accept_status, ?query_sm_reject_status, ?replace_sm_accept_status,
    ?replace_sm_reject_status, ?submit_sm_multi_accept_status, ?submit_sm_multi_reject_status,
    ?deliver_sm_accept_status, ?deliver_sm_reject_status.

(** One branch of a handler, after [outcome_cases]. *)
Ltac answered_tac :=
  match goal with
  | Hd : dispatched _ _ _ _ _ _, Hc : counted _ _ = [], Hr : runs (record_pdu _ _ _) _ _ |- _ =>
      eapply answered_intro;
        [apply silent_nil|exact Hd|exact Hc|exact Hr| | |];
        [|rewrite ?submit_sm_is_success_spec, ?data_sm_is_success_spec|by cbn [app]; rewrite ?app_nil_r];
        resp_status; unfold verdict;
        repeat match goal with E : bool_decide _ = true |- _ => apply bool_decide_eq_true in E; rewrite ?E end;
        try reflexivity;
        rewrite error_code_ok; by match goal with E : bool_decide _ = _ |- _ => rewrite E end
  end.

(** C1: every request an ESME sends is answered, whatever other tasks do
    meanwhile, with exactly the status the script's reply names (or the fixed
    status of its command when no handler is registered or the handler fails), the
    script is shown the request's own fields and session, and with metrics on the
    PDU is counted once, as accepted exactly when the status on the wire is
    ESME_ROK.  Only a message PDU over its session's cap, under the [reject]
    action, is answered ESME_RTHROTTLED instead, and then no script runs. *)
Theorem inbound_answered cfg i conn sid tr status :
  runs (handle_inbound cfg i conn sid) tr status ->
  (gated i = true /\ inbound_throttle_action cfg = Reject /\
   throttled (inbound_command i) tr status) \/
  exists system_id,
    answered INBOUND (inbound_command i) (inbound_view i) (no_handler_status i) (failed_status i)
      (Session.mk EsmeServer sid system_id (client_address conn)) tr status.
Proof.
  destruct i; cbn [handle_inbound gated inbound_command inbound_view no_handler_status failed_status];
    unfold on_submit_sm, on_data_sm, on_cancel_sm, on_query_sm, on_replace_sm, on_submit_sm_multi,
      dispatch_pdu; intros Hr; repeat run_step.
  all: try match goal with H : runs (admit_inbound _ _) _ ?a |- _ =>
    pose proof (admit_silent _ _ _ _ H); destruct a; repeat run_step;
    [|left; split; [done|]; rewrite ?app_nil_r, ?submit_sm_reject_resp, ?data_sm_reject_resp,
        ?submit_sm_multi_reject_status; by eapply throttled_intro] end.
  all: right; match goal with H : runs (esme_session _ _) _ _ |- _ =>
    apply esme_session_spec in H as (? & system_id & ->) end; exists system_id; outcome_cases;
    rewrite <- ?app_assoc.
  all: repeat (apply answered_prefix; [assumption|]).
  all: answered_tac.
Qed.

Lemma response_content rs rd reply :
  submit_sm_response rs reply =
    (if bool_decide (PduReply.command_status reply = ESME_ROK)
     then submit_sm_resp.mk 0 (Some (default "" (PduReply.message_id reply)))
     else submit_sm_resp.mk (error_code (PduReply.command_status reply)) None) /\
  data_sm_response rd reply =
    (if bool_decide (PduReply.command_status reply = ESME_ROK)
     then data_sm_resp.mk 0 (Some (default "" (PduReply.message_id reply))) (PduReply.tlvs reply)
     else data_sm_resp.mk (error_code (PduReply.command_status reply)) None (PduReply.tlvs reply)).
Proof.
  unfold submit_sm_response, data_sm_response. rewrite with_resp_tlvs_spec.
  case_bool_decide as E.
  - by rewrite submit_sm_accept_resp, data_sm_accept_resp.
  - by rewrite submit_sm_reject_resp, data_sm_reject_resp.
Qed.

(** The calls [pdu.reply] accepts: a status by its name, parameters that convert,
    and parameters at all only on the [data_sm] path. *)
Lemma reply_ok self status mid items r :
  reply self status mid items = Ok r <->
  exists e l, parse_smpp_status status = Ok e /\ tlvs_from_py items = Ok l /\
    (l = [] \/ Pdu.command self = "data_sm") /\ r = PduReply.mk e mid None "" 0 l.
Proof.
  unfold reply. rewrite result_bind_ok. setoid_rewrite result_bind_ok. split.
  - intros (e & He & l & Hl & Hr). exists e, l. split; [done|]. split; [done|].
    destruct (bool_decide (l = [])) eqn:El; cbn in Hr.
    + apply bool_decide_eq_true in El. injection Hr as <-. auto.
    + destruct (String.eqb_spec (Pdu.command self) "data_sm"); [|done]. injection Hr as <-. auto.
  - intros (e & l & He & Hl & Hc & ->). exists e. split; [done|]. exists l. split; [done|].
    destruct Hc as [->|Hc]; [done|]. rewrite Hc. by rewrite andb_false_r.
Qed.

(** C39: what [pdu.reply] takes is what the peer gets: a message response carries
    the status named, the message id exactly when it accepts (empty when none was
    given), and on [data_sm] the parameters, in order, either way; parameters for
    a response that has none, an unknown status or ones that do not convert are
    refused when the script calls, so nothing is dropped on the way. *)
Theorem reply_carried rs rd status mid items :
  match reply (from_submit rs) status mid items with
  | Ok r => exists e, parse_smpp_status status = Ok e /\ tlvs_from_py items = Ok [] /\
      submit_sm_response rs r =
        submit_sm_resp.mk (error_code e) (if bool_decide (e = ESME_ROK) then Some (default "" mid) else None)
  | Err _ => forall e, parse_smpp_status status = Ok e -> tlvs_from_py items <> Ok []
  end /\
  match reply (from_data rd) status mid items with
  | Ok r => exists e l, parse_smpp_status status = Ok e /\ tlvs_from_py items = Ok l /\
      data_sm_response rd r =
        data_sm_resp.mk (error_code e) (if bool_decide (e = ESME_ROK) then Some (default "" mid) else None) l
  | Err _ => forall e l, parse_smpp_status status = Ok e -> tlvs_from_py items <> Ok l
  end.
Proof.
  split.
  - destruct (reply (from_submit rs) status mid items) as [r|err] eqn:E.
    + apply reply_ok in E as (e & l & He & Hl & [->|[=]] & ->). exists e. split; [done|]. split; [done|].
      rewrite (proj1 (response_content rs rd _)). cbn. by case_bool_decide; subst.
    + intros e He Hl. assert (reply (from_submit rs) status mid items = Ok (PduReply.mk e mid None "" 0 []));
        [apply reply_ok; eauto 8|congruence].
  - destruct (reply (from_data rd) status mid items) as [r|err] eqn:E.
    + apply reply_ok in E as (e & l & He & Hl & _ & ->). exists e, l. split; [done|]. split; [done|].
      rewrite (proj2 (response_content rs rd _)). cbn. by case_bool_decide; subst.
    + intros e l He Hl. assert (reply (from_data rd) status mid items = Ok (PduReply.mk e mid None "" 0 l));
        [apply reply_ok; eauto 8|congruence].
Qed.

(** ** Requests on one of our binds *)

Inductive bind_pdu : Type :=
| BindDeliver (r : deliver_sm.t)
| BindData (r : data_sm.t).

Definition bind_command (i : bind_pdu) : string :=
  match i with BindDeliver _ => "deliver_sm" | BindData _ => "data_sm" end.
Definition bind_view (i : bind_pdu) : Pdu.t :=
  match i with BindDeliver r => from_deliver r | BindData r => from_data r end.
Definition bind_no_handler (i : bind_pdu) : SmppError :=
  match i with BindDeliver _ => ESME_ROK | BindData _ => ESME_RSYSERR end.

Definition handle_bind (self : BindListener) (i : bind_pdu) (conn : SmppConnectionInformation)
    (sid : string) : task Z :=
  match i with
  | BindDeliver r => x <- on_deliver_sm self r conn sid; Ret (deliver_sm_resp.command_status x)
  | BindData r => x <- bind_on_data_sm self r conn sid; Ret (data_sm_resp.command_status x)
  end.

(** C15: every message the SMSC sends on one of our binds, delivery receipts
    included, is answered with exactly the status the script's reply names:
    an unhandled [deliver_sm] is acknowledged, an unhandled [data_sm] and any
    failing handler answer ESME_RSYSERR; the session shown names the bind, and the
    PDU is counted once, on the egress side, as accepted exactly when the status
    on the wire is ESME_ROK. *)
Theorem bind_answered self i conn sid tr status :
  runs (handle_bind self i conn sid) tr status ->
  answered EGRESS (bind_command i) (bind_view i) (bind_no_handler i) ESME_RSYSERR
    (bind_session self sid conn) tr status.
Proof.
  destruct i; cbn [handle_bind bind_command bind_view bind_no_handler];
    unfold on_deliver_sm, bind_on_data_sm, dispatch_pdu; intros Hr; repeat run_step;
    outcome_cases; rewrite <- ?app_assoc.
  all: answered_tac.
Qed.

(** ** Admission *)

(** A session without a cap is never delayed and never refused: admission
    looks its limiter up and does nothing else.  With a cap, the [pace] action
    never refuses, and [reject] decides on one look at the bucket without waiting;
    the throttle counter moves exactly when the message waited or was refused. *)
Theorem admit_spec cfg sid tr a :
  runs (admit_inbound cfg sid) tr a ->
  exists l0 tr', tr = Ev (LockEsmes (reading (session_limiter sid))) l0 :: tr' /\
  match l0 with
  | None => tr' = [] /\ a = Proceed
  | Some l =>
      match inbound_throttle_action cfg with
      | Pace => a = Proceed /\ exists waited tra trc u, tr' = tra ++ trc /\ runs (acquire l) tra waited /\
                  runs (if (waited : bool) then record_throttled INBOUND else Ret tt) trc u
      | Reject => exists granted trc, tr' = Ev (LockBucket l try_acquire_section) granted :: trc /\
                  a = (if (granted : bool) then Proceed else Throttled) /\
                  (metrics_on tr -> counted THROTTLED tr =
                     if granted then [] else [[("direction", INBOUND)]])
      end
  end.
Proof.
  unfold admit_inbound. intros Hr. run_step. run_step. eexists _, _. split; [reflexivity|].
  destruct a0 as [l|]; [|by run_step].
  destruct (inbound_throttle_action cfg).
  - repeat run_step. split; [done|]. rewrite app_nil_r. eauto 8.
  - unfold try_acquire in *. repeat run_step. destruct a0; repeat run_step.
    + by eexists _, [].
    + eexists _, _. split; [reflexivity|]. split; [done|]. intros Hon. rewrite app_nil_r in *.
      rewrite (counted_app _ [_] ([_] ++ _)), (counted_app _ [_]). cbn [app] in Hon.
      apply (metrics_on_app [_; _]) in Hon as [_ Hon].
      match goal with H : runs (record_throttled _) _ _ |- _ => unfold record_throttled in H;
        by rewrite (when_store_counted _ _ _ _ _ _ H) end.
Qed.

End Inbound.

(** ** Witnesses *)

Import Smpp34Example.

Definition example_cfg : StateConfig := mkStateConfig 0 Pace 30000000000.
Definition example_conn : SmppConnectionInformation := mkConn "10.0.0.1" "10.0.0.2".
Definition example_cancel : cancel_sm.t := cancel_sm.mk "" "m1" 1 1 "100" 1 1 "200".
Definition example_deliver : deliver_sm.t :=
  deliver_sm.mk "" 1 1 "100" 1 1 "200" 4 0 0 "" "" 0 0 0 0 0 [] [].

Lemma reply_carried_witness :
  let request := data_sm.mk "" 1 1 "" 1 1 "" 0 0 0 [] in
  exists r, reply (from_data request) "ESME_RTHROTTLED" None (Some [(PyInt 0x1400, PyBytes [])]) = Ok r /\
    data_sm_response request r = data_sm_resp.mk 0x58 None [mkTlv 0x1400 []].
Proof.
  cbv zeta. eexists. split; [reflexivity|].
  destruct (proj2 (reply_carried (submit_sm.mk "" 1 1 "" 1 1 "" 0 0 0 "" "" 0 0 0 0 0 [] [])
    (data_sm.mk "" 1 1 "" 1 1 "" 0 0 0 []) "ESME_RTHROTTLED" None
    (Some [(PyInt 0x1400, PyBytes [])]))) as (e & l & He & Hl & Hr).
  injection He as <-. injection Hl as <-. exact Hr.
Defined.

Lemma inbound_answered_witness : exists tr,
  runs (handle_inbound example_cfg (InCancel example_cancel) example_conn "s1") tr 0x11 /\
  exists system_id,
    answered INBOUND "cancel_sm" (from_cancel example_cancel) ESME_RCANCELFAIL ESME_RCANCELFAIL
      (Session.mk EsmeServer "s1" system_id "10.0.0.1") tr 0x11.
Proof.
  assert (exists tr,
    runs (handle_inbound example_cfg (InCancel example_cancel) example_conn "s1") tr 0x11) as [tr Htr].
  { eexists [Ev _ "esme"; Ev MetricsStore false; Ev JobStart None; Ev (PyHandlers PDU_KIND) [];
             Ev JobEnd None; Ev MetricsStore false]. cbn. repeat eexists. }
  exists tr. split; [exact Htr|].
  destruct (inbound_answered example_cfg (InCancel example_cancel) example_conn "s1" tr 0x11 Htr)
    as [(? & _)|Hs]; [discriminate|exact Hs].
Defined.

Lemma bind_answered_witness : exists tr,
  answered EGRESS "deliver_sm" (from_deliver example_deliver) ESME_ROK ESME_RSYSERR
    (bind_session (mkBindListener "trunk" 0 0) "s1" example_conn) tr 0.
Proof.
  exists [Ev MetricsStore false; Ev JobStart None; Ev (PyHandlers PDU_KIND) [];
             Ev JobEnd None; Ev MetricsStore false].
  apply (bind_answered (mkBindListener "trunk" 0 0) (BindDeliver example_deliver)).
  cbn. repeat eexists.
Defined.

Lemma admit_spec_witness : exists l0 tr',
  [Ev (LockEsmes (reading (session_limiter "s1"))) None] =
  Ev (LockEsmes (reading (session_limiter "s1"))) l0 :: tr'.
Proof.
  destruct (admit_spec example_cfg "s1" [Ev (LockEsmes (reading (session_limiter "s1"))) None] Proceed)
    as (l0 & tr' & E & Hm).
  - cbn. repeat eexists.
  - by exists l0, tr'.
Defined.
