(* ===== verification/Config.v ===== *)
(** * Configuration: [config.rs]

    The configuration records with their defaults, [listen], the [${VAR}]
    expansion, the binds declared by environment variables and the overrides
    [from_file] applies on top of the parsed YAML.  Here [from_yaml] is an argument
    ([Yaml.v] gives it), as are the file's contents; the process environment is a
    list of variables.  [str::to_lowercase] beyond ASCII is the class
    [UnicodeLower]. *)

From Stdlib Require Structures.OrdersEx.
From Stdlib Require Import Sorting.Sorted.
From S2P Require Import Prelude RustStr Effects.
#[local] Open Scope Z_scope.

(** ** Records and defaults *)

Module TlsConfig.
Record t : Set := mk { cert_path : string; key_path : string; ca_path : option string }.
End TlsConfig.

Definition default_session_init : Z := 5000.
Definition default_enquire_link : Z := 30000.
Definition default_inactivity : Z := 300000.
Definition default_response : Z := 30000.
Definition default_bind_type : string := "transceiver".

Module ServerConfig.
Record t : Set := mk {
  bind_address : option string;
  port : option Z;
  session_init_timer_ms : Z;
  enquire_link_timer_ms : Z;
  inactivity_timer_ms : Z;
  response_timer_ms : Z;
  max_msg_per_sec : Z;
  throttle_action : ThrottleAction;
  tls : option TlsConfig.t;
}.

(** [#[derive(Default)]], what an absent [server:] section loads as: the serde
    defaults of the fields apply only inside a section that is there. *)
Definition default : t := mk None None 0 0 0 0 0 Pace None.

(** An empty section: every field at its serde default. *)
Definition empty_section : t :=
  mk None None default_session_init default_enquire_link default_inactivity default_response
    0 Pace None.

Definition set_max_msg_per_sec (self : t) (v : Z) : t :=
  mk (bind_address self) (port self) (session_init_timer_ms self) (enquire_link_timer_ms self)
    (inactivity_timer_ms self) (response_timer_ms self) v (throttle_action self) (tls self).
Definition set_throttle_action (self : t) (v : ThrottleAction) : t :=
  mk (bind_address self) (port self) (session_init_timer_ms self) (enquire_link_timer_ms self)
    (inactivity_timer_ms self) (response_timer_ms self) (max_msg_per_sec self) v (tls self).
End ServerConfig.

Definition throttle_action_as_str (a : ThrottleAction) : string :=
  match a with Pace => "pace" | Reject => "reject" end.

Module BindConfig.
Record t : Set := mk {
  name : string; host : string; port : Z; system_id : string; password : string;
  system_type : string; bind_type : string; max_msg_per_sec : Z;
  enquire_link_timer_ms : Z; response_timer_ms : Z; tls : option TlsConfig.t;
}.
End BindConfig.

(** A YAML node kept for the script; a float is its text. *)
#[local] Unset Elimination Schemes.
Inductive OptionValue : Set :=
| OptNull
| OptBool (b : bool)
| OptInt (z : Z)
| OptUInt (z : Z)
| OptFloat (text : string)
| OptString (s : string)
| OptSeq (items : list OptionValue)
| OptMap (entries : list (OptionValue * OptionValue)).
#[local] Set Elimination Schemes.

Module RoutingRule.
Record t : Set := mk {
  prefix : string; chain : list string; name : string; options : list (string * OptionValue);
}.
End RoutingRule.

Module RoutingConfig.
Record t : Set := mk { default_chain : list string; rules : list RoutingRule.t }.
End RoutingConfig.

Module SmppConfig.
Record t : Set := mk {
  server : ServerConfig.t;
  binds : list BindConfig.t;
  routing : RoutingConfig.t;
  bind_address : option string;
  port : option Z;
}.
End SmppConfig.

Definition listen (self : SmppConfig.t) : string * Z :=
  let host := default "0.0.0.0"
    (opt_or (ServerConfig.bind_address (SmppConfig.server self)) (SmppConfig.bind_address self)) in
  let port := default 2775
    (opt_or (ServerConfig.port (SmppConfig.server self)) (SmppConfig.port self)) in
  (host, port).

(** [string_or_null], [strings_or_null]: a null scalar is the empty string. *)
Definition string_or_null (v : option string) : string := default "" v.
Definition strings_or_null (v : list (option string)) : list string := string_or_null <$> v.

(** ** [${VAR}] expansion *)

(** The process environment: its variables in the order [std::env::vars] gives
    them, all of them UTF-8 ([vars] panics at one that is not). *)
Definition Env : Type := list (string * string).

(** [std::env::var(name).ok()]. *)
Definition env_var (env : Env) (name : string) : option string :=
  snd <$> iter_find (fun row => bool_decide (fst row = name)) env.

(** The value of one reference, the text between the braces. *)
Definition env_value (env : Env) (spec : bytes) : bytes :=
  let '(name, dflt) := match split_once (of_str ":-") spec with
                       | Some (n, d) => (n, Some d)
                       | None => (spec, None)
                       end in
  default [] (opt_or (of_str <$> env_var env (to_str name)) dflt).

(** The [while let] loop; each turn drops at least the two bytes of a [${], so
    the length of [rest] is fuel enough. *)
Fixpoint expand_loop (env : Env) (fuel : nat) (out rest : bytes) : bytes :=
  match fuel with
  | O => out ++ rest
  | S fuel =>
      match str_find (of_str "${") rest with
      | None => out ++ rest
      | Some pos =>
          let out := out ++ take pos rest in
          let after := drop (pos + 2) rest in
          match str_find (of_str "}") after with
          | None => expand_loop env fuel (out ++ of_str "${") after
          | Some off =>
              let spec := take off after in
              expand_loop env fuel (out ++ env_value env spec) (drop (off + 1) after)
          end
      end
  end.

Definition expand_env_vars (env : Env) (input : bytes) : bytes :=
  expand_loop env (length input) [] input.

(** ** Binds from the environment *)

(** [BTreeMap] with string keys: an association list kept in byte order. *)
Fixpoint btree_update {V} (k : string) (f : option V -> V) (m : list (string * V)) : list (string * V) :=
  match m with
  | [] => [(k, f None)]
  | (k', v) :: m' =>
      match String.compare k k' with
      | Lt => (k, f None) :: m
      | Eq => (k, f (Some v)) :: m'
      | Gt => (k', v) :: btree_update k f m'
      end
  end.

Definition btree_get {V} (m : list (string * V)) (k : string) : option V :=
  snd <$> iter_find (fun row => bool_decide (fst row = k)) m.

Inductive ConfigError (YamlError : Type) : Type :=
| ReadError (path : string)
| ParseError (path : string) (source : YamlError)
| EnvBindMissing (bind field : string)
| EnvBindInvalid (bind field value : string).
Arguments ReadError {YamlError} path.
Arguments ParseError {YamlError} path source.
Arguments EnvBindMissing {YamlError} bind field.
Arguments EnvBindInvalid {YamlError} bind field value.

(** [str::to_lowercase]. *)
Class UnicodeLower := to_lowercase : bytes -> bytes.
Class UnicodeLowerLaws `{UnicodeLower} : Prop :=
  to_lowercase_ascii s : forallb is_ascii s = true -> to_lowercase s = to_ascii_lowercase s.

Section Env.
Context `{UnicodeLower} {YamlError : Type}.

(** [SMPP_BIND_<NAME>_<FIELD>], split at the first underscore. *)
Definition bind_key (k : string) : option (string * string) :=
  rest ← strip_prefix (of_str "SMPP_BIND_") (of_str k);
  idx ← str_find (of_str "_") rest;
  Some (to_str (to_lowercase (take idx rest)), to_str (drop (idx + 1) rest)).

Definition Fields : Type := list (string * string).

Fixpoint by_name (acc : list (string * Fields)) (vars : Env) : list (string * Fields) :=
  match vars with
  | [] => acc
  | (k, v) :: vars =>
      match bind_key k with
      | None => by_name acc vars
      | Some (name, field) =>
          by_name (btree_update name (fun fs => btree_update field (fun _ => v) (default [] fs)) acc) vars
      end
  end.

(** [fields.get(f).filter(|s| !s.is_empty())]. *)
Definition nonempty (fields : Fields) (f : string) : option string :=
  match btree_get fields f with
  | Some v => if bool_decide (v = "") then None else Some v
  | None => None
  end.

Definition require (name : string) (fields : Fields) (f : string)
    : result (ConfigError YamlError) string :=
  ok_or (EnvBindMissing name f) (nonempty fields f).

Definition parse_u (name : string) (fields : Fields) (f : string) (dflt : Z)
    : result (ConfigError YamlError) Z :=
  match nonempty fields f with
  | Some v => ok_or (EnvBindInvalid name f v) (parse_uint 64 (of_str v))
  | None => Ok dflt
  end.

Definition tls_on (fields : Fields) : bool :=
  match btree_get fields "TLS" with
  | Some v =>
      let v := to_str (to_lowercase (trim (of_str v))) in
      bool_decide (v = "true") || bool_decide (v = "1") || bool_decide (v = "yes")
      || bool_decide (v = "on")
  | None => false
  end.

(** One discovered bind; [None] when it has no [HOST]. *)
Definition bind_from_fields (name : string) (fields : Fields)
    : result (ConfigError YamlError) (option BindConfig.t) :=
  match nonempty fields "HOST" with
  | None => Ok None
  | Some host =>
      port ← parse_u name fields "PORT" 2775;
      let port := wrap 16 port in
      mps ← parse_u name fields "MAX_MPS" 0;
      let max_msg_per_sec := wrap 32 mps in
      system_id ← require name fields "SYSTEM_ID";
      password ← require name fields "PASSWORD";
      enquire ← parse_u name fields "ENQUIRE_LINK_MS" default_enquire_link;
      response ← parse_u name fields "RESPONSE_MS" default_response;
      Ok (Some (BindConfig.mk name host port system_id password
                  (default "" (btree_get fields "SYSTEM_TYPE"))
                  (default default_bind_type (btree_get fields "BIND_TYPE"))
                  max_msg_per_sec enquire response
                  (if tls_on fields then Some (TlsConfig.mk "" "" None) else None)))
  end.

Fixpoint binds_of (groups : list (string * Fields)) : result (ConfigError YamlError) (list BindConfig.t) :=
  match groups with
  | [] => Ok []
  | (name, fields) :: groups =>
      b ← bind_from_fields name fields;
      rest ← binds_of groups;
      Ok (match b with Some b => b :: rest | None => rest end)
  end.

Definition binds_from_env (env : Env) : result (ConfigError YamlError) (list BindConfig.t) :=
  binds_of (by_name [] env).

(** ** [from_file] *)

Definition chain_override (raw : string) : list string :=
  to_str <$> List.filter (fun s => negb (bool_decide (s = []))) (trim <$> split_on (byte_of_Z 44) (of_str raw)).

Definition apply_chain (env : Env) (cfg : SmppConfig.t) : SmppConfig.t :=
  match env_var env "SMPP_DEFAULT_CHAIN" with
  | Some raw =>
      SmppConfig.mk (SmppConfig.server cfg) (SmppConfig.binds cfg)
        (RoutingConfig.mk (chain_override raw) (RoutingConfig.rules (SmppConfig.routing cfg)))
        (SmppConfig.bind_address cfg) (SmppConfig.port cfg)
  | None => cfg
  end.

Definition set_server (cfg : SmppConfig.t) (s : ServerConfig.t) : SmppConfig.t :=
  SmppConfig.mk s (SmppConfig.binds cfg) (SmppConfig.routing cfg) (SmppConfig.bind_address cfg)
    (SmppConfig.port cfg).

Definition apply_max_mps (env : Env) (cfg : SmppConfig.t) : SmppConfig.t :=
  match env_var env "SMPP_SERVER_MAX_MPS" with
  | Some raw =>
      match parse_uint 32 (trim (of_str raw)) with
      | Some mps => set_server cfg (ServerConfig.set_max_msg_per_sec (SmppConfig.server cfg) mps)
      | None => cfg
      end
  | None => cfg
  end.

Definition apply_throttle_action (env : Env) (cfg : SmppConfig.t) : SmppConfig.t :=
  match env_var env "SMPP_SERVER_THROTTLE_ACTION" with
  | Some raw =>
      let v := to_str (to_lowercase (trim (of_str raw))) in
      if bool_decide (v = "pace")
      then set_server cfg (ServerConfig.set_throttle_action (SmppConfig.server cfg) Pace)
      else if bool_decide (v = "reject")
      then set_server cfg (ServerConfig.set_throttle_action (SmppConfig.server cfg) Reject)
      else cfg
  | None => cfg
  end.

Definition add_binds (cfg : SmppConfig.t) (more : list BindConfig.t) : SmppConfig.t :=
  SmppConfig.mk (SmppConfig.server cfg) (SmppConfig.binds cfg ++ more) (SmppConfig.routing cfg)
    (SmppConfig.bind_address cfg) (SmppConfig.port cfg).

Definition from_file (from_yaml : bytes -> result YamlError SmppConfig.t)
    (read_to_string : option bytes) (path : string) (env : Env)
    : result (ConfigError YamlError) SmppConfig.t :=
  raw ← ok_or (ReadError path) read_to_string;
  let expanded := expand_env_vars env raw in
  cfg ← match from_yaml expanded with
        | Ok cfg => Ok cfg
        | Err source => Err (ParseError path source)
        end;
  more ← binds_from_env env;
  let cfg := add_binds cfg more in
  Ok (apply_throttle_action env (apply_max_mps env (apply_chain env cfg))).

End Env.

(** ** Theorems: expansion *)

Lemma expand_loop_out env fuel out rest :
  expand_loop env fuel out rest = out ++ expand_loop env fuel [] rest.
Proof.
  revert out rest. induction fuel as [|fuel IH]; intros out rest; cbn [expand_loop]; [done|].
  destruct (str_find _ rest) as [pos|]; [|done].
  destruct (str_find _ (drop (pos + 2) rest)) as [off|]; cbn [app];
    rewrite IH, (IH (take pos rest ++ _)); by rewrite <-!app_assoc.
Qed.

Lemma expand_loop_fuel env fuel1 fuel2 rest :
  (length rest <= fuel1)%nat -> (length rest <= fuel2)%nat ->
  expand_loop env fuel1 [] rest = expand_loop env fuel2 [] rest.
Proof.
  revert fuel2 rest. induction fuel1 as [|fuel1 IH]; intros fuel2 rest H1 H2.
  - destruct rest; cbn in H1; [|lia]. by destruct fuel2.
  - destruct fuel2 as [|fuel2]; [destruct rest; cbn in H2; [done|lia]|].
    cbn [expand_loop]. destruct (str_find _ rest) as [pos|] eqn:E; [|done].
    apply str_find_bound in E. change (length (of_str "${")) with 2%nat in E.
    destruct (str_find _ (drop (pos + 2) rest)) as [off|];
      rewrite expand_loop_out, (expand_loop_out _ fuel2); f_equal; apply IH;
      rewrite ?length_drop; lia.
Qed.

(** Expansion is total and does what its loop says: text before the first
    [${] is kept, the reference is replaced by the variable, else its default,
    else nothing, the replacement itself is never expanded again, and the rest is
    expanded the same way; an unclosed [${] stays as it is, so text without a
    closing brace comes out unchanged. *)
Theorem expand_env_vars_spec env input :
  expand_env_vars env input =
    match str_find (of_str "${") input with
    | None => input
    | Some pos =>
        take pos input ++
        let after := drop (pos + 2) input in
        match str_find (of_str "}") after with
        | None => of_str "${" ++ after
        | Some off =>
            env_value env (take off after) ++ expand_env_vars env (drop (off + 1) after)
        end
    end.
Proof.
  assert (forall n rest, (length rest <= n)%nat -> str_find (of_str "}") rest = None ->
            expand_loop env n [] rest = rest) as Hid.
  { induction n as [|n IH]; intros rest Hl Hn; cbn [expand_loop]; [done|].
    destruct (str_find (of_str "${") rest) as [pos|] eqn:E; [|done].
    pose proof (str_find_bound _ _ _ E) as Hb. change (length (of_str "${")) with 2%nat in Hb.
    apply str_find_some in E as (pre & post & -> & <-).
    replace (drop (length pre + 2) (pre ++ of_str "${" ++ post)) with post
      by (rewrite app_assoc, drop_app_length'; [done|by rewrite length_app]).
    assert (str_find (of_str "}") post = None) as Hp.
    { destruct (str_find (of_str "}") post) as [i|] eqn:Ei; [|done].
      apply str_find_some in Ei as (a & b & -> & _).
      pose proof (str_find_none _ _ (length (pre ++ of_str "${" ++ a)) Hn) as Hs.
      rewrite !app_assoc in Hs. rewrite <-(app_assoc _ (of_str "}")), drop_app_length' in Hs
        by (by rewrite !length_app).
      rewrite starts_with_app in Hs. discriminate Hs. rewrite !length_app. lia. }
    rewrite Hp, expand_loop_out, IH by (rewrite ?length_app in *; cbn in *; lia || done).
    rewrite take_app_length. cbn [app]. by rewrite <-app_assoc. }
  unfold expand_env_vars at 1. destruct (length input) as [|n] eqn:El.
  { destruct input; [done|discriminate El]. }
  cbn [expand_loop]. destruct (str_find (of_str "${") input) as [pos|] eqn:E; [|done].
  apply str_find_bound in E as Hb. change (length (of_str "${")) with 2%nat in Hb. cbv zeta.
  destruct (str_find (of_str "}") (drop (pos + 2) input)) as [off|] eqn:Eo;
    rewrite expand_loop_out, <-app_assoc; do 2 f_equal.
  - apply expand_loop_fuel; rewrite !length_drop; lia.
  - apply Hid; [rewrite length_drop; lia|done].
Qed.

(** ** Ordered maps *)

Definition str_lt (a b : string) : Prop := String.compare a b = Lt.

#[export] Instance str_lt_trans : Transitive str_lt.
Proof.
  intros a b c. pose proof OrdersEx.String_as_OT.lt_strorder as [_ Ht]. apply Ht.
Qed.

Lemma str_lt_irrefl a : ~ str_lt a a.
Proof. pose proof OrdersEx.String_as_OT.lt_strorder as [Hi _]. apply Hi. Qed.

Lemma str_compare_gt a b : String.compare a b = Gt -> str_lt b a.
Proof. intros E. unfold str_lt. by rewrite String.compare_antisym, E. Qed.

Definition sorted {V} (m : list (string * V)) : Prop := StronglySorted str_lt m.*1.

Lemma btree_update_keys {V} k (f : option V -> V) m k' :
  k' ∈ (btree_update k f m).*1 <-> k' = k \/ k' ∈ m.*1.
Proof.
  induction m as [|[j v] m IH]; cbn [btree_update fmap list_fmap fst].
  - rewrite list_elem_of_singleton. set_solver.
  - destruct (String.compare k j) eqn:E; cbn [fmap list_fmap fst]; rewrite !elem_of_cons.
    + apply String.compare_eq_iff in E as ->. tauto.
    + tauto.
    + rewrite IH. tauto.
Qed.

Lemma btree_update_sorted {V} k (f : option V -> V) m : sorted m -> sorted (btree_update k f m).
Proof.
  unfold sorted. induction m as [|[j v] m IH]; cbn [btree_update fmap list_fmap fst]; intros Hs.
  - repeat constructor.
  - apply StronglySorted_inv in Hs as [Hs Hf].
    destruct (String.compare k j) eqn:E; cbn [fmap list_fmap fst].
    + apply String.compare_eq_iff in E as ->. by constructor.
    + constructor; [by constructor|]. constructor; [done|].
      eapply list.Forall_impl; [exact Hf|]. intros x. by apply (transitivity (y := j)).
    + constructor; [auto|]. apply list.Forall_forall. intros x [->|Hx]%btree_update_keys.
      * by apply str_compare_gt.
      * by rewrite list.Forall_forall in Hf; apply Hf.
Qed.

Lemma btree_get_cons {V} (j : string) (v : V) m k :
  btree_get ((j, v) :: m) k = if bool_decide (j = k) then Some v else btree_get m k.
Proof. unfold btree_get. cbn. by case_bool_decide. Qed.

Lemma btree_get_above {V} (m : list (string * V)) k :
  Forall (str_lt k) m.*1 -> btree_get m k = None.
Proof.
  induction m as [|[j v] m IH]; [done|]. intros [Hj Hm]%list.Forall_cons.
  rewrite btree_get_cons, bool_decide_eq_false_2; [auto|]. intros ->. by apply str_lt_irrefl in Hj.
Qed.

Lemma btree_get_update {V} k (f : option V -> V) m k' :
  sorted m ->
  btree_get (btree_update k f m) k' =
  if bool_decide (k = k') then Some (f (btree_get m k)) else btree_get m k'.
Proof.
  unfold sorted. induction m as [|[j v] m IH]; cbn [btree_update fmap list_fmap fst]; intros Hs.
  - rewrite btree_get_cons. by case_bool_decide.
  - apply StronglySorted_inv in Hs as [Hs Hf]. destruct (String.compare k j) eqn:E.
    + apply String.compare_eq_iff in E as ->. rewrite !btree_get_cons, (bool_decide_eq_true_2 (j = j)) by done.
      by case_bool_decide.
    + rewrite (btree_get_cons k), (btree_get_above ((j, v) :: m) k); [done|].
      constructor; [done|]. eapply list.Forall_impl; [exact Hf|]. intros x. by apply (transitivity (y := j)).
    + rewrite !btree_get_cons, IH by done. apply str_compare_gt in E.
      rewrite (bool_decide_eq_false_2 (j = k)); [|intros ->; by apply str_lt_irrefl in E].
      repeat case_bool_decide; subst; try done. by apply str_lt_irrefl in E.
Qed.

Lemma btree_get_in {V} (m : list (string * V)) k v :
  sorted m -> (k, v) ∈ m <-> btree_get m k = Some v.
Proof.
  unfold sorted. induction m as [|[j w] m IH]; cbn [fmap list_fmap fst]; intros Hs.
  - by split; [intros ?%not_elem_of_nil|].
  - apply StronglySorted_inv in Hs as [Hs Hf]. rewrite elem_of_cons, btree_get_cons, IH by done.
    case_bool_decide as E; [subst j|naive_solver].
    split; [|naive_solver]. intros [[= ->]|Hg]; [done|]. by rewrite btree_get_above in Hg.
Qed.

(** ** Theorems: binds from the environment *)

Section EnvTheorems.
Context `{UnicodeLower} {YamlError : Type}.

(** The value of a bind's field: the last variable that spells it. *)
Fixpoint env_field (env : Env) (name field : string) : option string :=
  match env with
  | [] => None
  | (k, v) :: env =>
      opt_or (env_field env name field)
        (if bool_decide (bind_key k = Some (name, field)) then Some v else None)
  end.

Definition groups_ok (acc : list (string * Fields)) : Prop :=
  sorted acc /\ Forall (fun row => sorted row.2) acc.

Definition group_field (acc : list (string * Fields)) (name field : string) : option string :=
  match btree_get acc name with Some fs => btree_get fs field | None => None end.

Definition add_field (name field v : string) (acc : list (string * Fields)) : list (string * Fields) :=
  btree_update name (fun fs => btree_update field (fun _ => v) (default [] fs)) acc.

Lemma btree_update_Forall {V} (P : V -> Prop) k (f : option V -> V) m :
  Forall (fun row => P row.2) m -> (forall o, (forall v, o = Some v -> P v) -> P (f o)) ->
  Forall (fun row : string * V => P row.2) (btree_update k f m).
Proof.
  intros Hm Hf. induction Hm as [|[j v] m Hv Hm IH]; cbn [btree_update].
  - constructor; [|done]. by apply Hf.
  - destruct (String.compare k j); repeat constructor; try done; apply Hf; naive_solver.
Qed.

Lemma add_field_ok name field v acc : groups_ok acc -> groups_ok (add_field name field v acc).
Proof.
  intros [Hs Hf]. split; [by apply btree_update_sorted|].
  apply btree_update_Forall; [done|]. intros o Ho. apply btree_update_sorted.
  destruct o as [fs|]; [by apply Ho|constructor].
Qed.

Lemma groups_ok_get acc name fs : groups_ok acc -> btree_get acc name = Some fs -> sorted fs.
Proof.
  intros [Hs Hf] Hg. apply btree_get_in in Hg; [|done].
  rewrite list.Forall_forall in Hf. by apply (Hf _ Hg).
Qed.

Lemma group_field_add name field v acc n f :
  groups_ok acc ->
  group_field (add_field name field v acc) n f =
  if bool_decide (name = n /\ field = f) then Some v else group_field acc n f.
Proof.
  intros Hok. unfold group_field, add_field. rewrite btree_get_update by apply Hok.
  case_bool_decide as E; [subst n|rewrite bool_decide_eq_false_2 by tauto; done].
  rewrite btree_get_update.
  - destruct (decide (field = f)) as [->|]; [by rewrite !bool_decide_eq_true_2|].
    rewrite !bool_decide_eq_false_2 by tauto. by destruct (btree_get acc name).
  - destruct (btree_get acc name) as [fs|] eqn:E; [by eapply groups_ok_get|constructor].
Qed.

Lemma by_name_spec vars acc :
  groups_ok acc ->
  groups_ok (by_name acc vars) /\
  forall n f, group_field (by_name acc vars) n f = opt_or (env_field vars n f) (group_field acc n f).
Proof.
  revert acc. induction vars as [|[k v] vars IH]; intros acc Hok; cbn [by_name env_field]; [done|].
  destruct (bind_key k) as [[name field]|] eqn:E.
  - destruct (IH _ (add_field_ok name field v acc Hok)) as [Hok' Hg]. split; [done|]. intros n f.
    unfold add_field in Hg at 1. rewrite Hg. fold (add_field name field v acc).
    rewrite group_field_add by done. destruct (env_field vars n f); [done|]. cbn.
    destruct (decide (name = n /\ field = f)) as [[-> ->]|Hne]; [by rewrite !bool_decide_eq_true_2|].
    rewrite !bool_decide_eq_false_2 by naive_solver. done.
  - destruct (IH acc Hok) as [Hok' Hg]. split; [done|]. intros n f. rewrite Hg.
    rewrite bool_decide_eq_false_2 by done. by destruct (env_field vars n f).
Qed.

(** A numeric field of a bind that was accepted. *)
Definition num_of (v : option string) (dflt : Z) : Z :=
  match v with Some v => default 0 (parse_uint 64 (of_str v)) | None => dflt end.

Lemma parse_u_ok name fields f d z :
  parse_u (YamlError := YamlError) name fields f d = Ok z -> z = num_of (nonempty fields f) d.
Proof.
  unfold parse_u, num_of. destruct (nonempty fields f) as [v|]; [|by intros [= ->]].
  by intros ->%ok_or_ok.
Qed.

Lemma bind_from_fields_ok name fields b :
  bind_from_fields (YamlError := YamlError) name fields = Ok (Some b) ->
  exists host system_id password,
    nonempty fields "HOST" = Some host /\ nonempty fields "SYSTEM_ID" = Some system_id /\
    nonempty fields "PASSWORD" = Some password /\
    b = BindConfig.mk name host (wrap 16 (num_of (nonempty fields "PORT") 2775)) system_id password
          (default "" (btree_get fields "SYSTEM_TYPE"))
          (default default_bind_type (btree_get fields "BIND_TYPE"))
          (wrap 32 (num_of (nonempty fields "MAX_MPS") 0))
          (num_of (nonempty fields "ENQUIRE_LINK_MS") default_enquire_link)
          (num_of (nonempty fields "RESPONSE_MS") default_response)
          (if tls_on fields then Some (TlsConfig.mk "" "" None) else None).
Proof.
  unfold bind_from_fields, require. destruct (nonempty fields "HOST") as [h|]; [|done].
  intros (port & Hp & (mps & Hm & (sid & Hs & (pw & Hpw & (e & He & (r & Hr & [= <-]
    )%result_bind_ok)%result_bind_ok)%result_bind_ok)%result_bind_ok)%result_bind_ok)%result_bind_ok.
  apply parse_u_ok in Hp as ->, Hm as ->, He as ->, Hr as ->. apply ok_or_ok in Hs, Hpw.
  by exists h, sid, pw.
Qed.

Lemma bind_from_fields_none name fields :
  bind_from_fields (YamlError := YamlError) name fields = Ok None <-> nonempty fields "HOST" = None.
Proof.
  unfold bind_from_fields. destruct (nonempty fields "HOST") as [h|]; [|done]. split; [|done].
  intros (? & _ & (? & _ & (? & _ & (? & _ & (? & _ & (? & _ & ?
    )%result_bind_ok)%result_bind_ok)%result_bind_ok)%result_bind_ok)%result_bind_ok)%result_bind_ok.
  done.
Qed.

Lemma binds_of_ok groups out :
  binds_of (YamlError := YamlError) groups = Ok out ->
  (BindConfig.name <$> out) `sublist_of` groups.*1 /\
  (forall b, b ∈ out -> exists fields, (BindConfig.name b, fields) ∈ groups /\
     bind_from_fields (YamlError := YamlError) (BindConfig.name b) fields = Ok (Some b)) /\
  (forall name fields h, (name, fields) ∈ groups -> nonempty fields "HOST" = Some h ->
     name ∈ (BindConfig.name <$> out)).
Proof.
  revert out. induction groups as [|[name fields] groups IH]; intros out; cbn [binds_of].
  - intros [= <-]. split; [constructor|]. split; [set_solver|].
    by intros ? ? ? ?%not_elem_of_nil.
  - intros (b & Hb & (rest & Hr & [= <-])%result_bind_ok)%result_bind_ok.
    destruct (IH _ Hr) as (Hs & Hin & Hall). destruct b as [b|].
    + assert (BindConfig.name b = name) as En
        by (by destruct (bind_from_fields_ok _ _ _ Hb) as (? & ? & ? & _ & _ & _ & ->)).
      cbn [fmap list_fmap fst]. split; [rewrite En; by constructor|]. split.
      * intros b' [->|Hb']%elem_of_cons; [exists fields; rewrite En; split; [left|done]|].
        destruct (Hin _ Hb') as (fs & ? & ?). exists fs. split; [by right|done].
      * intros n fs h [[= -> ->]|Hn]%elem_of_cons Hh; [rewrite En; left|right; by eapply Hall].
    + split; [by constructor|]. split.
      * intros b' Hb'. destruct (Hin _ Hb') as (fs & ? & ?). exists fs. split; [by right|done].
      * intros n fs h [[= -> ->]|Hn]%elem_of_cons Hh; [|by eapply Hall].
        apply bind_from_fields_none in Hb. congruence.
Qed.

Lemma StronglySorted_sublist (l k : list string) :
  l `sublist_of` k -> StronglySorted str_lt k -> StronglySorted str_lt l.
Proof.
  induction 1 as [|x l k Hs IH|x l k Hs IH]; intros Hk; [done| |].
  - apply StronglySorted_inv in Hk as [Hk Hf]. constructor; [auto|].
    rewrite list.Forall_forall in *. intros y Hy. apply Hf. by eapply elem_of_sublist.
  - apply StronglySorted_inv in Hk as [Hk _]. auto.
Qed.

(** A field of a bind that is set to something. *)
Definition env_set (env : Env) (name field : string) : option string :=
  match env_field env name field with
  | Some v => if bool_decide (v = "") then None else Some v
  | None => None
  end.

Lemma nonempty_env env name fields f :
  (name, fields) ∈ by_name [] env -> nonempty fields f = env_set env name f.
Proof.
  intros Hin. destruct (by_name_spec env [] ltac:(by repeat constructor)) as [[Hs _] Hg].
  apply btree_get_in in Hin; [|done]. specialize (Hg name f). unfold group_field in Hg.
  rewrite Hin in Hg. unfold nonempty, env_set. rewrite Hg. by destruct (env_field env name f).
Qed.

Lemma env_set_group env name f v :
  env_set env name f = Some v -> exists fields, (name, fields) ∈ by_name [] env.
Proof.
  intros Hv. destruct (by_name_spec env [] ltac:(by repeat constructor)) as [[Hs _] Hg].
  specialize (Hg name f). unfold group_field in Hg. unfold env_set in Hv.
  destruct (btree_get (by_name [] env) name) as [fs|] eqn:E.
  - exists fs. by apply btree_get_in.
  - by destruct (env_field env name f).
Qed.

Lemma btree_get_env env name (fields : Fields) f :
  (name, fields) ∈ by_name [] env -> btree_get fields f = env_field env name f.
Proof.
  intros Hin. destruct (by_name_spec env [] ltac:(by repeat constructor)) as [[Hs _] Hg].
  apply btree_get_in in Hin; [|done]. specialize (Hg name f). unfold group_field in Hg.
  rewrite Hin in Hg. rewrite Hg. by destruct (env_field env name f).
Qed.

(** What switches TLS on. *)
Definition env_tls (env : Env) (name : string) : bool :=
  match env_field env name "TLS" with
  | Some v => bool_decide (to_str (to_lowercase (trim (of_str v))) ∈ ["true"; "1"; "yes"; "on"])
  | None => false
  end.

Lemma tls_on_env env name fields :
  (name, fields) ∈ by_name [] env -> tls_on fields = env_tls env name.
Proof.
  intros Hin. unfold tls_on, env_tls. rewrite (btree_get_env env name) by done.
  destruct (env_field env name "TLS") as [v|]; [|done]. cbv zeta.
  set (w := to_str _). apply eq_true_iff_eq.
  rewrite !orb_true_iff, !bool_decide_eq_true, !elem_of_cons, elem_of_nil. tauto.
Qed.

(** C27: the binds declared by the environment are exactly the names with a
    non-empty [HOST], each once and in byte order; every field of a bind is what
    its variable says (the last one when a variable is repeated): host, system_id
    and password, none of them empty, the others with their defaults when not
    set.  A port and a rate beyond their width keep their low bits only. *)
Theorem binds_from_env_ok env out :
  binds_from_env (YamlError := YamlError) env = Ok out ->
  StronglySorted str_lt (BindConfig.name <$> out) /\
  (forall n, n ∈ (BindConfig.name <$> out) <-> exists h, env_set env n "HOST" = Some h) /\
  (forall b, b ∈ out -> exists host system_id password,
     let n := BindConfig.name b in
     env_set env n "HOST" = Some host /\ env_set env n "SYSTEM_ID" = Some system_id /\
     env_set env n "PASSWORD" = Some password /\
     b = BindConfig.mk n host (wrap 16 (num_of (env_set env n "PORT") 2775)) system_id password
           (default "" (env_field env n "SYSTEM_TYPE"))
           (default "transceiver" (env_field env n "BIND_TYPE"))
           (wrap 32 (num_of (env_set env n "MAX_MPS") 0))
           (num_of (env_set env n "ENQUIRE_LINK_MS") 30000)
           (num_of (env_set env n "RESPONSE_MS") 30000)
           (if env_tls env n then Some (TlsConfig.mk "" "" None) else None)).
Proof.
  unfold binds_from_env. intros (Hs & Hin & Hall)%binds_of_ok.
  destruct (by_name_spec env [] ltac:(by repeat constructor)) as [[Hsort _] _].
  split; [by eapply StronglySorted_sublist|]. split.
  - intros n. split.
    + intros (b & -> & Hb)%list_elem_of_fmap. destruct (Hin _ Hb) as (fs & Hfs & E).
      apply bind_from_fields_ok in E as (h & ? & ? & Hh & _).
      rewrite (nonempty_env env _ _ _ Hfs) in Hh. eauto.
    + intros (h & Hh). destruct (env_set_group _ _ _ _ Hh) as (fs & Hfs).
      eapply Hall; [exact Hfs|]. by rewrite (nonempty_env env _ _ _ Hfs).
  - intros b Hb. destruct (Hin _ Hb) as (fs & Hfs & E).
    apply bind_from_fields_ok in E as (h & sid & pw & Hh & Hsys & Hpw & E).
    pose proof (fun f => nonempty_env env _ _ f Hfs) as Hne.
    rewrite Hne in Hh, Hsys, Hpw. rewrite !Hne in E.
    rewrite !(btree_get_env env _ _ _ Hfs), (tls_on_env env _ _ Hfs) in E. by exists h, sid, pw.
Qed.

(** C37: the only ways the environment is refused: a bind with a host but no
    system_id or no password, or a numeric field that is not an unsigned 64-bit
    decimal; the error names that bind, that field and the text found. *)
Theorem binds_from_env_err env e :
  binds_from_env (YamlError := YamlError) env = Err e ->
  exists n h, env_set env n "HOST" = Some h /\
    ((exists f, e = EnvBindMissing n f /\ (f = "SYSTEM_ID" \/ f = "PASSWORD") /\
                env_set env n f = None) \/
     (exists f v, e = EnvBindInvalid n f v /\ env_set env n f = Some v /\
                  parse_uint 64 (of_str v) = None /\
                  (f = "PORT" \/ f = "MAX_MPS" \/ f = "ENQUIRE_LINK_MS" \/ f = "RESPONSE_MS"))).
Proof.
  assert (forall name fields f d, parse_u (YamlError := YamlError) name fields f d = Err e ->
            exists v, e = EnvBindInvalid name f v /\ nonempty fields f = Some v /\
                      parse_uint 64 (of_str v) = None) as Hparse.
  { intros name fields f d. unfold parse_u. destruct (nonempty fields f) as [v|]; [|done].
    intros [? ->]%ok_or_err. eauto. }
  assert (forall groups, binds_of (YamlError := YamlError) groups = Err e ->
            exists n fields, (n, fields) ∈ groups /\
                             bind_from_fields (YamlError := YamlError) n fields = Err e) as Hgroup.
  { induction groups as [|[n fields] groups IH]; cbn [binds_of]; [done|].
    intros [Hb|(b & _ & [Hr|(? & _ & ?)]%result_bind_err)]%result_bind_err; [|..|done].
    - exists n, fields. split; [left|done].
    - destruct (IH Hr) as (n' & fs & ? & ?). exists n', fs. split; [by right|done]. }
  unfold binds_from_env. intros (n & fields & Hin & Hb)%Hgroup.
  pose proof (nonempty_env env n fields) as Hne. unfold bind_from_fields in Hb.
  destruct (nonempty fields "HOST") as [h|] eqn:Hh; [|done].
  exists n, h. split; [by rewrite <-(Hne _ Hin)|].
  repeat (apply result_bind_err in Hb as [Hb|(? & _ & Hb)]); try done.
  all: try (right; apply Hparse in Hb as (v & -> & Hv & Hp); rewrite (Hne _ Hin) in Hv;
            eexists _, v; repeat split; eauto; fail).
  all: left; unfold require in Hb; apply ok_or_err in Hb as [Hn ->]; rewrite (Hne _ Hin) in Hn; eauto 6.
Qed.

(** C38: the environment overrides the file and nothing else does: the rate cap by
    a valid [SMPP_SERVER_MAX_MPS] (an invalid one is ignored), the throttle action
    by [pace] or [reject] in any letter case, the default chain by
    [SMPP_DEFAULT_CHAIN] (its parts between commas, trimmed, the empty ones left
    out), and the environment's binds follow the file's; every other field of the configuration is the file's. *)
Theorem from_file_overrides `{!UnicodeLowerLaws} from_yaml raw path env cfg :
  from_file (YamlError := YamlError) from_yaml (Some raw) path env = Ok cfg ->
  exists yaml more action,
    from_yaml (expand_env_vars env raw) = Ok yaml /\
    binds_from_env (YamlError := YamlError) env = Ok more /\
    let server := SmppConfig.server yaml in
    (forall v, env_var env "SMPP_SERVER_THROTTLE_ACTION" = Some v ->
       forallb is_ascii (trim (of_str v)) = true ->
       action =
         if bool_decide (to_ascii_lowercase (trim (of_str v)) = of_str "pace") then Pace
         else if bool_decide (to_ascii_lowercase (trim (of_str v)) = of_str "reject") then Reject
         else ServerConfig.throttle_action server) /\
    (env_var env "SMPP_SERVER_THROTTLE_ACTION" = None ->
       action = ServerConfig.throttle_action server) /\
    cfg = SmppConfig.mk
      (ServerConfig.mk (ServerConfig.bind_address server) (ServerConfig.port server)
         (ServerConfig.session_init_timer_ms server) (ServerConfig.enquire_link_timer_ms server)
         (ServerConfig.inactivity_timer_ms server) (ServerConfig.response_timer_ms server)
         (default (ServerConfig.max_msg_per_sec server)
            (v ← env_var env "SMPP_SERVER_MAX_MPS"; parse_uint 32 (trim (of_str v))))
         action (ServerConfig.tls server))
      (SmppConfig.binds yaml ++ more)
      (RoutingConfig.mk
         (match env_var env "SMPP_DEFAULT_CHAIN" with
          | Some v => to_str <$> List.filter (fun s => negb (bool_decide (s = [])))
                        (trim <$> split_on (byte_of_Z 44) (of_str v))
          | None => RoutingConfig.default_chain (SmppConfig.routing yaml)
          end)
         (RoutingConfig.rules (SmppConfig.routing yaml)))
      (SmppConfig.bind_address yaml) (SmppConfig.port yaml).
Proof.
  unfold from_file. cbn [ok_or]. intros (raw' & [= <-] & (yaml & Hy & (more & Hm & [= <-]
    )%result_bind_ok)%result_bind_ok)%result_bind_ok.
  assert (forall v b, forallb is_ascii (trim (of_str v)) = true ->
    bool_decide (to_str (to_lowercase (trim (of_str v))) = b) =
    bool_decide (to_ascii_lowercase (trim (of_str v)) = of_str b)) as Hl.
  { intros v b Ha. rewrite to_lowercase_ascii by done. apply bool_decide_ext.
    split; [intros <-; by rewrite of_to_str|intros ->; apply to_of_str]. }
  assert (from_yaml (expand_env_vars env raw) = Ok yaml) as Hy' by (by destruct (from_yaml _); [injection Hy as <-|]).
  exists yaml, more, (ServerConfig.throttle_action (SmppConfig.server (apply_throttle_action env yaml))).
  split; [done|]. split; [done|]. clear Hy Hy' Hm. cbv zeta.
  destruct yaml as [[] bs [] ba po]. unfold apply_throttle_action, apply_max_mps, apply_chain.
  destruct (env_var env "SMPP_DEFAULT_CHAIN") as [chain|],
    (env_var env "SMPP_SERVER_MAX_MPS") as [mps|]; cbn [mbind option_bind];
    try destruct (parse_uint 32 (trim (of_str mps))) as [n|];
    (destruct (env_var env "SMPP_SERVER_THROTTLE_ACTION") as [act|]; [|by repeat split]);
    repeat case_bool_decide; repeat split; try done; intros v [= <-] Ha;
    rewrite <-!Hl by done; repeat case_bool_decide; done.
Qed.

End EnvTheorems.

(** ** Concrete configurations *)

Module ConfigExample.

(** [str::to_lowercase] on ASCII text; these environments hold no other. *)
#[local] Instance lower : UnicodeLower := to_ascii_lowercase.
#[local] Instance lower_laws : UnicodeLowerLaws.
Proof. done. Qed.

Definition env : Env :=
  [("PATH", "/bin");
   ("SMPP_BIND_EU_HOST", "smsc.example");
   ("SMPP_BIND_EU_SYSTEM_ID", "acme");
   ("SMPP_BIND_AU_HOST", "au.example");
   ("SMPP_BIND_EU_PASSWORD", "secret");
   ("SMPP_BIND_AU_SYSTEM_ID", "acme");
   ("SMPP_BIND_AU_PASSWORD", "hush");
   ("SMPP_BIND_AU_PORT", "2776");
   ("SMPP_BIND_IDLE_HOST", "");
   ("SMPP_SERVER_MAX_MPS", " 50 ");
   ("SMPP_SERVER_THROTTLE_ACTION", "Reject");
   ("SMPP_DEFAULT_CHAIN", "bind:eu, ims,,")].

Definition bind (name host pw : string) (port : Z) : BindConfig.t :=
  BindConfig.mk name host port "acme" pw "" "transceiver" 0 30000 30000 None.

Definition from_yaml (_ : bytes) : result string SmppConfig.t :=
  Ok (SmppConfig.mk ServerConfig.default [] (RoutingConfig.mk ["queue"] []) None (Some 2780)).

Lemma binds_from_env_example :
  binds_from_env (YamlError := string) env
  = Ok [bind "au" "au.example" "hush" 2776; bind "eu" "smsc.example" "secret" 2775].
Proof. vm_compute. reflexivity. Qed.

Lemma binds_from_env_ok_witness :
  env_set env "au" "HOST" = Some "au.example" /\
  "eu" ∈ [BindConfig.name (bind "au" "au.example" "hush" 2776);
          BindConfig.name (bind "eu" "smsc.example" "secret" 2775)].
Proof.
  destruct (binds_from_env_ok env _ binds_from_env_example) as (_ & Hn & Hb). split.
  - destruct (Hb (bind "au" "au.example" "hush" 2776)) as (h & sid & pw & Hh & _ & _ & E);
      [apply elem_of_cons; left; reflexivity|].
    injection E as E _ _. rewrite E. exact Hh.
  - apply Hn. exists "smsc.example". vm_compute. reflexivity.
Defined.

Definition bad_env : Env := [("SMPP_BIND_EU_HOST", "h"); ("SMPP_BIND_EU_PORT", "-1")].

Lemma bad_port :
  binds_from_env (YamlError := string) bad_env = Err (EnvBindInvalid "eu" "PORT" "-1").
Proof. vm_compute. reflexivity. Qed.

Lemma binds_from_env_err_witness : exists n h, env_set bad_env n "HOST" = Some h.
Proof.
  destruct (binds_from_env_err bad_env _ bad_port) as (n & h & Hh & _). exists n, h. exact Hh.
Defined.

Lemma from_file_example :
  from_file (YamlError := string) from_yaml (Some []) "smpp.yaml" env
  = Ok (SmppConfig.mk
          (ServerConfig.mk None None 0 0 0 0 50 Reject None)
          [bind "au" "au.example" "hush" 2776; bind "eu" "smsc.example" "secret" 2775]
          (RoutingConfig.mk ["bind:eu"; "ims"] []) None (Some 2780)).
Proof. vm_compute. reflexivity. Qed.

Lemma from_file_overrides_witness :
  exists yaml, from_yaml [] = Ok yaml /\ SmppConfig.binds yaml = [].
Proof.
  destruct (from_file_overrides from_yaml [] "smpp.yaml" env _ from_file_example)
    as (yaml & more & action & Hy & _).
  exists yaml. split; [exact Hy|]. injection Hy as <-. reflexivity.
Defined.

(** A port or a rate beyond its width is not refused: [as u16] and [as u32]
    keep its low bits, so this bind is unlimited and dials port 1. *)
Example oversized_fields_wrap :
  binds_from_env (YamlError := string)
    [("SMPP_BIND_EU_HOST", "h"); ("SMPP_BIND_EU_PORT", "65537");
     ("SMPP_BIND_EU_MAX_MPS", "4294967296"); ("SMPP_BIND_EU_SYSTEM_ID", "acme");
     ("SMPP_BIND_EU_PASSWORD", "p")]
  = Ok [bind "eu" "h" "p" 1].
Proof. vm_compute. reflexivity. Qed.

(** A name with a hyphen cannot be spelled with an underscore. *)
Example hyphenated_name_ignored :
  binds_from_env (YamlError := string)
    [("SMPP_BIND_AGGREGATOR_EU_HOST", "h"); ("SMPP_BIND_AGGREGATOR_EU_SYSTEM_ID", "acme");
     ("SMPP_BIND_AGGREGATOR_EU_PASSWORD", "p")] = Ok [].
Proof. vm_compute. reflexivity. Qed.

End ConfigExample.
