(* ===== verification/Yaml.v ===== *)
(** * Loading the configuration file: [config.rs]'s [Deserialize]s

    How a YAML document becomes an [SmppConfig].  The sources declare it: the
    fields of each struct with their attributes ([default], [deserialize_with],
    [Option]), the variants of an enum, and one hand-written visitor, that of
    [OptionValue].  What those declarations make of a document is the code serde
    derives and the YAML library runs, neither of which is in the sources: it is
    the class [Serde], whose laws say of each declaration which documents it
    accepts and what it reads there.  The theorem [yaml_loads] is the resulting
    table of the file: every key, its type and its default. *)

From stdpp Require Import pretty.
From S2P Require Import Prelude RustStr Effects Config.
#[local] Open Scope Z_scope.

(** What [deserialize_any] shows a visitor; a float is its text. *)
#[local] Unset Elimination Schemes.
Inductive Any : Set :=
| AnyUnit
| AnyNone
| AnySome (a : Any)
| AnyBool (b : bool)
| AnyI64 (z : Z)
| AnyU64 (z : Z)
| AnyF64 (text : string)
| AnyStr (s : string)
| AnyString (s : string)
| AnySeq (items : list Any)
| AnyMap (entries : list (Any * Any)).
#[local] Set Elimination Schemes.

(** ** The library *)

(** The declaration of a struct: its fields in order, with the decoder of each and
    what an absent one is ([None] for a required field); [F] is what is left of the
    constructor, [A] the struct. *)
Inductive fields (decoder : Type -> Type) : Type -> Type -> Type :=
| no_more A : fields decoder A A
| with_field B F A (name : string) (dec : decoder B) (absent : option B) (rest : fields decoder F A)
    : fields decoder (B -> F) A.
Arguments no_more {decoder A}.
Arguments with_field {decoder B F A} name dec absent rest.

Definition required {decoder B F A} (name : string) (dec : decoder B) (rest : fields decoder F A) :=
  with_field name dec None rest.
Definition defaulting {decoder B F A} (d : B) (name : string) (dec : decoder B)
    (rest : fields decoder F A) := with_field name dec (Some d) rest.

Class Serde : Type := {
  node : Type;
  failure : Type;
  (** The leaves; an unsigned integer has a width. *)
  de_string : node -> result failure string;
  de_uint : Z -> node -> result failure Z;
  de_any : node -> result failure Any;
  (** [Option<T>], [Vec<T>] and [BTreeMap<String, T>]. *)
  de_option {A} : (node -> result failure A) -> node -> result failure (option A);
  de_vec {A} : (node -> result failure A) -> node -> result failure (list A);
  de_map {A} : (node -> result failure A) -> node -> result failure (list (string * A));
  (** [#[derive(Deserialize)]] of an enum without data, and of a struct. *)
  de_enum {A} : list (string * A) -> node -> result failure A;
  de_struct {F A} : fields (fun B => node -> result failure B) F A -> F -> node -> result failure A;
  (** [serde_path_to_error::deserialize]: the key path of a failure, and itself. *)
  tracked {A} : (node -> result failure A) -> node -> result (string * failure) A;
  (** The documents: a null; a sequence's items; a mapping's entries, in document
      order; the name of a unit variant. *)
  is_null : node -> bool;
  items : node -> option (list node);
  entries : node -> option (list (string * node));
  variant : node -> option string;
}.

Abbreviation decoder A := (node -> result failure A).

Definition assoc {A} (k : string) (l : list (string * A)) : option A :=
  snd <$> iter_find (fun row => bool_decide (row.1 = k)) l.

(** A mapping has none of these keys twice. *)
Definition once {A} (names : list string) (es : list (string * A)) : Prop :=
  NoDup (List.filter (fun k => bool_decide (k ∈ names)) es.*1).

Section Reading.
Context `{Serde}.

(** The value of a key, read by [reads], or what an absent key is. *)
Definition keyed {A} (es : list (string * node)) (k : string) (reads : node -> A -> Prop)
    (absent : option A) (a : A) : Prop :=
  match assoc k es with Some n => reads n a | None => absent = Some a end.

Definition reads_as {A} (dec : decoder A) (n : node) (a : A) : Prop := dec n = Ok a.

Fixpoint names {F A} (fs : fields (fun B => decoder B) F A) : list string :=
  match fs with
  | no_more => []
  | with_field name _ _ rest => name :: names rest
  end.

(** The entries [es] give each field its value. *)
Fixpoint filled {F A} (fs : fields (fun B => decoder B) F A) (es : list (string * node)) : F -> A -> Prop :=
  match fs in fields _ F A return F -> A -> Prop with
  | no_more => fun mk a => a = mk
  | with_field name dec absent rest => fun mk a =>
      exists b, keyed es name (reads_as dec) absent b /\ filled rest es (mk b) a
  end.

(** [Option], a sequence, a mapping, by what reads their parts; of a key that is
    there twice a map keeps the last. *)
Definition opt {A} (reads : node -> A -> Prop) (n : node) (o : option A) : Prop :=
  if is_null n then o = None else exists a, reads n a /\ o = Some a.
Definition each {A} (reads : node -> A -> Prop) (n : node) (l : list A) : Prop :=
  exists ns, items n = Some ns /\ Forall2 reads ns l.
Definition collect {A} (rows : list (string * A)) : list (string * A) :=
  fold_left (fun m row => btree_update row.1 (fun _ => row.2) m) rows [].
Definition map_of {A} (reads : node -> A -> Prop) (n : node) (m : list (string * A)) : Prop :=
  exists es rows, entries n = Some es /\
    Forall2 (fun e row => row.1 = e.1 /\ reads e.2 row.2) es rows /\ m = collect rows.

End Reading.

(** What the derived code accepts and reads, as serde documents it: an unknown key
    is skipped, a known one twice is refused, an absent one is its default or an
    error. *)
Class SerdeLaws `{Serde} : Prop := {
  law_uint w n z : de_uint w n = Ok z -> fits w z = true;
  law_option {A} (dec : decoder A) n o : de_option dec n = Ok o <-> opt (reads_as dec) n o;
  law_vec {A} (dec : decoder A) n l : de_vec dec n = Ok l <-> each (reads_as dec) n l;
  law_map {A} (dec : decoder A) n m : de_map dec n = Ok m <-> map_of (reads_as dec) n m;
  law_enum {A} (variants : list (string * A)) n a :
    de_enum variants n = Ok a <-> exists v, variant n = Some v /\ assoc v variants = Some a;
  law_struct {F A} (fs : fields (fun B => decoder B) F A) mk n a :
    de_struct fs mk n = Ok a <->
    exists es, entries n = Some es /\ once (names fs) es /\ filled fs es mk a;
  law_tracked {A} (dec : decoder A) n a : tracked dec n = Ok a <-> dec n = Ok a;
}.

(** ** [OptionValue] *)

(** The visitor: [visit_some] goes on with the inner value, [visit_seq] and
    [visit_map] keep the order. *)
Fixpoint option_value (a : Any) : OptionValue :=
  match a with
  | AnyUnit => OptNull
  | AnyNone => OptNull
  | AnySome a => option_value a
  | AnyBool b => OptBool b
  | AnyI64 z => OptInt z
  | AnyU64 z => OptUInt z
  | AnyF64 t => OptFloat t
  | AnyStr s => OptString s
  | AnyString s => OptString s
  | AnySeq items => OptSeq (option_value <$> items)
  | AnyMap entries => OptMap ((fun row => (option_value row.1, option_value row.2)) <$> entries)
  end.

(** [Serialize]: the serializer's calls. *)
Fixpoint serialize (v : OptionValue) : Any :=
  match v with
  | OptNull => AnyUnit
  | OptBool b => AnyBool b
  | OptInt z => AnyI64 z
  | OptUInt z => AnyU64 z
  | OptFloat t => AnyF64 t
  | OptString s => AnyStr s
  | OptSeq items => AnySeq (serialize <$> items)
  | OptMap entries => AnyMap ((fun row => (serialize row.1, serialize row.2)) <$> entries)
  end.

(** A value without the wrappers a format may put around it: [Some], an owned
    string, an explicit [None]. *)
Fixpoint plain (a : Any) : Any :=
  match a with
  | AnyNone => AnyUnit
  | AnySome a => plain a
  | AnyString s => AnyStr s
  | AnySeq items => AnySeq (plain <$> items)
  | AnyMap entries => AnyMap ((fun row => (plain row.1, plain row.2)) <$> entries)
  | a => a
  end.


Section Load.
Context `{Serde}.

(** ** The declarations *)

Definition string_or_null_de : decoder string := fun n => string_or_null <$> de_option de_string n.
Definition strings_or_null_de : decoder (list string) := fun n =>
  strings_or_null <$> de_vec (de_option de_string) n.

Definition TlsConfig_de : decoder TlsConfig.t :=
  de_struct
    (required "cert_path" string_or_null_de
    (required "key_path" string_or_null_de
    (defaulting None "ca_path" (de_option de_string)
     no_more)))
    TlsConfig.mk.

Definition ThrottleAction_de : decoder ThrottleAction := de_enum [("pace", Pace); ("reject", Reject)].

Definition ServerConfig_de : decoder ServerConfig.t :=
  de_struct
    (defaulting None "bind_address" (de_option de_string)
    (defaulting None "port" (de_option (de_uint 16))
    (defaulting default_session_init "session_init_timer_ms" (de_uint 64)
    (defaulting default_enquire_link "enquire_link_timer_ms" (de_uint 64)
    (defaulting default_inactivity "inactivity_timer_ms" (de_uint 64)
    (defaulting default_response "response_timer_ms" (de_uint 64)
    (defaulting 0 "max_msg_per_sec" (de_uint 32)
    (defaulting Pace "throttle_action" ThrottleAction_de
    (defaulting None "tls" (de_option TlsConfig_de)
     no_more)))))))))
    ServerConfig.mk.

Definition BindConfig_de : decoder BindConfig.t :=
  de_struct
    (required "name" string_or_null_de
    (required "host" string_or_null_de
    (required "port" (de_uint 16)
    (required "system_id" string_or_null_de
    (required "password" string_or_null_de
    (defaulting "" "system_type" string_or_null_de
    (defaulting default_bind_type "bind_type" string_or_null_de
    (defaulting 0 "max_msg_per_sec" (de_uint 32)
    (defaulting default_enquire_link "enquire_link_timer_ms" (de_uint 64)
    (defaulting default_response "response_timer_ms" (de_uint 64)
    (defaulting None "tls" (de_option TlsConfig_de)
     no_more)))))))))))
    BindConfig.mk.

Definition OptionValue_de : decoder OptionValue := fun n => option_value <$> de_any n.

Definition RoutingRule_de : decoder RoutingRule.t :=
  de_struct
    (required "prefix" string_or_null_de
    (required "chain" strings_or_null_de
    (defaulting "" "name" string_or_null_de
    (defaulting [] "options" (de_map OptionValue_de)
     no_more))))
    RoutingRule.mk.

Definition RoutingConfig_de : decoder RoutingConfig.t :=
  de_struct
    (defaulting [] "default_chain" strings_or_null_de
    (defaulting [] "rules" (de_vec RoutingRule_de)
     no_more))
    RoutingConfig.mk.

Definition SmppConfig_de : decoder SmppConfig.t :=
  de_struct
    (defaulting ServerConfig.default "server" ServerConfig_de
    (defaulting [] "binds" (de_vec BindConfig_de)
    (defaulting (RoutingConfig.mk [] []) "routing" RoutingConfig_de
    (defaulting None "bind_address" (de_option de_string)
    (defaulting None "port" (de_option (de_uint 16))
     no_more)))))
    SmppConfig.mk.

Record YamlError : Type := mkYamlError { key_path : string; source : failure }.

(** [SmppConfig::from_yaml]: [parse] is the library's reading of the text.  An
    error before any value is looked at has no key path. *)
Definition from_yaml (parse : bytes -> result failure node) (yaml : bytes) : result YamlError SmppConfig.t :=
  match parse yaml with
  | Err source => Err (mkYamlError "" source)
  | Ok n =>
      match tracked SmppConfig_de n with
      | Err (key_path, source) => Err (mkYamlError key_path source)
      | Ok config => Ok config
      end
  end.

(** [Display] of a [YamlError]: the key path, [.] for the root, then the library's
    text. *)
Definition YamlError_text (key_path source : string) : string :=
  if String.eqb key_path "" || String.eqb key_path "." then source
  else key_path +:+ ": " +:+ source.

(** ** The table of the file *)

(** A string, empty for an empty value; a list of them; a number. *)
Definition text (n : node) (s : string) : Prop :=
  exists o, opt (reads_as de_string) n o /\ s = default "" o.
Definition texts (n : node) (l : list string) : Prop := each text n l.
Definition number (w : Z) (n : node) (z : Z) : Prop := de_uint w n = Ok z.

Definition tls_reads (n : node) (t : TlsConfig.t) : Prop :=
  exists es, entries n = Some es /\ once ["cert_path"; "key_path"; "ca_path"] es /\
    keyed es "cert_path" text None (TlsConfig.cert_path t) /\
    keyed es "key_path" text None (TlsConfig.key_path t) /\
    keyed es "ca_path" (opt (reads_as de_string)) (Some None) (TlsConfig.ca_path t).

Definition action_reads (n : node) (a : ThrottleAction) : Prop :=
  variant n = Some "pace" /\ a = Pace \/ variant n = Some "reject" /\ a = Reject.

Definition server_reads (n : node) (s : ServerConfig.t) : Prop :=
  exists es, entries n = Some es /\
    once ["bind_address"; "port"; "session_init_timer_ms"; "enquire_link_timer_ms";
          "inactivity_timer_ms"; "response_timer_ms"; "max_msg_per_sec"; "throttle_action"; "tls"] es /\
    keyed es "bind_address" (opt (reads_as de_string)) (Some None) (ServerConfig.bind_address s) /\
    keyed es "port" (opt (number 16)) (Some None) (ServerConfig.port s) /\
    keyed es "session_init_timer_ms" (number 64) (Some 5000) (ServerConfig.session_init_timer_ms s) /\
    keyed es "enquire_link_timer_ms" (number 64) (Some 30000) (ServerConfig.enquire_link_timer_ms s) /\
    keyed es "inactivity_timer_ms" (number 64) (Some 300000) (ServerConfig.inactivity_timer_ms s) /\
    keyed es "response_timer_ms" (number 64) (Some 30000) (ServerConfig.response_timer_ms s) /\
    keyed es "max_msg_per_sec" (number 32) (Some 0) (ServerConfig.max_msg_per_sec s) /\
    keyed es "throttle_action" action_reads (Some Pace) (ServerConfig.throttle_action s) /\
    keyed es "tls" (opt tls_reads) (Some None) (ServerConfig.tls s).

Definition bind_reads (n : node) (b : BindConfig.t) : Prop :=
  exists es, entries n = Some es /\
    once ["name"; "host"; "port"; "system_id"; "password"; "system_type"; "bind_type";
          "max_msg_per_sec"; "enquire_link_timer_ms"; "response_timer_ms"; "tls"] es /\
    keyed es "name" text None (BindConfig.name b) /\
    keyed es "host" text None (BindConfig.host b) /\
    keyed es "port" (number 16) None (BindConfig.port b) /\
    keyed es "system_id" text None (BindConfig.system_id b) /\
    keyed es "password" text None (BindConfig.password b) /\
    keyed es "system_type" text (Some "") (BindConfig.system_type b) /\
    keyed es "bind_type" text (Some "transceiver") (BindConfig.bind_type b) /\
    keyed es "max_msg_per_sec" (number 32) (Some 0) (BindConfig.max_msg_per_sec b) /\
    keyed es "enquire_link_timer_ms" (number 64) (Some 30000) (BindConfig.enquire_link_timer_ms b) /\
    keyed es "response_timer_ms" (number 64) (Some 30000) (BindConfig.response_timer_ms b) /\
    keyed es "tls" (opt tls_reads) (Some None) (BindConfig.tls b).

(** A rule's options are kept as whatever value they have. *)
Definition option_reads (n : node) (v : OptionValue) : Prop :=
  exists a, de_any n = Ok a /\ v = option_value a.

Definition rule_reads (n : node) (r : RoutingRule.t) : Prop :=
  exists es, entries n = Some es /\ once ["prefix"; "chain"; "name"; "options"] es /\
    keyed es "prefix" text None (RoutingRule.prefix r) /\
    keyed es "chain" texts None (RoutingRule.chain r) /\
    keyed es "name" text (Some "") (RoutingRule.name r) /\
    keyed es "options" (map_of option_reads) (Some []) (RoutingRule.options r).

Definition routing_reads (n : node) (r : RoutingConfig.t) : Prop :=
  exists es, entries n = Some es /\ once ["default_chain"; "rules"] es /\
    keyed es "default_chain" texts (Some []) (RoutingConfig.default_chain r) /\
    keyed es "rules" (each rule_reads) (Some []) (RoutingConfig.rules r).

Definition config_reads (n : node) (c : SmppConfig.t) : Prop :=
  exists es, entries n = Some es /\ once ["server"; "binds"; "routing"; "bind_address"; "port"] es /\
    keyed es "server" server_reads (Some (ServerConfig.mk None None 0 0 0 0 0 Pace None))
      (SmppConfig.server c) /\
    keyed es "binds" (each bind_reads) (Some []) (SmppConfig.binds c) /\
    keyed es "routing" routing_reads (Some (RoutingConfig.mk [] [])) (SmppConfig.routing c) /\
    keyed es "bind_address" (opt (reads_as de_string)) (Some None) (SmppConfig.bind_address c) /\
    keyed es "port" (opt (number 16)) (Some None) (SmppConfig.port c).

(** ** The declarations make that table *)

Context `{!SerdeLaws}.

(** [dec] accepts what [reads] says, and reads it so. *)
Definition implements {A} (dec : decoder A) (reads : node -> A -> Prop) : Prop :=
  forall n a, dec n = Ok a <-> reads n a.

Lemma implements_same {A} (dec : decoder A) : implements dec (reads_as dec).
Proof. done. Qed.

Lemma opt_iff {A} (R R' : node -> A -> Prop) n o :
  (forall m a, R m a <-> R' m a) -> opt R n o <-> opt R' n o.
Proof. intros HR. unfold opt. destruct (is_null n); [done|]. by setoid_rewrite HR. Qed.

Lemma implements_option {A} (dec : decoder A) R : implements dec R -> implements (de_option dec) (opt R).
Proof. intros Hd n o. rewrite law_option. by apply opt_iff. Qed.

Lemma implements_vec {A} (dec : decoder A) R : implements dec R -> implements (de_vec dec) (each R).
Proof.
  intros Hd n l. rewrite law_vec. split; intros (ns & Hn & Hl); exists ns; (split; [exact Hn|]);
    eapply Forall2_impl; try exact Hl; intros m a; apply Hd.
Qed.

Lemma implements_map {A} (dec : decoder A) R : implements dec R -> implements (de_map dec) (map_of R).
Proof.
  intros Hd n m. rewrite law_map. split; intros (es & rows & Hn & Hl & ->); exists es, rows;
    (split; [exact Hn|split; [|done]]); eapply Forall2_impl; try exact Hl;
    intros e row [? ?]; (split; [done|]); by apply Hd.
Qed.

Lemma fmap_ok {E A B} (g : A -> B) (r : result E A) b : g <$> r = Ok b <-> exists a, r = Ok a /\ b = g a.
Proof. destruct r; cbn; naive_solver. Qed.

Lemma implements_text : implements string_or_null_de text.
Proof.
  intros n s. unfold string_or_null_de, text. rewrite fmap_ok.
  split; intros (o & Ho & ->); exists o; (split; [by apply law_option|by destruct o]).
Qed.

Lemma implements_texts : implements strings_or_null_de texts.
Proof.
  intros n l. unfold strings_or_null_de, texts, each. rewrite fmap_ok. split.
  - intros (os & (ns & Hn & Hl)%law_vec & ->). exists ns. split; [done|]. unfold strings_or_null.
    apply Forall2_fmap_r. eapply Forall2_impl; [|exact Hl]. intros m o Ho%law_option. by exists o.
  - intros (ns & Hn & Hl).
    assert (exists os, Forall2 (reads_as (de_option de_string)) ns os /\ l = default "" <$> os) as (os & Hos & ->).
    { clear Hn. induction Hl as [|m s ns l (o & Ho & ->) _ (os & Hos & ->)]; [by exists []|].
      exists (o :: os). split; [|done]. constructor; [|done]. by apply law_option. }
    exists os. split; [|done]. apply law_vec. by exists ns.
Qed.

Lemma implements_action : implements ThrottleAction_de action_reads.
Proof.
  intros n a. unfold ThrottleAction_de, action_reads. rewrite law_enum. unfold assoc, iter_find. split.
  - intros (v & Hv & Ha). cbn [fst] in Ha. case_bool_decide as E1; [|case_bool_decide as E2]; [| |done].
    + left. cbn in *. subst v. split; [done|]. congruence.
    + right. cbn in *. subst v. split; [done|]. congruence.
  - by intros [[Hv ->]|[Hv ->]]; eexists.
Qed.

Lemma implements_option_value : implements OptionValue_de option_reads.
Proof. intros n v. unfold OptionValue_de, option_reads. by rewrite fmap_ok. Qed.

Lemma keyed_elim {A} (dec : decoder A) R es k absent a :
  keyed es k (reads_as dec) absent a -> implements dec R -> keyed es k R absent a.
Proof. intros Hk Hd. unfold keyed in *. destruct (assoc k es); [by apply Hd|done]. Qed.

Lemma keyed_intro {A} (dec : decoder A) R es k absent a :
  keyed es k R absent a -> implements dec R -> keyed es k (reads_as dec) absent a.
Proof. intros Hk Hd. unfold keyed in *. destruct (assoc k es); [by apply Hd|done]. Qed.

Create HintDb implements.
#[local] Hint Resolve implements_same implements_option implements_vec implements_map implements_text
  implements_texts implements_action implements_option_value : implements.

(** A struct against its table, key by key. *)
Ltac implement_struct :=
  intros n a; rewrite law_struct;
  split; intros (es & He & Ho & Hf); exists es; (split; [exact He|]); (split; [exact Ho|]);
  [cbn [filled required defaulting] in Hf; repeat (destruct Hf as (? & ? & Hf)); subst a;
   repeat split; (eapply keyed_elim; [eassumption|]); auto with implements
  |destruct a; cbn in Hf; decompose [and] Hf; clear Hf; cbn [filled required defaulting];
   repeat (eexists; split; [eapply keyed_intro; [eassumption|auto with implements]|]); reflexivity].

Lemma implements_tls : implements TlsConfig_de tls_reads.
Proof. unfold TlsConfig_de. implement_struct. Qed.
#[local] Hint Resolve implements_tls : implements.

Lemma implements_number w : implements (de_uint w) (number w).
Proof. done. Qed.
#[local] Hint Resolve implements_number : implements.

Lemma implements_server : implements ServerConfig_de server_reads.
Proof. unfold ServerConfig_de. implement_struct. Qed.
Lemma implements_bind : implements BindConfig_de bind_reads.
Proof. unfold BindConfig_de. implement_struct. Qed.
Lemma implements_rule : implements RoutingRule_de rule_reads.
Proof. unfold RoutingRule_de. implement_struct. Qed.
#[local] Hint Resolve implements_server implements_bind implements_rule : implements.

Lemma implements_routing : implements RoutingConfig_de routing_reads.
Proof. unfold RoutingConfig_de. implement_struct. Qed.
#[local] Hint Resolve implements_routing : implements.

Lemma implements_config : implements SmppConfig_de config_reads.
Proof. unfold SmppConfig_de. implement_struct. Qed.

(** C25: which documents load, and as what.  A file loads exactly when its text parses
    and the document is the table [config_reads]: under each key a value of the
    type the key has, read as the documentation of the file says (an empty string
    field as the empty string, an action as [pace] or [reject], a list item by
    item, an option as whatever it is), an absent key at its default and a
    mandatory one present, no known key twice, and unknown keys of no effect; and
    then the configuration is what the table says and nothing else. *)
Theorem yaml_loads parse yaml config :
  from_yaml parse yaml = Ok config <-> exists n, parse yaml = Ok n /\ config_reads n config.
Proof.
  unfold from_yaml. split.
  - destruct (parse yaml) as [n|e]; [|done]. intros Hc. exists n. split; [done|].
    apply implements_config, law_tracked. destruct (tracked SmppConfig_de n) as [c|[p e]]; congruence.
  - intros (n & -> & Hc%implements_config%law_tracked). by rewrite Hc.
Qed.

(** ** What loads is well typed *)

Definition fits_opt (w : Z) (o : option Z) : bool :=
  match o with Some z => fits w z | None => true end.

(** Every integer field is in the range of its Rust type. *)
Record server_typed (s : ServerConfig.t) : Prop := {
  st_port : fits_opt 16 (ServerConfig.port s) = true;
  st_session_init : fits 64 (ServerConfig.session_init_timer_ms s) = true;
  st_enquire_link : fits 64 (ServerConfig.enquire_link_timer_ms s) = true;
  st_inactivity : fits 64 (ServerConfig.inactivity_timer_ms s) = true;
  st_response : fits 64 (ServerConfig.response_timer_ms s) = true;
  st_max : fits 32 (ServerConfig.max_msg_per_sec s) = true;
}.

Record bind_typed (b : BindConfig.t) : Prop := {
  bt_port : fits 16 (BindConfig.port b) = true;
  bt_max : fits 32 (BindConfig.max_msg_per_sec b) = true;
  bt_enquire_link : fits 64 (BindConfig.enquire_link_timer_ms b) = true;
  bt_response : fits 64 (BindConfig.response_timer_ms b) = true;
}.

Record config_typed (c : SmppConfig.t) : Prop := {
  ct_server : server_typed (SmppConfig.server c);
  ct_binds : Forall bind_typed (SmppConfig.binds c);
  ct_port : fits_opt 16 (SmppConfig.port c) = true;
}.

Lemma keyed_gives {A} (P : A -> Prop) es k (R : node -> A -> Prop) absent a :
  keyed es k R absent a -> (forall n a, R n a -> P a) -> (forall d, absent = Some d -> P d) -> P a.
Proof. unfold keyed. destruct (assoc k es); naive_solver. Qed.

Lemma opt_fits w n o : opt (number w) n o -> fits_opt w o = true.
Proof. unfold opt. destruct (is_null n); [by intros ->|]. intros (z & Hz & ->). by apply (law_uint w) in Hz. Qed.

Lemma each_gives {A} (P : A -> Prop) (R : node -> A -> Prop) n l :
  (forall m a, R m a -> P a) -> each R n l -> Forall P l.
Proof. intros HR (ns & _ & Hl). induction Hl; constructor; eauto. Qed.

(** A key whose readings are in range, its default included. *)
Ltac typed_key :=
  match goal with
  | Hk : keyed _ _ _ _ ?a |- context [?a] =>
      pattern a; eapply keyed_gives; [exact Hk| |];
      [intros ? ? ?; first [by eapply law_uint|by eapply opt_fits]
      |intros ? ?; simplify_eq/=; reflexivity]
  end.

Lemma server_reads_typed n s : server_reads n s -> server_typed s.
Proof. intros (es & _ & _ & ?). destruct_and?. split; typed_key. Qed.

Lemma bind_reads_typed n b : bind_reads n b -> bind_typed b.
Proof. intros (es & _ & _ & ?). destruct_and?. split; typed_key. Qed.

Lemma config_reads_typed n c : config_reads n c -> config_typed c.
Proof.
  intros (es & _ & _ & Hs & Hb & _ & _ & Hp). split.
  - eapply (keyed_gives server_typed); [exact Hs|exact server_reads_typed|]. by intros ? [= <-].
  - eapply (keyed_gives (Forall bind_typed)); [exact Hb| |by intros ? [= <-]].
    intros m l. apply each_gives. exact bind_reads_typed.
  - typed_key.
Qed.

(** *** [from_file] keeps it *)

Context `{UnicodeLower}.

Lemma num_of_fits v d : fits 64 d = true -> fits 64 (num_of v d) = true.
Proof.
  intros Hd. unfold num_of. destruct v as [v|]; [|done].
  destruct (parse_uint 64 (of_str v)) as [z|] eqn:E; [|done]. by eapply parse_uint_fits; [|exact E].
Qed.

Lemma env_binds_typed env out :
  binds_from_env (YamlError := YamlError) env = Ok out -> Forall bind_typed out.
Proof.
  intros (_ & Hin & _)%binds_of_ok. apply list.Forall_forall. intros b Hb.
  destruct (Hin b Hb) as (fs & _ & (h & sid & pw & _ & _ & _ & ->)%bind_from_fields_ok).
  split; cbn -[fits wrap num_of]; first [by apply wrap_fits | by apply num_of_fits].
Qed.

Lemma apply_chain_typed env c : config_typed c -> config_typed (apply_chain env c).
Proof. intros [? ? ?]. unfold apply_chain. by destruct (env_var _ _). Qed.

Lemma apply_max_mps_typed env c : config_typed c -> config_typed (apply_max_mps env c).
Proof.
  intros [[] Hb Hp]. unfold apply_max_mps. destruct (env_var _ _) as [raw|]; [|done].
  destruct (parse_uint 32 _) as [z|] eqn:E; [|done]. apply parse_uint_fits in E; [|lia]. by repeat split.
Qed.

Lemma apply_throttle_action_typed env c : config_typed c -> config_typed (apply_throttle_action env c).
Proof.
  intros [[] Hb Hp]. unfold apply_throttle_action. destruct (env_var _ _) as [raw|]; [|done].
  cbv zeta. repeat case_bool_decide; by repeat split.
Qed.

(** A configuration that loads is well typed, whatever the file and the environment
    hold: every port is a [u16], every cap a [u32], every timer a [u64], on the
    server and on each bind, those of the environment included. *)
Theorem loaded_typed parse raw path env cfg :
  from_file (YamlError := YamlError) (from_yaml parse) (Some raw) path env = Ok cfg -> config_typed cfg.
Proof.
  unfold from_file. intros (r & [= <-] & (yaml & Hy & (more & Hm & [= <-])%result_bind_ok)%result_bind_ok)%result_bind_ok.
  destruct (from_yaml parse _) as [c|] eqn:E; [|done]. injection Hy as <-.
  assert (config_typed c) as [Hs Hb Hp].
  { revert E. unfold from_yaml. destruct (parse _) as [n|]; [|done].
    destruct (tracked SmppConfig_de n) as [c'|[]] eqn:E; [|done]. intros [= <-].
    by apply law_tracked, implements_config, config_reads_typed in E. }
  apply apply_throttle_action_typed, apply_max_mps_typed, apply_chain_typed.
  split; [exact Hs| |exact Hp]. apply list.Forall_app. split; [exact Hb|by eapply env_binds_typed].
Qed.

End Load.

(** ** A concrete library *)

Module YamlExample.

#[local] Unset Elimination Schemes.
Inductive doc : Set :=
| Null
| Num (z : Z)
| Str (s : string)
| Seq (items : list doc)
| Map (entries : list (string * doc)).
#[local] Set Elimination Schemes.

(** A failure: where, from the inside out, and what. *)
Inductive segment : Set :=
| Field (name : string)
| Index (i : nat).
Abbreviation at_fault := (list segment * string)%type.

Definition inside {A} (s : segment) (r : result at_fault A) : result at_fault A :=
  match r with Ok a => Ok a | Err (path, e) => Err (s :: path, e) end.

Fixpoint elements {A} (dec : doc -> result at_fault A) (i : nat) (l : list doc) : result at_fault (list A) :=
  match l with
  | [] => Ok []
  | n :: l =>
      a ← inside (Index i) (dec n);
      rest ← elements dec (S i) l;
      Ok (a :: rest)
  end.

Fixpoint values {A} (dec : doc -> result at_fault A) (l : list (string * doc))
    : result at_fault (list (string * A)) :=
  match l with
  | [] => Ok []
  | (k, n) :: l =>
      a ← inside (Field k) (dec n);
      rest ← values dec l;
      Ok ((k, a) :: rest)
  end.

Fixpoint fill {F A} (fs : fields (fun B => doc -> result at_fault B) F A) (es : list (string * doc))
    : F -> result at_fault A :=
  match fs in fields _ F A return F -> result at_fault A with
  | no_more => fun mk => Ok mk
  | with_field name dec absent rest => fun mk =>
      match assoc name es, absent with
      | Some n, _ => b ← inside (Field name) (dec n); fill rest es (mk b)
      | None, Some b => fill rest es (mk b)
      | None, None => Err ([], "missing field " +:+ name)
      end
  end.

Fixpoint field_names {F A} (fs : fields (fun B => doc -> result at_fault B) F A) : list string :=
  match fs with
  | no_more => []
  | with_field name _ _ rest => name :: field_names rest
  end.

(** [binds[1].port]; the root is [.]. *)
Fixpoint shown (path : list segment) : string :=
  match path with
  | [] => ""
  | Field name :: path => "." +:+ name +:+ shown path
  | Index i :: path => "[" +:+ pretty (Z.of_nat i) +:+ "]" +:+ shown path
  end.
Definition show_path (path : list segment) : string :=
  match path with [] => "." | Field name :: path => name +:+ shown path | path => shown path end.

#[local] Instance yaml : Serde := {
  node := doc;
  failure := at_fault;
  de_string n := match n with Str s => Ok s | _ => Err ([], "expected a string") end;
  de_uint w n :=
    match n with
    | Num z => if fits w z then Ok z else Err ([], "out of range")
    | _ => Err ([], "expected an integer")
    end;
  de_any n :=
    match n with
    | Null => Ok AnyUnit
    | Num z => Ok (AnyI64 z)
    | Str s => Ok (AnyStr s)
    | _ => Err ([], "unsupported")
    end;
  de_option A dec n := match n with Null => Ok None | n => Some <$> dec n end;
  de_vec A dec n := match n with Seq l => elements dec 0 l | _ => Err ([], "expected a sequence") end;
  de_map A dec n := match n with Map l => collect <$> values dec l | _ => Err ([], "expected a mapping") end;
  de_enum A variants n :=
    match n with
    | Str v => ok_or ([], "unknown variant " +:+ v) (assoc v variants)
    | _ => Err ([], "expected a variant")
    end;
  de_struct F A fs mk n :=
    match n with
    | Map es => if decide (once (field_names fs) es) then fill fs es mk else Err ([], "duplicate field")
    | _ => Err ([], "expected a mapping")
    end;
  tracked A dec n := match dec n with Ok a => Ok a | Err (path, e) => Err (show_path path, (path, e)) end;
  is_null n := match n with Null => true | _ => false end;
  items n := match n with Seq l => Some l | _ => None end;
  entries n := match n with Map l => Some l | _ => None end;
  variant n := match n with Str s => Some s | _ => None end;
}.

Lemma inside_ok {A} s (r : result at_fault A) a : inside s r = Ok a <-> r = Ok a.
Proof. destruct r as [|[]]; cbn; naive_solver. Qed.

Lemma elements_ok {A} (dec : doc -> result at_fault A) l i out :
  elements dec i l = Ok out <-> Forall2 (reads_as dec) l out.
Proof.
  revert i out. induction l as [|n l IH]; intros i out; cbn [elements].
  - split; [by intros [= <-]|]. by inversion 1.
  - rewrite result_bind_ok. setoid_rewrite inside_ok. setoid_rewrite result_bind_ok. setoid_rewrite IH. split.
    + intros (a & Ha & rest & Hr & [= <-]). by constructor.
    + inversion 1; subst. naive_solver.
Qed.

Lemma values_ok {A} (dec : doc -> result at_fault A) l out :
  values dec l = Ok out <-> Forall2 (fun e row => row.1 = e.1 /\ reads_as dec e.2 row.2) l out.
Proof.
  revert out. induction l as [|[k n] l IH]; intros out; cbn [values].
  - split; [by intros [= <-]|]. by inversion 1.
  - rewrite result_bind_ok. setoid_rewrite inside_ok. setoid_rewrite result_bind_ok. setoid_rewrite IH. split.
    + intros (a & Ha & rest & Hr & [= <-]). by constructor.
    + inversion 1 as [|? [k' a] ? ? [Hk Ha]]; subst. cbn in *. subst. naive_solver.
Qed.

Lemma fill_ok {F A} (fs : fields (fun B => doc -> result at_fault B) F A) es mk a :
  fill fs es mk = Ok a <-> filled fs es mk a.
Proof.
  induction fs as [A|B F A name dec absent rest IH]; cbn.
  - naive_solver.
  - unfold keyed, reads_as. change (@assoc (@node yaml)) with (@assoc doc). destruct (assoc name es) as [n|]; [|destruct absent as [b|]].
    + rewrite result_bind_ok. setoid_rewrite inside_ok. by setoid_rewrite IH.
    + rewrite IH. naive_solver.
    + naive_solver.
Qed.

Lemma field_names_eq {F A} (fs : fields (fun B => doc -> result at_fault B) F A) : field_names fs = names fs.
Proof. induction fs; cbn; congruence. Qed.

#[local] Instance yaml_laws : SerdeLaws.
Proof.
  split.
  - intros w [|z| | |] r; cbn; try done. destruct (fits w z) eqn:E; [|done]. by intros [= <-].
  - intros A dec [|z|s|l|l] o; unfold opt, reads_as; cbn; [naive_solver|..]; rewrite fmap_ok; naive_solver.
  - intros A dec [|z|s|l|l] o; unfold each; cbn; rewrite ?elements_ok; naive_solver.
  - intros A dec [|z|s|l|l] o; unfold map_of; cbn; rewrite ?fmap_ok; setoid_rewrite <- values_ok; naive_solver.
  - intros A vs [|z|s|l|l] o; cbn -[assoc]; try naive_solver.
    transitivity (assoc s vs = Some o); [destruct (assoc s vs); cbn; naive_solver|].
    split; [by exists s|]. by intros (v & [= <-] & Ha).
  - intros F A fs mk [|z|s|l|l] o; cbn; try naive_solver. rewrite field_names_eq.
    case_decide; rewrite ?fill_ok; naive_solver.
  - intros A dec n a; cbn. destruct (dec n) as [|[]]; naive_solver.
Qed.

#[local] Instance lower : UnicodeLower := to_ascii_lowercase.

Definition bind (port : Z) : doc :=
  Map [("name", Str "eu"); ("host", Str "smsc.example"); ("port", Num port);
       ("system_id", Str "acme"); ("password", Null); ("note", Str "ignored")].
Definition document (port : Z) : doc :=
  Map [("server", Map [("max_msg_per_sec", Num 50); ("throttle_action", Str "reject")]);
       ("binds", Seq [bind 2775; bind port])].

(** The wrong port is refused at its key path. *)
Example port_refused :
  from_yaml (fun _ => Ok (document 70000)) []
  = Err (mkYamlError "binds[1].port" ([Field "binds"; Index 1; Field "port"], "out of range")).
Proof. vm_compute. reflexivity. Qed.

Definition eu : BindConfig.t :=
  BindConfig.mk "eu" "smsc.example" 2775 "acme" "" "" "transceiver" 0 30000 30000 None.
Definition europe : SmppConfig.t :=
  SmppConfig.mk (ServerConfig.mk None None 5000 30000 300000 30000 50 Reject None)
    [eu; eu] (RoutingConfig.mk [] []) None None.

Lemma yaml_loads_witness : config_reads (document 2775) europe.
Proof.
  destruct (proj1 (@yaml_loads yaml yaml_laws (fun _ => Ok (document 2775)) [] europe)) as (n & Hn & Hr).
  - vm_compute. reflexivity.
  - injection Hn as <-. exact Hr.
Defined.

End YamlExample.
