(* ===== verification/Receipt.v ===== *)
(** * Delivery receipts: [Receipt] and [Pdu::receipt] of [pyclasses.rs]

    The parser of the de-facto receipt text, with every slice checked the way
    Rust checks it (a panic is [None]), and the getter that merges the text with
    the receipt parameters.  Text is the list of its UTF-8 bytes. *)

From Stdlib Require Import Sorting.Sorted.
From stdpp Require Import sorting.
From S2P Require Import Prelude RustStr Py Smpp34 Pdu.
#[local] Open Scope Z_scope.

Module Receipt.

Record t : Set := mk {
  id : option bytes;
  sub : option bytes;
  dlvrd : option bytes;
  submit_date : option bytes;
  done_date : option bytes;
  stat : option bytes;
  err : option bytes;
  text : option bytes;
  raw : bytes;
}.

(** [Receipt { raw, ..Default::default() }]. *)
Definition empty (raw : bytes) : t := mk None None None None None None None None raw.

(** The key as it is spelled in the text, and the field it fills. *)
Definition KEYS : list (string * string) :=
  [("submit date", "submit_date"); ("done date", "done_date"); ("dlvrd", "dlvrd");
   ("stat", "stat"); ("text", "text"); ("sub", "sub"); ("err", "err"); ("id", "id")].

Definition message_state_name (state : Z) : option string :=
  match state with
  | 1 => Some "ENROUTE"
  | 2 => Some "DELIVRD"
  | 3 => Some "EXPIRED"
  | 4 => Some "DELETED"
  | 5 => Some "UNDELIV"
  | 6 => Some "ACCEPTD"
  | 7 => Some "UNKNOWN"
  | 8 => Some "REJECTD"
  | _ => None
  end.

Definition set (self : t) (field : string) (value : bytes) : t :=
  let 'mk id sub dlvrd submit_date done_date stat err text raw := self in
  let v := Some value in
  if String.eqb field "id" then mk v sub dlvrd submit_date done_date stat err text raw
  else if String.eqb field "sub" then mk id v dlvrd submit_date done_date stat err text raw
  else if String.eqb field "dlvrd" then mk id sub v submit_date done_date stat err text raw
  else if String.eqb field "submit_date" then mk id sub dlvrd v done_date stat err text raw
  else if String.eqb field "done_date" then mk id sub dlvrd submit_date v stat err text raw
  else if String.eqb field "stat" then mk id sub dlvrd submit_date done_date v err text raw
  else if String.eqb field "err" then mk id sub dlvrd submit_date done_date stat v text raw
  else if String.eqb field "text" then mk id sub dlvrd submit_date done_date stat err v raw
  else self.

(** One located key: its position, the length of [key:], its field. *)
Record hit : Set := Hit { pos : nat; key_len : nat; field : string }.

Definition needle (key : string) : bytes := of_str key ++ [byte_of_Z 58].

Definition claimed (hits : list hit) (p : nat) : bool :=
  existsb (fun h => (pos h <=? p)%nat && (p <? pos h + key_len h)%nat) hits.

(** The loop over [KEYS], with the [hits] so far. *)
Fixpoint locate (hay : bytes) (keys : list (string * string)) (hits : list hit) : list hit :=
  match keys with
  | [] => hits
  | (key, field) :: keys =>
      let hits :=
        match str_find (needle key) hay with
        | Some p => if claimed hits p then hits else hits ++ [Hit p (length (needle key)) field]
        | None => hits
        end in
      locate hay keys hits
  end.

(** [hits.sort_by_key(|(p, _, _)| *p)], a stable sort. *)
Fixpoint insert_hit (h : hit) (hits : list hit) : list hit :=
  match hits with
  | [] => [h]
  | h' :: hits' => if (pos h <=? pos h')%nat then h :: hits else h' :: insert_hit h hits'
  end.
Definition sort_by_key (hits : list hit) : list hit := foldr insert_hit [] hits.

(** The loop that cuts the values out of [raw]. *)
Fixpoint fill (raw : bytes) (hits : list hit) (out : t) : option t :=
  match hits with
  | [] => Some out
  | h :: hits =>
      let val_start := (pos h + key_len h)%nat in
      let val_end := match hits with h' :: _ => pos h' | [] => length raw end in
      value ← slice raw val_start val_end;
      fill raw hits (set out (field h) (trim value))
  end.

(** The outer [option] is the panic of a slice. *)
Definition parse (sm : bytes) : option (option t) :=
  let raw := from_utf8_lossy sm in
  let hay := to_ascii_lowercase raw in
  let hits := locate hay KEYS [] in
  match hits with
  | [] => Some None
  | _ => out ← fill raw (sort_by_key hits) (empty raw); Some (Some out)
  end.

(** A [PyDict] with string keys, in insertion order. *)
Definition dict : Type := list (string * PyObj).

Definition put (k : string) (v : option bytes) (d : dict) : dict :=
  match v with Some v => d ++ [(k, PyStr (Some (to_str v)))] | None => d end.

Definition fill_dict (self : t) (d : dict) : dict :=
  let d := put "id" (id self) d in
  let d := put "sub" (sub self) d in
  let d := put "dlvrd" (dlvrd self) d in
  let d := put "submit_date" (submit_date self) d in
  let d := put "done_date" (done_date self) d in
  let d := put "stat" (stat self) d in
  let d := put "err" (err self) d in
  let d := put "text" (text self) d in
  d ++ [("raw", PyStr (Some (to_str (raw self))))].

Definition with_id (self : t) (v : option bytes) : t :=
  mk v (sub self) (dlvrd self) (submit_date self) (done_date self) (stat self) (err self)
    (text self) (raw self).
Definition with_stat (self : t) (v : option bytes) : t :=
  mk (id self) (sub self) (dlvrd self) (submit_date self) (done_date self) v (err self)
    (text self) (raw self).

End Receipt.

(** [Pdu::receipt]; the outer [option] is a panic of the parser. *)
Definition receipt `{Smpp34} (self : Pdu.t) : option (option Receipt.dict) :=
  if negb (is_dlr self) then Some None
  else
    let body := body self in
    let tlv_id := receipted_message_id (Pdu.tlvs self) in
    let tlv_state := message_state (Pdu.tlvs self) in
    parsed ← Receipt.parse body;
    let parsed :=
      match parsed with
      | Some parsed => Some parsed
      | None =>
          if is_some tlv_id || is_some tlv_state
          then Some (Receipt.empty (from_utf8_lossy body)) else None
      end in
    match parsed with
    | None => Some None
    | Some parsed =>
        let parsed := match Receipt.id parsed with
                      | None => Receipt.with_id parsed (of_str <$> tlv_id)
                      | Some _ => parsed
                      end in
        let parsed := match Receipt.stat parsed with
                      | None => Receipt.with_stat parsed
                                  (of_str <$> (tlv_state ≫= Receipt.message_state_name))
                      | Some _ => parsed
                      end in
        let d := Receipt.fill_dict parsed [] in
        Some (Some (match tlv_state with
                    | Some state => d ++ [("message_state", PyInt state)]
                    | None => d
                    end))
    end.

(** ** The hits never overlap

    A needle holds one colon, its last byte; keys are searched from the longest
    to the shortest.  So two needles that overlap are one inside the other, and
    the shorter one is refused by [claimed]. *)

Definition colon : byte := byte_of_Z 58.

Definition plain (k : bytes) : bool := forallb (fun b => is_ascii b && negb (bool_decide (b = colon))) k.

Section Hits.
Variable hay : bytes.

(** A hit is an occurrence of a needle, a colon-free ASCII key and its colon. *)
Definition occurs (h : Receipt.hit) : Prop :=
  exists k, plain k = true /\ Receipt.key_len h = S (length k) /\
    take (Receipt.key_len h) (drop (Receipt.pos h) hay) = k ++ [colon].

Definition apart (h1 h2 : Receipt.hit) : Prop :=
  (Receipt.pos h1 + Receipt.key_len h1 <= Receipt.pos h2 \/
   Receipt.pos h2 + Receipt.key_len h2 <= Receipt.pos h1)%nat.

Lemma occurs_lookup h j :
  occurs h -> (j < Receipt.key_len h)%nat ->
  exists b, hay !! (Receipt.pos h + j)%nat = Some b /\ is_ascii b = true /\
            (b = colon <-> S j = Receipt.key_len h).
Proof.
  intros (k & Hk & Hl & E) Hj. 
  assert (hay !! (Receipt.pos h + j)%nat = (k ++ [colon]) !! j) as Hlook.
  { rewrite <-E, lookup_take_lt by lia. by rewrite lookup_drop. }
  rewrite Hlook. destruct (decide (S j = Receipt.key_len h)) as [Heq|Hne].
  - exists colon. rewrite lookup_app_r by lia. replace (j - length k)%nat with 0%nat by lia. done.
  - rewrite lookup_app_l by lia.
    destruct (lookup_lt_is_Some_2 k j ltac:(lia)) as [b Hb]. exists b. split; [done|].
    unfold plain in Hk. rewrite forallb_forall in Hk.
    specialize (Hk b). rewrite <-list_elem_of_In in Hk.
    apply list_elem_of_lookup_2, Hk in Hb.
    apply andb_true_iff in Hb as [? Hc%negb_true_iff]. rewrite bool_decide_eq_false in Hc.
    split; [done|]. naive_solver.
Qed.

Lemma occurs_apart h1 h2 :
  occurs h1 -> occurs h2 -> (Receipt.key_len h2 <= Receipt.key_len h1)%nat ->
  Receipt.claimed [h1] (Receipt.pos h2) = false -> apart h1 h2.
Proof.
  intros O1 O2 Hle Hc. unfold Receipt.claimed in Hc. cbn in Hc. rewrite orb_false_r in Hc.
  apply andb_false_iff in Hc. unfold apart.
  destruct (O1) as (k1 & _ & L1 & _), (O2) as (k2 & _ & L2 & _).
  destruct Hc as [Hc%Nat.leb_gt|Hc%Nat.ltb_ge]; [|by left].
  destruct (le_lt_dec (Receipt.pos h2 + Receipt.key_len h2) (Receipt.pos h1)) as [|Hlt]; [by right|].
  exfalso.
  (* the colon that ends [h1] lies inside [h2], or the one that ends [h2] inside [h1] *)
  set (e1 := (Receipt.pos h1 + Receipt.key_len h1 - 1)%nat).
  set (e2 := (Receipt.pos h2 + Receipt.key_len h2 - 1)%nat).
  destruct (occurs_lookup h2 (Receipt.key_len h2 - 1) O2 ltac:(lia)) as (b & Hb & _ & Hb').
  destruct (occurs_lookup h1 (e2 - Receipt.pos h1) O1 ltac:(lia)) as (c & Hcl & _ & Hc').
  replace (Receipt.pos h1 + (e2 - Receipt.pos h1))%nat
    with (Receipt.pos h2 + (Receipt.key_len h2 - 1))%nat in Hcl by lia.
  rewrite Hb in Hcl. injection Hcl as <-. assert (b = colon) by (apply Hb'; lia).
  apply Hc' in H. lia.
Qed.

End Hits.

(** ** Sorting makes the hits a chain *)

Definition before (h1 h2 : Receipt.hit) : Prop :=
  (Receipt.pos h1 + Receipt.key_len h1 <= Receipt.pos h2)%nat.

Abbreviation chain := (StronglySorted before).

Lemma insert_hit_elem h hits x : x ∈ Receipt.insert_hit h hits <-> x = h \/ x ∈ hits.
Proof.
  induction hits as [|h' hits IH]; cbn; [by rewrite elem_of_cons|].
  case_match; rewrite !elem_of_cons; [done|rewrite IH; tauto].
Qed.

Lemma sort_elem hits x : x ∈ Receipt.sort_by_key hits <-> x ∈ hits.
Proof.
  induction hits as [|h hits IH]; cbn; [done|]. by rewrite insert_hit_elem, elem_of_cons, IH.
Qed.

Lemma insert_hit_chain h hits :
  chain hits -> (0 < Receipt.key_len h)%nat ->
  Forall (fun h' => (0 < Receipt.key_len h')%nat /\ apart h h') hits ->
  chain (Receipt.insert_hit h hits).
Proof.
  intros Hs Hpos. induction Hs as [|h' hits Hs IH Hf]; intros HA; cbn.
  - by repeat constructor.
  - apply list.Forall_cons in HA as [[Hpos' Ha] HA]. unfold apart in Ha.
    destruct (_ <=? _)%nat eqn:E.
    + apply Nat.leb_le in E. constructor; [by constructor|]. constructor; [unfold before; lia|].
      eapply list.Forall_impl; [exact Hf|]. unfold before. intros x ?. lia.
    + apply Nat.leb_gt in E. constructor; [auto|].
      rewrite list.Forall_forall in *. intros x [->|Hx]%insert_hit_elem; [unfold before; lia|auto].
Qed.

Lemma sort_chain hits :
  Forall (fun h => (0 < Receipt.key_len h)%nat) hits -> ForallOrdPairs apart hits ->
  chain (Receipt.sort_by_key hits).
Proof.
  intros Hpos. induction 1 as [|h hits Ha Hp IH]; cbn; [constructor|].
  apply list.Forall_cons in Hpos as [Hh Hpos]. apply insert_hit_chain; [auto|exact Hh|].
  rewrite list.Forall_forall in Ha, Hpos |- *. intros x Hx.
  apply (proj1 (sort_elem hits x)) in Hx. split; [by apply Hpos|by apply Ha].
Qed.

Lemma ForallOrdPairs_snoc {A} (R : A -> A -> Prop) l x :
  ForallOrdPairs R l -> Forall (fun y => R y x) l -> ForallOrdPairs R (l ++ [x]).
Proof.
  induction 1 as [|y l Hy Hl IH]; cbn; [repeat constructor|].
  intros [Hyx Hx]%list.Forall_cons. constructor; [|auto].
  apply list.Forall_app. split; [done|by repeat constructor].
Qed.

Lemma claimed_each hits h p :
  Receipt.claimed hits p = false -> h ∈ hits -> Receipt.claimed [h] p = false.
Proof.
  unfold Receipt.claimed. intros Hc Hh. cbn. rewrite orb_false_r.
  destruct (_ && _) eqn:E; [|done]. rewrite <-Hc. symmetry. apply existsb_exists.
  exists h. by rewrite <-list_elem_of_In.
Qed.

Lemma str_find_occurs needle hay p :
  str_find needle hay = Some p -> take (length needle) (drop p hay) = needle.
Proof.
  intros (pre & post & -> & <-)%str_find_some. rewrite drop_app_length. by rewrite take_app_length.
Qed.

(** The keys that remain are plain, no longer than any hit so far, and sorted. *)
Definition keys_ok (keys : list (string * string)) : Prop :=
  StronglySorted (fun a b => (length (of_str b.1) <= length (of_str a.1))%nat) keys /\
  Forall (fun e => plain (of_str e.1) = true) keys.

Lemma KEYS_ok : keys_ok Receipt.KEYS.
Proof. split; repeat constructor; vm_compute; lia. Qed.

Lemma locate_ok hay keys hits :
  keys_ok keys ->
  Forall (occurs hay) hits -> ForallOrdPairs apart hits ->
  Forall (fun h => Forall (fun e => (length (of_str e.1) < Receipt.key_len h)%nat) keys) hits ->
  Forall (occurs hay) (Receipt.locate hay keys hits) /\
  ForallOrdPairs apart (Receipt.locate hay keys hits).
Proof.
  intros [Hs Hp]. revert hits. induction Hs as [|[key field] keys Hs IH Hf]; intros hits HO HA HL;
    cbn [Receipt.locate]; [done|].
  apply list.Forall_cons in Hp as [Hk Hp]. cbn [fst] in Hk.
  assert (Forall (fun h => Forall (fun e => (length (of_str e.1) < Receipt.key_len h)%nat) keys) hits)
    as HL' by (eapply list.Forall_impl; [exact HL|]; by intros h [_ ?]%list.Forall_cons).
  destruct (str_find _ hay) as [p|] eqn:E; [|by apply IH].
  destruct (Receipt.claimed hits p) eqn:C; [by apply IH|].
  assert (length (Receipt.needle key) = S (length (of_str key))) as Hlen.
  { unfold Receipt.needle. rewrite length_app. cbn. lia. }
  set (h := Receipt.Hit p (length (Receipt.needle key)) field).
  assert (occurs hay h) as Oh.
  { exists (of_str key). split; [done|]. split; [done|]. by apply str_find_occurs. }
  apply IH; [done|apply list.Forall_app; by repeat constructor| |].
  - apply ForallOrdPairs_snoc; [done|]. rewrite list.Forall_forall in *. intros x Hx.
    apply (occurs_apart hay); [auto|done| |by eapply claimed_each].
    specialize (HL x Hx). apply list.Forall_cons in HL as [HL _]. cbn [fst] in HL.
    cbn [Receipt.key_len h]. lia.
  - apply list.Forall_app. split; [done|]. constructor; [|done].
    eapply list.Forall_impl; [exact Hf|]. cbn [fst Receipt.key_len h]. intros e ?. lia.
Qed.

(** ** Cutting between two needles never panics *)

Lemma lowercase_length s : length (to_ascii_lowercase s) = length s.
Proof. apply length_map. Qed.

Lemma to_lower_ascii b : is_ascii (to_lower b) = is_ascii b.
Proof.
  unfold to_lower. destruct (byte_in 65 90 b) eqn:E; [|done].
  unfold is_ascii, byte_in in *. rewrite byte_to_of_Z.
  pose proof (byte_to_Z_range b). rewrite wrap_small by (apply fits_spec; lia). lia.
Qed.

Lemma lowercase_lookup_ascii s i b :
  to_ascii_lowercase s !! i = Some b -> is_ascii b = true ->
  exists c, s !! i = Some c /\ is_ascii c = true.
Proof.
  unfold to_ascii_lowercase. change (map to_lower s) with (to_lower <$> s).
  rewrite list_lookup_fmap. destruct (s !! i) as [c|]; [|done]. cbn. intros [= <-].
  rewrite to_lower_ascii. eauto.
Qed.

Section Fill.
Variable raw : bytes.
Hypothesis Hutf : utf8 raw.
Let hay : bytes := to_ascii_lowercase raw.

Lemma occurs_bounds h :
  occurs hay h ->
  is_char_boundary raw (Receipt.pos h) = true /\
  is_char_boundary raw (Receipt.pos h + Receipt.key_len h) = true /\
  (Receipt.pos h + Receipt.key_len h <= length raw)%nat.
Proof using Hutf.
  intros O. pose proof O as (k & _ & Hl & _).
  destruct (occurs_lookup hay h 0 O ltac:(lia)) as (b & Hb & Ha & _).
  destruct (occurs_lookup hay h (length k) O ltac:(lia)) as (c & Hc & Hca & _).
  rewrite Nat.add_0_r in Hb.
  apply lowercase_lookup_ascii in Hb as (b' & Hb & Ha'); [|done].
  apply lowercase_lookup_ascii in Hc as (c' & Hc & Hc'); [|done].
  split; [by eapply boundary_ascii|].
  rewrite Hl, Nat.add_succ_r. split; [by eapply boundary_after_ascii|].
  apply lookup_lt_Some in Hc. lia.
Qed.

Lemma fill_total hits out :
  chain hits -> Forall (occurs hay) hits -> exists r, Receipt.fill raw hits out = Some r.
Proof using Hutf.
  intros Hs. revert out. induction Hs as [|h hits Hs IH Hf]; intros out HO; cbn; [by eexists|].
  apply list.Forall_cons in HO as [Oh HO].
  destruct (occurs_bounds h Oh) as (_ & Hb & Hl).
  assert (exists v, slice raw (Receipt.pos h + Receipt.key_len h)
            match hits with h' :: _ => Receipt.pos h' | [] => length raw end = Some v) as [v ->].
  { unfold slice. rewrite Hb. destruct hits as [|h' hits].
    - assert (is_char_boundary raw (length raw) = true) as ->.
      { unfold is_char_boundary. rewrite Nat.eqb_refl. by rewrite orb_true_r. }
      apply Nat.leb_le in Hl. rewrite Hl, Nat.leb_refl. by eexists.
    - apply list.Forall_cons in HO as [Oh' _], Hf as [Hf _].
      destruct (occurs_bounds h' Oh') as (-> & _ & Hl').
      unfold before in Hf. apply Nat.leb_le in Hf. rewrite Hf.
      assert ((Receipt.pos h' <=? length raw)%nat = true) as -> by (apply Nat.leb_le; lia). by eexists. }
  cbn. by apply IH.
Qed.

End Fill.

Lemma locate_cons hay keys h hits : exists h' hits', Receipt.locate hay keys (h :: hits) = h' :: hits'.
Proof.
  revert hits. induction keys as [|[key field] keys IH]; intros hits; cbn [Receipt.locate]; [eauto|].
  destruct (str_find _ hay) as [p|]; [|apply IH]. destruct (Receipt.claimed _ p); apply IH.
Qed.

Lemma locate_nil hay keys :
  Receipt.locate hay keys [] = [] <-> Forall (fun row => str_find (Receipt.needle row.1) hay = None) keys.
Proof.
  induction keys as [|[key field] keys IH]; cbn [Receipt.locate]; [by split|].
  rewrite list.Forall_cons. cbn [fst]. destruct (str_find _ hay) as [p|].
  - cbn [Receipt.claimed existsb app].
    destruct (locate_cons hay keys (Receipt.Hit p (length (Receipt.needle key)) field) []) as (? & ? & ->).
    by split; [|intros [? _]].
  - rewrite IH. by split; [|intros [_ ?]].
Qed.

Lemma set_raw out field v : Receipt.raw (Receipt.set out field v) = Receipt.raw out.
Proof. destruct out. cbn. by repeat case_match. Qed.

Lemma fill_raw raw hits out r : Receipt.fill raw hits out = Some r -> Receipt.raw r = Receipt.raw out.
Proof.
  revert out. induction hits as [|h hits IH]; intros out; cbn [Receipt.fill]; [by intros [= <-]|].
  destruct (slice _ _ _) as [v|]; [|done]. cbn. intros ->%IH. apply set_raw.
Qed.

Lemma parse_total sm :
  exists r, Receipt.parse sm = Some r /\
    forall out, r = Some out -> Receipt.raw out = from_utf8_lossy sm.
Proof.
  unfold Receipt.parse. set (raw := from_utf8_lossy sm).
  destruct (locate_ok (to_ascii_lowercase raw) Receipt.KEYS [] KEYS_ok) as [HO HA];
    [constructor..|].
  destruct (Receipt.locate _ _ _) as [|h hits]; [by eexists|].
  destruct (fill_total raw (from_utf8_lossy_utf8 sm) (Receipt.sort_by_key (h :: hits)) (Receipt.empty raw))
    as [r Hr]; [|..|].
  - apply sort_chain; [|done]. eapply list.Forall_impl; [exact HO|].
    intros x (k & _ & -> & _). lia.
  - apply list.Forall_forall. intros x Hx. apply (proj1 (sort_elem _ x)) in Hx.
    rewrite list.Forall_forall in HO. by apply HO.
  - rewrite Hr. exists (Some r). split; [done|]. intros ? [= <-]. by apply fill_raw in Hr.
Qed.

(** C14: the receipt parser returns on every body: whatever bytes a peer sends, no
    slice of it is out of order, out of range or inside a character.  It reports
    a receipt exactly when one of the keys occurs with its colon, in any letter
    case, and always keeps the whole text. *)
Theorem parse_never_panics sm :
  exists r, Receipt.parse sm = Some r /\
    (r = None <-> Forall (fun row => str_find (Receipt.needle row.1)
                                       (to_ascii_lowercase (from_utf8_lossy sm)) = None) Receipt.KEYS) /\
    forall out, r = Some out -> Receipt.raw out = from_utf8_lossy sm.
Proof.
  destruct (parse_total sm) as (r & Hr & Hraw). exists r. split; [done|]. split; [|done].
  rewrite <-locate_nil. unfold Receipt.parse in Hr. destruct (Receipt.locate _ _ _).
  - injection Hr as <-. done.
  - destruct (Receipt.fill _ _ _); [|done]. injection Hr as <-. done.
Qed.

(** ** Reading back a rendered receipt

    A well-behaved SMSC's text: the keys it uses, each with a value, separated by
    spaces.  [render] writes one; an entry is a row of [KEYS] with its value. *)

Definition entry : Type := (string * string) * bytes.

Definition space : byte := byte_of_Z 32.

Fixpoint render (es : list entry) : bytes :=
  match es with
  | [] => []
  | (row, v) :: es =>
      Receipt.needle row.1 ++ v ++ match es with [] => [] | _ => space :: render es end
  end.

Definition value_ok (v : bytes) : bool := plain v && trimmed v.

Definition entries_ok (es : list entry) : Prop :=
  NoDup es.*1 /\ Forall (fun e => e.1 ∈ Receipt.KEYS /\ value_ok e.2 = true) es.

Definition fields_of (es : list entry) (raw : bytes) : Receipt.t :=
  fold_left (fun out e => Receipt.set out e.1.2 e.2) es (Receipt.empty raw).

(** *** Finding a key's colon *)

Definition ends_with (k s : bytes) : bool := starts_with (rev k) (rev s).

Lemma ends_with_spec k s : ends_with k s = true <-> exists p, s = p ++ k.
Proof.
  unfold ends_with. rewrite starts_with_spec. split; intros [p Hp].
  - exists (rev p). rewrite <-(rev_involutive s), Hp, rev_app_distr, rev_involutive. done.
  - exists (rev p). by rewrite Hp, rev_app_distr.
Qed.

Lemma plain_no_colon k : plain k = true -> colon ∉ k.
Proof.
  unfold plain. rewrite forallb_forall. intros Hk Hin%list_elem_of_In%Hk.
  rewrite bool_decide_eq_true_2 in Hin by done. by destruct (is_ascii colon).
Qed.

Lemma app_colon_inv k1 k2 r1 r2 :
  colon ∉ k1 -> colon ∉ k2 -> k1 ++ colon :: r1 = k2 ++ colon :: r2 -> k1 = k2 /\ r1 = r2.
Proof.
  revert k2. induction k1 as [|b k1 IH]; intros [|c k2]; cbn; intros H1 H2.
  - by intros [= ->].
  - intros [= <- _]. by destruct H2; left.
  - intros [= -> _]. by destruct H1; left.
  - intros [= -> E]. apply not_elem_of_cons in H1 as [_ H1], H2 as [_ H2].
    by destruct (IH k2 H1 H2 E) as [-> ->].
Qed.

(** The first colon is the end of the needle when the key ends the text before
    it; otherwise the needle is after it. *)
Lemma find_at_colon k s rest :
  plain k = true -> plain s = true ->
  str_find (k ++ [colon]) (s ++ colon :: rest) =
    if ends_with k s then Some (length s - length k)%nat
    else (fun i => (S (length s) + i)%nat) <$> str_find (k ++ [colon]) rest.
Proof.
  intros Hk%plain_no_colon Hs%plain_no_colon.
  assert (forall a b, s = a ++ b -> starts_with (k ++ [colon]) (b ++ colon :: rest) = true -> k = b) as Hno.
  { intros a b -> (r & E)%starts_with_spec. rewrite <-app_assoc in E. cbn in E.
    apply app_colon_inv in E as [-> _]; [done| |done]. set_solver. }
  destruct (ends_with k s) eqn:E.
  - apply ends_with_spec in E as [p ->]. rewrite <-app_assoc.
    rewrite (str_find_app_skip _ p).
    + change (k ++ colon :: rest) with (k ++ [colon] ++ rest). rewrite app_assoc, str_find_here.
      cbn. f_equal. rewrite length_app. lia.
    + intros j Hj. destruct (starts_with _ _) eqn:F; [|done]. exfalso.
      rewrite app_assoc, drop_app_le in F by (rewrite length_app; lia).
      apply (Hno (take j (p ++ k)) (drop j (p ++ k)) (eq_sym (take_drop j _))) in F.
      apply (f_equal length) in F. rewrite length_drop, length_app in F. lia.
  - replace (s ++ colon :: rest) with ((s ++ [colon]) ++ rest) by (by rewrite <-app_assoc).
    rewrite str_find_app_skip; [rewrite length_app; cbn; by rewrite Nat.add_comm|].
    intros j Hj. rewrite length_app in Hj. cbn in Hj.
    destruct (starts_with _ _) eqn:F; [|done]. exfalso.
    rewrite <-app_assoc in F. cbn [app] in F. rewrite drop_app_le in F by lia.
    apply (Hno (take j s) (drop j s) (eq_sym (take_drop j _))) in F.
    assert (ends_with k s = true); [|congruence].
    apply ends_with_spec. exists (take j s). by rewrite F, take_drop.
Qed.

Lemma find_no_colon k s : plain s = true -> str_find (k ++ [colon]) s = None.
Proof.
  intros Hs%plain_no_colon. destruct (str_find _ s) as [i|] eqn:E; [|done].
  apply str_find_some in E as (pre & post & -> & _). set_solver.
Qed.

(** *** The hits of a rendered receipt *)

(** Text that can stand between an entry's colon and the next key. *)
Definition gap (p : bytes) : Prop := plain p = true /\ (p = [] \/ exists v, p = v ++ [space]).

Lemma plain_app a b : plain (a ++ b) = plain a && plain b.
Proof. apply forallb_app. Qed.

Lemma KEYS_plain row : row ∈ Receipt.KEYS -> plain (of_str row.1) = true.
Proof. apply (proj1 (list.Forall_forall _ _) (proj2 KEYS_ok)). Qed.

Lemma ends_with_key row row' p :
  row ∈ Receipt.KEYS -> row' ∈ Receipt.KEYS -> gap p ->
  ends_with (of_str row.1) (p ++ of_str row'.1) = bool_decide (row = row').
Proof.
  intros Hr Hr' [_ Hp]. unfold ends_with. rewrite rev_app_distr.
  assert (rev p = [] \/ exists w, rev p = space :: w) as [->|[w ->]].
  { destruct Hp as [->|[v ->]]; [by left|]. right. exists (rev v). by rewrite rev_app_distr. }
  all: unfold Receipt.KEYS in Hr, Hr'; rewrite !elem_of_cons, elem_of_nil in Hr, Hr'.
  all: repeat destruct Hr as [->|Hr]; try done; repeat destruct Hr' as [->|Hr']; try done.
Qed.

Fixpoint pos_of (row : string * string) (off : nat) (es : list entry) : option nat :=
  match es with
  | [] => None
  | (row', v) :: es =>
      if bool_decide (row = row') then Some off
      else pos_of row (off + length (Receipt.needle row'.1) + length v + 1) es
  end.

Lemma pos_of_shift row n off es :
  pos_of row (n + off) es = (fun i => (n + i)%nat) <$> pos_of row off es.
Proof.
  revert off. induction es as [|[row' v] es IH]; intros off; cbn [pos_of]; [done|].
  case_bool_decide; [done|]. rewrite <-IH. f_equal. lia.
Qed.

Definition keyed (es : list entry) : Prop :=
  Forall (fun e => e.1 ∈ Receipt.KEYS /\ plain e.2 = true) es.

Lemma find_render row p es :
  row ∈ Receipt.KEYS -> keyed es -> gap p ->
  str_find (Receipt.needle row.1) (p ++ render es) = pos_of row (length p) es.
Proof.
  intros Hr. unfold Receipt.needle. change (byte_of_Z 58) with colon.
  intros Hes. revert p. induction Hes as [|[row' v] es [Hr' Hv] Hes IH]; intros p Hp; cbn [render pos_of].
  - rewrite app_nil_r. apply find_no_colon, Hp.
  - cbn [fst snd] in *. unfold Receipt.needle at 1. rewrite <-!app_assoc, app_assoc. cbn [app].
    change (byte_of_Z 58) with colon.
    rewrite find_at_colon, ends_with_key; try done; [|by apply KEYS_plain|].
    2: { rewrite plain_app. destruct Hp as [-> _]. by rewrite KEYS_plain. }
    case_bool_decide as E; [subst row'; f_equal; rewrite length_app; lia|].
    destruct es as [|e es].
    + rewrite app_nil_r, find_no_colon by done. done.
    + replace (v ++ space :: render (e :: es)) with ((v ++ [space]) ++ render (e :: es))
        by (by rewrite <-app_assoc).
      rewrite IH, <-pos_of_shift; [|split; [rewrite plain_app, Hv; done|eauto]].
      f_equal. unfold Receipt.needle. rewrite !length_app. cbn. lia.
Qed.

Fixpoint hits_of (off : nat) (es : list entry) : list Receipt.hit :=
  match es with
  | [] => []
  | (row, v) :: es =>
      Receipt.Hit off (length (Receipt.needle row.1)) row.2
        :: hits_of (off + length (Receipt.needle row.1) + length v + 1) es
  end.

Lemma needle_length k : length (Receipt.needle k) = S (length (of_str k)).
Proof. unfold Receipt.needle. rewrite length_app. cbn. lia. Qed.

Lemma hits_of_len off es : Forall (fun h => (0 < Receipt.key_len h)%nat) (hits_of off es).
Proof.
  revert off. induction es as [|[row v] es IH]; intros off; cbn [hits_of]; constructor; [|done].
  cbn [Receipt.key_len]. rewrite needle_length. lia.
Qed.

Lemma hits_of_pos off es h : h ∈ hits_of off es -> (off <= Receipt.pos h)%nat.
Proof.
  revert off. induction es as [|[row v] es IH]; intros off; cbn [hits_of]; [by intros ?%elem_of_nil|].
  intros [->|Hh%IH]%elem_of_cons; cbn [Receipt.pos]; lia.
Qed.

Lemma hits_of_chain off es : chain (hits_of off es).
Proof.
  revert off. induction es as [|[row v] es IH]; intros off; cbn [hits_of]; constructor; [done|].
  apply list.Forall_forall. intros h Hh%hits_of_pos. unfold before.
  cbn [Receipt.pos Receipt.key_len]. lia.
Qed.

Definition hit_at (hay : bytes) (row : string * string) : option Receipt.hit :=
  (fun p => Receipt.Hit p (length (Receipt.needle row.1)) row.2) <$> str_find (Receipt.needle row.1) hay.

Lemma hits_of_elem off es h :
  NoDup es.*1 ->
  h ∈ hits_of off es <->
  exists row p, row ∈ es.*1 /\ pos_of row off es = Some p /\
    h = Receipt.Hit p (length (Receipt.needle row.1)) row.2.
Proof.
  revert off. induction es as [|[row v] es IH]; intros off Hnd; cbn [hits_of pos_of].
  - split; [by intros ?%elem_of_nil|]. by intros (? & ? & ? & ? & _).
  - cbn [fmap list_fmap fst] in *. apply list.NoDup_cons in Hnd as [Hnot Hnd].
    rewrite elem_of_cons, IH by done. split.
    + intros [->|(row' & p & Hin & Hp & ->)].
      * exists row, off. rewrite bool_decide_eq_true_2 by done. split; [left|done].
      * exists row', p. rewrite bool_decide_eq_false_2 by (intros ->; done). split; [by right|done].
    + intros (row' & p & Hin & Hp & ->). case_bool_decide as E.
      * subst row'. injection Hp as <-. by left.
      * right. apply elem_of_cons in Hin as [->|Hin]; [done|]. by exists row', p.
Qed.

Lemma pos_of_in row off es p : pos_of row off es = Some p -> row ∈ es.*1.
Proof.
  revert off. induction es as [|[row' v] es IH]; intros off; cbn [pos_of]; [done|].
  case_bool_decide as E; [subst; intros _; left|intros ?%IH; by right].
Qed.

Lemma chain_unclaimed hs h1 h2 :
  chain hs -> Forall (fun h => (0 < Receipt.key_len h)%nat) hs ->
  h1 ∈ hs -> h2 ∈ hs -> h1 <> h2 -> Receipt.claimed [h1] (Receipt.pos h2) = false.
Proof.
  intros Hs Hpos H1 H2 Hne. unfold Receipt.claimed. cbn. rewrite orb_false_r.
  assert (before h1 h2 \/ before h2 h1) as Hb.
  { clear Hpos. induction Hs as [|h hs Hs IH Hf]; [by apply elem_of_nil in H1|].
    rewrite list.Forall_forall in Hf.
    apply elem_of_cons in H1 as [->|H1], H2 as [->|H2]; auto. done. }
  unfold before in Hb. rewrite list.Forall_forall in Hpos. specialize (Hpos h2 H2).
  apply andb_false_iff. destruct Hb; [right; apply Nat.ltb_ge|left; apply Nat.leb_gt]; lia.
Qed.

(** Hits that come from one chain are all recorded. *)
Lemma locate_all hay hs keys hits :
  chain hs -> Forall (fun h => (0 < Receipt.key_len h)%nat) hs ->
  (forall row h, row ∈ keys -> hit_at hay row = Some h -> h ∈ hs) ->
  Forall (fun h => h ∈ hs /\ Receipt.field h ∉ keys.*2) hits -> NoDup keys.*2 ->
  Receipt.locate hay keys hits = hits ++ omap (hit_at hay) keys.
Proof.
  intros Hs Hpos. revert hits. induction keys as [|[key field] keys IH]; intros hits Hall Hh Hnd;
    cbn [Receipt.locate omap list_omap]; [by rewrite app_nil_r|].
  cbn [fmap list_fmap snd] in Hnd, Hh. apply list.NoDup_cons in Hnd as [Hf Hnd].
  pose proof (Hall (key, field)) as Hrow. unfold hit_at in Hrow |- * at 1. cbn [fst snd] in Hrow |- *.
  assert (forall row h, row ∈ keys -> hit_at hay row = Some h -> h ∈ hs) as Hall'.
  { intros row h Hin. apply Hall. by right. }
  assert (Forall (fun h => h ∈ hs /\ Receipt.field h ∉ keys.*2) hits) as Hh'.
  { eapply list.Forall_impl; [exact Hh|]. cbn. intros x [? Hx]. set_solver. }
  destruct (str_find _ hay) as [p|]; cbn [fmap option_fmap option_map] in *; [|by apply IH].
  set (h := Receipt.Hit p (length (Receipt.needle key)) field) in *.
  assert (h ∈ hs) as Hin by (apply Hrow; [left|done]).
  assert (Receipt.claimed hits p = false) as ->.
  { destruct (Receipt.claimed hits p) eqn:C; [|done].
    unfold Receipt.claimed in C. apply existsb_exists in C as (x & Hx%list_elem_of_In & C).
    rewrite list.Forall_forall in Hh. destruct (Hh x Hx) as [Hxs Hxf].
    pose proof (chain_unclaimed hs x h Hs Hpos Hxs Hin) as Hc.
    unfold Receipt.claimed in Hc. cbn in Hc, C. rewrite C in Hc. cbn in Hc.
    rewrite Hc; [done|]. intros ->. apply Hxf. left. }
  rewrite IH; [by rewrite <-app_assoc|done| |done].
  apply list.Forall_app. split; [done|]. by repeat constructor.
Qed.

Lemma sort_perm hits : Receipt.sort_by_key hits ≡ₚ hits.
Proof.
  assert (forall h l, Receipt.insert_hit h l ≡ₚ h :: l) as Hins.
  { intros h l. induction l as [|h' l IH]; cbn; [done|]. case_match; [done|].
    rewrite IH. apply Permutation_swap. }
  induction hits as [|h hits IH]; cbn; [done|]. by rewrite Hins, IH.
Qed.

Lemma apart_NoDup hits :
  Forall (fun h => (0 < Receipt.key_len h)%nat) hits -> ForallOrdPairs apart hits -> NoDup hits.
Proof.
  intros Hp. induction 1 as [|h hits Ha Hl IH]; constructor; [|by apply IH; inversion Hp].
  intros Hin. rewrite list.Forall_forall in Ha. specialize (Ha h Hin).
  apply list.Forall_cons in Hp as [Hp _]. unfold apart in Ha. lia.
Qed.

Lemma chain_apart hs : chain hs -> ForallOrdPairs apart hs.
Proof.
  induction 1 as [|h hs Hs IH Hf]; constructor; [|done].
  eapply list.Forall_impl; [exact Hf|]. intros x ?. by left.
Qed.

Lemma sorted_hits hay es :
  NoDup es.*1 -> keyed es -> hay = render es ->
  Receipt.sort_by_key (Receipt.locate hay Receipt.KEYS []) = hits_of 0 es.
Proof.
  intros Hnd Hes ->. pose proof (hits_of_chain 0 es) as Hc. pose proof (hits_of_len 0 es) as Hl.
  assert (forall row, row ∈ Receipt.KEYS -> hit_at (render es) row =
            (fun p => Receipt.Hit p (length (Receipt.needle row.1)) row.2) <$> pos_of row 0 es) as Hat.
  { intros row Hr. unfold hit_at.
    change (render es) with ([] ++ render es).
    rewrite find_render; [done..|]. split; [done|by left]. }
  assert (Receipt.locate (render es) Receipt.KEYS [] = omap (hit_at (render es)) Receipt.KEYS) as Hloc.
  { rewrite (locate_all _ (hits_of 0 es)); [done|done|done| |constructor|by apply (bool_decide_unpack _)].
    intros row h Hr. rewrite Hat by done. intros (p & Hp & ->)%fmap_Some.
    apply hits_of_elem; [done|]. exists row, p. split; [by eapply pos_of_in|done]. }
  destruct (locate_ok (render es) Receipt.KEYS [] KEYS_ok) as [HO HA]; [constructor..|].
  assert (Forall (fun h => (0 < Receipt.key_len h)%nat) (Receipt.locate (render es) Receipt.KEYS [])) as Hlen.
  { eapply list.Forall_impl; [exact HO|]. intros x (k & _ & -> & _). lia. }
  assert (Receipt.locate (render es) Receipt.KEYS [] ≡ₚ hits_of 0 es) as Hperm.
  { apply list.NoDup_Permutation; [by apply apart_NoDup|by apply apart_NoDup, chain_apart|].
    intros h. rewrite Hloc, list_elem_of_omap, hits_of_elem by done. split.
    - intros (row & Hr & Hh). rewrite Hat in Hh by done. apply fmap_Some in Hh as (p & Hp & ->).
      exists row, p. split; [by eapply pos_of_in|done].
    - intros (row & p & Hin & Hp & ->). exists row.
      assert (row ∈ Receipt.KEYS) as Hr.
      { apply list_elem_of_fmap in Hin as ([row' v] & -> & Hin).
        unfold keyed in Hes. rewrite list.Forall_forall in Hes. by apply (Hes _ Hin). }
      split; [done|]. by rewrite Hat, Hp. }
  apply (StronglySorted_unique_strong before); [|by apply sort_chain|done|by rewrite sort_perm].
  intros x y Hx Hy Hxy Hyx. unfold before in *. rewrite sort_perm, Hperm in Hx.
  rewrite list.Forall_forall in Hl. pose proof (Hl x Hx). pose proof (Hl y Hy). lia.
Qed.

(** *** The values of a rendered receipt *)

Definition lower_entry (e : entry) : entry := (e.1, to_ascii_lowercase e.2).

Lemma to_lower_plain b :
  is_ascii (to_lower b) && negb (bool_decide (to_lower b = colon)) =
  is_ascii b && negb (bool_decide (b = colon)).
Proof. destruct b; vm_compute; reflexivity. Qed.

Lemma lowercase_plain s : plain (to_ascii_lowercase s) = plain s.
Proof.
  induction s as [|b s IH]; [done|].
  change (to_ascii_lowercase (b :: s)) with (to_lower b :: to_ascii_lowercase s).
  unfold plain in *. cbn [forallb]. by rewrite to_lower_plain, IH.
Qed.

Lemma lowercase_key row :
  row ∈ Receipt.KEYS -> to_ascii_lowercase (Receipt.needle row.1) = Receipt.needle row.1.
Proof.
  unfold Receipt.KEYS. rewrite !elem_of_cons, elem_of_nil. intros Hr.
  repeat destruct Hr as [->|Hr]; done.
Qed.

Lemma lowercase_app a b : to_ascii_lowercase (a ++ b) = to_ascii_lowercase a ++ to_ascii_lowercase b.
Proof. apply map_app. Qed.

Lemma lowercase_render es :
  keyed es -> to_ascii_lowercase (render es) = render (lower_entry <$> es).
Proof.
  induction 1 as [|[row v] es [Hr Hv] Hes IH]; [done|]. cbn [fst] in Hr.
  cbn [render fmap list_fmap lower_entry fst snd].
  rewrite !lowercase_app, lowercase_key by done. do 2 f_equal.
  destruct es as [|e es]; [done|].
  change (to_ascii_lowercase (space :: render (e :: es)))
    with (space :: to_ascii_lowercase (render (e :: es))). by rewrite IH.
Qed.

Lemma hits_of_lower off es : hits_of off (lower_entry <$> es) = hits_of off es.
Proof.
  revert off. induction es as [|[row v] es IH]; intros off; [done|].
  cbn [hits_of fmap list_fmap lower_entry fst snd]. by rewrite lowercase_length, IH.
Qed.

Abbreviation ascii := (forallb is_ascii).

Lemma plain_ascii s : plain s = true -> ascii s = true.
Proof.
  unfold plain. rewrite !forallb_forall. intros Hs b Hb. specialize (Hs b Hb).
  by apply andb_true_iff in Hs as [? _].
Qed.

Lemma ascii_needle row : row ∈ Receipt.KEYS -> ascii (Receipt.needle row.1) = true.
Proof.
  intros Hr. unfold Receipt.needle. rewrite forallb_app. by rewrite plain_ascii by (by apply KEYS_plain).
Qed.

Lemma ascii_render es : keyed es -> ascii (render es) = true.
Proof.
  induction 1 as [|[row v] es [Hr Hv] Hes IH]; [done|]. cbn [render fst snd] in *.
  rewrite !forallb_app, ascii_needle, (plain_ascii v) by done.
  destruct es as [|e es]; [done|]. cbn [forallb]. by rewrite IH.
Qed.

Lemma lossy_ascii s : ascii s = true -> from_utf8_lossy s = s.
Proof.
  induction s as [|b s IH]; [done|]. cbn. intros [-> Hs]%andb_true_iff. by rewrite IH.
Qed.

Lemma boundary_in_ascii s i : ascii s = true -> (i <= length s)%nat -> is_char_boundary s i = true.
Proof.
  intros Hs Hi. destruct (decide (i = length s)) as [->|Hne].
  - unfold is_char_boundary. rewrite Nat.eqb_refl. by rewrite orb_true_r.
  - destruct (lookup_lt_is_Some_2 s i ltac:(lia)) as [b Hb]. apply (boundary_ascii _ _ b Hb).
    rewrite forallb_forall in Hs. apply Hs, list_elem_of_In. by eapply list_elem_of_lookup_2.
Qed.

(** Cutting [mid] out of ASCII text. *)
Lemma slice_mid pre mid post :
  ascii (pre ++ mid ++ post) = true ->
  slice (pre ++ mid ++ post) (length pre) (length pre + length mid) = Some mid.
Proof.
  intros Ha. unfold slice.
  rewrite !(boundary_in_ascii _ _ Ha) by (rewrite !length_app; lia).
  assert ((length pre <=? length pre + length mid)%nat = true) as -> by (apply Nat.leb_le; lia).
  assert ((length pre + length mid <=? length (pre ++ mid ++ post))%nat = true) as ->
    by (apply Nat.leb_le; rewrite !length_app; lia).
  cbn. rewrite drop_app_length. f_equal.
  replace (length pre + length mid - length pre)%nat with (length mid) by lia.
  apply take_app_length.
Qed.

(** A value loses the separator that follows it. *)
Lemma trim_value v : value_ok v = true -> trim (v ++ [space]) = v.
Proof.
  unfold value_ok. intros [Hv Ht]%andb_true_iff. destruct v as [|b v]; [done|].
  assert (is_ascii_ws b = false) as Hb.
  { unfold trimmed in Ht. apply andb_true_iff in Ht as [Hw%Nat.eqb_eq _]. cbn in Hw.
    destruct (is_ascii_ws b); done. }
  assert (is_ascii b = true) as Ha.
  { apply plain_ascii in Hv. cbn in Hv. by apply andb_true_iff in Hv as [? _]. }
  unfold trim, trim_start. rewrite (drop_ws_id ws_len).
  - unfold trim_end. rewrite rev_app_distr.
    change (rev [space] ++ rev (b :: v)) with (space :: rev (b :: v)).
    replace (length ((b :: v) ++ [space])) with (S (length (b :: v)))
      by (rewrite length_app; cbn; lia).
    cbn [drop_ws ws_len_rev]. change (is_ascii_ws space) with true. cbn [Nat.eqb drop].
    rewrite drop_ws_id; [apply rev_involutive|].
    unfold trimmed in Ht. by apply andb_true_iff in Ht as [_ ?%Nat.eqb_eq].
  - cbn [ws_len app]. rewrite Hb.
    assert (forall c, is_ws2 b c = false) as H2 by (intros c; unfold is_ws2; byte_range).
    assert (forall c d, is_ws3 b c d = false) as H3 by (intros c d; unfold is_ws3; byte_range).
    destruct (v ++ [space]) as [|c [|d r]]; [done|by rewrite H2|by rewrite H2, H3].
Qed.

Lemma fill_render pre es out :
  Forall (fun e => e.1 ∈ Receipt.KEYS /\ value_ok e.2 = true) es -> ascii pre = true ->
  Receipt.fill (pre ++ render es) (hits_of (length pre) es) out =
    Some (fold_left (fun out e => Receipt.set out e.1.2 e.2) es out).
Proof.
  intros Hes. revert pre out. induction Hes as [|[row v] es [Hr Hv] Hes IH]; intros pre out Hpre;
    [done|]. cbn [fst snd] in Hr, Hv.
  assert (keyed es) as Hk.
  { eapply list.Forall_impl; [exact Hes|]. intros e [? Hve]. split; [done|].
    by apply andb_true_iff in Hve as [? _]. }
  assert (plain v = true /\ trimmed v = true) as [Hpv Htv] by (by apply andb_true_iff).
  cbn [hits_of Receipt.fill fold_left render Receipt.pos Receipt.key_len fst snd].
  set (k := Receipt.needle row.1). pose proof (ascii_needle row Hr) as Hka. fold k in Hka.
  destruct es as [|[row' v'] es].
  - cbn [hits_of Receipt.fill]. rewrite app_nil_r.
    replace (length (pre ++ k ++ v)) with (length (pre ++ k) + length v)%nat
      by (rewrite !length_app; lia).
    rewrite <-(length_app pre k). rewrite (app_assoc pre).
    pose proof (slice_mid (pre ++ k) v []) as Hsl. rewrite app_nil_r in Hsl.
    rewrite Hsl; [cbn; by rewrite trim_trimmed|].
    by rewrite !forallb_app, Hpre, Hka, plain_ascii.
  - set (es' := (row', v') :: es) in *. cbn [hits_of es' Receipt.pos].
    change (Receipt.Hit ?o (length (Receipt.needle row'.1)) row'.2 :: hits_of ?o' es)
      with (hits_of o es').
    replace (length pre + length k + length v + 1)%nat with (length (pre ++ k) + length (v ++ [space]))%nat
      by (rewrite !length_app; cbn; lia).
    rewrite <-(length_app pre k).
    replace (pre ++ k ++ v ++ space :: render es')
      with ((pre ++ k) ++ (v ++ [space]) ++ render es') by (by rewrite <-!app_assoc).
    rewrite slice_mid.
    + cbn [mbind option_bind]. rewrite trim_value by done. rewrite app_assoc.
      rewrite <-(length_app (pre ++ k)). rewrite IH; [done|].
      by rewrite !forallb_app, Hpre, Hka, (plain_ascii v).
    + by rewrite !forallb_app, Hpre, Hka, (plain_ascii v), ascii_render.
Qed.

(** C16: a receipt an SMSC renders is read back: any keys of the canonical set, in
    any order and each at most once, with values that are ASCII, trimmed and hold
    no colon (in any letter case, empty ones included), parse to exactly those
    fields, the other fields absent, and [raw] is the whole text. *)
Theorem parse_render es :
  es <> [] -> entries_ok es -> Receipt.parse (render es) = Some (Some (fields_of es (render es))).
Proof.
  intros Hne [Hnd Hes].
  assert (keyed es) as Hk.
  { eapply list.Forall_impl; [exact Hes|]. intros e [? Hve]. split; [done|].
    by apply andb_true_iff in Hve as [? _]. }
  unfold Receipt.parse. rewrite lossy_ascii by (by apply ascii_render).
  pose proof (sorted_hits (to_ascii_lowercase (render es)) (lower_entry <$> es)) as Hs.
  rewrite hits_of_lower in Hs.
  specialize (Hs ltac:(by rewrite <-list_fmap_compose)).
  assert (keyed (lower_entry <$> es)) as Hkl.
  { apply Forall_fmap. eapply list.Forall_impl; [exact Hk|]. intros e [? ?]. cbn.
    by rewrite lowercase_plain. }
  specialize (Hs Hkl (lowercase_render es Hk)).
  destruct (Receipt.locate _ _ _) as [|h hits] eqn:E.
  - destruct es as [|[row v] es]; [done|]. by cbn in Hs.
  - rewrite Hs. pose proof (fill_render [] es (Receipt.empty (render es)) Hes eq_refl) as Hf.
    cbn [app length] in Hf. by rewrite Hf.
Qed.

Module ReceiptExample.
#[local] Open Scope string_scope.
Definition es : list entry :=
  [(("id", "id"), of_str "0a1B2"); (("sub", "sub"), of_str "001"); (("dlvrd", "dlvrd"), of_str "001");
   (("submit date", "submit_date"), of_str "2401011200"); (("done date", "done_date"), of_str "2401011201");
   (("stat", "stat"), of_str "DELIVRD"); (("err", "err"), []); (("text", "text"), of_str "Hello  you")].

Lemma es_ok : entries_ok es.
Proof. by apply (bool_decide_unpack _). Qed.

Lemma parse_render_witness :
  Receipt.parse (of_str
    "id:0a1B2 sub:001 dlvrd:001 submit date:2401011200 done date:2401011201 stat:DELIVRD err: text:Hello  you")
  = Some (Some (fields_of es (render es))).
Proof. exact (parse_render es ltac:(discriminate) es_ok). Defined.

(** [text] does not run to the end of the body when a later key occurs in it,
    and the piece cut off becomes that key's value. *)
Example text_is_cut :
  let body := of_str "stat:DELIVRD text:paid: 5 EUR" in
  Receipt.parse body
  = Some (Some (Receipt.mk (Some (of_str "5 EUR")) None None None None (Some (of_str "DELIVRD")) None
                  (Some (of_str "pa")) body)).
Proof. vm_compute. reflexivity. Qed.
End ReceiptExample.

(** ** The getter *)

Definition dget (d : Receipt.dict) (k : string) : option PyObj :=
  snd <$> iter_find (fun row => String.eqb row.1 k) d.

Definition py_text (v : bytes) : PyObj := PyStr (Some (to_str v)).

Lemma dget_snoc d k x k' :
  dget (d ++ [(k, x)]) k' = opt_or (dget d k') (if String.eqb k k' then Some x else None).
Proof.
  unfold dget. rewrite iter_find_app. destruct (iter_find _ d); [done|]. cbn.
  by destruct (String.eqb k k').
Qed.

Lemma dget_put k v d k' :
  dget (Receipt.put k v d) k' = opt_or (dget d k') (if String.eqb k k' then py_text <$> v else None).
Proof.
  destruct v as [v|]; cbn [Receipt.put]; [apply dget_snoc|].
  by destruct (String.eqb k k'), (dget d k').
Qed.

Lemma opt_or_none {A} (o : option A) : opt_or o None = o.
Proof. by destruct o. Qed.

(** Case analysis on the key looked up. *)
Ltac by_key k :=
  repeat match goal with
         | |- context [String.eqb k ?s] =>
             destruct (String.eqb_spec k s) as [->|_]; [cbn; by rewrite ?opt_or_none|]
         end;
  by rewrite ?opt_or_none.

Lemma dget_fill self k :
  dget (Receipt.fill_dict self []) k =
    if String.eqb k "id" then py_text <$> Receipt.id self
    else if String.eqb k "sub" then py_text <$> Receipt.sub self
    else if String.eqb k "dlvrd" then py_text <$> Receipt.dlvrd self
    else if String.eqb k "submit_date" then py_text <$> Receipt.submit_date self
    else if String.eqb k "done_date" then py_text <$> Receipt.done_date self
    else if String.eqb k "stat" then py_text <$> Receipt.stat self
    else if String.eqb k "err" then py_text <$> Receipt.err self
    else if String.eqb k "text" then py_text <$> Receipt.text self
    else if String.eqb k "raw" then Some (py_text (Receipt.raw self))
    else None.
Proof.
  unfold Receipt.fill_dict. rewrite dget_snoc, !dget_put. rewrite !(String.eqb_sym _ k).
  by_key k.
Qed.

(** C23: what a script reads from [pdu.receipt]: nothing for a PDU that is not a
    delivery receipt, or that is one in neither form; otherwise each field of the
    text, and for [id] and [stat] the receipt parameters when the text has none
    (the text wins when it has), [message_state] exactly when the parameter is
    there, and the whole body as [raw].  It never panics. *)
Theorem receipt_spec `{Smpp34} self :
  exists parsed, Receipt.parse (body self) = Some parsed /\
  let tlv_id := receipted_message_id (Pdu.tlvs self) in
  let tlv_state := message_state (Pdu.tlvs self) in
  let text := default (Receipt.empty (from_utf8_lossy (body self))) parsed in
  if negb (is_dlr self) || (negb (is_some parsed) && negb (is_some tlv_id) && negb (is_some tlv_state))
  then receipt self = Some None
  else exists d, receipt self = Some (Some d) /\
    forall k, dget d k =
      if String.eqb k "id" then py_text <$> opt_or (Receipt.id text) (of_str <$> tlv_id)
      else if String.eqb k "stat"
      then py_text <$> opt_or (Receipt.stat text) (of_str <$> (tlv_state ≫= Receipt.message_state_name))
      else if String.eqb k "raw" then Some (py_text (from_utf8_lossy (body self)))
      else if String.eqb k "message_state" then PyInt <$> tlv_state
      else dget (Receipt.fill_dict text []) k.
Proof.
  destruct (parse_total (body self)) as (parsed & Hp & Hraw). exists parsed. split; [done|].
  cbn zeta. unfold receipt. destruct (is_dlr self); [|done]. rewrite Hp. cbn [negb orb mbind option_bind].
  set (tlv_id := receipted_message_id _). set (tlv_state := message_state _).
  assert (forall t, Receipt.raw t = from_utf8_lossy (body self) -> exists d,
    (let parsed := match Receipt.id t with None => Receipt.with_id t (of_str <$> tlv_id) | Some _ => t end in
     let parsed := match Receipt.stat parsed with
                   | None => Receipt.with_stat parsed (of_str <$> (tlv_state ≫= Receipt.message_state_name))
                   | Some _ => parsed
                   end in
     let d := Receipt.fill_dict parsed [] in
     Some (Some match tlv_state with Some state => d ++ [("message_state", PyInt state)] | None => d end))
    = Some (Some d) /\
    forall k, dget d k =
      if String.eqb k "id" then py_text <$> opt_or (Receipt.id t) (of_str <$> tlv_id)
      else if String.eqb k "stat"
      then py_text <$> opt_or (Receipt.stat t) (of_str <$> (tlv_state ≫= Receipt.message_state_name))
      else if String.eqb k "raw" then Some (py_text (from_utf8_lossy (body self)))
      else if String.eqb k "message_state" then PyInt <$> tlv_state
      else dget (Receipt.fill_dict t []) k) as Hd.
  { intros t Ht. cbn zeta. eexists. split; [done|]. intros k.
    assert (forall d, dget match tlv_state with Some state => d ++ [("message_state", PyInt state)] | None => d end k
      = opt_or (dget d k) (if String.eqb "message_state" k then PyInt <$> tlv_state else None)) as ->.
    { intros d. destruct tlv_state; [apply dget_snoc|]. by destruct (String.eqb _ k), (dget d k). }
    rewrite !dget_fill, <-Ht. destruct t as [id sub dl sd dd stat er tx raw].
    destruct id, stat; rewrite (String.eqb_sym "message_state" k); by_key k. }
  destruct parsed as [t|]; cbn [is_some negb andb default].
  - apply Hd. by apply Hraw.
  - destruct tlv_id, tlv_state; cbn [is_some negb andb orb]; try done; by apply Hd.
Qed.
