(* ===== verification/Sends.v ===== *)
(** * The send helpers: [sends.rs]

    Each helper checks its arguments at once and hands back a coroutine: here a
    [result PyErr] of a [task].  The keyword arguments of a helper are a record,
    whose [defaults] are the ones of its signature; the handle of the running
    service ([runtime::state()]) is an [option StateConfig]. *)

From S2P Require Import Prelude RustStr Py Status Smpp34 Tlv Pdu Async RateLimit Effects Metrics.
From S2P Require Import Outcome Dispatch Runtime.
#[local] Open Scope Z_scope.
#[local] Open Scope async_scope.

(** ** Checks on the body *)

Definition SHORT_MESSAGE_MAX : nat := 254.

Definition check_short_message (command : string) (len : nat) (payload_available : bool)
    : result PyErr unit :=
  if (len <=? SHORT_MESSAGE_MAX)%nat then Ok tt
  else Err (ValueError (ShortMessageTooLong command len payload_available)).

(** ** Responses *)

Module SmppResp.
Record t : Set := mk { command_status : string; command_status_code : Z; message_id : string }.

Definition ok (self : t) : bool := command_status_code self =? error_code ESME_ROK.
Definition throttled (self : t) : bool := is_throttle (command_status_code self).
(** [__bool__]. *)
Definition truthy (self : t) : bool := ok self.

Definition from_reply `{Smpp34} {R} `{Reply R} (reply : R) : t :=
  let status := reply_status reply in
  mk (status_name status) status (reply_message_id reply).

Definition written `{Smpp34} : t :=
  mk (status_name (error_code ESME_ROK)) (error_code ESME_ROK) "".
End SmppResp.

Module QueryResp.
Record t : Set := mk {
  command_status : string; command_status_code : Z; message_id : string;
  message_state : Z; final_date : string; error_code : Z;
}.

Definition ok (self : t) : bool := command_status_code self =? Status.error_code ESME_ROK.
Definition throttled (self : t) : bool := is_throttle (command_status_code self).
Definition truthy (self : t) : bool := ok self.

Definition from_reply `{Smpp34} (reply : query_sm_resp.t) : t :=
  let status := reply_status reply in
  mk (status_name status) status (query_sm_resp.message_id reply)
    (query_sm_resp.message_state reply) (query_sm_resp.final_date reply)
    (query_sm_resp.error_code reply).
End QueryResp.

(** ** Lookups *)

Record BindTarget : Type := mkBindTarget {
  bt_smsc : Arc SMSC.t; bt_throttle : option Limiter; bt_response_timer : Z;
}.

Definition find_bind (bind : string) (binds : list BindSession) : option BindTarget :=
  (fun b => mkBindTarget (bs_smsc b) (bs_throttle b) (bs_response_timer b))
    <$> iter_find (fun b => bool_decide (bs_name b = bind)) binds.

Definition bind_handle (bind : string) : task (result PyErr BindTarget) :=
  found <- trigger (LockBinds (reading (find_bind bind)));
  Ret (ok_or (KeyError (BindNotBound bind)) found).

Definition find_esme (session_id : string) (esmes : list EsmeSession) : option (Arc ESME.t * Z) :=
  (fun e => (es_esme e, es_response_timer e)) <$> iter_find (esme_is session_id) esmes.

Definition esme_handle (session_id : string) : task (result PyErr (Arc ESME.t * Z)) :=
  found <- trigger (LockEsmes (reading (find_esme session_id)));
  Ret (ok_or (KeyError (EsmeNotBound session_id)) found).

Definition pace (throttle : option Limiter) : task unit :=
  match throttle with
  | Some limiter =>
      waited <- acquire limiter;
      if (waited : bool) then record_throttled EGRESS else Ret tt
  | None => Ret tt
  end.

(** [.map_err(f)]. *)
Definition map_err {E E' A} (f : E -> E') (r : result E A) : result E' A :=
  match r with Ok a => Ok a | Err e => Err (f e) end.

Definition settle_on_bind {R} (target : BindTarget) (bind command : string)
    (send : task (result SmppError R)) : task (result PyErr R) :=
  r <- settle send (bt_response_timer target) (bind_gone (bt_smsc target));
  Ret (map_err (fun failure => into_pyerr failure command ("bind " +:+ debug_str bind)) r).

Definition settle_on_esme {R} (esme : Arc ESME.t) (response_timer : Z) (session_id command : string)
    (send : task (result SmppError R)) : task (result PyErr R) :=
  r <- settle send response_timer (esme_gone esme);
  Ret (map_err (fun failure => into_pyerr failure command ("session " +:+ debug_str session_id)) r).

Definition require_state (state : option StateConfig) : result PyErr StateConfig :=
  ok_or (RuntimeError RuntimeNotStarted) state.

Section Helpers.
Context `{Smpp34}.

(** ** [data_sm] construction *)

(** The parameters with the body folded in. *)
Definition fold_message_payload (command : string) (short_message : bytes) (tlvs : list Tlv)
    : result PyErr (list Tlv) :=
  if bool_decide (short_message = []) then Ok tlvs
  else if is_some (message_payload tlvs) then Err (ValueError (BodyGivenTwice command))
  else Ok (tlvs ++ [mkTlv (tag_u16 MessagePayload) short_message]).

Definition build_data_sm (service_type : string) (source_addr_ton source_addr_npi : Z)
    (source_addr : string) (dest_addr_ton dest_addr_npi : Z) (destination_addr : string)
    (esm_class registered_delivery data_coding : Z) (short_message : bytes) (tlvs : list Tlv)
    : result PyErr data_sm.t :=
  tlvs ← fold_message_payload "data_sm" short_message tlvs;
  Ok (data_sm.mk service_type source_addr_ton source_addr_npi source_addr dest_addr_ton
        dest_addr_npi destination_addr esm_class registered_delivery data_coding tlvs).

End Helpers.

(** ** Keyword arguments *)

Abbreviation PyDict := (option (list (PyObj * PyObj))).

(** [submit_via], [submit_multi_via] ([Dest] is the list of addresses) and
    [deliver_to]; [target] is the bind's name or the session's id. *)
Module MessageKw.
Record t (Dest : Type) : Type := mk {
  target : string;
  source_addr : string;
  destination : Dest;
  short_message : bytes;
  source_addr_ton : Z;
  source_addr_npi : Z;
  dest_addr_ton : Z;
  dest_addr_npi : Z;
  service_type : string;
  esm_class : Z;
  protocol_id : Z;
  priority_flag : Z;
  schedule_delivery_time : string;
  validity_period : string;
  registered_delivery : Z;
  replace_if_present_flag : Z;
  data_coding : Z;
  sm_default_msg_id : Z;
  tlvs : PyDict;
}.
#[global] Arguments mk {Dest}.
#[global] Arguments target {Dest} _.
#[global] Arguments source_addr {Dest} _.
#[global] Arguments destination {Dest} _.
#[global] Arguments short_message {Dest} _.
#[global] Arguments source_addr_ton {Dest} _.
#[global] Arguments source_addr_npi {Dest} _.
#[global] Arguments dest_addr_ton {Dest} _.
#[global] Arguments dest_addr_npi {Dest} _.
#[global] Arguments service_type {Dest} _.
#[global] Arguments esm_class {Dest} _.
#[global] Arguments protocol_id {Dest} _.
#[global] Arguments priority_flag {Dest} _.
#[global] Arguments schedule_delivery_time {Dest} _.
#[global] Arguments validity_period {Dest} _.
#[global] Arguments registered_delivery {Dest} _.
#[global] Arguments replace_if_present_flag {Dest} _.
#[global] Arguments data_coding {Dest} _.
#[global] Arguments sm_default_msg_id {Dest} _.
#[global] Arguments tlvs {Dest} _.

(** A call giving only the required arguments. *)
Definition defaults {Dest} (target source_addr : string) (destination : Dest)
    (short_message : bytes) : t Dest :=
  mk target source_addr destination short_message 1 1 1 1 "" 0 0 0 "" "" 0 0 0 0 None.
End MessageKw.

(** [data_via] and [data_to]. *)
Module DataKw.
Record t : Type := mk {
  target : string; source_addr : string; destination_addr : string; short_message : bytes;
  source_addr_ton : Z; source_addr_npi : Z; dest_addr_ton : Z; dest_addr_npi : Z;
  service_type : string; esm_class : Z; registered_delivery : Z; data_coding : Z; tlvs : PyDict;
}.
Definition defaults (target source_addr destination_addr : string) : t :=
  mk target source_addr destination_addr [] 1 1 1 1 "" 0 0 0 None.
End DataKw.

Module CancelKw.
Record t : Type := mk {
  bind : string; message_id : string; source_addr : string; destination_addr : string;
  service_type : string; source_addr_ton : Z; source_addr_npi : Z; dest_addr_ton : Z;
  dest_addr_npi : Z;
}.
Definition defaults (bind message_id : string) : t := mk bind message_id "" "" "" 1 1 1 1.
End CancelKw.

Module QueryKw.
Record t : Type := mk {
  bind : string; message_id : string; source_addr : string; source_addr_ton : Z;
  source_addr_npi : Z;
}.
Definition defaults (bind message_id : string) : t := mk bind message_id "" 1 1.
End QueryKw.

Module ReplaceKw.
Record t : Type := mk {
  bind : string; message_id : string; source_addr : string; source_addr_ton : Z;
  source_addr_npi : Z; schedule_delivery_time : string; validity_period : string;
  registered_delivery : Z; sm_default_msg_id : Z; short_message : bytes;
}.
Definition defaults (bind message_id : string) : t := mk bind message_id "" 1 1 "" "" 0 0 [].
End ReplaceKw.

Module AlertKw.
Record t : Type := mk {
  session_id : string; source_addr : string; esme_addr : string; source_addr_ton : Z;
  source_addr_npi : Z; esme_addr_ton : Z; esme_addr_npi : Z; ms_availability_status : option Z;
}.
Definition defaults (session_id source_addr esme_addr : string) : t :=
  mk session_id source_addr esme_addr 1 1 1 1 None.
End AlertKw.

(** ** The helpers *)

Section Calls.
Context `{Smpp34}.

(** Put a PDU the codec builds on a session; its constructor's assertion is a
    panic. *)
Definition send_built {P R} (built : option P) (req : P -> request (result SmppError R))
    : task (result SmppError R) :=
  match built with
  | Some pdu => trigger (Request (req pdu))
  | None => panic
  end.

Definition submit_pdu (kw : MessageKw.t string) (tlvs : list Tlv) : submit_sm.t := {|
  submit_sm.service_type := MessageKw.service_type kw;
  submit_sm.source_addr_ton := MessageKw.source_addr_ton kw;
  submit_sm.source_addr_npi := MessageKw.source_addr_npi kw;
  submit_sm.source_addr := MessageKw.source_addr kw;
  submit_sm.dest_addr_ton := MessageKw.dest_addr_ton kw;
  submit_sm.dest_addr_npi := MessageKw.dest_addr_npi kw;
  submit_sm.destination_addr := MessageKw.destination kw;
  submit_sm.esm_class := MessageKw.esm_class kw;
  submit_sm.protocol_id := MessageKw.protocol_id kw;
  submit_sm.priority_flag := MessageKw.priority_flag kw;
  submit_sm.schedule_delivery_time := MessageKw.schedule_delivery_time kw;
  submit_sm.validity_period := MessageKw.validity_period kw;
  submit_sm.registered_delivery := MessageKw.registered_delivery kw;
  submit_sm.replace_if_present_flag := MessageKw.replace_if_present_flag kw;
  submit_sm.data_coding := MessageKw.data_coding kw;
  submit_sm.sm_default_msg_id := MessageKw.sm_default_msg_id kw;
  submit_sm.sm_length := 0;
  submit_sm.short_message := MessageKw.short_message kw;
  submit_sm.tlvs := tlvs;
|}.

Definition submit_via (state : option StateConfig) (kw : MessageKw.t string)
    : result PyErr (task (result PyErr SmppResp.t)) :=
  state ← require_state state;
  _ ← check_short_message "submit_sm" (length (MessageKw.short_message kw)) true;
  tlvs ← tlvs_from_py (MessageKw.tlvs kw);
  let bind := MessageKw.target kw in
  Ok (target <-? bind_handle bind;
      pace (bt_throttle target) ;;
      let send := send_built (submit_sm_build (submit_pdu kw tlvs)) (ReqSubmit (bt_smsc target)) in
      resp <-? settle_on_bind target bind "submit_sm" send;
      Ret (Ok (SmppResp.from_reply resp)))%async.

Definition submit_multi_pdu (kw : MessageKw.t (list string)) (dest_addresses : list DestAddress)
    (tlvs : list Tlv) : submit_sm_multi.t := {|
  submit_sm_multi.service_type := MessageKw.service_type kw;
  submit_sm_multi.source_addr_ton := MessageKw.source_addr_ton kw;
  submit_sm_multi.source_addr_npi := MessageKw.source_addr_npi kw;
  submit_sm_multi.source_addr := MessageKw.source_addr kw;
  submit_sm_multi.dest_addresses := dest_addresses;
  submit_sm_multi.esm_class := MessageKw.esm_class kw;
  submit_sm_multi.protocol_id := MessageKw.protocol_id kw;
  submit_sm_multi.priority_flag := MessageKw.priority_flag kw;
  submit_sm_multi.schedule_delivery_time := MessageKw.schedule_delivery_time kw;
  submit_sm_multi.validity_period := MessageKw.validity_period kw;
  submit_sm_multi.registered_delivery := MessageKw.registered_delivery kw;
  submit_sm_multi.replace_if_present_flag := MessageKw.replace_if_present_flag kw;
  submit_sm_multi.data_coding := MessageKw.data_coding kw;
  submit_sm_multi.sm_default_msg_id := MessageKw.sm_default_msg_id kw;
  submit_sm_multi.sm_length := 0;
  submit_sm_multi.short_message := MessageKw.short_message kw;
  submit_sm_multi.tlvs := tlvs;
|}.

Definition submit_multi_via (state : option StateConfig) (kw : MessageKw.t (list string))
    : result PyErr (task (result PyErr SmppResp.t)) :=
  state ← require_state state;
  _ ← check_short_message "submit_sm_multi" (length (MessageKw.short_message kw)) true;
  tlvs ← tlvs_from_py (MessageKw.tlvs kw);
  let dest_addresses :=
    Sme (MessageKw.dest_addr_ton kw) (MessageKw.dest_addr_npi kw) <$> MessageKw.destination kw in
  if (254 <? length dest_addresses)%nat
  then Err (ValueError (TooManyDestinations (length dest_addresses)))
  else
    let bind := MessageKw.target kw in
    Ok (target <-? bind_handle bind;
        pace (bt_throttle target) ;;
        match submit_sm_multi_build (submit_multi_pdu kw dest_addresses tlvs) with
        | None => panic
        | Some pdu =>
            let send := trigger (Request (ReqSubmitMulti (bt_smsc target) pdu)) in
            resp <-? settle_on_bind target bind "submit_sm_multi" send;
            Ret (Ok (SmppResp.from_reply resp))
        end)%async.

Definition data_pdu (kw : DataKw.t) : result PyErr data_sm.t :=
  tlvs ← tlvs_from_py (DataKw.tlvs kw);
  build_data_sm (DataKw.service_type kw) (DataKw.source_addr_ton kw) (DataKw.source_addr_npi kw)
    (DataKw.source_addr kw) (DataKw.dest_addr_ton kw) (DataKw.dest_addr_npi kw)
    (DataKw.destination_addr kw) (DataKw.esm_class kw) (DataKw.registered_delivery kw)
    (DataKw.data_coding kw) (DataKw.short_message kw) tlvs.

Definition data_via (state : option StateConfig) (kw : DataKw.t)
    : result PyErr (task (result PyErr SmppResp.t)) :=
  state ← require_state state;
  pdu ← data_pdu kw;
  let bind := DataKw.target kw in
  Ok (target <-? bind_handle bind;
      pace (bt_throttle target) ;;
      let send := trigger (Request (ReqDataVia (bt_smsc target) pdu)) in
      resp <-? settle_on_bind target bind "data_sm" send;
      Ret (Ok (SmppResp.from_reply resp)))%async.

Definition cancel_pdu (kw : CancelKw.t) : cancel_sm.t :=
  cancel_sm.mk (CancelKw.service_type kw) (CancelKw.message_id kw) (CancelKw.source_addr_ton kw)
    (CancelKw.source_addr_npi kw) (CancelKw.source_addr kw) (CancelKw.dest_addr_ton kw)
    (CancelKw.dest_addr_npi kw) (CancelKw.destination_addr kw).

Definition cancel_via (state : option StateConfig) (kw : CancelKw.t)
    : result PyErr (task (result PyErr SmppResp.t)) :=
  state ← require_state state;
  let bind := CancelKw.bind kw in
  Ok (target <-? bind_handle bind;
      let send := trigger (Request (ReqCancel (bt_smsc target) (cancel_pdu kw))) in
      resp <-? settle_on_bind target bind "cancel_sm" send;
      Ret (Ok (SmppResp.from_reply resp)))%async.

Definition query_pdu (kw : QueryKw.t) : query_sm.t :=
  query_sm.mk (QueryKw.message_id kw) (QueryKw.source_addr_ton kw) (QueryKw.source_addr_npi kw)
    (QueryKw.source_addr kw).

Definition query_via (state : option StateConfig) (kw : QueryKw.t)
    : result PyErr (task (result PyErr QueryResp.t)) :=
  state ← require_state state;
  let bind := QueryKw.bind kw in
  Ok (target <-? bind_handle bind;
      let send := trigger (Request (ReqQuery (bt_smsc target) (query_pdu kw))) in
      resp <-? settle_on_bind target bind "query_sm" send;
      Ret (Ok (QueryResp.from_reply resp)))%async.

Definition replace_pdu (kw : ReplaceKw.t) : replace_sm.t :=
  replace_sm.mk (ReplaceKw.message_id kw) (ReplaceKw.source_addr_ton kw)
    (ReplaceKw.source_addr_npi kw) (ReplaceKw.source_addr kw) (ReplaceKw.schedule_delivery_time kw)
    (ReplaceKw.validity_period kw) (ReplaceKw.registered_delivery kw)
    (ReplaceKw.sm_default_msg_id kw) 0 (ReplaceKw.short_message kw).

Definition replace_via (state : option StateConfig) (kw : ReplaceKw.t)
    : result PyErr (task (result PyErr SmppResp.t)) :=
  state ← require_state state;
  _ ← check_short_message "replace_sm" (length (ReplaceKw.short_message kw)) false;
  let bind := ReplaceKw.bind kw in
  Ok (target <-? bind_handle bind;
      let send := send_built (replace_sm_build (replace_pdu kw)) (ReqReplace (bt_smsc target)) in
      resp <-? settle_on_bind target bind "replace_sm" send;
      Ret (Ok (SmppResp.from_reply resp)))%async.

Definition deliver_pdu (kw : MessageKw.t string) (tlvs : list Tlv) : deliver_sm.t := {|
  deliver_sm.service_type := MessageKw.service_type kw;
  deliver_sm.source_addr_ton := MessageKw.source_addr_ton kw;
  deliver_sm.source_addr_npi := MessageKw.source_addr_npi kw;
  deliver_sm.source_addr := MessageKw.source_addr kw;
  deliver_sm.dest_addr_ton := MessageKw.dest_addr_ton kw;
  deliver_sm.dest_addr_npi := MessageKw.dest_addr_npi kw;
  deliver_sm.destination_addr := MessageKw.destination kw;
  deliver_sm.esm_class := MessageKw.esm_class kw;
  deliver_sm.protocol_id := MessageKw.protocol_id kw;
  deliver_sm.priority_flag := MessageKw.priority_flag kw;
  deliver_sm.schedule_delivery_time := MessageKw.schedule_delivery_time kw;
  deliver_sm.validity_period := MessageKw.validity_period kw;
  deliver_sm.registered_delivery := MessageKw.registered_delivery kw;
  deliver_sm.replace_if_present_flag := MessageKw.replace_if_present_flag kw;
  deliver_sm.data_coding := MessageKw.data_coding kw;
  deliver_sm.sm_default_msg_id := MessageKw.sm_default_msg_id kw;
  deliver_sm.sm_length := 0;
  deliver_sm.short_message := MessageKw.short_message kw;
  deliver_sm.tlvs := tlvs;
|}.

Definition deliver_to (state : option StateConfig) (kw : MessageKw.t string)
    : result PyErr (task (result PyErr SmppResp.t)) :=
  state ← require_state state;
  _ ← check_short_message "deliver_sm" (length (MessageKw.short_message kw)) true;
  tlvs ← tlvs_from_py (MessageKw.tlvs kw);
  let session_id := MessageKw.target kw in
  Ok (found <-? esme_handle session_id;
      let '(esme, response_timer) := (found : Arc ESME.t * Z) in
      if negb (ESME.can_receive (get esme))
      then Ret (Err (RuntimeError (SessionCannotReceive session_id "deliver_sm")))
      else
        let send := send_built (deliver_sm_build (deliver_pdu kw tlvs)) (ReqDeliver esme) in
        resp <-? settle_on_esme esme response_timer session_id "deliver_sm" send;
        Ret (Ok (SmppResp.from_reply resp)))%async.

Definition data_to (state : option StateConfig) (kw : DataKw.t)
    : result PyErr (task (result PyErr SmppResp.t)) :=
  state ← require_state state;
  pdu ← data_pdu kw;
  let session_id := DataKw.target kw in
  Ok (found <-? esme_handle session_id;
      let '(esme, response_timer) := (found : Arc ESME.t * Z) in
      let send := trigger (Request (ReqDataTo esme pdu)) in
      resp <-? settle_on_esme esme response_timer session_id "data_sm" send;
      Ret (Ok (SmppResp.from_reply resp)))%async.

Definition alert_to (state : option StateConfig) (kw : AlertKw.t)
    : result PyErr (task (result PyErr SmppResp.t)) :=
  state ← require_state state;
  let session_id := AlertKw.session_id kw in
  Ok (found <-? esme_handle session_id;
      let '(esme, _) := (found : Arc ESME.t * Z) in
      if negb (ESME.can_receive (get esme))
      then Ret (Err (RuntimeError (SessionCannotReceive session_id "alert_notification")))
      else
        trigger (Request (ReqAlert esme (AlertKw.source_addr_ton kw) (AlertKw.source_addr_npi kw)
                            (AlertKw.source_addr kw) (AlertKw.esme_addr_ton kw)
                            (AlertKw.esme_addr_npi kw) (AlertKw.esme_addr kw)
                            (AlertKw.ms_availability_status kw))) ;;
        Ret (Ok SmppResp.written))%async.

End Calls.

(** Take apart the checks a helper makes before it returns its coroutine. *)
Ltac checks Hok :=
  let u := fresh "st" in let E := fresh "Hst" in
  apply result_bind_ok in Hok as (u & E & Hok); clear E;
  repeat (let v := fresh "v" in let Hc := fresh "Hc" in
          apply result_bind_ok in Hok as (v & Hc & Hok)).

(** ** What a helper puts on the wire *)

Inductive sent : Type :=
| Sent {R} (r : request R) (answer : R).

Definition request_of (ev : event eff) : list sent :=
  match ev with
  | @Ev _ X e x =>
      match e in eff X return X -> list sent with
      | Request r => fun x => [Sent r x]
      | _ => fun _ => []
      end x
  end.
Definition requests (tr : trace eff) : list sent := tr ≫= request_of.

Lemma requests_app tr1 tr2 : requests (tr1 ++ tr2) = requests tr1 ++ requests tr2.
Proof. apply bind_app. Qed.
#[local] Hint Rewrite requests_app : trace.

Definition no_request X (e : eff X) : Prop := match e with Request _ => False | _ => True end.

Lemma no_request_runs {A} (p : task A) tr a : always no_request p -> runs p tr a -> requests tr = [].
Proof.
  intros Hp Hr. pose proof (always_runs _ _ _ _ Hp Hr) as H. clear Hr.
  induction H as [|[X e x] tr He _ IH]; [done|].
  change (Ev e x :: tr) with ([Ev e x] ++ tr). rewrite requests_app, IH. by destruct e.
Qed.

Lemma pace_no_request throttle : always no_request (pace throttle).
Proof. destruct throttle; [|done]. unfold pace, acquire. autounfold with metrics. always_tac. Qed.

(** A settled request: one PDU, and its answer reported or classified. *)
Lemma settle_exchange {R} (req : request (result SmppError R)) timer gone tr r :
  always no_request gone ->
  runs (settle (trigger (Request req)) timer gone) tr r ->
  exists answer, requests tr = [Sent req answer] /\
    match answer with
    | Ok resp => r = Ok resp
    | Err e => exists waited session_gone, r = Err (classify e waited timer session_gone)
    end.
Proof.
  intros Hg Hr. unfold settle in Hr. run_step. run_step. run_step. run_step.
  match goal with H : runs (match ?a with _ => _ end) _ _ |- _ => rename a into answer end.
  exists answer. autorewrite with trace. destruct answer as [resp|e]; repeat run_step; [done|].
  match goal with H : runs gone _ _ |- _ => apply (no_request_runs _ _ _ Hg) in H as Hq end.
  autorewrite with trace. rewrite Hq. eauto.
Qed.

Section Contracts.
Context `{Smpp34}.

(** [tr] starts by reading the registry of binds, and goes on as [after] says,
    given whichever list the registry then held. *)
Definition on_binds (tr : trace eff) (after : list BindSession -> trace eff -> Prop) : Prop :=
  exists X (read : list BindSession -> list BindSession * X) x tr',
    tr = Ev (LockBinds read) x :: tr' /\ (forall binds, (read binds).1 = binds) /\
    forall binds, x = (read binds).2 -> after binds tr'.

Definition on_esmes (tr : trace eff) (after : list EsmeSession -> trace eff -> Prop) : Prop :=
  exists X (read : list EsmeSession -> list EsmeSession * X) x tr',
    tr = Ev (LockEsmes read) x :: tr' /\ (forall esmes, (read esmes).1 = esmes) /\
    forall esmes, x = (read esmes).2 -> after esmes tr'.

Definition bound_as (bind : string) (b : BindSession) : Prop := bs_name b = bind.
Definition bound_under (session_id : string) (e : EsmeSession) : Prop :=
  ESME.session_id (get (es_esme e)) = session_id.

(** What a helper that targets a bind does: it looks at the registry once; when no
    session there has the name, it refuses and sends nothing; or else, on the
    first session of that name, it waits for the bind's pace when it is [paced],
    then sends exactly one request and reports its answer: the response as the
    peer sent it, or the failure the codec's error means. *)
Definition via_contract {R Out} (bind command : string) (paced : bool)
    (req : Arc SMSC.t -> request (result SmppError R)) (report : R -> Out)
    (p : task (result PyErr Out)) : Prop :=
  forall tr res, runs p tr res -> on_binds tr (fun binds tr =>
    ((forall b, b ∈ binds -> ~ bound_as bind b) /\
       requests tr = [] /\ res = Err (KeyError (BindNotBound bind))) \/
    (exists b answer tr1 tr2,
       first_such (bound_as bind) binds b /\ tr = tr1 ++ tr2 /\
       runs (if paced then pace (bs_throttle b) else Ret tt) tr1 tt /\
       requests tr1 = [] /\
       requests tr2 = [Sent (req (bs_smsc b)) answer] /\
       match answer with
       | Ok resp => res = Ok (report resp)
       | Err e => exists waited gone,
           res = Err (into_pyerr (classify e waited (bs_response_timer b) gone) command
                        ("bind " +:+ debug_str bind))
       end)).

(** The same for a session that bound to us: the first of that id, which is only
    sent what it can receive. *)
Definition to_contract {R Out} (session_id command : string) (receives : bool)
    (req : Arc ESME.t -> request (result SmppError R)) (report : R -> Out)
    (p : task (result PyErr Out)) : Prop :=
  forall tr res, runs p tr res -> on_esmes tr (fun esmes tr =>
    ((forall e, e ∈ esmes -> ~ bound_under session_id e) /\
       requests tr = [] /\ res = Err (KeyError (EsmeNotBound session_id))) \/
    (exists e, first_such (bound_under session_id) esmes e /\
       if receives && negb (ESME.can_receive (get (es_esme e)))
       then requests tr = [] /\ res = Err (RuntimeError (SessionCannotReceive session_id command))
       else exists answer,
         requests tr = [Sent (req (es_esme e)) answer] /\
         match answer with
         | Ok resp => res = Ok (report resp)
         | Err err => exists waited gone,
             res = Err (into_pyerr (classify err waited (es_response_timer e) gone) command
                          ("session " +:+ debug_str session_id))
         end)).

Lemma find_bind_cases bind binds :
  match find_bind bind binds with
  | Some t => exists b, first_such (bound_as bind) binds b /\
      t = mkBindTarget (bs_smsc b) (bs_throttle b) (bs_response_timer b)
  | None => forall b, b ∈ binds -> ~ bound_as bind b
  end.
Proof.
  unfold find_bind. pose proof (iter_find_cases (fun b => bs_name b = bind) binds) as H'.
  destruct (iter_find _ binds) as [b|]; cbn; [by exists b|exact H'].
Qed.

Lemma find_esme_cases session_id esmes :
  match find_esme session_id esmes with
  | Some t => exists e, first_such (bound_under session_id) esmes e /\ t = (es_esme e, es_response_timer e)
  | None => forall e, e ∈ esmes -> ~ bound_under session_id e
  end.
Proof.
  unfold find_esme, esme_is.
  pose proof (iter_find_cases (fun e => ESME.session_id (get (es_esme e)) = session_id) esmes) as H'.
  destruct (iter_find _ esmes) as [e|]; cbn; [by exists e|exact H'].
Qed.

(** The shape all the [*_via] coroutines have. *)
Lemma via_contract_intro {R Out} bind command paced (req : Arc SMSC.t -> request (result SmppError R))
    (report : R -> Out) :
  via_contract bind command paced req report
    (target <-? bind_handle bind;
     (if paced then pace (bt_throttle target) else Ret tt) ;;
     resp <-? settle_on_bind target bind command (trigger (Request (req (bt_smsc target))));
     Ret (Ok (report resp)))%async.
Proof.
  intros tr res Hr. unfold bind_handle in Hr. run_step. run_step. run_step. run_step. run_step.
  eexists _, _, _, _. split; [reflexivity|]. split; [done|].
  intros binds Hb. cbn [reading snd] in Hb. subst. pose proof (find_bind_cases bind binds) as Hf.
  destruct (find_bind bind binds) as [t|]; cbn [ok_or] in *;
    [right; destruct Hf as (b & Hfirst & ->)|left; by repeat run_step].
  cbn [bt_throttle bt_smsc bt_response_timer] in *.
  unfold settle_on_bind in *. run_step. run_step. run_step. run_step.
  match goal with H : runs (settle _ _ _) _ _ |- _ =>
    apply settle_exchange in H as (answer & Hq & Ha); [|by always_tac] end.
  all: match goal with a : unit |- _ => destruct a end.
  rewrite !app_nil_r. match goal with |- context [?tr ++ ?tr' ++ ?tr''] =>
    exists b, answer, tr, (tr' ++ tr'') end.
  split; [done|]. split; [done|]. split; [by destruct paced|].
  split; [eapply no_request_runs; [|eassumption]; destruct paced; [apply pace_no_request|done]|].
  destruct answer as [resp|e]; [subst|destruct Ha as (waited & gone & ->)];
    cbn [map_err] in *; repeat run_step; rewrite app_nil_r; split; eauto.
Qed.

Lemma to_contract_intro {R Out} session_id command receives
    (req : Arc ESME.t -> request (result SmppError R)) (report : R -> Out) :
  to_contract session_id command receives req report
    (found <-? esme_handle session_id;
     let '(esme, response_timer) := (found : Arc ESME.t * Z) in
     if receives && negb (ESME.can_receive (get esme))
     then Ret (Err (RuntimeError (SessionCannotReceive session_id command)))
     else
       resp <-? settle_on_esme esme response_timer session_id command (trigger (Request (req esme)));
       Ret (Ok (report resp)))%async.
Proof.
  intros tr res Hr. unfold esme_handle in Hr. run_step. run_step. run_step. run_step. run_step.
  eexists _, _, _, _. split; [reflexivity|]. split; [done|].
  intros esmes He. cbn [reading snd] in He. subst. pose proof (find_esme_cases session_id esmes) as Hf.
  destruct (find_esme session_id esmes) as [t|]; cbn [ok_or] in *;
    [right; destruct Hf as (e & Hfirst & ->); exists e; split; [done|]|left; by repeat run_step].
  destruct (receives && _); [repeat run_step; done|].
  unfold settle_on_esme in *. run_step. run_step. run_step.
  match goal with H : runs (settle _ _ _) _ _ |- _ =>
    apply settle_exchange in H as (answer & Hq & Ha); [|by always_tac] end.
  exists answer. autorewrite with trace. rewrite Hq.
  destruct answer as [resp|err]; [subst|destruct Ha as (waited & gone & ->)];
    cbn [map_err] in *; repeat run_step; split; eauto.
Qed.

Context `{!Smpp34Laws}.

Lemma check_short_message_ok command len avail u :
  check_short_message command len avail = Ok u -> (len <=? 254)%nat = true.
Proof. unfold check_short_message, SHORT_MESSAGE_MAX. by destruct (len <=? 254)%nat. Qed.

Lemma submit_build kw tlvs u :
  check_short_message "submit_sm" (length (MessageKw.short_message kw)) true = Ok u ->
  submit_sm_build (submit_pdu kw tlvs) = Some (submit_sm.with_length (submit_pdu kw tlvs)).
Proof. intros Hc%check_short_message_ok. rewrite submit_sm_build_spec. cbn. by rewrite Hc. Qed.

Lemma deliver_build kw tlvs u :
  check_short_message "deliver_sm" (length (MessageKw.short_message kw)) true = Ok u ->
  deliver_sm_build (deliver_pdu kw tlvs) = Some (deliver_sm.with_length (deliver_pdu kw tlvs)).
Proof. intros Hc%check_short_message_ok. rewrite deliver_sm_build_spec. cbn. by rewrite Hc. Qed.

Lemma replace_build kw u :
  check_short_message "replace_sm" (length (ReplaceKw.short_message kw)) false = Ok u ->
  replace_sm_build (replace_pdu kw) = Some (replace_sm.with_length (replace_pdu kw)).
Proof. intros Hc%check_short_message_ok. rewrite replace_sm_build_spec. cbn. by rewrite Hc. Qed.

Definition sme_list (kw : MessageKw.t (list string)) : list DestAddress :=
  Sme (MessageKw.dest_addr_ton kw) (MessageKw.dest_addr_npi kw) <$> MessageKw.destination kw.

Lemma multi_build kw tlvs u :
  check_short_message "submit_sm_multi" (length (MessageKw.short_message kw)) true = Ok u ->
  (254 <? length (sme_list kw))%nat = false ->
  submit_sm_multi_build (submit_multi_pdu kw (sme_list kw) tlvs)
  = Some (submit_sm_multi.with_length (submit_multi_pdu kw (sme_list kw) tlvs)).
Proof.
  intros Hc%check_short_message_ok Hd%Nat.ltb_ge%Nat.leb_le. rewrite submit_sm_multi_build_spec.
  cbn [submit_multi_pdu submit_sm_multi.short_message submit_sm_multi.dest_addresses].
  by rewrite Hc, Hd.
Qed.

(** C2: what every [*_via] helper does once its arguments are accepted: it sends
    the PDU its arguments describe (with the length its body gives it) on the
    first session bound under the name, once, after the bind's pace for the
    message-carrying ones; and reports that one answer. *)
Theorem via_reported state :
  (forall kw p, submit_via state kw = Ok p -> exists tlvs, tlvs_from_py (MessageKw.tlvs kw) = Ok tlvs /\
     via_contract (MessageKw.target kw) "submit_sm" true
       (fun s => ReqSubmit s (submit_sm.with_length (submit_pdu kw tlvs))) SmppResp.from_reply p) /\
  (forall kw p, submit_multi_via state kw = Ok p -> exists tlvs, tlvs_from_py (MessageKw.tlvs kw) = Ok tlvs /\
     via_contract (MessageKw.target kw) "submit_sm_multi" true
       (fun s => ReqSubmitMulti s (submit_sm_multi.with_length (submit_multi_pdu kw (sme_list kw) tlvs)))
       SmppResp.from_reply p) /\
  (forall kw p, data_via state kw = Ok p -> exists pdu, data_pdu kw = Ok pdu /\
     via_contract (DataKw.target kw) "data_sm" true (fun s => ReqDataVia s pdu) SmppResp.from_reply p) /\
  (forall kw p, cancel_via state kw = Ok p ->
     via_contract (CancelKw.bind kw) "cancel_sm" false (fun s => ReqCancel s (cancel_pdu kw))
       SmppResp.from_reply p) /\
  (forall kw p, query_via state kw = Ok p ->
     via_contract (QueryKw.bind kw) "query_sm" false (fun s => ReqQuery s (query_pdu kw))
       QueryResp.from_reply p) /\
  (forall kw p, replace_via state kw = Ok p ->
     via_contract (ReplaceKw.bind kw) "replace_sm" false
       (fun s => ReqReplace s (replace_sm.with_length (replace_pdu kw))) SmppResp.from_reply p).
Proof.
  repeat apply conj; intros kw p Hok.
  - unfold submit_via in Hok. checks Hok. exists v0. split; [done|]. injection Hok as <-.
    rewrite (submit_build _ _ _ Hc). cbn [send_built].
    exact (via_contract_intro _ _ true (fun s => ReqSubmit s _) _).
  - unfold submit_multi_via in Hok. checks Hok. exists v0. split; [done|]. fold (sme_list kw) in Hok.
    destruct (254 <? _)%nat eqn:Hd; [done|]. injection Hok as <-. rewrite (multi_build _ _ _ Hc Hd).
    exact (via_contract_intro _ _ true (fun s => ReqSubmitMulti s _) _).
  - unfold data_via in Hok. checks Hok. exists v. split; [done|]. injection Hok as <-.
    exact (via_contract_intro _ _ true (fun s => ReqDataVia s _) _).
  - unfold cancel_via in Hok. checks Hok. injection Hok as <-.
    exact (via_contract_intro _ _ false (fun s => ReqCancel s _) _).
  - unfold query_via in Hok. checks Hok. injection Hok as <-.
    exact (via_contract_intro _ _ false (fun s => ReqQuery s _) _).
  - unfold replace_via in Hok. checks Hok. injection Hok as <-. rewrite (replace_build _ _ Hc).
    exact (via_contract_intro _ _ false (fun s => ReqReplace s _) _).
Qed.

(** C17: what every [*_to] helper does once its arguments are accepted: it sends to
    the first session bound under the id, and [deliver_sm] and
    [alert_notification] only to a session that can receive; a request's one
    answer is reported, and an alert, which has none, counts as accepted once
    written. *)
Theorem to_reported state :
  (forall kw p, deliver_to state kw = Ok p -> exists tlvs, tlvs_from_py (MessageKw.tlvs kw) = Ok tlvs /\
     to_contract (MessageKw.target kw) "deliver_sm" true
       (fun e => ReqDeliver e (deliver_sm.with_length (deliver_pdu kw tlvs))) SmppResp.from_reply p) /\
  (forall kw p, data_to state kw = Ok p -> exists pdu, data_pdu kw = Ok pdu /\
     to_contract (DataKw.target kw) "data_sm" false (fun e => ReqDataTo e pdu) SmppResp.from_reply p) /\
  (forall kw p, alert_to state kw = Ok p -> forall tr res, runs p tr res ->
     let session_id := AlertKw.session_id kw in
     on_esmes tr (fun esmes tr =>
       ((forall e, e ∈ esmes -> ~ bound_under session_id e) /\
          requests tr = [] /\ res = Err (KeyError (EsmeNotBound session_id))) \/
       (exists e, first_such (bound_under session_id) esmes e /\
          if ESME.can_receive (get (es_esme e))
          then requests tr =
                 [Sent (ReqAlert (es_esme e) (AlertKw.source_addr_ton kw) (AlertKw.source_addr_npi kw)
                          (AlertKw.source_addr kw) (AlertKw.esme_addr_ton kw)
                          (AlertKw.esme_addr_npi kw) (AlertKw.esme_addr kw)
                          (AlertKw.ms_availability_status kw)) tt] /\
               exists resp, res = Ok resp /\ SmppResp.ok resp = true
          else requests tr = [] /\
               res = Err (RuntimeError (SessionCannotReceive session_id "alert_notification"))))).
Proof.
  repeat apply conj; intros kw p Hok.
  - unfold deliver_to in Hok. checks Hok. exists v0. split; [done|]. injection Hok as <-.
    rewrite (deliver_build _ _ _ Hc). cbn [send_built].
    exact (to_contract_intro _ _ true (fun e => ReqDeliver e _) _).
  - unfold data_to in Hok. checks Hok. exists v. split; [done|]. injection Hok as <-.
    exact (to_contract_intro _ _ false (fun e => ReqDataTo e _) _).
  - unfold alert_to in Hok. checks Hok. injection Hok as <-. intros tr res Hr session_id.
    unfold esme_handle in Hr. run_step. run_step. run_step. run_step. run_step.
    eexists _, _, _, _. split; [reflexivity|]. split; [done|].
    intros esmes He. cbn [reading snd] in He. subst. pose proof (find_esme_cases session_id esmes) as Hf.
    unfold session_id in *. destruct (find_esme _ esmes) as [t|]; cbn [ok_or] in *;
      [right; destruct Hf as (e & Hfirst & ->); exists e; split; [done|]|left; by repeat run_step].
    destruct (ESME.can_receive (get (es_esme e))) eqn:E; cbn [negb] in *; [|repeat run_step; done].
    match goal with H : runs (Vis _ _) _ _ |- _ => destruct H as ([] & ? & -> & -> & ->) end.
    split; [done|]. by eexists.
Qed.

Lemma always_settle {R} (P : forall X, eff X -> Prop) (send : task (result SmppError R)) timer gone :
  P _ Now -> always P send -> always P gone -> always P (settle send timer gone).
Proof. intros HN Hs Hg. unfold settle. always_tac. Qed.

(** C36: a [data_sm]'s body is neither lost nor doubled: given both as
    [short_message=] and as the payload parameter it is refused, and otherwise the
    receiving script reads from [pdu.body] exactly what was given either way. *)
Theorem data_body_carried kw tlvs :
  tlvs_from_py (DataKw.tlvs kw) = Ok tlvs ->
  let given := DataKw.short_message kw in
  match data_pdu kw with
  | Ok pdu => (given = [] \/ message_payload tlvs = None) /\
      body (from_data pdu) = if bool_decide (given = []) then default [] (message_payload tlvs) else given
  | Err e => e = ValueError (BodyGivenTwice "data_sm") /\ given <> [] /\ is_Some (message_payload tlvs)
  end.
Proof.
  intros Ht. unfold data_pdu, build_data_sm, fold_message_payload. rewrite Ht. cbn [mbind result_bind].
  assert (NoDup (tag <$> tlvs)) as Hnd.
  { unfold tlvs_from_py in Ht. destruct (DataKw.tlvs kw) as [items|]; [|injection Ht as <-; constructor].
    apply tlvs_from_items_ok in Ht as (_ & _ & ? & _); [done|constructor]. }
  case_bool_decide as E; cbn [result_bind mbind].
  - split; [by left|]. unfold body. cbn [Pdu.tlvs from_data data_sm.tlvs Pdu.short_message].
    by destruct (message_payload tlvs).
  - destruct (message_payload tlvs) as [b|] eqn:Hp; cbn [is_some mbind result_bind]; [by eauto|].
    split; [by right|]. unfold body. cbn [Pdu.tlvs from_data data_sm.tlvs].
    rewrite message_payload_first in Hp by done. unfold first_tlv in Hp.
    assert (tag_u16 MessagePayload ∉ tag <$> tlvs) as Hfresh.
    { destruct (iter_find _ tlvs) as [x|] eqn:F; [done|]. apply iter_find_none in F.
      rewrite list.Forall_forall in F. intros (x & Hx & Hin)%list_elem_of_fmap. apply F in Hin. lia. }
    rewrite message_payload_first.
    + unfold first_tlv. rewrite iter_find_app. destruct (iter_find _ tlvs); [done|].
      cbn. by rewrite Z.eqb_refl.
    + rewrite fmap_app. by apply NoDup_snoc.
Qed.

(** C22: a status travels from script to script: what the serving script names in
    [pdu.reply] is what the sending script reads back, by the same name, with
    [ok] exactly for ESME_ROK; a [submit_sm] also brings back the message id, when
    it was accepted. *)
Theorem status_end_to_end rs rd status mid tlvs :
  (forall r, reply (from_submit rs) status mid tlvs = Ok r ->
     let resp := SmppResp.from_reply (submit_sm_response rs r) in
     SmppResp.command_status resp = status /\
     SmppResp.ok resp = bool_decide (status = debug_name ESME_ROK) /\
     SmppResp.message_id resp = if SmppResp.ok resp then default "" mid else "") /\
  (forall r, reply (from_data rd) status mid tlvs = Ok r ->
     let resp := SmppResp.from_reply (data_sm_response rd r) in
     SmppResp.command_status resp = status /\
     SmppResp.ok resp = bool_decide (status = debug_name ESME_ROK)).
Proof.
  assert (forall e, status_name (error_code e) = debug_name e) as Hname.
  { intros e. unfold status_name. by rewrite from_command_status_known, Z.eqb_refl. }
  assert (forall e, (error_code e =? error_code ESME_ROK) = bool_decide (debug_name e = debug_name ESME_ROK)) as Hok.
  { by intros []. }
  assert (forall resp l, reply_status (with_resp_tlvs resp l) = reply_status resp) as Htlv.
  { intros resp l. unfold with_resp_tlvs. revert resp. induction l as [|x l IH]; intros resp; [done|].
    cbn [fold_left]. rewrite IH. cbn. by rewrite data_sm_push_tlv_resp. }
  split; intros r; unfold reply;
    intros (cs & Hcs%parse_smpp_status_ok & (l & _ & Hl)%result_bind_ok)%result_bind_ok; subst status;
    destruct (_ && _); try done; injection Hl as <-;
    unfold SmppResp.from_reply, SmppResp.ok, submit_sm_response, data_sm_response;
    cbn [PduReply.command_status PduReply.message_id PduReply.tlvs SmppResp.command_status
         SmppResp.command_status_code SmppResp.message_id]; rewrite ?Htlv.
  - case_bool_decide as E; [subst cs; rewrite submit_sm_accept_resp|rewrite submit_sm_reject_resp];
      cbn [reply_status Reply_submit_sm_resp submit_sm_resp.command_status reply_message_id submit_sm_resp.message_id].
    + split; [exact (Hname ESME_ROK)|done].
    + rewrite Hname, Hok. repeat split. rewrite bool_decide_eq_false_2; [done|].
      intros Hd%debug_name_inj. done.
  - case_bool_decide as E; [subst cs; rewrite data_sm_accept_resp|rewrite data_sm_reject_resp];
      cbn [reply_status Reply_data_sm_resp data_sm_resp.command_status].
    + split; [exact (Hname ESME_ROK)|done].
    + by rewrite Hname, Hok.
Qed.

End Contracts.

(** Once a helper's checks passed, the codec's constructors accept its PDU, so
    what is left to look at has no panic. *)
Ltac codec_accepts Hok :=
  lazymatch type of Hok with
  | context [(254 <? length (Sme ?t ?n <$> MessageKw.destination ?kw))%nat] =>
      change (Sme t n <$> MessageKw.destination kw) with (sme_list kw) in Hok;
      let Hd := fresh "Hd" in
      destruct (254 <? length (sme_list kw))%nat eqn:Hd; [discriminate|];
      match goal with Hc : check_short_message _ _ _ = Ok _ |- _ =>
        rewrite (multi_build _ _ _ Hc Hd) in Hok end
  | _ =>
      try match goal with Hc : check_short_message _ _ _ = Ok _ |- _ =>
        rewrite ?(submit_build _ _ _ Hc), ?(replace_build _ _ Hc), ?(deliver_build _ _ _ Hc) in Hok end
  end.

(** The coroutine a helper returned, from [Hok : submit_via .. = Ok p] and the
    like. *)
Ltac helper_body Hok :=
  unfold submit_via, submit_multi_via, data_via, cancel_via, query_via, replace_via, deliver_to,
    data_to, alert_to in Hok;
  checks Hok; codec_accepts Hok; injection Hok as <-.

(** ** Concrete calls *)

Module SendsExample.
#[local] Existing Instance Smpp34Example.codec.
#[local] Existing Instance Smpp34Example.codec_laws.

Definition cfg : StateConfig := mkStateConfig 0 Pace 30000000000.
Definition smsc : Arc SMSC.t := mkArc 7%nat (SMSC.mk "c1" "acme" "10.0.0.9").
Definition esme : Arc ESME.t := mkArc 8%nat (ESME.mk "s1" "acme" "10.0.0.1" true).
Definition target : BindTarget := mkBindTarget smsc None 30000000000.
Definition kw : MessageKw.t string := MessageKw.defaults "eu" "100" "200" (of_str "hi").

Lemma via_reported_witness : exists p tr,
  submit_via (Some cfg) kw = Ok p /\
  runs p tr (Ok (SmppResp.mk "ESME_ROK" 0 "m1")) /\
  via_contract "eu" "submit_sm" true
    (fun s => ReqSubmit s (submit_sm.with_length (submit_pdu kw []))) SmppResp.from_reply p.
Proof.
  destruct (submit_via (Some cfg) kw) as [p|] eqn:E; [|discriminate E].
  exists p. eexists. split; [reflexivity|]. split.
  - injection E as <-.
    cbn -[submit_pdu submit_sm.with_length smsc].
    exists (Some target). eexists. split; [reflexivity|]. cbn -[submit_pdu submit_sm.with_length smsc].
    exists 0. eexists. split; [reflexivity|].
    exists (Ok (submit_sm_resp.mk 0 (Some "m1"))). eexists. split; [reflexivity|].
    split; reflexivity.
  - destruct (proj1 (via_reported (Some cfg)) kw p E) as (tlvs & Ht & Hc).
    injection Ht as <-. exact Hc.
Defined.

Lemma to_reported_witness : exists p,
  deliver_to (Some cfg) (MessageKw.defaults "s1" "100" "200" []) = Ok p /\
  to_contract "s1" "deliver_sm" true
    (fun e => ReqDeliver e (deliver_sm.with_length (deliver_pdu (MessageKw.defaults "s1" "100" "200" []) [])))
    SmppResp.from_reply p.
Proof.
  destruct (deliver_to (Some cfg) (MessageKw.defaults "s1" "100" "200" [])) as [p|] eqn:E;
    [|discriminate E].
  exists p. split; [reflexivity|].
  destruct (proj1 (to_reported (Some cfg)) _ p E) as (tlvs & Ht & Hc).
  injection Ht as <-. exact Hc.
Defined.

Definition data : DataKw.t :=
  DataKw.mk "eu" "100" "200" (of_str "hello") 1 1 1 1 "" 0 1 0
    (Some [(PyStr (Some "user_message_reference"), PyInt 7)]).

Lemma data_body_carried_witness : exists pdu,
  data_pdu data = Ok pdu /\ body (from_data pdu) = of_str "hello".
Proof.
  assert (tlvs_from_py (DataKw.tlvs data) = Ok [mkTlv 0x0204 [byte_of_Z 0; byte_of_Z 7]]) as Ht
    by reflexivity.
  pose proof (data_body_carried data _ Ht) as Hd.
  destruct (data_pdu data) as [pdu|e] eqn:E; [|discriminate E].
  exists pdu. split; [reflexivity|exact (proj2 Hd)].
Defined.

Lemma status_end_to_end_witness : exists r,
  reply (from_submit (submit_pdu kw [])) "ESME_RTHROTTLED" None None = Ok r /\
  SmppResp.command_status (SmppResp.from_reply (submit_sm_response (submit_pdu kw []) r))
    = "ESME_RTHROTTLED".
Proof.
  destruct (reply (from_submit (submit_pdu kw [])) "ESME_RTHROTTLED" None None) as [r|] eqn:E;
    [|discriminate E].
  exists r. split; [reflexivity|].
  exact (proj1 (proj1 (status_end_to_end (submit_pdu kw []) (data_sm.mk "" 1 1 "" 1 1 "" 0 0 0 [])
                         "ESME_RTHROTTLED" None None) r E)).
Defined.

End SendsExample.
