(* ===== verification/Repr.v ===== *)
(** * What a script's logs show: the [__repr__]s of [pyclasses.rs] and [sends.rs] *)

From stdpp Require Import pretty.
From S2P Require Import Prelude RustStr Status Pdu Sends.
#[local] Open Scope Z_scope.

(** [0x{:02x}] of an octet. *)
Definition lower_hex (n : nat) (z : Z) : string :=
  to_str (of_str "0x" ++ to_ascii_lowercase (hex_digits n z)).

Definition Pdu_repr (self : Pdu.t) : string :=
  "Pdu(command=" +:+ Pdu.command self +:+ ", source_addr=" +:+ Pdu.source_addr self
    +:+ ", destination_addr=" +:+ Pdu.destination_addr self
    +:+ ", esm_class=" +:+ lower_hex 2 (Pdu.esm_class self)
    +:+ ", dcs=" +:+ lower_hex 2 (Pdu.data_coding self)
    +:+ ", len=" +:+ pretty (Pdu.sm_length self) +:+ ")".

Definition PduReply_repr (self : PduReply.t) : string :=
  "PduReply(command_status=" +:+ debug_name (PduReply.command_status self)
    +:+ ", message_id=" +:+ debug_opt debug_str (PduReply.message_id self) +:+ ")".

Definition Bind_repr (self : Bind.t) : string :=
  "Bind(system_id=" +:+ debug_str (Bind.system_id self)
    +:+ ", client_addr=" +:+ debug_str (Bind.client_addr self) +:+ ")".

Definition BindResult_repr (self : BindResult.t) : string :=
  if BindResult.accept self then "BindResult(accept)"
  else "BindResult(reject, status=" +:+ debug_name (BindResult.status self)
         +:+ ", reason=" +:+ debug_str (BindResult.reason self) +:+ ")".

Definition AlertNotification_repr (self : AlertNotification.t) : string :=
  "AlertNotification(source_addr=" +:+ debug_str (AlertNotification.source_addr self)
    +:+ ", esme_addr=" +:+ debug_str (AlertNotification.esme_addr self)
    +:+ ", ms_availability_status="
    +:+ debug_opt pretty (AlertNotification.ms_availability_status self) +:+ ")".

Definition Session_repr (self : Session.t) : string :=
  "Session(kind=" +:+ Session.kind_name self
    +:+ ", system_id=" +:+ debug_str (Session.system_id self)
    +:+ ", session_id=" +:+ debug_str (Session.session_id self)
    +:+ ", client_addr=" +:+ debug_str (Session.client_addr self) +:+ ")".

Definition SmppResp_repr (self : SmppResp.t) : string :=
  "SmppResp(command_status=" +:+ debug_str (SmppResp.command_status self)
    +:+ ", command_status_code=" +:+ hex_literal 8 (SmppResp.command_status_code self)
    +:+ ", message_id=" +:+ debug_str (SmppResp.message_id self) +:+ ")".

Definition QueryResp_repr (self : QueryResp.t) : string :=
  "QueryResp(command_status=" +:+ debug_str (QueryResp.command_status self)
    +:+ ", command_status_code=" +:+ hex_literal 8 (QueryResp.command_status_code self)
    +:+ ", message_id=" +:+ debug_str (QueryResp.message_id self)
    +:+ ", message_state=" +:+ pretty (QueryResp.message_state self)
    +:+ ", final_date=" +:+ debug_str (QueryResp.final_date self)
    +:+ ", error_code=" +:+ pretty (QueryResp.error_code self) +:+ ")".

(** A password is in none of them. *)
Example bind_repr_example :
  Bind_repr (Bind.mk "acme" "s3cret" "10.0.0.1:4711")
    = to_str (of_str "Bind(system_id=" ++ [byte_of_Z 34] ++ of_str "acme" ++ [byte_of_Z 34]
        ++ of_str ", client_addr=" ++ [byte_of_Z 34] ++ of_str "10.0.0.1:4711" ++ [byte_of_Z 34]
        ++ of_str ")").
Proof. reflexivity. Qed.

Example alert_repr_example :
  AlertNotification_repr (AlertNotification.mk "1" "2" (Some 2))
    = to_str (of_str "AlertNotification(source_addr=" ++ [byte_of_Z 34] ++ of_str "1" ++ [byte_of_Z 34]
        ++ of_str ", esme_addr=" ++ [byte_of_Z 34] ++ of_str "2" ++ [byte_of_Z 34]
        ++ of_str ", ms_availability_status=Some(2))").
Proof. reflexivity. Qed.
