(* ===== verification/Supervisor.v ===== *)
(** * The bind supervisor: [run_bind_loop] and [spawn] of [runtime.rs]

    One task per configured bind: start a client, wait for it to bind, hold the
    session while it lives, back off, start again.  Durations are nanoseconds,
    [backoff_ms] is in milliseconds as in the source. *)

From S2P Require Import Prelude RustStr Smpp34 Async F64 Effects Metrics Runtime Config.
#[local] Open Scope Z_scope.
#[local] Open Scope async_scope.

Definition from_millis (ms : Z) : Z := ms * 1000000.
Definition from_secs (s : Z) : Z := s * 1000000000.

Definition awaiting_bind (alive connect_failed : bool) (waited deadline : Z) : bool :=
  negb alive && negb connect_failed && (waited <? deadline).

Definition bind_deadline : Z := from_secs 15.
Definition healthy_threshold : Z := from_secs 30.
Definition poll_interval : Z := from_secs 1.

Definition bind_type_of (s : string) : BIND_TYPE :=
  if String.eqb s "transmitter" then TX
  else if String.eqb s "receiver" then RX
  else TRX.

Definition bind_listener (cfg : BindConfig.t) : BindListener :=
  mkBindListener (BindConfig.name cfg) (BindConfig.max_msg_per_sec cfg)
    (from_millis (BindConfig.response_timer_ms cfg)).

Definition client_args (cfg : BindConfig.t) : ClientArgs :=
  mkClientArgs (BindConfig.host cfg) (BindConfig.port cfg) (is_some (BindConfig.tls cfg))
    (bind_type_of (BindConfig.bind_type cfg)) (BindConfig.system_id cfg) (BindConfig.password cfg)
    (BindConfig.system_type cfg) 1 1 "" (bind_listener cfg)
    5000 (BindConfig.enquire_link_timer_ms cfg) 60000 (BindConfig.response_timer_ms cfg) 1500 20.

(** Phase 1, one turn of its [while]. *)
Definition await_turn (bind_started : Z) (_ : unit) : task (unit + unit) :=
  alive <- trigger ClientAlive;
  connect_failed <- trigger FlagLoad;
  now <- trigger Now;
  if awaiting_bind alive connect_failed (duration_since now bind_started) bind_deadline
  then trigger (Sleep poll_interval) ;; Ret (inl tt)
  else Ret (inr tt).

(** Phase 2: hold the session until it dies; when it came up. *)
Definition hold_session : task (option Z) :=
  alive <- trigger ClientAlive;
  if (alive : bool)
  then
    now <- trigger Now;
    iter (fun _ : unit =>
      alive <- trigger ClientAlive;
      if (alive : bool) then trigger (Sleep poll_interval) ;; Ret (inl tt)
      else Ret (inr tt)) tt ;;
    Ret (Some now)
  else
    connect_failed <- trigger FlagLoad;
    Ret None.

(** [bound_at.map(|t| t.elapsed() >= healthy_threshold).unwrap_or(false)]. *)
Definition was_healthy (bound_at : option Z) : task bool :=
  match bound_at with
  | Some t => now <- trigger Now; Ret (healthy_threshold <=? duration_since now t)
  | None => Ret false
  end.

(** One turn of the supervisor's [loop], with its backoff. *)
Definition attempt (cfg : BindConfig.t) (backoff_ms : Z) : task (Z + Empty_set) :=
  trigger (FlagStore false) ;;
  trigger (ClientStart (client_args cfg)) ;;
  bind_started <- trigger Now;
  iter (await_turn bind_started) tt ;;
  bound_at <- hold_session;
  healthy <- was_healthy bound_at;
  let backoff_ms := if (healthy : bool) then 1000 else backoff_ms in
  (if is_some (bound_at : option Z) then record_bind_reconnect (BindConfig.name cfg) else Ret tt) ;;
  trigger ClientDrop ;;
  trigger (Sleep (from_millis backoff_ms)) ;;
  Ret (inl (Z.min (backoff_ms * 2) 60000)).

(** It never returns. *)
Definition run_bind_loop (cfg : BindConfig.t) : task Empty_set := iter (attempt cfg) 1000.

(** ** [spawn] *)

(** The server's task: [start] reports a failed listen before it returns. *)
Definition server_task (addr : string) (args : ServerArgs) : task unit :=
  trigger (ServerStart addr args) ;;
  failure <- trigger ListenFailureGet;
  match failure with
  | Some error => Ret tt
  | None => x <- trigger Park; match (x : Empty_set) with end
  end.

(** What one call of [spawn] leaves running: the shared constants, the server
    with its address, and a supervisor per bind. *)
Record Spawned : Type := mkSpawned {
  sp_state : StateConfig;
  sp_sampler : option (task Empty_set);
  sp_server : task unit;
  sp_binds : list (task Empty_set);
}.

Definition state_config (server : ServerConfig.t) : StateConfig :=
  mkStateConfig (ServerConfig.max_msg_per_sec server) (ServerConfig.throttle_action server)
    (from_millis (ServerConfig.response_timer_ms server)).

Definition server_args (server : ServerConfig.t) (port : Z) : ServerArgs :=
  mkServerArgs port (ServerConfig.session_init_timer_ms server)
    (ServerConfig.enquire_link_timer_ms server) (ServerConfig.inactivity_timer_ms server)
    (ServerConfig.response_timer_ms server) 1500.

(** [parse_ip] is [host.parse::<IpAddr>()], rendered; [already] whether [STATE] was
    set before, in which case the call is ignored; [metrics] is whether the host
    has a metrics engine. *)
Definition spawn (parse_ip : string -> option string) (already metrics : bool) (cfg : SmppConfig.t)
    : option Spawned :=
  if already then None
  else
    let '(host, port) := listen cfg in
    let listen_addr := default "0.0.0.0" (parse_ip host) in
    Some (mkSpawned (state_config (SmppConfig.server cfg))
            (if metrics then Some sampler else None)
            (server_task listen_addr (server_args (SmppConfig.server cfg) port))
            (run_bind_loop <$> SmppConfig.binds cfg)).

(** ** What an attempt does *)

Inductive client_event : Type := Started (args : ClientArgs) | Dropped.

Definition client_of (ev : event eff) : list client_event :=
  match ev with
  | Ev (ClientStart args) _ => [Started args]
  | Ev ClientDrop _ => [Dropped]
  | _ => []
  end.
Definition clients (tr : trace eff) : list client_event := tr ≫= client_of.

Lemma clients_app tr1 tr2 : clients (tr1 ++ tr2) = clients tr1 ++ clients tr2.
Proof. apply bind_app. Qed.
#[local] Hint Rewrite clients_app counted_app @length_app : trace.

Definition no_client X (e : eff X) : Prop :=
  match e with ClientStart _ | ClientDrop => False | _ => True end.

Lemma no_client_clients {A} (p : task A) tr a : always no_client p -> runs p tr a -> clients tr = [].
Proof.
  intros Hp Hr. pose proof (always_runs _ _ _ _ Hp Hr) as H. clear Hr.
  induction H as [|[X e x] tr He _ IH]; [done|].
  change (Ev e x :: tr) with ([Ev e x] ++ tr). rewrite clients_app, IH. by destruct e.
Qed.

(** How an attempt ended: without a session, or with one that was up for so
    long. *)
Inductive outcome : Set := NeverBound | Held (ns : Z).

Definition healthy (o : outcome) : bool :=
  match o with NeverBound => false | Held ns => healthy_threshold <=? ns end.
Definition came_up (o : outcome) : bool := match o with NeverBound => false | Held _ => true end.

(** A poll of the supervisor that found the client alive, or the pause after it. *)
Definition poll_alive (ev : event eff) : Prop :=
  match ev with
  | Ev ClientAlive alive => alive = true
  | Ev (Sleep ns) _ => ns = poll_interval
  | _ => False
  end.

(** How long a session was up, read off the trace.  The clock is read at once
    after the client was found bound, the polls that follow find it alive, and the
    clock is read again after the one that finds it dead: what came before the
    bind, the wait of the connect among it, does not count.  Without a session the
    client is found dead after the wait and dropped. *)
Definition shows (tr : trace eff) (o : outcome) : Prop :=
  match o with
  | Held ns => exists connecting bound_at polls died_at rest,
      tr = connecting ++ [Ev ClientAlive true; Ev Now bound_at] ++ polls ++
           [Ev ClientAlive false; Ev Now died_at] ++ rest /\
      Forall poll_alive polls /\ ns = duration_since died_at bound_at
  | NeverBound => exists connecting connect_failed rest,
      tr = connecting ++ [Ev ClientAlive false; Ev FlagLoad connect_failed; Ev ClientDrop tt] ++ rest
  end.

(** An attempt, seen from outside: one client, started with the bind's settings
    and dropped before the wait; one reconnect counted exactly when a session
    had come up; a wait of the backoff, or of a second after a healthy session;
    and what ended it. *)
Record attempted (cfg : BindConfig.t) (tr : trace eff) (o : outcome) (wait : Z) : Prop := {
  att_trace : exists tr', tr = tr' ++ [Ev (Sleep (from_millis wait)) tt] /\
                clients tr' = [Started (client_args cfg); Dropped];
  att_counted : metrics_on tr ->
    counted RECONNECTS tr = if came_up o then [[("bind", BindConfig.name cfg)]] else [];
  att_shows : shows tr o;
}.

Definition wait_after (o : outcome) (backoff_ms : Z) : Z := if healthy o then 1000 else backoff_ms.

(** The polls of a session: alive, and alive, until it is not. *)
Lemma held_polls s tr u :
  turns (fun _ : unit => runs (alive <- trigger ClientAlive;
      if alive : bool then trigger (Sleep poll_interval) ;; Ret (inl tt) else Ret (inr tt))) s tr u ->
  exists polls, tr = polls ++ [Ev ClientAlive false] /\ Forall poll_alive polls.
Proof.
  intros Ht. induction Ht as [s tr u Hr|s tr s' tr' u Hr _ IH].
  - run_step. run_step. destruct a; repeat run_step. by exists [].
  - run_step. run_step. destruct a; repeat run_step. destruct IH as (polls & -> & Hp).
    exists ([Ev ClientAlive true; Ev (Sleep poll_interval) a] ++ polls). split; [done|].
    by repeat constructor.
Qed.

(** What holding a session did: polls between the clock reading it returns and
    the poll that found the client dead. *)
Definition held (tr : trace eff) (bound_at : option Z) : Prop :=
  match bound_at with
  | Some t => exists polls, Forall poll_alive polls /\
      tr = [Ev ClientAlive true; Ev Now t] ++ polls ++ [Ev ClientAlive false]
  | None => exists connect_failed, tr = [Ev ClientAlive false; Ev FlagLoad connect_failed]
  end.

Lemma hold_session_spec tr bound_at :
  runs hold_session tr bound_at -> clients tr = [] /\ counted RECONNECTS tr = [] /\ held tr bound_at.
Proof.
  intros Hr. split; [|split].
  - eapply no_client_clients; [|exact Hr]. unfold hold_session. always_tac.
  - eapply no_counter_counted; [|exact Hr]. unfold hold_session. always_tac.
  - unfold hold_session in Hr. run_step. run_step. destruct a; repeat run_step; [|by eexists].
    match goal with H : runs (iter _ _) _ _ |- _ => apply runs_iter, held_polls in H as (polls & -> & Hp) end.
    exists polls. split; [done|]. by rewrite app_nil_r.
Qed.

Lemma was_healthy_spec tr bound_at h :
  runs (was_healthy bound_at) tr h ->
  clients tr = [] /\ counted RECONNECTS tr = [] /\
  match bound_at with
  | Some t1 => exists t2, tr = [Ev Now t2] /\ h = healthy (Held (duration_since t2 t1))
  | None => tr = [] /\ h = false
  end.
Proof. unfold was_healthy. destruct bound_at as [t|]; intros Hr; repeat run_step; eauto. Qed.

(** Both together, before the client is dropped. *)
Lemma held_shows tr1 tr2 bound_at h pre post :
  runs hold_session tr1 bound_at -> runs (was_healthy bound_at) tr2 h ->
  (bound_at = None -> exists rest, post = Ev ClientDrop tt :: rest) ->
  exists o, healthy o = h /\ came_up o = is_some bound_at /\ shows (pre ++ tr1 ++ tr2 ++ post) o.
Proof.
  intros (_ & _ & H1)%hold_session_spec (_ & _ & H2)%was_healthy_spec Hpost.
  destruct bound_at as [t1|]; cbn in H1, H2.
  - destruct H1 as (polls & Hp & ->), H2 as (t2 & -> & ->). exists (Held (duration_since t2 t1)).
    split; [done|]. split; [done|]. exists pre, t1, polls, t2, post. split; [|done].
    cbn [app]. by rewrite <-!app_assoc.
  - destruct H1 as (f & ->), H2 as [-> ->], (Hpost eq_refl) as (rest & ->). exists NeverBound.
    split; [done|]. split; [done|]. by exists pre, f, rest.
Qed.

Lemma attempt_spec cfg b tr r :
  runs (attempt cfg b) tr r ->
  exists o, r = inl (Z.min (wait_after o b * 2) 60000) /\ attempted cfg tr o (wait_after o b).
Proof.
  unfold attempt. intros Hr. do 8 run_step.
  match goal with H : runs (iter (await_turn _) _) ?tr _ |- _ =>
    assert (clients tr = []) as Hc1 by (eapply no_client_clients; [|exact H]; unfold await_turn; always_tac);
    assert (counted RECONNECTS tr = []) as Hm1
      by (eapply no_counter_counted; [|exact H]; unfold await_turn; always_tac); clear H end.
  run_step. run_step.
  match goal with H : runs hold_session _ _ |- _ => pose proof H as Hhold;
    apply hold_session_spec in H as (Hc2 & Hm2 & _) end.
  match goal with H : runs (was_healthy _) _ _ |- _ => pose proof H as Hwas;
    apply was_healthy_spec in H as (Hc3 & Hm3 & _) end.
  cbn zeta in *.
  match goal with H : runs (if is_some _ then _ else _) ?tr ?u |- _ => rename H into Hrec;
    assert (clients tr = []) as Hc4 by
      (eapply no_client_clients; [|exact Hrec]; destruct (is_some _); autounfold with metrics; always_tac) end.
  repeat run_step. rewrite app_nil_r.
  repeat match goal with a : unit |- _ => destruct a end.
  match goal with |- context [[?e1] ++ [?e2] ++ [?e3] ++ ?t1 ++ _ ++ _ ++ ?t4 ++ [?e4] ++ [?e5]] =>
    destruct (held_shows _ _ _ _ ([e1] ++ [e2] ++ [e3] ++ t1) (t4 ++ [e4] ++ [e5]) Hhold Hwas)
      as (o & Hh & Hup & Hshows) end.
  { intros ->. apply runs_ret in Hrec as [-> _]. by eexists. }
  match type of Hrec with runs _ ?tr _ =>
    assert (metrics_on tr -> counted RECONNECTS tr
            = if came_up o then [[("bind", BindConfig.name cfg)]] else []) as Hm4 by
      (intros Hon; rewrite Hup; destruct (is_some _);
        [exact (when_store_counted _ _ _ _ _ _ Hrec Hon)|by apply runs_ret in Hrec as [-> _]]) end.
  exists o. unfold wait_after. rewrite Hh. split; [done|]. split.
  - match goal with |- context [[?e1] ++ [?e2] ++ [?e3] ++ ?t1 ++ ?t2 ++ ?t3 ++ ?t4 ++ [?e4] ++ [?e5]] =>
      exists ([e1] ++ [e2] ++ [e3] ++ t1 ++ t2 ++ t3 ++ t4 ++ [e4]) end.
    split; [by rewrite <-!app_assoc|]. autorewrite with trace. by rewrite Hc1, Hc2, Hc3, Hc4.
  - intros Hon. autorewrite with trace. rewrite Hm1, Hm2, Hm3.
    unfold metrics_on in Hon. rewrite !list.Forall_app in Hon. rewrite Hm4 by apply Hon.
    cbn. by rewrite app_nil_r.
  - by rewrite <-!app_assoc in Hshows.
Qed.

(** ** A series of attempts *)

(** Consecutive turns of the loop, with the trace of each. *)
Inductive attempts (cfg : BindConfig.t) : Z -> list (trace eff) -> Z -> Prop :=
| attempts_none b : attempts cfg b [] b
| attempts_more b tr b' trs b'' :
    runs (attempt cfg b) tr (inl b') -> attempts cfg b' trs b'' -> attempts cfg b (tr :: trs) b''.

(** Failed attempts in a row before the next one; a healthy session starts the
    count afresh, its own wait being the first. *)
Fixpoint failures (n : nat) (os : list outcome) : nat :=
  match os with
  | [] => n
  | o :: os => failures (if healthy o then 1 else S n)%nat os
  end.

(** The wait of the doubling schedule after [n] failures in a row, capped. *)
Definition doubled (n : nat) : Z := Z.min 60000 (1000 * 2 ^ Z.of_nat n).

Lemma doubled_range n : 1000 <= doubled n <= 60000.
Proof. unfold doubled. pose proof (Z.pow_pos_nonneg 2 (Z.of_nat n)). lia. Qed.

Lemma doubled_succ n : Z.min (doubled n * 2) 60000 = doubled (S n).
Proof.
  unfold doubled. rewrite Nat2Z.inj_succ, Z.pow_succ_r by lia.
  pose proof (Z.pow_pos_nonneg 2 (Z.of_nat n)). lia.
Qed.

Lemma attempts_schedule cfg n trs b' :
  attempts cfg (doubled n) trs b' ->
  exists os, length os = length trs /\
    forall k tr, trs !! k = Some tr -> exists o, os !! k = Some o /\
      attempted cfg tr o (if healthy o then 1000 else doubled (failures n (take k os))).
Proof.
  intros Ha. remember (doubled n) as b eqn:E. revert n E.
  induction Ha as [b|b tr b' trs b'' Hr Ha IH]; intros n ->; [by exists []|].
  apply attempt_spec in Hr as (o & [= ->] & Hatt). unfold wait_after in *.
  destruct (IH (if healthy o then 1 else S n)%nat) as (os & Hl & Hos).
  { destruct (healthy o); [done|apply doubled_succ]. }
  exists (o :: os). split; [cbn; lia|]. intros [|k] tr' Hk; cbn in Hk.
  - injection Hk as <-. exists o. split; [done|]. cbn [take failures]. exact Hatt.
  - destruct (Hos k tr' Hk) as (o' & Ho' & Hatt'). exists o'. split; [done|].
    cbn [take failures]. exact Hatt'.
Qed.

(** C12: the reconnect schedule: however many attempts a bind has made, the wait
    after the next one is a second when its session was healthy (up at least
    thirty seconds from the clock reading after it was found bound to the one after
    it was found dead) and otherwise doubles with every failure in a row, from one
    second up to a minute and never beyond; each attempt runs one client, dropped
    before the wait, and counts a reconnect exactly when its session had come
    up. *)
Theorem backoff_schedule cfg trs b' :
  attempts cfg 1000 trs b' ->
  exists os, length os = length trs /\
    forall k tr, trs !! k = Some tr -> exists o wait, os !! k = Some o /\
      attempted cfg tr o wait /\
      wait = (if healthy o then 1000 else Z.min 60000 (1000 * 2 ^ Z.of_nat (failures 0 (take k os)))) /\
      1000 <= wait <= 60000.
Proof.
  intros Ha. destruct (attempts_schedule cfg 0 trs b' Ha) as (os & Hl & Hos).
  exists os. split; [done|]. intros k tr Hk. destruct (Hos k tr Hk) as (o & Ho & Hatt).
  exists o. eexists. split; [done|]. split; [exact Hatt|]. split; [done|].
  pose proof (doubled_range (failures 0 (take k os))). destruct (healthy o); lia.
Qed.

(** ** Waiting for a bind *)

(** A turn goes round again only while the connect is open and the deadline not
    reached. *)
Lemma await_turn_continues started tr :
  runs (await_turn started tt) tr (inl tt) ->
  exists now, tr = [Ev ClientAlive false; Ev FlagLoad false; Ev Now now; Ev (Sleep poll_interval) tt] /\
    duration_since now started < bind_deadline.
Proof.
  unfold await_turn, awaiting_bind. intros Hr. do 6 run_step.
  destruct a as [], a0 as []; cbn [negb andb] in *; repeat run_step.
  destruct (_ <? _) eqn:E in Hrun3; repeat run_step.
  apply Z.ltb_lt in E. match goal with a : unit |- _ => destruct a end. eauto.
Qed.

(** ** Examples *)

Module SupervisorExample.

Definition cfg : BindConfig.t :=
  BindConfig.mk "eu" "smsc.example" 2775 "acme" "secret" "" "receiver" 0 30000 30000 None.

(** A refused connect: one turn, no wait for the deadline. *)
Definition refused (ms : Z) : trace eff :=
  [Ev (FlagStore false) tt; Ev (ClientStart (client_args cfg)) tt; Ev Now 0;
   Ev ClientAlive false; Ev FlagLoad true; Ev Now 1; Ev ClientAlive false; Ev FlagLoad true;
   Ev ClientDrop tt; Ev (Sleep (from_millis ms)) tt].

Lemma refused_runs ms : runs (attempt cfg ms) (refused ms) (inl (Z.min (ms * 2) 60000)).
Proof.
  unfold refused, attempt. cbn -[client_args from_millis].
  do 3 (eexists _, _; split; [reflexivity|]).
  exists [Ev ClientAlive false; Ev FlagLoad true; Ev Now 1]. eexists _, tt. split; [reflexivity|].
  split.
  - apply turns_done. cbn. repeat eexists.
  - cbn -[client_args from_millis]. repeat eexists.
Qed.

Lemma backoff_schedule_witness :
  exists os, length os = 3%nat /\ exists o wait, os !! 2%nat = Some o /\ attempted cfg (refused 4000) o wait.
Proof.
  assert (attempts cfg 1000 [refused 1000; refused 2000; refused 4000] 8000) as Ha.
  { apply (attempts_more cfg 1000 _ 2000); [exact (refused_runs 1000)|].
    apply (attempts_more cfg 2000 _ 4000); [exact (refused_runs 2000)|].
    apply (attempts_more cfg 4000 _ 8000); [exact (refused_runs 4000)|]. apply attempts_none. }
  destruct (backoff_schedule cfg _ _ Ha) as (os & Hl & Hos).
  exists os. split; [exact Hl|].
  destruct (Hos 2%nat (refused 4000) eq_refl) as (o & wait & Ho & Hatt & _).
  exists o, wait. split; [exact Ho|exact Hatt].
Defined.

End SupervisorExample.
