(* ===== verification/Install.v ===== *)
(** * The Python namespace: [install.rs]

    What the module [siphon.smpp] holds, the [_config] dict a script reads, and
    the functions of [python/smpp.py] that read it.  Turning a serialised option
    into YAML text is a library's: [write] is a parameter. *)

From stdpp Require Import pretty.
From S2P Require Import Prelude RustStr Effects Pdu Config Yaml Repr.
#[local] Open Scope Z_scope.

(** ** Plain Python data *)

#[local] Unset Elimination Schemes.
Inductive PyData : Type :=
| DStr (s : string)
| DInt (z : Z)
| DList (items : list PyData)
| DDict (items : list (string * PyData)).
#[local] Set Elimination Schemes.

(** [dict.get_item]. *)
Definition get_item (d : PyData) (k : string) : option PyData :=
  match d with
  | DDict items => snd <$> iter_find (fun row => String.eqb row.1 k) items
  | _ => None
  end.

(** ** The [_config] dict *)

Section Dict.
Variable write : Any -> option string.

Definition to_yaml (v : OptionValue) : option string := write (serialize v).

Definition server_dict (cfg : SmppConfig.t) : PyData :=
  let '(host, port) := listen cfg in
  let server := SmppConfig.server cfg in
  DDict
    [("bind_address", DStr host);
     ("port", DInt port);
     ("session_init_timer_ms", DInt (ServerConfig.session_init_timer_ms server));
     ("enquire_link_timer_ms", DInt (ServerConfig.enquire_link_timer_ms server));
     ("inactivity_timer_ms", DInt (ServerConfig.inactivity_timer_ms server));
     ("response_timer_ms", DInt (ServerConfig.response_timer_ms server));
     ("max_msg_per_sec", DInt (ServerConfig.max_msg_per_sec server));
     ("throttle_action", DStr (throttle_action_as_str (ServerConfig.throttle_action server)))].

Definition bind_dict (bind : BindConfig.t) : PyData :=
  DDict
    [("name", DStr (BindConfig.name bind));
     ("host", DStr (BindConfig.host bind));
     ("port", DInt (BindConfig.port bind));
     ("system_id", DStr (BindConfig.system_id bind));
     ("system_type", DStr (BindConfig.system_type bind));
     ("bind_type", DStr (BindConfig.bind_type bind));
     ("max_msg_per_sec", DInt (BindConfig.max_msg_per_sec bind))].

Definition rule_dict (rule : RoutingRule.t) : PyData :=
  DDict
    [("prefix", DStr (RoutingRule.prefix rule));
     ("name", DStr (RoutingRule.name rule));
     ("chain", DList (DStr <$> RoutingRule.chain rule));
     ("options", DDict ((fun row => (row.1, DStr (default "" (to_yaml row.2))))
                          <$> RoutingRule.options rule))].

Definition build_config_dict (cfg : SmppConfig.t) : PyData :=
  let routing := SmppConfig.routing cfg in
  DDict
    [("server", server_dict cfg);
     ("binds", DList (bind_dict <$> SmppConfig.binds cfg));
     ("routing", DDict
        [("default_chain", DList (DStr <$> RoutingConfig.default_chain routing));
         ("rules", DList (rule_dict <$> RoutingConfig.rules routing))])].

(** ** The readouts of [smpp.py] *)

(** [d[k]] and [f"{value}"]; [None] where Python raises, or for the text of a
    list or dict. *)
Definition format_value (d : PyData) : option string :=
  match d with DStr s => Some s | DInt z => Some (pretty z) | _ => None end.

Definition bind_address (_config : PyData) : option string :=
  s ← get_item _config "server";
  host ← get_item s "bind_address" ≫= format_value;
  port ← get_item s "port" ≫= format_value;
  Some (host +:+ ":" +:+ port).

(** [d.get(k, default)]. *)
Definition get_or (d : PyData) (k : string) (dflt : PyData) : PyData := default dflt (get_item d k).

Definition binds (_config : PyData) : PyData := get_or _config "binds" (DList []).

Definition routing_rules (_config : PyData) : PyData * PyData :=
  let r := get_or _config "routing" (DDict []) in
  (get_or r "default_chain" (DList []), get_or r "rules" (DList [])).

(** ** The module *)

(** The names [smpp.py] binds when it is compiled. *)
Definition smpp_py_names : list string :=
  ["asyncio"; "_registry"; "_register"; "on_bind"; "on_pdu"; "on_session";
   "bind_address"; "config"; "binds"; "routing_rules"].

(** The names the closure of [namespace] then sets; a class goes under its
    Python name. *)
Definition namespace_names : list string :=
  ["_config";
   "Pdu"; "PduReply"; "Session"; "Bind"; "BindResult"; "AlertNotification"; "_Handler";
   "SmppResp"; "QueryResp"; "SmppSendError";
   "submit_via"; "submit_multi_via"; "data_via"; "cancel_via"; "query_via"; "replace_via";
   "deliver_to"; "data_to"; "alert_to"].

(** Nothing of [smpp.py] is overwritten, and the globals its functions read
    ([_config], [_Handler]) are there. *)
Lemma namespace_complete :
  NoDup (smpp_py_names ++ namespace_names) /\ "_config" ∈ namespace_names /\ "_Handler" ∈ namespace_names.
Proof. repeat split; by apply (bool_decide_unpack _); vm_compute. Qed.

(** ** Theorems *)

(** The configuration with other passwords: [secrets] gives the one of each bind. *)
Definition with_passwords (secrets : BindConfig.t -> string) (cfg : SmppConfig.t) : SmppConfig.t :=
  SmppConfig.mk (SmppConfig.server cfg)
    ((fun b => BindConfig.mk (BindConfig.name b) (BindConfig.host b) (BindConfig.port b)
                 (BindConfig.system_id b) (secrets b) (BindConfig.system_type b)
                 (BindConfig.bind_type b) (BindConfig.max_msg_per_sec b)
                 (BindConfig.enquire_link_timer_ms b) (BindConfig.response_timer_ms b)
                 (BindConfig.tls b)) <$> SmppConfig.binds cfg)
    (SmppConfig.routing cfg) (SmppConfig.bind_address cfg) (SmppConfig.port cfg).

(** [d] answers each of these keys with this value. *)
Definition answers (d : PyData) (rows : list (string * PyData)) : Prop :=
  Forall (fun row => get_item d row.1 = Some row.2) rows.

Definition server_shown (cfg : SmppConfig.t) (d : PyData) : Prop :=
  let server := SmppConfig.server cfg in
  answers d
    [("bind_address", DStr (listen cfg).1); ("port", DInt (listen cfg).2);
     ("session_init_timer_ms", DInt (ServerConfig.session_init_timer_ms server));
     ("enquire_link_timer_ms", DInt (ServerConfig.enquire_link_timer_ms server));
     ("inactivity_timer_ms", DInt (ServerConfig.inactivity_timer_ms server));
     ("response_timer_ms", DInt (ServerConfig.response_timer_ms server));
     ("max_msg_per_sec", DInt (ServerConfig.max_msg_per_sec server));
     ("throttle_action",
      DStr (match ServerConfig.throttle_action server with Pace => "pace" | Reject => "reject" end))].

Definition bind_shown (d : PyData) (b : BindConfig.t) : Prop :=
  answers d
    [("name", DStr (BindConfig.name b)); ("host", DStr (BindConfig.host b));
     ("port", DInt (BindConfig.port b)); ("system_id", DStr (BindConfig.system_id b));
     ("system_type", DStr (BindConfig.system_type b)); ("bind_type", DStr (BindConfig.bind_type b));
     ("max_msg_per_sec", DInt (BindConfig.max_msg_per_sec b))].

(** An option is shown as its YAML text, an empty one if it has none. *)
Definition option_shown (d : PyData) (row : string * OptionValue) : Prop :=
  get_item d row.1 = Some (DStr (default "" (write (serialize row.2)))).

Definition rule_shown (d : PyData) (r : RoutingRule.t) : Prop :=
  answers d
    [("prefix", DStr (RoutingRule.prefix r)); ("name", DStr (RoutingRule.name r));
     ("chain", DList (DStr <$> RoutingRule.chain r))] /\
  exists options, get_item d "options" = Some options /\
    (NoDup (RoutingRule.options r).*1 -> Forall (option_shown options) (RoutingRule.options r)).

Lemma options_shown rows :
  NoDup rows.*1 ->
  Forall (option_shown (DDict ((fun row => (row.1, DStr (default "" (to_yaml row.2)))) <$> rows))) rows.
Proof.
  intros Hnd. apply list.Forall_forall. intros [k v] Hin. unfold option_shown. cbn [get_item fst snd].
  induction rows as [|[k' v'] rows IH]; [by apply elem_of_nil in Hin|].
  apply list.NoDup_cons in Hnd as [Hk' Hnd]. cbn [fmap list_fmap iter_find fst].
  destruct (String.eqb_spec k' k) as [->|Hne].
  - apply elem_of_cons in Hin as [[= ->]|Hin]; [done|]. destruct Hk'. apply list_elem_of_fmap.
    by exists (k, v).
  - apply elem_of_cons in Hin as [[= -> ->]|Hin]; [done|by apply IH].
Qed.

(** C40: no bind password reaches a script through what it can read: the dict and
    the repr of an inbound bind are the same whatever the passwords are.  The rest
    of it is what is configured: the server's address, timers, cap and action;
    every bind, in order, with its address, identity, type and cap; the chains and
    every rule, in order, with its options as text.  The readouts of [smpp.py]
    return those parts. *)
Theorem config_dict_no_passwords secrets cfg :
  let dict := build_config_dict cfg in
  build_config_dict (with_passwords secrets cfg) = dict /\
  (forall sid addr p p', Bind_repr (Bind.mk sid p addr) = Bind_repr (Bind.mk sid p' addr)) /\
  bind_address dict = Some ((listen cfg).1 +:+ ":" +:+ pretty (listen cfg).2) /\
  (exists server, get_item dict "server" = Some server /\ server_shown cfg server) /\
  (exists ds, binds dict = DList ds /\ Forall2 bind_shown ds (SmppConfig.binds cfg)) /\
  (exists rs, routing_rules dict
       = (DList (DStr <$> RoutingConfig.default_chain (SmppConfig.routing cfg)), DList rs) /\
     Forall2 rule_shown rs (RoutingConfig.rules (SmppConfig.routing cfg))).
Proof.
  cbn zeta. unfold build_config_dict, bind_address.
  split; [|split; [done|split; [|split; [|split]]]].
  - unfold server_dict. cbn [SmppConfig.binds with_passwords SmppConfig.server SmppConfig.routing].
    rewrite <-list_fmap_compose. done.
  - unfold server_dict. by destruct (listen cfg).
  - eexists. split; [reflexivity|]. unfold server_dict, server_shown.
    destruct (listen cfg). by repeat constructor.
  - eexists. split; [reflexivity|]. apply Forall2_fmap_l, Forall_Forall2_diag, list.Forall_forall.
    intros b _. by repeat constructor.
  - eexists. split; [reflexivity|]. apply Forall2_fmap_l, Forall_Forall2_diag, list.Forall_forall.
    intros r _. split; [by repeat constructor|]. eexists. split; [reflexivity|]. apply options_shown.
Qed.

End Dict.
