(* ===== verification/Harness.v ===== *)
(** * The load harness: [harness/src/main.rs]

    The mock SMSC of [serve] and what [drive] prints at its end ([report]).  The
    driver itself is in [Drive.v].  Text is not modelled: a report is the numbers
    the code formats. *)

From Stdlib Require Structures.OrdersEx.
From Stdlib Require Import QArith Qround Qabs Lqa.
From stdpp Require Import sorting.
From S2P Require Import Prelude RustStr Status Smpp34 F64.
#[local] Open Scope Z_scope.

(** ** Arguments *)

Module DriveArgs.
Record t : Set := mk {
  host : string; port : Z; system_id : string; password : string;
  count : nat; window : nat; source_addr : string; destination_addr : string;
  body_len : nat;
}.
Definition default : t :=
  mk "127.0.0.1" 2775 "load" "load" (Z.to_nat 50000) 64 "15550100" "15550199" 32.
End DriveArgs.

Module ServeArgs.
Record t : Set := mk { host : string; port : Z }.
Definition default : t := mk "127.0.0.1" 2775.
End ServeArgs.

(** ** The mock SMSC *)

(** [{id:x}]: lower-case digits without leading zeros; [fuel] digits at most. *)
Fixpoint hex_min (fuel : nat) (z : Z) (acc : bytes) : bytes :=
  match fuel with
  | O => acc
  | S fuel =>
      let acc := to_lower (hex_digit (z mod 16)) :: acc in
      if z <? 16 then acc else hex_min fuel (z / 16) acc
  end.
(** A [u64] has at most sixteen digits. *)
Definition lower_hex_u64 (z : Z) : string := to_str (hex_min 16 z []).

Section Mock.
Context `{Smpp34}.

(** [MockSmsc]: its [next_id]. *)
Definition MockSmsc : Set := Z.
Definition MockSmsc_new : MockSmsc := 1.

Definition mock_on_bind_transceiver (req : bind_transceiver.t) : bind_resp.t :=
  bind_transceiver_accept req "MOCK-SMSC" (Some 0x34).

(** [fetch_add] wraps; the id is the value before it. *)
Definition mock_on_submit_sm (self : MockSmsc) (req : submit_sm.t) : MockSmsc * submit_sm_resp.t :=
  let id := self in
  (wrap 64 (self + 1), submit_sm_accept req (lower_hex_u64 id)).

(** The responses to a sequence of submits, in the order the counter saw them. *)
Fixpoint mock_responses (self : MockSmsc) (reqs : list submit_sm.t) : list submit_sm_resp.t :=
  match reqs with
  | [] => []
  | req :: reqs =>
      let '(self, resp) := mock_on_submit_sm self req in resp :: mock_responses self reqs
  end.
End Mock.

(** ** The report *)

Definition f_max (a b : Q) : Q := if Qle_bool a b then b else a.
(** [f64::round] of a value that is not negative: halves go up. *)
Definition f_round (q : Q) : Z := Qfloor (q + (1 # 2)).

#[export] Instance Zle_dec_rel : RelDecision Z.le := Z_le_dec.

(** [breakdown.sort_by]: by count downwards, then by name. *)
Definition str_le (a b : string) : Prop := String.leb a b = true.
#[export] Instance str_le_dec : RelDecision str_le := fun a b => decide (String.leb a b = true).
Definition failure_le (a b : string * Z) : Prop := b.2 < a.2 \/ (b.2 = a.2 /\ str_le a.1 b.1).
#[export] Instance failure_le_dec : RelDecision failure_le.
Proof. intros a b. unfold failure_le. apply _. Defined.

(** The percentile of a sorted list; [None]: the index is out of range, a panic. *)
Definition pct (sorted : list Z) (p : Q) : option Z :=
  match sorted with
  | [] => Some 0
  | _ =>
      let idx := Z.to_nat (f_round (f_mul (f_div p 100)
                   (f_sub (rnd (inject_Z (Z.of_nat (length sorted)))) 1))) in
      sorted !! Nat.min idx (length sorted - 1)
  end.

Record Latency : Set := mkLatency { p50 : Z; p90 : Z; p99 : Z; p999 : Z; max_latency : Z }.

Record Report : Set := mkReport {
  rp_total : Z;
  rp_ok : Z;
  rp_errors : Z;
  rp_secs : Q;
  rp_cps : Q;
  rp_latency : option Latency;
  (** The failures by reason, when there are any: then the exit status is 1. *)
  rp_breakdown : option (list (string * Z));
}.

(** The latency line, left out of an empty report. *)
Definition latency_line (sorted : list Z) : option (option Latency) :=
  match sorted with
  | [] => Some None
  | _ =>
      p50 ← pct sorted 50; p90 ← pct sorted 90; p99 ← pct sorted 99;
      p999 ← pct sorted (rnd (999 # 10)); m ← list.last sorted;
      Some (Some (mkLatency p50 p90 p99 p999 m))
  end.

Definition breakdown (errors : Z) (failures : gmap string Z) : option (list (string * Z)) :=
  if 0 <? errors then Some (merge_sort failure_le (map_to_list failures)) else None.

Definition report (latencies : list Z) (errors : Z) (failures : gmap string Z) (elapsed : Z)
    : option Report :=
  let ok := wrap 64 (Z.of_nat (length latencies)) in
  let total := wrap 64 (ok + errors) in
  let secs := f_max (as_secs_f64 elapsed) (rnd (1 # 1000000000)) in
  let cps := f_div (rnd (inject_Z ok)) secs in
  let sorted := merge_sort Z.le latencies in
  latency ← latency_line sorted;
  Some (mkReport total ok errors secs cps latency (breakdown errors failures)).

(** ** The percentiles are ranks *)

Lemma f_round_spec q : (q - (1 # 2) <= inject_Z (f_round q) /\ inject_Z (f_round q) <= q + (1 # 2))%Q.
Proof.
  unfold f_round. pose proof (Qfloor_le (q + (1 # 2))). pose proof (Qlt_floor (q + (1 # 2))) as Hlt.
  rewrite inject_Z_plus in Hlt. change (inject_Z 1) with 1%Q in Hlt. lra.
Qed.

Lemma f_round_mono p q : (p <= q)%Q -> f_round p <= f_round q.
Proof. intros H. apply Qfloor_resp_le. lra. Qed.

Lemma f_round_nonneg q : (0 <= q)%Q -> 0 <= f_round q.
Proof.
  intros H. change 0 with (f_round 0). by apply f_round_mono.
Qed.

(** The rank [p] percent names in a list of [n]. *)
Definition rank (p : Q) (n : nat) : Q := p / 100 * inject_Z (Z.of_nat n - 1).
Definition raw_index (p : Q) (n : nat) : Q :=
  f_mul (f_div p 100) (f_sub (rnd (inject_Z (Z.of_nat n))) 1).

Lemma raw_index_mono p p' n : (p <= p')%Q -> (raw_index p n <= raw_index p' n)%Q.
Proof.
  intros Hp. unfold raw_index, f_mul, f_div. apply rnd_mono, Qmult_le_compat_r.
  - apply rnd_mono. change (p * (1 # 100) <= p' * (1 # 100))%Q. lra.
  - apply rnd_nonneg.
Qed.

Lemma raw_index_near p n :
  (0 <= p)%Q -> (0 < n)%nat -> Z.of_nat n < 2 ^ 53 ->
  (Qabs (raw_index p n - rank p n) <= rank p n * (1 # 2251799813685248))%Q.
Proof.
  intros Hp Hn Hsmall. unfold raw_index, rank, f_mul, f_div, f_sub.
  assert (rnd (rnd (inject_Z (Z.of_nat n)) - 1) == inject_Z (Z.of_nat n - 1))%Q as ->.
  { rewrite rnd_Z by lia. rewrite <-(rnd_Z (Z.of_nat n - 1)) by lia. apply rnd_proper.
    rewrite <-Z.add_opp_r, inject_Z_plus. change (inject_Z (-(1))) with (-(1))%Q. lra. }
  assert (0 <= inject_Z (Z.of_nat n - 1))%Q as Hm by (apply (inject_Z_le 0); lia).
  set (m := inject_Z (Z.of_nat n - 1)) in *.
  assert (0 <= p / 100)%Q as Hq by (change (0 <= p * (1 # 100))%Q; lra). set (q := (p / 100)%Q) in *.
  destruct (rnd_err q Hq) as [H1 H2]. set (r := rnd q) in *.
  assert (0 <= r)%Q as Hr by apply rnd_nonneg.
  assert (0 <= r * m)%Q as Hrm by (by apply Qmult_le_0_compat).
  destruct (rnd_err (r * m) Hrm) as [H3 H4].
  assert (r * m <= q * (1 + ulp_half) * m)%Q as H5 by (by apply Qmult_le_compat_r).
  assert (q * (1 - ulp_half) * m <= r * m)%Q as H6 by (by apply Qmult_le_compat_r).
  assert (0 <= q * m)%Q by (by apply Qmult_le_0_compat).
  assert (q * (1 + ulp_half) * m == q * m * (1 + ulp_half))%Q as E1 by ring.
  assert (q * (1 - ulp_half) * m == q * m * (1 - ulp_half))%Q as E2 by ring.
  rewrite E1 in H5. rewrite E2 in H6.
  apply Qabs_Qle_condition. unfold ulp_half in *. set (x := (q * m)%Q) in *. lra.
Qed.

Definition index (p : Q) (n : nat) : nat := Nat.min (Z.to_nat (f_round (raw_index p n))) (n - 1).

Lemma pct_index l p : l <> [] -> pct l p = l !! index p (length l).
Proof. by destruct l. Qed.

Lemma index_lt p n : (0 < n)%nat -> (index p n < n)%nat.
Proof. unfold index. lia. Qed.

Lemma index_mono p p' n : (p <= p')%Q -> (index p n <= index p' n)%nat.
Proof.
  intros Hp. unfold index. pose proof (f_round_mono _ _ (raw_index_mono p p' n Hp)). lia.
Qed.

(** The index is the rank to the nearest integer, up to the rounding of the
    product. *)
Lemma index_near p n :
  (0 <= p)%Q -> (p <= 100)%Q -> (0 < n)%nat -> Z.of_nat n < 2 ^ 53 ->
  (Qabs (inject_Z (Z.of_nat (index p n)) - rank p n)
     <= (1 # 2) + rank p n * (1 # 2251799813685248))%Q.
Proof.
  intros Hp Hp' Hn Hsmall. pose proof (raw_index_near p n Hp Hn Hsmall) as Hraw.
  apply Qabs_Qle_condition in Hraw. apply Qabs_Qle_condition.
  pose proof (f_round_spec (raw_index p n)) as Hround.
  assert (0 <= f_round (raw_index p n)) by apply f_round_nonneg, rnd_nonneg.
  assert (0 <= rank p n /\ rank p n <= inject_Z (Z.of_nat n - 1))%Q as [H0 Hle].
  { unfold rank. assert (0 <= inject_Z (Z.of_nat n - 1))%Q by (apply (inject_Z_le 0); lia).
    change (p / 100)%Q with (p * (1 # 100))%Q. split; [apply Qmult_le_0_compat; lra|].
    rewrite <-(Qmult_1_l (inject_Z (Z.of_nat n - 1))) at 2. apply Qmult_le_compat_r; lra. }
  unfold index. destruct (Nat.min_spec (Z.to_nat (f_round (raw_index p n))) (n - 1)) as [[Hlt ->]|[Hge ->]].
  - rewrite Z2Nat.id by done. lra.
  - replace (Z.of_nat (n - 1)) with (Z.of_nat n - 1) by lia.
    assert (inject_Z (Z.of_nat n - 1) <= inject_Z (f_round (raw_index p n)))%Q
      by (apply inject_Z_le; lia). lra.
Qed.

(** ** The mock's message ids *)

Definition hex_value (b : byte) : Z :=
  let z := byte_to_Z b in if z <? 58 then z - 48 else z - 87.
Definition hex_read (acc : Z) (s : bytes) : Z := fold_left (fun n b => n * 16 + hex_value b) s acc.

Lemma hex_value_digit d : 0 <= d < 16 -> hex_value (to_lower (hex_digit d)) = d.
Proof.
  intros Hd. assert (forallb (fun d => hex_value (to_lower (hex_digit d)) =? d) (seqZ 0 16) = true)
    as Hall by reflexivity.
  rewrite forallb_forall in Hall. apply Z.eqb_eq, Hall, list_elem_of_In, elem_of_seqZ. lia.
Qed.

(** The digits read back as the number. *)
Lemma hex_min_read fuel z acc :
  0 <= z < 16 ^ Z.of_nat fuel -> hex_read 0 (hex_min fuel z acc) = hex_read z acc.
Proof.
  revert z acc. induction fuel as [|fuel IH]; intros z acc Hz; cbn [hex_min].
  { replace z with 0 by (cbn in Hz; lia). done. }
  pose proof (Z.mod_pos_bound z 16 ltac:(lia)) as Hd.
  assert (hex_read (z / 16) (to_lower (hex_digit (z mod 16)) :: acc) = hex_read z acc) as Hstep.
  { unfold hex_read. cbn [fold_left]. rewrite hex_value_digit by done. f_equal.
    pose proof (Z.div_mod z 16). lia. }
  destruct (Z.ltb_spec z 16) as [Hlt|Hge].
  - rewrite <-Hstep. by rewrite Z.div_small by lia.
  - rewrite IH, Hstep; [done|]. rewrite Nat2Z.inj_succ, Z.pow_succ_r in Hz by lia.
    split; [apply Z.div_pos; lia|]. apply Z.div_lt_upper_bound; lia.
Qed.

Lemma lower_hex_u64_inj a b :
  fits 64 a = true -> fits 64 b = true -> lower_hex_u64 a = lower_hex_u64 b -> a = b.
Proof.
  intros Ha%fits_spec Hb%fits_spec E%(f_equal of_str). unfold lower_hex_u64 in E. rewrite !of_to_str in E.
  transitivity (hex_read 0 (hex_min 16 a [])); [by rewrite hex_min_read by (cbn; lia)|].
  rewrite E. by rewrite hex_min_read by (cbn; lia).
Qed.

Lemma mock_response self req reqs `{Smpp34Laws} :
  fits 64 self = true ->
  mock_responses self (req :: reqs)
  = submit_sm_resp.mk 0 (Some (lower_hex_u64 self)) :: mock_responses (wrap 64 (self + 1)) reqs.
Proof. intros _. cbn. by rewrite submit_sm_accept_resp. Qed.

(** The ids handed out from [self] on. *)
Lemma mock_responses_ids `{Smpp34Laws} self reqs :
  fits 64 self = true ->
  mock_responses self reqs
  = (fun i => submit_sm_resp.mk 0 (Some (lower_hex_u64 (wrap 64 (self + Z.of_nat i))))) <$> seq 0 (length reqs).
Proof.
  revert self. induction reqs as [|req reqs IH]; intros self Hs; [done|].
  rewrite mock_response by done. rewrite IH by (by apply wrap_fits). cbn [length seq fmap list_fmap].
  f_equal; [by rewrite Z.add_0_r, wrap_small|]. rewrite <-fmap_S_seq, <-list_fmap_compose.
  apply list_fmap_ext. intros _ i _. cbn [compose].
  replace (wrap 64 (wrap 64 (self + 1) + Z.of_nat i)) with (wrap 64 (self + Z.of_nat (S i))); [done|].
  unfold wrap. rewrite Zplus_mod_idemp_l. f_equal. lia.
Qed.

(** The mock acks every submit, and no two of 2^64 consecutive ones under one id. *)
Theorem mock_ids_distinct `{Smpp34Laws} self reqs :
  fits 64 self = true -> Z.of_nat (length reqs) <= 2 ^ 64 ->
  let resps := mock_responses self reqs in
  Forall (fun r => submit_sm_resp.command_status r = 0 /\ is_some (submit_sm_resp.message_id r) = true) resps /\
  NoDup (submit_sm_resp.message_id <$> resps).
Proof.
  intros Hs Hlen. cbn zeta. rewrite mock_responses_ids by done. split.
  - apply list.Forall_fmap, list.Forall_forall. by intros i _.
  - rewrite <-list_fmap_compose. apply NoDup_fmap_2_strong; [|apply NoDup_seq].
    intros i j [_ Hi]%elem_of_seq [_ Hj]%elem_of_seq E.
    apply (inj Some), lower_hex_u64_inj in E; [|by apply wrap_fits..]. apply fits_spec in Hs.
    pose proof (Z.div_mod (self + Z.of_nat i) (2 ^ 64) ltac:(lia)).
    pose proof (Z.div_mod (self + Z.of_nat j) (2 ^ 64) ltac:(lia)). unfold wrap in E. lia.
Qed.

Lemma mock_ids_distinct_witness :
  submit_sm_resp.message_id <$> mock_responses (H := Smpp34Example.codec) (2 ^ 64 - 1)
    (replicate 2 (submit_sm.mk "" 0 0 "" 0 0 "" 0 0 0 "" "" 0 0 0 0 0 [] []))
    = [Some "ffffffffffffffff"; Some "0"] /\
  NoDup [Some "ffffffffffffffff"; Some "0"].
Proof.
  split; [reflexivity|].
  exact (proj2 (mock_ids_distinct (H := Smpp34Example.codec) (H0 := Smpp34Example.codec_laws) (2 ^ 64 - 1)
    (replicate 2 (submit_sm.mk "" 0 0 "" 0 0 "" 0 0 0 "" "" 0 0 0 0 0 [] []))
    ltac:(reflexivity) ltac:(vm_compute; discriminate))).
Defined.

(** ** What a report says *)

#[local] Instance Zle_total : Total Z.le.
Proof. intros x y. lia. Qed.
Lemma str_le_cases a b : str_le a b <-> a = b \/ OrdersEx.String_as_OT.lt a b.
Proof.
  unfold str_le, String.leb. pose proof (OrdersEx.String_as_OT.compare_spec a b) as Hc.
  change (OrdersEx.String_as_OT.compare a b) with (String.compare a b) in Hc.
  pose proof (OrdersEx.String_as_OT.lt_strorder) as [Hirr Htr].
  destruct Hc as [->|Hlt|Hgt]; [naive_solver..|]. split; [done|]. intros [->|Hlt]; [by destruct (Hirr b)|].
  destruct (Hirr a). by eapply Htr.
Qed.

#[local] Instance failure_le_trans : Transitive failure_le.
Proof.
  intros a b c. unfold failure_le. rewrite !str_le_cases.
  pose proof (OrdersEx.String_as_OT.lt_strorder) as [_ Htr].
  intros [Hab|[Eab Lab]] [Hbc|[Ebc Lbc]]; [left; lia..|]. right. split; [lia|].
  destruct Lab as [E|Lab]; [by rewrite E|]. destruct Lbc as [E|Lbc]; [rewrite <-E; by right|].
  right. by eapply Htr.
Qed.
#[local] Instance failure_le_total : Total failure_le.
Proof.
  intros a b. unfold failure_le, str_le.
  destruct (Z.lt_trichotomy a.2 b.2) as [?|[?|?]], (String.leb_total a.1 b.1); naive_solver.
Qed.

(** [v] is the entry of rank [p] percent among [l] in ascending order, to the
    nearest index. *)
Definition at_rank (p : Q) (l : list Z) (v : Z) : Prop :=
  exists sorted i, sorted ≡ₚ l /\ StronglySorted Z.le sorted /\ sorted !! i = Some v /\
    (Qabs (inject_Z (Z.of_nat i) - rank p (length l))
       <= (1 # 2) + rank p (length l) * (1 # 2251799813685248))%Q.

Lemma sorted_lookup_mono l i j x y :
  StronglySorted Z.le l -> l !! i = Some x -> l !! j = Some y -> (i <= j)%nat -> x <= y.
Proof.
  intros Hs. revert i j. induction Hs as [|z l Hs IH Hf]; intros i j Hi Hj Hij; [done|].
  destruct i as [|i], j as [|j]; cbn in *; [naive_solver lia| |lia|eapply IH; eauto; lia].
  injection Hi as <-. rewrite list.Forall_forall in Hf. by eapply Hf, list_elem_of_lookup_2.
Qed.

Section Line.
Context (l sorted : list Z).
Context (Hp : sorted ≡ₚ l) (Hs : StronglySorted Z.le sorted) (Hne : sorted <> []).
Context (Hlen : Z.of_nat (length l) < 2 ^ 53).

Lemma pct_at p :
  (0 <= p <= 100)%Q ->
  exists v, pct sorted p = Some v /\ sorted !! index p (length sorted) = Some v /\ at_rank p l v.
Proof.
  intros [H0 H1]. assert (0 < length sorted)%nat as Hpos by (destruct sorted; [done|cbn; lia]).
  destruct (lookup_lt_is_Some_2 sorted (index p (length sorted))) as [v Hv]; [by apply index_lt|].
  exists v. rewrite pct_index by done. split; [done|]. split; [done|].
  exists sorted, (index p (length sorted)). split; [done|]. split; [done|]. split; [done|].
  rewrite <-Hp. apply index_near; [done..|]. by rewrite Hp.
Qed.

Lemma last_max : exists m, list.last sorted = Some m /\ sorted !! (length sorted - 1)%nat = Some m /\
  m ∈ l /\ Forall (fun x => x <= m) l.
Proof.
  destruct (list.last sorted) as [m|] eqn:E; [|by apply last_None in E].
  pose proof E as Hl. rewrite last_lookup in Hl. replace (pred (length sorted)) with (length sorted - 1)%nat in Hl by lia.
  exists m. split; [done|]. split; [done|]. rewrite <-Hp. split; [by eapply list_elem_of_lookup_2|].
  apply list.Forall_forall. intros x [i Hi]%list_elem_of_lookup. eapply sorted_lookup_mono; [exact Hs|done..|].
  apply lookup_lt_Some in Hi. lia.
Qed.

Lemma line_spec : exists p50 p90 p99 p999 m,
  latency_line sorted = Some (Some (mkLatency p50 p90 p99 p999 m)) /\
  at_rank 50 l p50 /\ at_rank 90 l p90 /\ at_rank 99 l p99 /\ at_rank (rnd (999 # 10)) l p999 /\
  p50 <= p90 <= p99 /\ p99 <= p999 <= m /\ m ∈ l /\ Forall (fun x => x <= m) l.
Proof.
  assert (99 <= rnd (999 # 10) <= 100)%Q as [Hlo Hhi] by (vm_compute; split; discriminate).
  destruct (pct_at 50) as (v1 & E1 & I1 & R1); [lra|]. destruct (pct_at 90) as (v2 & E2 & I2 & R2); [lra|].
  destruct (pct_at 99) as (v3 & E3 & I3 & R3); [lra|].
  destruct (pct_at (rnd (999 # 10))) as (v4 & E4 & I4 & R4); [lra|].
  destruct last_max as (m & E5 & I5 & Hin & Hmax). exists v1, v2, v3, v4, m.
  assert (forall p p' v v', (p <= p')%Q -> sorted !! index p (length sorted) = Some v ->
            sorted !! index p' (length sorted) = Some v' -> v <= v') as Hle.
  { intros p p' v v' Hpp Hv Hv'. eapply sorted_lookup_mono; [exact Hs|done..|]. by apply index_mono. }
  repeat split; try done; try (eapply Hle; [|eassumption..]; lra).
  - unfold latency_line. destruct sorted; [done|]. by rewrite E1, E2, E3, E4, E5.
  - eapply sorted_lookup_mono; [exact Hs|done..|]. apply lookup_lt_Some in I4. lia.
Qed.
End Line.

Lemma breakdown_spec errors failures :
  match breakdown errors failures with
  | None => errors <= 0
  | Some b => 0 < errors /\ b ≡ₚ map_to_list failures /\ StronglySorted failure_le b
  end.
Proof.
  unfold breakdown. destruct (Z.ltb_spec 0 errors) as [H|H]; [|done]. split; [done|].
  split; [apply merge_sort_Permutation|by apply (StronglySorted_merge_sort _)].
Qed.

Lemma report_fields latencies errors failures elapsed r :
  report latencies errors failures elapsed = Some r ->
  rp_ok r = wrap 64 (Z.of_nat (length latencies)) /\ rp_errors r = errors /\
  rp_total r = wrap 64 (rp_ok r + errors) /\ rp_breakdown r = breakdown errors failures.
Proof.
  unfold report. destruct (latency_line _) as [line|]; [|done]. cbn. by intros [= <-].
Qed.

Lemma report_some latencies errors failures elapsed :
  is_Some (report latencies errors failures elapsed).
Proof.
  unfold report. set (sorted := merge_sort Z.le latencies).
  assert (is_Some (latency_line sorted)) as [line ->]; [|by eexists].
  destruct (decide (sorted = [])) as [->|Hne]; [by eexists|].
  assert (forall p, is_Some (pct sorted p)) as Hp.
  { intros p. rewrite pct_index by done. apply lookup_lt_is_Some_2, index_lt. destruct sorted; [done|cbn; lia]. }
  destruct (Hp 50%Q) as [v1 E1], (Hp 90%Q) as [v2 E2], (Hp 99%Q) as [v3 E3],
    (Hp (rnd (999 # 10))) as [v4 E4], (list.last sorted) as [m|] eqn:E5; [|by apply last_None in E5].
  unfold latency_line. destruct sorted; [done|]. rewrite E1, E2, E3, E4, E5. by eexists.
Qed.

(** C34: the driver's report never fails and is what its lines say: each percentile
    is a measured latency, the one whose position in ascending order is nearest
    to that percentage of the way, the five are in ascending order and the last is
    the maximum; the failures are listed whole, most frequent first, and only
    then is the exit status 1. *)
Theorem report_spec latencies errors failures elapsed :
  Z.of_nat (length latencies) < 2 ^ 53 ->
  exists r, report latencies errors failures elapsed = Some r /\
    rp_ok r = Z.of_nat (length latencies) /\ rp_errors r = errors /\
    match rp_latency r with
    | None => latencies = []
    | Some l =>
        at_rank 50 latencies (p50 l) /\ at_rank 90 latencies (p90 l) /\
        at_rank 99 latencies (p99 l) /\ at_rank (rnd (999 # 10)) latencies (p999 l) /\
        p50 l <= p90 l <= p99 l /\ p99 l <= p999 l <= max_latency l /\
        max_latency l ∈ latencies /\ Forall (fun x => x <= max_latency l) latencies
    end /\
    match rp_breakdown r with
    | None => errors <= 0
    | Some b => 0 < errors /\ b ≡ₚ map_to_list failures /\ StronglySorted failure_le b
    end.
Proof.
  intros Hlen. unfold report. set (sorted := merge_sort Z.le latencies).
  pose proof (merge_sort_Permutation Z.le latencies) as Hp.
  pose proof (StronglySorted_merge_sort Z.le latencies) as Hs.
  change (merge_sort Z.le latencies) with sorted in Hp, Hs.
  assert (wrap 64 (Z.of_nat (length latencies)) = Z.of_nat (length latencies)) as Eok
    by (apply wrap_small, fits_spec; lia).
  destruct (decide (sorted = [])) as [E|Hne].
  - rewrite E. eexists. split; [reflexivity|]. split; [done|]. split; [done|].
    split; [|apply breakdown_spec]. rewrite E in Hp. by apply Permutation_nil_l in Hp.
  - destruct (line_spec latencies sorted Hp Hs Hne Hlen) as (v1 & v2 & v3 & v4 & m & -> & Hline).
    eexists. split; [reflexivity|]. split; [done|]. split; [done|]. split; [exact Hline|apply breakdown_spec].
Qed.

Module ReportExample.
Definition failures : gmap string Z := {["ESME_RSYSERR" := 1; "ESME_RTHROTTLED" := 1]}.
Definition lines : Report :=
  mkReport 7 5 2 1 5 (Some (mkLatency 3 5 5 5 5)) (Some [("ESME_RSYSERR", 1); ("ESME_RTHROTTLED", 1)]).

Lemma report_lines : report [5; 1; 3; 2; 4] 2 failures 1000000000 = Some lines.
Proof. vm_compute. reflexivity. Qed.

Lemma report_spec_witness :
  report [5; 1; 3; 2; 4] 2 failures 1000000000 = Some lines /\ at_rank 50 [5; 1; 3; 2; 4] 3 /\
  at_rank 90 [5; 1; 3; 2; 4] 5.
Proof.
  split; [exact report_lines|].
  destruct (report_spec [5; 1; 3; 2; 4] 2 failures 1000000000 ltac:(reflexivity))
    as (r & E & _ & _ & Hl & _).
  rewrite report_lines in E. injection E as <-. exact (conj (proj1 Hl) (proj1 (proj2 Hl))).
Defined.
End ReportExample.
