(* ===== verification/Drive.v ===== *)
(** * The load driver: [drive] of [harness/src/main.rs]

    The driver keeps a window of submits in flight: a semaphore of [window]
    permits, one task per submit that gives its permit back at its end, and the
    tallies the tasks share.  Here the driver and its tasks are programs over the
    effects below, interleaved one effect at a time as in [Threads.v]; unlike
    there, a task can start another and wait for its end.

    The proofs go through an abstract machine: a program is always at one of a
    few stages ([mstage] for the driver, [jstage] for a submit's task), and the
    invariant relates the stages to the shared state.

    Not modelled: the panics of [Semaphore::new] beyond 2^61 - 1 permits and of a
    [Vec] whose capacity overflows, which no machine gets to serve. *)

From Stdlib Require Import QArith.
From S2P Require Import Prelude RustStr Status Smpp34 Async Threads F64 Effects Harness.
#[local] Open Scope Z_scope.
#[local] Open Scope async_scope.

(** ** Effects *)

(** [SmppClient::new], in order; the listener is the [Binder]. *)
Record HClientArgs : Set := mkHClientArgs {
  hc_host : string; hc_port : Z; hc_tls : bool; hc_bind_type : BIND_TYPE;
  hc_system_id : string; hc_password : string; hc_system_type : string;
  hc_arg8 : Z; hc_arg9 : Z; hc_arg10 : string; hc_window : nat;
}.

Inductive heff : Type -> Type :=
(** [SmppClient::new] and [start]; [timeout(ns, rx)]: the session, unless the time
    ran out or the sender was dropped. *)
| Connect (args : HClientArgs) : heff unit
| AwaitBound (ns : Z) : heff (option SMSC.t)
(** A [submit_sm] goes out; its response, or why there is none. *)
| SendSubmit (smsc : SMSC.t) (pdu : submit_sm.t) : heff nat
| AwaitResponse (pending : nat) : heff (result SmppError submit_sm_resp.t)
(** The semaphore. *)
| Acquire : heff unit
| Release : heff unit
| Clock : heff Z
(** [latencies] under its mutex, with the clock read inside; [errors]; [failures]
    under its mutex. *)
| LockLatencies {X} (f : Z -> list Z -> list Z * X) : heff X
| ErrorsFetchAdd : heff Z
| ErrorsLoad : heff Z
| LockFailures {X} (f : gmap string Z -> gmap string Z * X) : heff X
(** [tokio::spawn] of a submit's task; the await of its handle. *)
| SpawnJob (smsc : SMSC.t) : heff nat
| Join (handle : nat) : heff unit
| Unbind (smsc : SMSC.t) : heff unit
| Stop : heff unit
| Print (r : Report) : heff unit
| Exit (status : Z) : heff Empty_set
(** A panic that leaves the task. *)
| Unwind : heff Empty_set.

Definition never {A} (e : Empty_set) : prog heff A := match e with end.
Definition exit {A} (status : Z) : prog heff A := Vis (Exit status) never.
Definition unwind {A} : prog heff A := Vis Unwind never.

(** ** [Binder] *)

(** [Binder]'s [on_smsc_bound], with the sender it holds: what is sent, once. *)
Definition Binder_on_smsc_bound (tx : bool) (smsc : SMSC.t) : bool * option SMSC.t :=
  (false, if tx then Some smsc else None).

(** ** [drive] *)

Definition zsum (l : list (string * Z)) : Z := foldr (fun row acc => row.2 + acc) 0 l.
(** The failures of all reasons. *)
Definition tally (m : gmap string Z) : Z := zsum (map_to_list m).

#[export] Instance zsum_perm : Proper (Permutation ==> eq) zsum.
Proof. unfold zsum. induction 1; cbn in *; lia. Qed.

Lemma tally_fresh m k v : m !! k = None -> tally (<[k := v]> m) = v + tally m.
Proof. intros Hk. unfold tally. by rewrite map_to_list_insert. Qed.

Lemma tally_delete m k : tally m = default 0 (m !! k) + tally (delete k m).
Proof.
  destruct (m !! k) as [v|] eqn:E; cbn.
  - rewrite <-(insert_delete_id m k v E) at 1. by rewrite tally_fresh by apply lookup_delete_eq.
  - by rewrite delete_id.
Qed.

Lemma tally_insert m k v : tally (<[k := v]> m) = tally m - default 0 (m !! k) + v.
Proof.
  rewrite <-insert_delete_eq, tally_fresh by apply lookup_delete_eq. rewrite (tally_delete m k). lia.
Qed.

Lemma tally_nonneg m : map_Forall (fun _ v => 0 <= v) m -> 0 <= tally m.
Proof.
  intros Hm. assert (Forall (fun row : string * Z => 0 <= row.2) (map_to_list m)) as Hf.
  { apply list.Forall_forall. intros [k v] Hin%elem_of_map_to_list. by eapply Hm. }
  unfold tally, zsum. induction Hf; cbn; lia.
Qed.

Lemma tally_lookup m k : map_Forall (fun _ v => 0 <= v) m -> default 0 (m !! k) <= tally m.
Proof.
  intros Hm. pose proof (tally_nonneg (delete k m) ltac:(by apply map_Forall_delete)).
  rewrite (tally_delete m k). lia.
Qed.

Lemma sum_insert {A} (f : A -> nat) l k x y :
  l !! k = Some x -> (sum_list_with f (<[k := y]> l) + f x = sum_list_with f l + f y)%nat.
Proof.
  revert k. induction l as [|z l IH]; intros [|k] Hk; [done|done|injection Hk as ->; cbn; lia|].
  specialize (IH k Hk).
  change (f z + sum_list_with f (<[k := y]> l) + f x = f z + sum_list_with f l + f y)%nat. lia.
Qed.

Lemma sum_at_most {A} (f : A -> nat) l : (forall x, f x <= 1)%nat -> (sum_list_with f l <= length l)%nat.
Proof. intros Hf. induction l as [|x l IH]; cbn; [lia|]. specialize (Hf x). lia. Qed.

Lemma sum_pos {A} (f : A -> nat) l : (0 < sum_list_with f l)%nat -> exists k x, l !! k = Some x /\ (0 < f x)%nat.
Proof.
  induction l as [|x l IH]; cbn; [lia|]. destruct (f x) eqn:E; intros Hs.
  - destruct IH as (k & y & ? & ?); [lia|]. by exists (S k), y.
  - exists O, x. split; [done|lia].
Qed.

Section Drive.
Context `{Smpp34}.
(** The fields of a fresh [submit_sm] builder. *)
Context (builder : submit_sm.t).
Context (a : DriveArgs.t).

Abbreviation count := (DriveArgs.count a).
Abbreviation window := (DriveArgs.window a).

Definition drive_client_args : HClientArgs :=
  mkHClientArgs (DriveArgs.host a) (DriveArgs.port a) false TRX (DriveArgs.system_id a)
    (DriveArgs.password a) "" 1 1 "" (Nat.max window 8).

Definition drive_pdu : submit_sm.t :=
  let p := builder in
  submit_sm.mk (submit_sm.service_type p)
    (submit_sm.source_addr_ton p) (submit_sm.source_addr_npi p) (DriveArgs.source_addr a)
    (submit_sm.dest_addr_ton p) (submit_sm.dest_addr_npi p) (DriveArgs.destination_addr a)
    (submit_sm.esm_class p) (submit_sm.protocol_id p) (submit_sm.priority_flag p)
    (submit_sm.schedule_delivery_time p) (submit_sm.validity_period p)
    (submit_sm.registered_delivery p) (submit_sm.replace_if_present_flag p)
    (submit_sm.data_coding p) (submit_sm.sm_default_msg_id p) (submit_sm.sm_length p)
    (replicate (DriveArgs.body_len a) (byte_of_Z 120)) (submit_sm.tlvs p).

(** [t0.elapsed().as_micros() as u64]. *)
Definition elapsed_micros (t0 now : Z) : Z := wrap 64 (duration_since now t0 / 1000).

Definition push_latency (t0 now : Z) (l : list Z) : list Z * unit := (l ++ [elapsed_micros t0 now], tt).

(** [*entry(reason).or_insert(0) += 1]. *)
Definition count_failure (reason : string) (m : gmap string Z) : gmap string Z * unit :=
  (<[reason := wrap 64 (default 0 (m !! reason) + 1)]> m, tt).

(** The task of one submit; it owns its permit, and drops it also when the
    builder's assertion panics. *)
Definition job (smsc : SMSC.t) : prog heff unit :=
  t0 <- trigger Clock;
  match submit_sm_build drive_pdu with
  | None => trigger Release ;; unwind
  | Some pdu =>
      pending <- trigger (SendSubmit smsc pdu);
      r <- trigger (AwaitResponse pending);
      match r with
      | Ok _ => trigger (LockLatencies (push_latency t0)) ;; trigger Release
      | Err e =>
          trigger ErrorsFetchAdd ;;
          trigger (LockFailures (count_failure (debug_name e))) ;;
          trigger Release
      end
  end.

(** One submit of the warm-up, awaited in place; its result is dropped. *)
Definition warm (smsc : SMSC.t) : prog heff unit :=
  match submit_sm_build drive_pdu with
  | None => unwind
  | Some pdu =>
      pending <- trigger (SendSubmit smsc pdu);
      trigger (AwaitResponse pending) ;; Ret tt
  end.

(** [for _ in 0..n]. *)
Fixpoint for_each (n : nat) (body : prog heff unit) : prog heff unit :=
  match n with O => Ret tt | S n => body ;; for_each n body end.

(** The loop that takes a permit for each submit and pushes its task's handle. *)
Fixpoint spawn_all (smsc : SMSC.t) (n : nat) (handles : list nat) : prog heff (list nat) :=
  match n with
  | O => Ret handles
  | S n =>
      trigger Acquire ;;
      handle <- trigger (SpawnJob smsc);
      spawn_all smsc n (handles ++ [handle])
  end.

Fixpoint join_all (handles : list nat) : prog heff unit :=
  match handles with
  | [] => Ret tt
  | h :: handles => trigger (Join h) ;; join_all handles
  end.

(** What follows the last join. *)
Definition conclude (smsc : SMSC.t) (started : Z) : prog heff unit :=
  now <- trigger Clock;
  trigger (Unbind smsc) ;;
  trigger Stop ;;
  latencies <- trigger (LockLatencies (fun _ l => (l, l)));
  errors <- trigger ErrorsLoad;
  failures <- trigger (LockFailures (fun m => (m, m)));
  match report latencies errors failures (duration_since now started) with
  | None => unwind
  | Some r =>
      trigger (Print r) ;;
      match rp_breakdown r with Some _ => exit 1 | None => Ret tt end
  end.

(** The measured part. *)
Definition measure (smsc : SMSC.t) : prog heff unit :=
  started <- trigger Clock;
  handles <- spawn_all smsc count [];
  join_all handles ;;
  conclude smsc started.

Definition drive : prog heff unit :=
  trigger (Connect drive_client_args) ;;
  bound <- trigger (AwaitBound (10 * NANOS_PER_SEC));
  match bound with
  | None => exit 1
  | Some smsc => for_each (Nat.min window count) (warm smsc) ;; measure smsc
  end.

(** ** Execution *)

Record Shared : Type := mkShared {
  permits : nat;
  latencies : list Z;
  errors : Z;
  failures : gmap string Z;
  clock : Z;
}.

Definition with_permits (w : Shared) (n : nat) : Shared :=
  mkShared n (latencies w) (errors w) (failures w) (clock w).
Definition with_latencies (w : Shared) (now : Z) (l : list Z) : Shared :=
  mkShared (permits w) l (errors w) (failures w) now.
Definition with_errors (w : Shared) (n : Z) : Shared :=
  mkShared (permits w) (latencies w) n (failures w) (clock w).
Definition with_failures (w : Shared) (m : gmap string Z) : Shared :=
  mkShared (permits w) (latencies w) (errors w) m (clock w).
Definition with_hclock (w : Shared) (t : Z) : Shared :=
  mkShared (permits w) (latencies w) (errors w) (failures w) t.

(** A task that returned or panicked: what its handle waits for. *)
Definition finished (p : prog heff unit) : bool :=
  match p with
  | Ret _ => true
  | Vis Unwind _ => true
  | _ => false
  end.

(** How the shared state answers.  A permit is given only when there is one; a
    handle is ready only when its task is finished; the peer, the bind and the
    clock answer as they like. *)
Definition answers (pool : list (prog heff unit)) (w : Shared) X (e : heff X) : X -> Shared -> Prop :=
  match e in heff X return X -> Shared -> Prop with
  | Acquire => fun _ w' => (0 < permits w)%nat /\ w' = with_permits w (permits w - 1)
  | Release => fun _ w' => w' = with_permits w (permits w + 1)
  | Clock => fun now w' => clock w <= now /\ w' = with_hclock w now
  | LockLatencies f => fun x w' => exists now, clock w <= now /\
      w' = with_latencies w now (f now (latencies w)).1 /\ x = (f now (latencies w)).2
  | ErrorsFetchAdd => fun x w' => x = errors w /\ w' = with_errors w (wrap 64 (errors w + 1))
  | ErrorsLoad => fun x w' => x = errors w /\ w' = w
  | LockFailures f => fun x w' => w' = with_failures w (f (failures w)).1 /\ x = (f (failures w)).2
  | SpawnJob _ => fun handle w' => handle = length pool /\ w' = w
  | Join h => fun _ w' => (exists p, pool !! h = Some p /\ finished p = true) /\ w' = w
  | _ => fun _ w' => w' = w
  end.

Definition performs (pool : list (prog heff unit)) (w : Shared) (ev : event heff) (w' : Shared) : Prop :=
  let 'Ev e x := ev in answers pool w _ e x w'.

(** The task an effect starts. *)
Definition starts (ev : event heff) : list (prog heff unit) :=
  match ev with Ev (SpawnJob smsc) _ => [job smsc] | _ => [] end.

(** The driver is the first task. *)
Definition hsys : Type := Shared * list (prog heff unit).

Inductive hstep : hsys -> event heff -> hsys -> Prop :=
| hstep_run w pool i p p' ev w' :
    pool !! i = Some p -> step p (Some ev) p' -> performs pool w ev w' ->
    hstep (w, pool) ev (w', <[i := p']> pool ++ starts ev).

Inductive hexec : hsys -> trace heff -> hsys -> Prop :=
| hexec_refl s : hexec s [] s
| hexec_step s ev s' tr s'' : hstep s ev s' -> hexec s' tr s'' -> hexec s (ev :: tr) s''.

Definition hstart (t : Z) : hsys := (mkShared window [] 0 ∅ t, [drive]).

(** ** The abstract machine: a submit's task *)

Inductive outcome : Set := Answered | Failed (e : SmppError) | Panicked.

Inductive jstage : Set :=
| JStart
| JSend (t0 : Z)
| JAwait (t0 : Z) (pending : nat)
| JPush (t0 : Z)
| JCount (e : SmppError)
| JName (e : SmppError)
| JRelease (o : outcome)
| JOver (o : outcome).

(** The PDU, where the builder accepts it. *)
Definition built : submit_sm.t := default builder (submit_sm_build drive_pdu).

Definition jrelease (o : outcome) : prog heff unit :=
  match o with
  | Panicked => Vis Release (fun _ => unwind)
  | _ => Vis Release Ret
  end.

Definition jprog (smsc : SMSC.t) (st : jstage) : prog heff unit :=
  match st with
  | JStart => job smsc
  | JSend t0 =>
      pending <- trigger (SendSubmit smsc built);
      r <- trigger (AwaitResponse pending);
      match r with
      | Ok _ => trigger (LockLatencies (push_latency t0)) ;; trigger Release
      | Err e =>
          trigger ErrorsFetchAdd ;; trigger (LockFailures (count_failure (debug_name e))) ;; trigger Release
      end
  | JAwait t0 pending =>
      r <- trigger (AwaitResponse pending);
      match r with
      | Ok _ => trigger (LockLatencies (push_latency t0)) ;; trigger Release
      | Err e =>
          trigger ErrorsFetchAdd ;; trigger (LockFailures (count_failure (debug_name e))) ;; trigger Release
      end
  | JPush t0 => trigger (LockLatencies (push_latency t0)) ;; trigger Release
  | JCount e => trigger ErrorsFetchAdd ;; trigger (LockFailures (count_failure (debug_name e))) ;; trigger Release
  | JName e => trigger (LockFailures (count_failure (debug_name e))) ;; trigger Release
  | JRelease o => jrelease o
  | JOver Panicked => unwind
  | JOver _ => Ret tt
  end.

Inductive jtrans (smsc : SMSC.t) : jstage -> event heff -> jstage -> Prop :=
| jt_start t0 pdu : submit_sm_build drive_pdu = Some pdu -> jtrans smsc JStart (Ev Clock t0) (JSend t0)
| jt_refused t0 : submit_sm_build drive_pdu = None -> jtrans smsc JStart (Ev Clock t0) (JRelease Panicked)
| jt_send t0 n : jtrans smsc (JSend t0) (Ev (SendSubmit smsc built) n) (JAwait t0 n)
| jt_ok t0 n r : jtrans smsc (JAwait t0 n) (Ev (AwaitResponse n) (Ok r)) (JPush t0)
| jt_err t0 n e : jtrans smsc (JAwait t0 n) (Ev (AwaitResponse n) (Err e)) (JCount e)
| jt_push t0 u : jtrans smsc (JPush t0) (Ev (LockLatencies (push_latency t0)) u) (JRelease Answered)
| jt_count e n : jtrans smsc (JCount e) (Ev ErrorsFetchAdd n) (JName e)
| jt_name e u : jtrans smsc (JName e) (Ev (LockFailures (count_failure (debug_name e))) u) (JRelease (Failed e))
| jt_release o u : jtrans smsc (JRelease o) (Ev Release u) (JOver o).

Lemma vis_step {X A} (e : heff X) (k : X -> prog heff A) ev p' :
  step (Vis e k) (Some ev) p' -> exists x, ev = Ev e x /\ p' = k x.
Proof. intros (x & [= ->] & ->). by exists x. Qed.

(** Each step of the program is one of the machine's. *)
Lemma job_step smsc st ev p' :
  step (jprog smsc st) (Some ev) p' -> exists st', p' = jprog smsc st' /\ jtrans smsc st ev st'.
Proof.
  destruct st as [|t0|t0 n|t0|e|e|o|o]; intros Hs.
  - apply vis_step in Hs as (t0 & -> & ->). destruct (submit_sm_build drive_pdu) as [pdu|] eqn:E.
    + exists (JSend t0). split; [|by eapply jt_start]. cbn. unfold built. by rewrite E.
    + exists (JRelease Panicked). split; [done|by apply jt_refused].
  - apply vis_step in Hs as (n & -> & ->). exists (JAwait t0 n). split; [done|constructor].
  - apply vis_step in Hs as ([r|e] & -> & ->).
    + exists (JPush t0). split; [done|constructor].
    + exists (JCount e). split; [done|constructor].
  - apply vis_step in Hs as (u & -> & ->). exists (JRelease Answered). split; [done|constructor].
  - apply vis_step in Hs as (n & -> & ->). exists (JName e). split; [done|constructor].
  - apply vis_step in Hs as (u & -> & ->). exists (JRelease (Failed e)). split; [done|constructor].
  - exists (JOver o). destruct o; apply vis_step in Hs as ([] & -> & ->); (split; [done|constructor]).
  - destruct o; [done|done|]. by apply vis_step in Hs as ([] & _).
Qed.

(** ** The abstract machine: the driver *)

(** In [MWarm n], [MAcquire _ n _] a turn of the loop and [n] more are left; in
    [MWarmAwait], [MSpawn] the turn is under way. *)
Inductive mstage : Type :=
| MConnect
| MBound
| MWarm (n : nat)
| MWarmAwait (n pending : nat)
| MStart
| MAcquire (started : Z) (n : nat) (handles : list nat)
| MSpawn (started : Z) (n : nat) (handles : list nat)
| MJoin (started : Z) (h : nat) (handles : list nat)
| MElapsed (started : Z)
| MUnbind (started now : Z)
| MStop (started now : Z)
| MLatencies (started now : Z)
| MErrors (started now : Z) (l : list Z)
| MFailures (started now : Z) (l : list Z) (n : Z)
| MPrint (r : Report)
| MExit
| MDone
| MDead.

Definition warm_stage (n : nat) : mstage := match n with O => MStart | S n => MWarm n end.
Definition join_stage (started : Z) (handles : list nat) : mstage :=
  match handles with [] => MElapsed started | h :: handles => MJoin started h handles end.
Definition acquire_stage (started : Z) (n : nat) (handles : list nat) : mstage :=
  match n with O => join_stage started handles | S n => MAcquire started n handles end.

Definition after_failures (started now : Z) (l : list Z) (n : Z) (m : gmap string Z) : prog heff unit :=
  match report l n m (duration_since now started) with
  | None => unwind
  | Some r => trigger (Print r) ;; match rp_breakdown r with Some _ => exit 1 | None => Ret tt end
  end.
Definition after_errors (started now : Z) (l : list Z) (n : Z) : prog heff unit :=
  failures <- trigger (LockFailures (fun m => (m, m))); after_failures started now l n failures.
Definition after_latencies (started now : Z) (l : list Z) : prog heff unit :=
  errors <- trigger ErrorsLoad; after_errors started now l errors.
Definition after_stop (started now : Z) : prog heff unit :=
  latencies <- trigger (LockLatencies (fun _ l => (l, l))); after_latencies started now latencies.

Definition mprog (smsc : SMSC.t) (m : mstage) : prog heff unit :=
  match m with
  | MConnect => drive
  | MBound =>
      bound <- trigger (AwaitBound (10 * NANOS_PER_SEC));
      match bound with
      | None => exit 1
      | Some smsc => for_each (Nat.min window count) (warm smsc) ;; measure smsc
      end
  | MWarm n => for_each (S n) (warm smsc) ;; measure smsc
  | MWarmAwait n pending => (trigger (AwaitResponse pending) ;; for_each n (warm smsc)) ;; measure smsc
  | MStart => measure smsc
  | MAcquire started n hs =>
      handles <- spawn_all smsc (S n) hs; join_all handles ;; conclude smsc started
  | MSpawn started n hs =>
      handle <- trigger (SpawnJob smsc);
      handles <- spawn_all smsc n (hs ++ [handle]); join_all handles ;; conclude smsc started
  | MJoin started h hs => join_all (h :: hs) ;; conclude smsc started
  | MElapsed started => conclude smsc started
  | MUnbind started now => trigger (Unbind smsc) ;; trigger Stop ;; after_stop started now
  | MStop started now => trigger Stop ;; after_stop started now
  | MLatencies started now => after_stop started now
  | MErrors started now l => after_latencies started now l
  | MFailures started now l n => after_errors started now l n
  | MPrint r => trigger (Print r) ;; match rp_breakdown r with Some _ => exit 1 | None => Ret tt end
  | MExit => exit 1
  | MDone => Ret tt
  | MDead => unwind
  end.

Inductive mtrans (smsc : SMSC.t) : mstage -> event heff -> mstage -> Prop :=
| mt_connect u : mtrans smsc MConnect (Ev (Connect drive_client_args) u) MBound
| mt_unbound : mtrans smsc MBound (Ev (AwaitBound (10 * NANOS_PER_SEC)) None) MExit
| mt_bound s :
    mtrans smsc MBound (Ev (AwaitBound (10 * NANOS_PER_SEC)) (Some s)) (warm_stage (Nat.min window count))
| mt_warm n pdu pending :
    submit_sm_build drive_pdu = Some pdu ->
    mtrans smsc (MWarm n) (Ev (SendSubmit smsc built) pending) (MWarmAwait n pending)
| mt_warmed n pending r : mtrans smsc (MWarmAwait n pending) (Ev (AwaitResponse pending) r) (warm_stage n)
| mt_start t : mtrans smsc MStart (Ev Clock t) (acquire_stage t count [])
| mt_acquire started n hs u : mtrans smsc (MAcquire started n hs) (Ev Acquire u) (MSpawn started n hs)
| mt_spawn started n hs h :
    mtrans smsc (MSpawn started n hs) (Ev (SpawnJob smsc) h) (acquire_stage started n (hs ++ [h]))
| mt_join started h hs u : mtrans smsc (MJoin started h hs) (Ev (Join h) u) (join_stage started hs)
| mt_elapsed started now : mtrans smsc (MElapsed started) (Ev Clock now) (MUnbind started now)
| mt_unbind started now u : mtrans smsc (MUnbind started now) (Ev (Unbind smsc) u) (MStop started now)
| mt_stop started now u : mtrans smsc (MStop started now) (Ev Stop u) (MLatencies started now)
| mt_latencies started now l :
    mtrans smsc (MLatencies started now) (Ev (LockLatencies (fun _ l => (l, l))) l) (MErrors started now l)
| mt_errors started now l n :
    mtrans smsc (MErrors started now l) (Ev ErrorsLoad n) (MFailures started now l n)
| mt_failures started now l n m :
    mtrans smsc (MFailures started now l n) (Ev (LockFailures (fun m => (m, m))) m)
      match report l n m (duration_since now started) with Some r => MPrint r | None => MDead end
| mt_print r u :
    mtrans smsc (MPrint r) (Ev (Print r) u) match rp_breakdown r with Some _ => MExit | None => MDone end.

Lemma mprog_warm smsc n : (for_each n (warm smsc) ;; measure smsc) = mprog smsc (warm_stage n).
Proof. by destruct n. Qed.
Lemma mprog_join smsc started hs : (join_all hs ;; conclude smsc started) = mprog smsc (join_stage started hs).
Proof. by destruct hs. Qed.
Lemma mprog_acquire smsc started n hs :
  (handles <- spawn_all smsc n hs; join_all handles ;; conclude smsc started)
  = mprog smsc (acquire_stage started n hs).
Proof. destruct n; [apply mprog_join|done]. Qed.

(** The answer decides the next stage. *)
Ltac main_turn Hs smsc :=
  apply vis_step in Hs as (? & -> & ->); eexists _, smsc; split; [|split; [constructor|by left]];
  first [done | apply mprog_warm | apply mprog_acquire | apply mprog_join].

(** Each step of the driver is one of the machine's; the session is the one the
    bind gave. *)
Lemma main_step smsc m ev p' :
  step (mprog smsc m) (Some ev) p' ->
  exists m' smsc', p' = mprog smsc' m' /\ mtrans smsc m ev m' /\ (smsc' = smsc \/ m = MBound).
Proof.
  destruct m as [| |n|n pending| |started n hs|started n hs|started h hs|started|started now|started now
    |started now|started now l|started now l n|r| | |]; intros Hs; try done; try (main_turn Hs smsc; fail).
  - apply vis_step in Hs as ([s|] & -> & ->).
    + eexists _, s. split; [apply mprog_warm|]. split; [constructor|by right].
    + exists MExit, smsc. split; [done|]. split; [constructor|by left].
  - destruct (submit_sm_build drive_pdu) as [pdu|] eqn:E.
    + assert (warm smsc = pending <- trigger (SendSubmit smsc built); trigger (AwaitResponse pending) ;; Ret tt)
        as Ew by (unfold warm, built; by rewrite E).
      cbn [mprog for_each] in Hs. rewrite Ew in Hs.
      apply vis_step in Hs as (pending & -> & ->). exists (MWarmAwait n pending), smsc.
      split; [|split; [by eapply mt_warm|by left]]. cbn [mprog]. by rewrite Ew.
    + assert (warm smsc = unwind) as Ew by (unfold warm; by rewrite E).
      cbn [mprog for_each] in Hs. rewrite Ew in Hs. by apply vis_step in Hs as ([] & _).
  - apply vis_step in Hs as (m & -> & ->). eexists _, smsc. split; [|split; [constructor|by left]].
    cbn. unfold after_failures. by destruct (report _ _ _ _).
  - apply vis_step in Hs as (u & -> & ->). eexists _, smsc. split; [|split; [constructor|by left]].
    cbn. by destruct (rp_breakdown r).
  - by apply vis_step in Hs as ([] & _).
  - by apply vis_step in Hs as ([] & _).
Qed.

(** *** Both together *)

Definition mstate : Type := mstage * list jstage * Shared.

Definition pool_of (smsc : SMSC.t) (m : mstage) (js : list jstage) : list (prog heff unit) :=
  mprog smsc m :: (jprog smsc <$> js).

(** A step of the driver, which may start a task, or of a task. *)
Inductive gtrans (smsc : SMSC.t) : mstate -> event heff -> mstate -> Prop :=
| gt_main m js w ev m' w' :
    mtrans smsc m ev m' -> performs (pool_of smsc m js) w ev w' -> starts ev = [] ->
    gtrans smsc (m, js, w) ev (m', js, w')
| gt_spawn started n hs js w :
    gtrans smsc (MSpawn started n hs, js, w) (Ev (SpawnJob smsc) (S (length js)))
      (acquire_stage started n (hs ++ [S (length js)]), js ++ [JStart], w)
| gt_job m js k st ev st' w w' :
    js !! k = Some st -> jtrans smsc st ev st' -> performs (pool_of smsc m js) w ev w' ->
    gtrans smsc (m, js, w) ev (m, <[k := st']> js, w').

Lemma jtrans_starts smsc st ev st' : jtrans smsc st ev st' -> starts ev = [].
Proof. by destruct 1. Qed.

(** The programs refine the machine. *)
Lemma hstep_gtrans smsc m js w ev s' :
  (m = MBound -> js = []) -> hstep (w, pool_of smsc m js) ev s' ->
  exists m' js' w' smsc', s' = (w', pool_of smsc' m' js') /\ gtrans smsc (m, js, w) ev (m', js', w').
Proof.
  intros Hjs Hs. remember (w, pool_of smsc m js) as s eqn:Es. destruct Hs as [w0 pool i p p' ev w' Hi Hst Hw].
  injection Es as -> ->. destruct i as [|k]; cbn in Hi.
  - injection Hi as <-. destruct (main_step _ _ _ _ Hst) as (m' & smsc' & -> & Ht & Hsm).
    assert ((jprog smsc <$> js) = (jprog smsc' <$> js)) as Ejs.
    { destruct Hsm as [->|Hm]; [done|]. by rewrite (Hjs Hm). }
    destruct (starts ev) as [|t l] eqn:Est.
    + exists m', js, w', smsc'. split; [|by constructor]. rewrite app_nil_r. cbn. unfold pool_of.
      by rewrite Ejs.
    + exists m', (js ++ [JStart]), w', smsc'. unfold pool_of. rewrite fmap_app. cbn. rewrite Ejs.
      destruct Ht; try discriminate Est. destruct Hw as [-> ->]. destruct Hsm as [->|?]; [|done].
      cbn in Est. injection Est as <- <-.
      split; [done|]. unfold pool_of. cbn [length]. rewrite length_fmap. apply gt_spawn.
  - apply list_lookup_fmap_Some in Hi as (st & -> & Hk). destruct (job_step _ _ _ _ Hst) as (st' & -> & Ht).
    exists m, (<[k := st']> js), w', smsc. rewrite (jtrans_starts _ _ _ _ Ht), app_nil_r. split.
    + cbn. unfold pool_of. by rewrite list_fmap_insert.
    + by eapply gt_job.
Qed.

(** ** The invariant *)

Definition is_over (st : jstage) : bool := match st with JOver _ => true | _ => false end.

(** What a task counts for: its permit, the latency it pushed, the error it
    added, the failure it named, its PDU on the wire. *)
Definition holding (st : jstage) : nat := if is_over st then 0 else 1.
Definition answered (st : jstage) : nat :=
  match st with JRelease Answered | JOver Answered => 1 | _ => 0 end.
Definition named (st : jstage) : nat :=
  match st with JRelease (Failed _) | JOver (Failed _) => 1 | _ => 0 end.
Definition counted (st : jstage) : nat := match st with JName _ => 1 | _ => named st end.
Definition in_flight (st : jstage) : nat := match st with JAwait _ _ => 1 | _ => 0 end.
Definition alive (st : jstage) : Prop :=
  match st with JRelease Panicked | JOver Panicked => False | _ => True end.

Definition m_holding (m : mstage) : nat := match m with MSpawn _ _ _ => 1 | _ => 0 end.
Definition m_in_flight (m : mstage) : nat := match m with MWarmAwait _ _ => 1 | _ => 0 end.

Definition accepted : Prop := is_Some (submit_sm_build drive_pdu).

(** The handles not joined yet cover every task still running. *)
Definition covers (hs : list nat) (js : list jstage) : Prop :=
  forall k st, js !! k = Some st -> is_over st = true \/ S k ∈ hs.

Definition m_inv (m : mstage) (js : list jstage) (w : Shared) : Prop :=
  match m with
  | MConnect | MBound => js = []
  | MWarm n => js = [] /\ (S n <= Nat.min window count)%nat
  | MWarmAwait n _ => js = [] /\ (S n <= Nat.min window count)%nat /\ accepted
  | MStart => js = [] /\ ((0 < Nat.min window count)%nat -> accepted)
  | MAcquire _ n hs | MSpawn _ n hs =>
      (S n + length js = count)%nat /\ hs = seq 1 (length js) /\
      ((0 < Nat.min window count)%nat -> accepted)
  | MJoin _ h hs =>
      length js = count /\ covers (h :: hs) js /\ Forall (fun h => 1 <= h <= count)%nat (h :: hs)
  | MElapsed _ | MUnbind _ _ | MStop _ _ | MLatencies _ _ => length js = count /\ covers [] js
  | MErrors _ _ l => length js = count /\ covers [] js /\ l = latencies w
  | MFailures _ _ l n => length js = count /\ covers [] js /\ l = latencies w /\ n = errors w
  | MPrint r => length js = count /\ covers [] js /\
      exists elapsed, report (latencies w) (errors w) (failures w) elapsed = Some r
  | MExit | MDone => True
  | MDead => False
  end.

Record Inv (m : mstage) (js : list jstage) (w : Shared) : Prop := {
  inv_accepted : js = [] \/ accepted /\ (0 < window)%nat;
  inv_length : (length js <= count)%nat;
  inv_permits : (permits w + sum_list_with holding js + m_holding m = window)%nat;
  inv_latencies : length (latencies w) = sum_list_with answered js;
  inv_errors : errors w = Z.of_nat (sum_list_with counted js);
  inv_tally : tally (failures w) = Z.of_nat (sum_list_with named js);
  inv_failures : map_Forall (fun _ v => 0 <= v) (failures w);
  inv_alive : Forall alive js;
  inv_main : m_inv m js w;
}.

(** [count] is a [usize]. *)
Context (Hcount : Z.of_nat count < 2 ^ 64).

Lemma covers_insert hs js k st st' :
  js !! k = Some st -> is_over st = false -> covers hs js -> covers hs (<[k := st']> js).
Proof.
  intros Hk Hst Hc j x Hj. destruct (decide (j = k)) as [->|Hne].
  - right. destruct (Hc k st Hk); [congruence|done].
  - rewrite list_lookup_insert_ne in Hj by done. by apply Hc.
Qed.

Lemma covers_nil_over js k st : covers [] js -> js !! k = Some st -> is_over st = true.
Proof. intros Hc Hk. destruct (Hc k st Hk) as [?|Hin]; [done|]. by apply elem_of_nil in Hin. Qed.

Lemma jtrans_running smsc st ev st' : jtrans smsc st ev st' -> is_over st = false.
Proof. by destruct 1. Qed.

(** What a task does leaves the driver's part alone. *)
Lemma m_inv_job m js w k st st' w' :
  js !! k = Some st -> is_over st = false -> m_inv m js w -> m_inv m (<[k := st']> js) w'.
Proof.
  intros Hk Hst. pose proof (length_insert js k st') as El.
  assert (js <> []) as Hne by (by intros ->).
  assert (~ covers [] js) as Hnil by (intros Hc; pose proof (covers_nil_over _ _ _ Hc Hk); congruence).
  destruct m; cbn; rewrite ?El; try tauto; try (intros [? ?]; tauto).
  intros (? & Hc & ?). split; [done|]. split; [by eapply covers_insert|done].
Qed.

Lemma inv_job smsc m js w k st ev st' w' :
  Inv m js w -> js !! k = Some st -> jtrans smsc st ev st' -> performs (pool_of smsc m js) w ev w' ->
  Inv m (<[k := st']> js) w'.
Proof.
  intros [Hacc Hlen Hperm Hlat Herr Htal Hpos Halive Hmain] Hk Ht Hw.
  pose proof (m_inv_job m js w k st st' w' Hk (jtrans_running _ _ _ _ Ht) Hmain) as Hmain'.
  assert (accepted /\ (0 < window)%nat) as [Hok Hwin] by (by destruct Hacc as [->|?]).
  pose proof (sum_insert holding _ _ _ st' Hk) as S1. pose proof (sum_insert answered _ _ _ st' Hk) as S2.
  pose proof (sum_insert counted _ _ _ st' Hk) as S3. pose proof (sum_insert named _ _ _ st' Hk) as S4.
  assert (sum_list_with counted (<[k := st']> js) <= length js)%nat as Hc.
  { rewrite <-(length_insert js k st'). apply sum_at_most. by intros [| | | | | |[]|[]]; cbn; lia. }
  assert (sum_list_with named (<[k := st']> js) <= length js)%nat as Hn.
  { rewrite <-(length_insert js k st'). apply sum_at_most. by intros [| | | | | |[]|[]]; cbn; lia. }
  assert (alive st') as Hst'.
  { pose proof (list.Forall_lookup_1 _ _ _ _ Halive Hk). destruct Ht; try done. destruct Hok. congruence. }
  assert (Forall alive (<[k := st']> js)) as Halive' by (by apply Forall_insert).
  destruct Ht; cbn in Hw; try (destruct o);
    try match type of Hw with exists _, _ => destruct Hw as (now & _ & -> & _) end;
    destruct_and?; simplify_eq; (split; rewrite ?length_insert); try done; try (by right; split); cbn in *; try lia.
  - rewrite length_app. cbn. lia.
  - rewrite wrap_small; [lia|]. apply fits_spec. lia.
  - pose proof (tally_lookup _ (debug_name e) Hpos) as Hle.
    assert (wrap 64 (default 0 (failures w !! debug_name e) + 1) = default 0 (failures w !! debug_name e) + 1)
      as ->; [|rewrite tally_insert; lia].
    apply wrap_small, fits_spec. destruct (failures w !! debug_name e) as [v|] eqn:E; cbn in *; [|lia].
    pose proof (Hpos _ _ E). cbn in *. lia.
  - apply map_Forall_insert_2; [|done]. unfold wrap. apply Z.mod_pos_bound. lia.
Qed.

Lemma m_inv_warm n js w :
  js = [] -> (n <= Nat.min window count)%nat -> (n = O -> (0 < Nat.min window count)%nat -> accepted) ->
  m_inv (warm_stage n) js w.
Proof. intros -> Hn Ha. destruct n; cbn; [split; [done|by apply Ha]|done]. Qed.

Lemma m_inv_acquire started n hs js w :
  (n + length js = count)%nat -> hs = seq 1 (length js) ->
  ((0 < Nat.min window count)%nat -> accepted) -> m_inv (acquire_stage started n hs) js w.
Proof.
  intros Hn -> Ha. destruct n as [|n]; [|done]. cbn in Hn.
  assert (covers (seq 1 (length js)) js) as Hc.
  { intros k st Hk. right. apply elem_of_seq. apply lookup_lt_Some in Hk. lia. }
  assert (Forall (fun h => 1 <= h <= count)%nat (seq 1 (length js))) as Hf.
  { apply list.Forall_forall. intros h Hh%elem_of_seq. lia. }
  cbn. destruct (seq 1 (length js)); cbn; [done|]. split; [lia|done].
Qed.

Lemma finished_over smsc st : finished (jprog smsc st) = true -> is_over st = true.
Proof. by destruct st as [| | | | | |[]|]. Qed.

Lemma m_inv_join smsc m started h hs js w :
  length js = count -> covers (h :: hs) js -> Forall (fun h => 1 <= h <= count)%nat (h :: hs) ->
  (exists p, pool_of smsc m js !! h = Some p /\ finished p = true) ->
  m_inv (join_stage started hs) js w.
Proof.
  intros Hlen Hc [Hh Hf]%list.Forall_cons (p & Hp & Hfin).
  assert (covers hs js) as Hc'.
  { intros k st Hk. destruct (Hc k st Hk) as [?|[<-|?]%elem_of_cons]; [by left| |by right].
    left. change ((jprog smsc <$> js) !! k = Some p) in Hp. rewrite list_lookup_fmap, Hk in Hp. injection Hp as <-. by eapply finished_over. }
  destruct hs; cbn; [done|]. split; [done|]. by split.
Qed.

Lemma m_holding_stages started n hs :
  m_holding (warm_stage n) = O /\ m_holding (acquire_stage started n hs) = O /\ m_holding (join_stage started hs) = O.
Proof. split; [by destruct n|]. split; [destruct n, hs|destruct hs]; done. Qed.

Lemma inv_main_step smsc m js w ev m' w' :
  Inv m js w -> mtrans smsc m ev m' -> performs (pool_of smsc m js) w ev w' -> starts ev = [] ->
  Inv m' js w'.
Proof.
  intros [Hacc Hlen Hperm Hlat Herr Htal Hpos Halive Hmain] Ht Hw Hst.
  assert (forall w', latencies w' = latencies w -> errors w' = errors w -> failures w' = failures w ->
    (permits w' + sum_list_with holding js + m_holding m' = window)%nat -> m_inv m' js w' -> Inv m' js w')
    as Hkeep.
  { intros w'' E1 E2 E3 Hp Hm. split; rewrite ?E1, ?E2, ?E3; done. }
  destruct Ht; try discriminate Hst; cbn in Hw, Hmain, Hperm;
    try match type of Hw with _ = w => subst w' end;
    try match goal with |- context [warm_stage ?n] => pose proof (m_holding_stages 0 n []) as (Hh & _ & _) end;
    try match goal with |- context [acquire_stage ?t ?n ?hs] => pose proof (m_holding_stages t n hs) as (_ & Hh & _) end;
    try match goal with |- context [join_stage ?t ?hs] => pose proof (m_holding_stages t 0 hs) as (_ & _ & Hh) end.
  - by apply Hkeep.
  - by apply Hkeep.
  - apply Hkeep; [done..|lia|]. apply m_inv_warm; [done|done|lia].
  - destruct Hmain as [? ?]. apply Hkeep; [done..|]. split; [done|]. split; [done|by eexists].
  - destruct Hmain as (? & ? & ?). apply Hkeep; [done..|lia|]. by apply m_inv_warm; [|lia|].
  - destruct Hw as [_ ->], Hmain as [-> ?]. apply Hkeep; [done..|cbn in *; lia|]. by apply m_inv_acquire.
  - destruct Hw as [Hpos' ->]. apply Hkeep; [done..|cbn; lia|done].
  - destruct Hw as [Hfin ->], Hmain as (? & ? & ?). apply Hkeep; [done..|lia|]. by eapply m_inv_join.
  - destruct Hw as [_ ->]. by apply Hkeep.
  - by apply Hkeep.
  - by apply Hkeep.
  - destruct Hw as (now' & _ & -> & ->). apply Hkeep; [done..|]. destruct Hmain. by split; [|split].
  - destruct Hw as [-> ->]. destruct Hmain as (? & ? & ?). by apply Hkeep.
  - destruct Hw as [-> ->]. destruct Hmain as (? & ? & -> & ->).
    match goal with |- context [report ?l ?n ?m ?e] => destruct (report_some l n m e) as [r E] end.
    rewrite E in Hkeep |- *. apply Hkeep; [done..|].
    split; [done|]. split; [done|by eexists].
  - destruct (rp_breakdown r); by apply Hkeep.
Qed.

Lemma inv_spawn started n hs js w :
  Inv (MSpawn started n hs) js w ->
  Inv (acquire_stage started n (hs ++ [S (length js)])) (js ++ [JStart]) w.
Proof.
  intros [Hacc Hlen Hperm Hlat Herr Htal Hpos Halive (Hn & -> & Ha)]. cbn in Hperm.
  assert (accepted) as Hok by (apply Ha; lia).
  pose proof (m_holding_stages started n (seq 1 (length js) ++ [S (length js)])) as (_ & Hh & _).
  split; rewrite ?sum_list_with_app, ?length_app; cbn; rewrite ?Nat.add_0_r; try done; try lia.
  - right. split; [done|lia].
  - apply list.Forall_app. split; [done|by constructor].
  - apply m_inv_acquire; rewrite ?length_app; cbn; [lia| |done]. by rewrite seq_app.
Qed.

Lemma gtrans_inv smsc m js w ev m' js' w' :
  Inv m js w -> gtrans smsc (m, js, w) ev (m', js', w') -> Inv m' js' w'.
Proof.
  intros Hi Ht. inversion Ht; subst; [by eapply inv_main_step|by apply inv_spawn|by eapply inv_job].
Qed.

Abbreviation executes := hexec.

Lemma inv_start t : Inv MConnect [] (mkShared window [] 0 ∅ t).
Proof. split; cbn; try done; try lia. by left. Qed.

(** Every state on the way is one of the machine's, where the invariant holds. *)
Definition machine (s : hsys) (m : mstage) (js : list jstage) (w : Shared) : Prop :=
  Inv m js w /\ exists smsc, s = (w, pool_of smsc m js).

Lemma machine_start t : machine (hstart t) MConnect [] (mkShared window [] 0 ∅ t).
Proof. split; [apply inv_start|]. by exists (SMSC.mk "" "" ""). Qed.

Lemma machine_step s m js w ev s' :
  machine s m js w -> hstep s ev s' ->
  exists smsc m' js' w', gtrans smsc (m, js, w) ev (m', js', w') /\ machine s' m' js' w'.
Proof.
  intros (Hi & smsc & ->) Hs.
  destruct (hstep_gtrans smsc m js w ev s') as (m' & js' & w' & smsc' & -> & Ht);
    [intros ->; exact (inv_main _ _ _ Hi)|done|].
  exists smsc, m', js', w'. split; [done|]. split; [by eapply gtrans_inv|by exists smsc'].
Qed.

(** *** The window *)

Definition wire (ev : event heff) : Z :=
  match ev with Ev (SendSubmit _ _) _ => 1 | Ev (AwaitResponse _) _ => -1 | _ => 0 end.
(** The submits sent and not answered yet. *)
Definition unanswered (tr : trace heff) : Z := foldr (fun ev n => wire ev + n) 0 tr.

Definition flying (m : mstage) (js : list jstage) : Z :=
  Z.of_nat (sum_list_with in_flight js + m_in_flight m).

Lemma m_in_flight_stages started n hs :
  m_in_flight (warm_stage n) = O /\ m_in_flight (acquire_stage started n hs) = O /\
  m_in_flight (join_stage started hs) = O.
Proof. split; [by destruct n|]. split; [destruct n, hs|destruct hs]; done. Qed.

Lemma gtrans_flying smsc m js w ev m' js' w' :
  gtrans smsc (m, js, w) ev (m', js', w') -> flying m' js' = flying m js + wire ev.
Proof.
  intros Ht. unfold flying. inversion Ht as [? ? ? ? ? ? Hm ? Hst|started n hs|? ? k st ? st' ? ? Hk Hj]; subst.
  - destruct Hm; try discriminate Hst; cbn;
      rewrite ?(proj1 (m_in_flight_stages 0 _ [])), ?(proj1 (proj2 (m_in_flight_stages _ _ _))),
        ?(proj2 (proj2 (m_in_flight_stages _ 0 _))); try lia.
    + destruct (report _ _ _ _); cbn; lia.
    + destruct (rp_breakdown r); cbn; lia.
  - rewrite (proj1 (proj2 (m_in_flight_stages _ _ _))), sum_list_with_app. cbn. lia.
  - pose proof (sum_insert in_flight _ _ _ st' Hk). destruct Hj; cbn in *; lia.
Qed.

Lemma flying_window m js w : Inv m js w -> 0 <= flying m js <= Z.of_nat window.
Proof.
  intros Hi. pose proof (inv_permits _ _ _ Hi) as Hp. pose proof (inv_main _ _ _ Hi) as Hm.
  assert (sum_list_with in_flight js <= sum_list_with holding js)%nat as Hle.
  { clear. induction js as [|st js IH]; cbn; [lia|]. destruct st; cbn; lia. }
  unfold flying. destruct m; cbn in *; try lia. destruct Hm as (-> & ? & _). cbn. lia.
Qed.

Lemma machine_flying s m js w tr s' :
  machine s m js w -> executes s tr s' ->
  exists m' js' w', machine s' m' js' w' /\ flying m' js' = flying m js + unanswered tr.
Proof.
  intros Hs Hx. revert m js w Hs. induction Hx as [s|s ev s' tr s'' Hst Hx IH]; intros m js w Hs.
  - exists m, js, w. split; [done|cbn; lia].
  - destruct (machine_step _ _ _ _ _ _ Hs Hst) as (smsc & m1 & js1 & w1 & Ht & Hs1).
    destruct (IH _ _ _ Hs1) as (m' & js' & w' & ? & Hf). exists m', js', w'. split; [done|].
    rewrite Hf, (gtrans_flying _ _ _ _ _ _ _ _ Ht). change (unanswered (ev :: tr)) with (wire ev + unanswered tr). lia.
Qed.

(** C30: the driver never has more submits in flight than its window, warm-up
    included, however its tasks interleave and whatever the peer answers. *)
Theorem window_respected t tr s :
  executes (hstart t) tr s -> 0 <= unanswered tr <= Z.of_nat window.
Proof.
  intros Hx. destruct (machine_flying _ _ _ _ _ _ (machine_start t) Hx) as (m & js & w & [Hi _] & Hf).
  pose proof (flying_window _ _ _ Hi). change (flying MConnect []) with 0 in Hf. lia.
Qed.

(** *** The accounts *)

Lemma covers_nil_sums js :
  covers [] js -> Forall alive js ->
  (sum_list_with answered js + sum_list_with named js = length js)%nat /\
  sum_list_with counted js = sum_list_with named js.
Proof.
  intros Hc Ha. assert (Forall (fun st => is_over st = true) js) as Ho.
  { apply list.Forall_lookup. intros k st. by apply covers_nil_over. }
  clear Hc. induction Ha as [|st js Hst Ha IH]; [done|]. apply list.Forall_cons in Ho as [Hs Ho].
  destruct (IH Ho). destruct st as [| | | | | | |[|e|]]; try discriminate Hs; [| |done]; cbn; split; lia.
Qed.

Lemma gtrans_print smsc m js w r u s' : gtrans smsc (m, js, w) (Ev (Print r) u) s' -> m = MPrint r.
Proof. inversion 1 as [? ? ? ? ? ? Hm| |? ? k st ? st' ? ? Hk Hj]; [by inversion Hm|by inversion Hj]. Qed.

Lemma machine_printed s m js w tr s' r u :
  machine s m js w -> executes s tr s' -> Ev (Print r) u ∈ tr -> exists js' w', Inv (MPrint r) js' w'.
Proof.
  intros Hs Hx. revert m js w Hs. induction Hx as [s|s ev s' tr s'' Hst Hx IH]; intros m js w Hs Hin.
  - by apply elem_of_nil in Hin.
  - destruct (machine_step _ _ _ _ _ _ Hs Hst) as (smsc & m1 & js1 & w1 & Ht & Hs1).
    apply elem_of_cons in Hin as [<-|Hin]; [|by eapply IH].
    apply gtrans_print in Ht as ->. exists js, w. by destruct Hs.
Qed.

(** C31: a report accounts for every submit: whatever the peer answered and however
    the tasks interleaved, the accepted and the failed ones add up to [--count],
    and the reasons listed add up to the failed ones. *)
Theorem report_accounts t tr s r u :
  executes (hstart t) tr s -> Ev (Print r) u ∈ tr ->
  rp_total r = Z.of_nat count /\ rp_ok r + rp_errors r = rp_total r /\
  match rp_breakdown r with
  | Some reasons => zsum reasons = rp_errors r /\ 0 < rp_errors r
  | None => rp_errors r = 0
  end.
Proof.
  intros Hx Hin. destruct (machine_printed _ _ _ _ _ _ _ _ (machine_start t) Hx Hin) as (js & w & Hi).
  destruct Hi as [_ _ _ Hlat Herr Htal _ Hal (Hlen & Hc & elapsed & Hr)].
  destruct (covers_nil_sums _ Hc Hal) as [Hsum Hcn].
  destruct (report_fields _ _ _ _ _ Hr) as (Eok & Ee & Et & Eb).
  rewrite wrap_small in Eok by (apply fits_spec; lia). rewrite Eok, wrap_small in Et by (apply fits_spec; lia).
  split; [lia|]. split; [lia|]. pose proof (breakdown_spec (errors w) (failures w)) as Hb.
  rewrite Eb, Ee. destruct (breakdown _ _) as [b|]; [|lia]. destruct Hb as (? & Hperm & _).
  split; [|done]. rewrite Hperm. fold (tally (failures w)). lia.
Qed.

(** Without a permit there is no report: the driver binds and waits for ever. *)
Lemma zero_window_never_reports t tr s r u :
  window = O -> (0 < count)%nat -> executes (hstart t) tr s -> Ev (Print r) u ∉ tr.
Proof.
  intros Hw Hc Hx Hin. destruct (machine_printed _ _ _ _ _ _ _ _ (machine_start t) Hx Hin) as (js & w & Hi).
  destruct (inv_main _ _ _ Hi) as [Hlen _]. destruct (inv_accepted _ _ _ Hi) as [->|[_ ?]]; cbn in *; lia.
Qed.

(** *** The end *)

(** What is left to do, in effects. *)
Definition j_left (st : jstage) : nat :=
  match st with
  | JStart => 6 | JSend _ => 5 | JAwait _ _ => 4 | JCount _ => 3 | JName _ => 2 | JPush _ => 2
  | JRelease _ => 1 | JOver _ => 0
  end.

Definition m_left (m : mstage) : nat :=
  match m with
  | MConnect => 2 * Nat.min window count + 9 * count + 10
  | MBound => 2 * Nat.min window count + 9 * count + 9
  | MWarm n => 2 * S n + 9 * count + 8
  | MWarmAwait n _ => 2 * n + 9 * count + 9
  | MStart => 9 * count + 8
  | MAcquire _ n hs => 9 * S n + length hs + 7
  | MSpawn _ n hs => 9 * n + length hs + 15
  | MJoin _ _ hs => S (length hs) + 7
  | MElapsed _ => 7
  | MUnbind _ _ => 6
  | MStop _ _ => 5
  | MLatencies _ _ => 4
  | MErrors _ _ _ => 3
  | MFailures _ _ _ _ => 2
  | MPrint _ => 1
  | MExit | MDone | MDead => 0
  end.

Definition left_over (m : mstage) (js : list jstage) : nat := m_left m + sum_list_with j_left js.

Lemma m_left_stages started n hs :
  (m_left (warm_stage n) = 2 * n + 9 * count + 8)%nat /\
  (m_left (acquire_stage started n hs) = 9 * n + length hs + 7)%nat /\
  (m_left (join_stage started hs) = length hs + 7)%nat.
Proof. split; [by destruct n; cbn; lia|]. split; [destruct n, hs|destruct hs]; cbn; lia. Qed.

Lemma gtrans_left smsc m js w ev m' js' w' :
  gtrans smsc (m, js, w) ev (m', js', w') -> (left_over m' js' < left_over m js)%nat.
Proof.
  intros Ht. unfold left_over. inversion Ht as [? ? ? ? ? ? Hm ? Hst|started n hs|? ? k st ? st' ? ? Hk Hj]; subst.
  - destruct Hm; try discriminate Hst; try (cbn; lia).
    + rewrite (proj1 (m_left_stages 0 _ [])). cbn. lia.
    + rewrite (proj1 (m_left_stages 0 _ [])). cbn. lia.
    + rewrite (proj1 (proj2 (m_left_stages _ _ _))). cbn. lia.
    + rewrite (proj2 (proj2 (m_left_stages _ 0 _))). cbn. lia.
    + destruct (report _ _ _ _); cbn; lia.
    + destruct (rp_breakdown r); cbn; lia.
  - rewrite (proj1 (proj2 (m_left_stages _ _ _))), sum_list_with_app, length_app. cbn. lia.
  - pose proof (sum_insert j_left _ _ _ st' Hk). destruct Hj; cbn in *; lia.
Qed.

Lemma machine_left s m js w tr s' :
  machine s m js w -> executes s tr s' ->
  exists m' js' w', machine s' m' js' w' /\ (length tr + left_over m' js' <= left_over m js)%nat.
Proof.
  intros Hs Hx. revert m js w Hs. induction Hx as [s|s ev s' tr s'' Hst Hx IH]; intros m js w Hs.
  - exists m, js, w. split; [done|cbn; lia].
  - destruct (machine_step _ _ _ _ _ _ Hs Hst) as (smsc & m1 & js1 & w1 & Ht & Hs1).
    destruct (IH _ _ _ Hs1) as (m' & js' & w' & ? & Hl). exists m', js', w'. split; [done|].
    apply gtrans_left in Ht. cbn. lia.
Qed.

(** The driver has returned, exited or panicked. *)
Definition stopped (p : prog heff unit) : bool :=
  match p with
  | Ret _ => true
  | Vis (Exit _) _ => true
  | Vis Unwind _ => true
  | _ => false
  end.

Lemma job_can smsc st pool w :
  is_over st = false ->
  exists ev p' w', step (jprog smsc st) (Some ev) p' /\ performs pool w ev w'.
Proof.
  assert (forall {X} (e : heff X) (k : X -> prog heff unit) x w', answers pool w X e x w' ->
    exists ev p' w', step (Vis e k) (Some ev) p' /\ performs pool w ev w') as Hcan.
  { intros X e k x w' Hx. exists (Ev e x), (k x), w'. split; [by exists x|done]. }
  intros Hst. destruct st as [|t0|t0 n|t0|e|e|o|o]; try discriminate Hst.
  - by eapply (Hcan _ Clock _ (clock w)).
  - by eapply (Hcan _ (SendSubmit smsc built) _ O).
  - by eapply (Hcan _ (AwaitResponse n) _ (Err ESME_RSYSERR)).
  - eapply (Hcan _ (LockLatencies (push_latency t0)) _ tt). by exists (clock w).
  - by eapply (Hcan _ ErrorsFetchAdd _ (errors w)).
  - by eapply (Hcan _ (LockFailures (count_failure (debug_name e))) _ tt).
  - destruct o; by eapply (Hcan _ Release _ tt).
Qed.

Lemma task_can smsc m js w k st :
  js !! k = Some st -> is_over st = false -> exists ev s', hstep (w, pool_of smsc m js) ev s'.
Proof.
  intros Hk Hst. destruct (job_can smsc st (pool_of smsc m js) w Hst) as (ev & p' & w' & Hs & Hp).
  eexists ev, _. eapply (hstep_run _ _ (S k)); [|exact Hs|exact Hp].
  change ((jprog smsc <$> js) !! k = Some (jprog smsc st)). by rewrite list_lookup_fmap, Hk.
Qed.

Lemma driver_can smsc m js w X (e : heff X) k x w' :
  mprog smsc m = Vis e k -> answers (pool_of smsc m js) w X e x w' ->
  exists ev s', hstep (w, pool_of smsc m js) ev s'.
Proof.
  intros Em Ha. eexists (Ev e x), _. eapply (hstep_run _ _ O); [done|rewrite Em; by exists x|exact Ha].
Qed.

Lemma over_finished smsc st : is_over st = true -> finished (jprog smsc st) = true.
Proof. by destruct st as [| | | | | | |[]]. Qed.

Lemma progress smsc m js w :
  (0 < window \/ count = 0)%nat -> Inv m js w ->
  stopped (mprog smsc m) = true \/ exists ev s', hstep (w, pool_of smsc m js) ev s'.
Proof.
  intros Hwin Hi. pose proof (inv_permits _ _ _ Hi) as Hp. pose proof (inv_main _ _ _ Hi) as Hm.
  destruct m as [| |n|n pending| |started n hs|started n hs|started h hs|started|started now|started now
    |started now|started now l|started now l n|r| | |]; try (by left).
  - right. by eapply (driver_can _ _ _ _ _ (Connect drive_client_args) _ tt).
  - right. by eapply (driver_can _ _ _ _ _ (AwaitBound _) _ None).
  - destruct (submit_sm_build drive_pdu) as [pdu|] eqn:E.
    + right. eapply (driver_can _ _ _ _ _ (SendSubmit smsc pdu) _ O); [|done].
      cbn [mprog for_each]. unfold warm. by rewrite E.
    + left. cbn [mprog for_each]. unfold warm. by rewrite E.
  - right. by eapply (driver_can _ _ _ _ _ (AwaitResponse pending) _ (Err ESME_RSYSERR)).
  - right. by eapply (driver_can _ _ _ _ _ Clock _ (clock w)).
  - right. destruct (decide (0 < permits w)%nat) as [Hpos|Hzero].
    + eapply (driver_can _ _ _ _ _ Acquire _ tt); [done|by split].
    + destruct (sum_pos holding js) as (k & st & Hk & Hst); [cbn in Hp, Hm; lia|].
      apply (task_can _ _ _ _ k st Hk). unfold holding in Hst. destruct (is_over st); [lia|done].
  - right. by eapply (driver_can _ _ _ _ _ (SpawnJob smsc) _ (length (pool_of smsc (MSpawn started n hs) js))).
  - right. destruct Hm as (Hlen & Hc & [[Hh1 Hh2] Hf]%list.Forall_cons).
    destruct h as [|k]; [lia|]. destruct (lookup_lt_is_Some_2 js k) as [st Hk]; [lia|].
    destruct (is_over st) eqn:Est; [|by eapply task_can].
    eapply (driver_can _ _ _ _ _ (Join (S k)) _ tt); [done|]. split; [|done].
    exists (jprog smsc st). split; [|by apply over_finished].
    change ((jprog smsc <$> js) !! k = Some (jprog smsc st)). by rewrite list_lookup_fmap, Hk.
  - right. by eapply (driver_can _ _ _ _ _ Clock _ (clock w)).
  - right. by eapply (driver_can _ _ _ _ _ (Unbind smsc) _ tt).
  - right. by eapply (driver_can _ _ _ _ _ Stop _ tt).
  - right. eapply (driver_can _ _ _ _ _ (LockLatencies (fun _ l => (l, l))) _ (latencies w)); [done|].
    exists (clock w). split; [done|]. by split.
  - right. by eapply (driver_can _ _ _ _ _ ErrorsLoad _ (errors w)).
  - right. by eapply (driver_can _ _ _ _ _ (LockFailures (fun m => (m, m))) _ (failures w)).
  - right. by eapply (driver_can _ _ _ _ _ (Print r) _ tt).
Qed.

(** C32: the driver always ends: with at least one permit, an execution has at most
    2 effects per warm-up submit, 9 per measured one and 10 more; until the driver
    has stopped some task can go on, so it is never stuck on its semaphore or on a
    join; and it stops by a panic only when the builder refuses the body. *)
Theorem drive_ends t tr s :
  (0 < window \/ count = 0)%nat -> executes (hstart t) tr s ->
  (length tr <= 2 * Nat.min window count + 9 * count + 10)%nat /\
  exists driver, s.2 !! O = Some driver /\
    (stopped driver = false -> exists ev s', hstep s ev s') /\
    (forall k, driver = Vis Unwind k -> submit_sm_build drive_pdu = None).
Proof.
  intros Hwin Hx. destruct (machine_left _ _ _ _ _ _ (machine_start t) Hx) as (m & js & w & [Hi (smsc & ->)] & Hl).
  split; [unfold left_over in Hl; cbn in *; lia|].
  exists (mprog smsc m). split; [done|]. split.
  - intros Hst. destruct (progress smsc m js w Hwin Hi) as [?|?]; [congruence|done].
  - intros k Hk. pose proof (inv_main _ _ _ Hi) as Hm.
    pose proof (f_equal finished Hk) as Hf. destruct m; try discriminate Hf; [|discriminate Hk|done].
    cbn [mprog for_each] in Hk. unfold warm in Hk. by destruct (submit_sm_build drive_pdu).
Qed.
End Drive.

(** ** A short execution *)

Module DriveExample.
#[local] Existing Instance Smpp34Example.codec.

Definition fresh : submit_sm.t := submit_sm.mk "" 1 1 "" 1 1 "" 0 0 0 "" "" 0 0 0 0 0 [] [].
(** [drive --count 1 --window 1 --body-len 3]. *)
Definition args : DriveArgs.t := DriveArgs.mk "127.0.0.1" 2775 "load" "load" 1 1 "1" "2" 3.
Definition smsc : SMSC.t := SMSC.mk "c1" "load" "127.0.0.1".

(** The one submit is throttled. *)
Definition lines : Report :=
  mkReport 1 0 1 (rnd (1 # 1000000000)) 0 None (Some [("ESME_RTHROTTLED", 1)]).

Lemma lines_report : report [] 1 {["ESME_RTHROTTLED" := 1]} (duration_since 0 0) = Some lines.
Proof. vm_compute. reflexivity. Qed.

Ltac performed :=
  first [repeat split; lia
        |split; [eexists; split; reflexivity|reflexivity]
        |exists 0; repeat split; lia].

(** Task [i] goes on; its effect is answered [x]. *)
Ltac turn i x :=
  eapply hexec_step;
    [eapply (hstep_run _ _ _ _ i); [reflexivity|exists x; split; reflexivity|cbn; performed]|];
  cbn -[report].

Lemma execution : exists tr s,
  hexec fresh args (hstart fresh args 0) tr s /\ Ev (Print lines) tt ∈ tr.
Proof.
  eexists. eexists. split.
  - change (hstart fresh args 0) with (mkShared 1 [] 0 ∅ 0, [drive fresh args]).
    turn O tt. turn O (Some smsc). turn O 7%nat. turn O (@Ok SmppError _ (submit_sm_resp.mk 0 (Some "1"))).
    turn O 0. turn O tt. turn O 1%nat.
    turn 1%nat 0. turn 1%nat 8%nat. turn 1%nat (@Err SmppError submit_sm_resp.t ESME_RTHROTTLED).
    turn 1%nat 0. turn 1%nat tt. turn 1%nat tt.
    turn O tt. turn O 0. turn O tt. turn O tt.
    turn O (@nil Z). turn O 1. turn O ({["ESME_RTHROTTLED" := 1]} : gmap string Z).
    rewrite lines_report. turn O tt. apply hexec_refl.
  - do 20 right. left.
Qed.

Lemma window_respected_witness : exists tr s,
  hexec fresh args (hstart fresh args 0) tr s /\ 0 <= unanswered tr <= 1.
Proof.
  destruct execution as (tr & s & Hx & _). exists tr, s. split; [exact Hx|].
  exact (window_respected fresh args ltac:(reflexivity) 0 tr s Hx).
Defined.

Lemma report_accounts_witness : exists tr s,
  hexec fresh args (hstart fresh args 0) tr s /\ rp_total lines = 1 /\ rp_ok lines + rp_errors lines = 1 /\
  zsum [("ESME_RTHROTTLED", 1)] = 1.
Proof.
  destruct execution as (tr & s & Hx & Hin). exists tr, s. split; [exact Hx|].
  destruct (report_accounts fresh args ltac:(reflexivity) 0 tr s lines tt Hx Hin) as (H1 & H2 & H3 & _).
  split; [exact H1|]. split; [exact H2|exact H3].
Defined.

Lemma drive_ends_witness : exists tr s,
  hexec fresh args (hstart fresh args 0) tr s /\ (length tr <= 21)%nat.
Proof.
  destruct execution as (tr & s & Hx & Hin). exists tr, s. split; [exact Hx|].
  exact (proj1 (drive_ends fresh args ltac:(reflexivity) 0 tr s ltac:(cbn; lia) Hx)).
Defined.
End DriveExample.
