(* ===== verification/LeakCheck.v ===== *)
(** * The leak check: [examples/leak_check.rs]

    The counting allocator, which any number of tasks may call at the same time;
    the workloads it is pointed at; and [main], which compares the counter before
    and after each phase with a budget.  The system allocator answers by
    [GlobalAlloc]'s contract: a block it gives out is at an address with no live
    block, and a caller gives back only a live block, with its own layout. *)

From S2P Require Import Prelude RustStr Smpp34 Pdu Receipt Config Yaml Async Threads.
#[local] Open Scope Z_scope.
#[local] Open Scope async_scope.

(** ** The counting allocator *)

(** [z as i64], and [i64] arithmetic, which wraps. *)
Definition i64 (z : Z) : Z := wrap 64 (z + 2 ^ 63) - 2 ^ 63.

(** A [Layout]: its size never exceeds [isize::MAX]. *)
Record Layout : Set := mkLayout { size : Z; align : Z }.
Definition layout_ok (l : Layout) : Prop := 0 <= size l < 2 ^ 63.

Inductive aeff : Type -> Type :=
(** [System.alloc] and [System.alloc_zeroed]; [None] is the null pointer. *)
| SysAlloc (zeroed : bool) (l : Layout) : aeff (option Z)
| SysDealloc (p : Z) (l : Layout) : aeff unit
| SysRealloc (p : Z) (l : Layout) (new_size : Z) : aeff (option Z)
(** [LIVE]. *)
| LiveFetchAdd (d : Z) : aeff unit
| LiveFetchSub (d : Z) : aeff unit
| LiveLoad : aeff Z.

(** [GlobalAlloc for Counting]. *)
Definition alloc (l : Layout) : prog aeff (option Z) :=
  p <- trigger (SysAlloc false l);
  match p with
  | Some _ => trigger (LiveFetchAdd (i64 (size l))) ;; Ret p
  | None => Ret p
  end.

Definition dealloc (p : Z) (l : Layout) : prog aeff unit :=
  trigger (SysDealloc p l) ;;
  trigger (LiveFetchSub (i64 (size l))).

Definition alloc_zeroed (l : Layout) : prog aeff (option Z) :=
  p <- trigger (SysAlloc true l);
  match p with
  | Some _ => trigger (LiveFetchAdd (i64 (size l))) ;; Ret p
  | None => Ret p
  end.

Definition realloc (ptr : Z) (l : Layout) (new_size : Z) : prog aeff (option Z) :=
  p <- trigger (SysRealloc ptr l new_size);
  match p with
  | Some _ => trigger (LiveFetchAdd (i64 (i64 new_size - i64 (size l)))) ;; Ret p
  | None => Ret p
  end.

Definition live : prog aeff Z := trigger LiveLoad.

(** *** The system allocator *)

Record Memory : Type := mkMemory { blocks : gmap Z Layout; LIVE : Z }.
Definition with_blocks (m : Memory) (b : gmap Z Layout) : Memory := mkMemory b (LIVE m).
Definition with_LIVE (m : Memory) (z : Z) : Memory := mkMemory (blocks m) z.

Definition manswers (m : Memory) X (e : aeff X) : X -> Memory -> Prop :=
  match e in aeff X return X -> Memory -> Prop with
  | SysAlloc _ l => fun x m' =>
      match x with
      | None => m' = m
      | Some p => blocks m !! p = None /\ m' = with_blocks m (<[p := l]> (blocks m))
      end
  | SysDealloc p l => fun _ m' =>
      blocks m !! p = Some l /\ m' = with_blocks m (delete p (blocks m))
  | SysRealloc p l n => fun x m' =>
      blocks m !! p = Some l /\
      match x with
      | None => m' = m
      | Some p' => delete p (blocks m) !! p' = None /\
          m' = with_blocks m (<[p' := mkLayout n (align l)]> (delete p (blocks m)))
      end
  | LiveFetchAdd d => fun _ m' => m' = with_LIVE m (i64 (LIVE m + d))
  | LiveFetchSub d => fun _ m' => m' = with_LIVE m (i64 (LIVE m - d))
  | LiveLoad => fun x m' => x = LIVE m /\ m' = m
  end.

(** The calls the program's tasks make; memory does not move by itself. *)
Inductive call : Thread aeff -> Prop :=
| call_alloc l : layout_ok l -> call (mkThread (alloc l))
| call_dealloc p l : layout_ok l -> call (mkThread (dealloc p l))
| call_alloc_zeroed l : layout_ok l -> call (mkThread (alloc_zeroed l))
| call_realloc p l n : layout_ok l -> layout_ok (mkLayout n (align l)) -> call (mkThread (realloc p l n))
| call_live : call (mkThread live).

Abbreviation mstep := (sstep manswers (fun _ _ => False) call).
Abbreviation mexec := (exec manswers (fun _ _ => False) call).

Definition mstart : sys (E := aeff) (W := Memory) := (mkMemory ∅ 0, []).

(** ** What [LIVE] counts *)

Definition live_bytes (b : gmap Z Layout) : Z := map_fold (fun _ l acc => size l + acc) 0 b.

Lemma live_bytes_insert b p l : b !! p = None -> live_bytes (<[p := l]> b) = size l + live_bytes b.
Proof. intros Hp. unfold live_bytes. by rewrite map_fold_insert_L by (intros; lia || done). Qed.

Lemma live_bytes_delete b p l : b !! p = Some l -> live_bytes (delete p b) = live_bytes b - size l.
Proof. intros Hp. unfold live_bytes. rewrite (map_fold_delete_L _ _ p l b) by (intros; lia || done). lia. Qed.

(** What a call has done to the blocks and not yet to [LIVE]. *)
Definition owes {A} (p : prog aeff A) : Z :=
  match p with
  | Vis (LiveFetchAdd d) _ => d
  | Vis (LiveFetchSub d) _ => - d
  | _ => 0
  end.

(** The bytes an effect adds to the blocks, and what it adds to [LIVE]. *)
Definition grows {X} (e : aeff X) : X -> Z :=
  match e in aeff X return X -> Z with
  | SysAlloc _ l => fun x => match x with Some _ => size l | None => 0 end
  | SysDealloc _ l => fun _ => - size l
  | SysRealloc _ l n => fun x => match x with Some _ => n - size l | None => 0 end
  | _ => fun _ => 0
  end.
Definition counts {X} (e : aeff X) : Z :=
  match e with LiveFetchAdd d => d | LiveFetchSub d => - d | _ => 0 end.

(** A call settles: each effect changes what it owes by what it did. *)
Fixpoint settles {A} (p : prog aeff A) : Prop :=
  match p with
  | Ret _ => True
  | Vis e k => forall x, owes (k x) = owes (Vis e k) + grows e x - counts e /\ settles (k x)
  | Iter _ _ _ => False
  end.

Lemma i64_mod z : i64 z mod 2 ^ 64 = z mod 2 ^ 64.
Proof.
  unfold i64, wrap. rewrite Zminus_mod_idemp_l. f_equal. lia.
Qed.

Lemma i64_congr a b : a mod 2 ^ 64 = b mod 2 ^ 64 -> i64 a = i64 b.
Proof. intros E. unfold i64, wrap. rewrite Zplus_mod, E, <-Zplus_mod. done. Qed.

Lemma i64_small z : - 2 ^ 63 <= z < 2 ^ 63 -> i64 z = z.
Proof. intros ?. unfold i64. rewrite wrap_small; [lia|]. apply fits_spec. lia. Qed.

Lemma i64_add a d : i64 (i64 a + d) = i64 (a + d).
Proof. apply i64_congr. by rewrite Zplus_mod, i64_mod, <-Zplus_mod. Qed.

Lemma call_settles t : call t -> settles (th_prog t) /\ owes (th_prog t) = 0.
Proof.
  destruct 1; (split; [|done]); cbn in *;
    repeat match goal with
      | |- forall _ : option _, _ => intros []; cbn
      | |- forall _, _ => intros ?; cbn
      | |- _ /\ _ => split
      end; try done; try lia.
  all: unfold layout_ok in *; cbn in *; rewrite !i64_small; rewrite ?i64_small; lia.
Qed.

Definition owed (pool : list (Thread aeff)) : Z := foldr (fun t acc => owes (th_prog t) + acc) 0 pool.

Lemma owed_insert pool i t t' :
  pool !! i = Some t -> owed (<[i := t']> pool) = owed pool - owes (th_prog t) + owes (th_prog t').
Proof.
  revert i. induction pool as [|u pool IH]; intros [|i] Hi; [done|done|injection Hi as ->; cbn; lia|].
  change (owes (th_prog u) + owed (<[i := t']> pool) =
          owes (th_prog u) + owed pool - owes (th_prog t) + owes (th_prog t')).
  rewrite (IH i Hi). lia.
Qed.

Lemma owed_snoc pool t : owed (pool ++ [t]) = owed pool + owes (th_prog t).
Proof.
  unfold owed in *. induction pool as [|u pool IH]; cbn in *; lia.
Qed.

(** The counter is the bytes of the live blocks, less what the calls in progress
    have yet to count. *)
Record counted (s : sys (E := aeff) (W := Memory)) : Prop := {
  counted_live : LIVE s.1 = i64 (live_bytes (blocks s.1) - owed s.2);
  counted_settle : Forall (fun t => settles (th_prog t)) s.2;
}.

Lemma answered_counted m X (e : aeff X) x m' o o' :
  LIVE m = i64 (live_bytes (blocks m) - o) -> manswers m X e x m' -> o' = o + grows e x - counts e ->
  LIVE m' = i64 (live_bytes (blocks m') - o').
Proof.
  intros Hl Ha ->. destruct e as [z l|p l|p l n|d|d|]; cbn in *.
  - destruct x as [p|]; [destruct Ha as [Hp ->]|subst m']; cbn.
    + rewrite Hl, live_bytes_insert by done. f_equal. lia.
    + rewrite Hl. f_equal. lia.
  - destruct Ha as [Hp ->]. cbn. rewrite Hl, (live_bytes_delete _ _ l) by done. f_equal. lia.
  - destruct Ha as [Hp Hx], x as [p'|]; [destruct Hx as [Hp' ->]|subst m']; cbn.
    + rewrite Hl, live_bytes_insert, (live_bytes_delete _ _ l) by done. f_equal. cbn. lia.
    + rewrite Hl. f_equal. lia.
  - subst m'. cbn. rewrite Hl, i64_add. f_equal. lia.
  - subst m'. cbn. rewrite Hl. unfold Z.sub at 1. rewrite i64_add. f_equal. lia.
  - destruct Ha as [_ ->]. rewrite Hl. f_equal. lia.
Qed.

Lemma step_settles {A} (p p' : prog aeff A) o :
  settles p -> step p o p' ->
  settles p' /\
  match o with Some (Ev e x) => owes p' = owes p + grows e x - counts e | None => False end.
Proof.
  destruct p as [|A Y f k|]; cbn -[owes]; [done| |done]. intros Hp (y & -> & ->).
  destruct (Hp y). by split.
Qed.

Lemma mstep_counted s o s' : counted s -> mstep s o s' -> counted s'.
Proof.
  intros [Hl Hs] Hst. destruct Hst as [w pool i A p p' X e x w' Hi Hst Hw|w pool i A p p' Hi Hst
    |w pool t Ht|w pool w' []]; cbn [fst snd] in *.
  - destruct (step_settles _ _ _ (list.Forall_lookup_1 _ _ _ _ Hs Hi) Hst) as [Hk Ho].
    split; cbn [fst snd]; [|by apply Forall_insert].
    eapply answered_counted; [exact Hl|exact Hw|]. rewrite (owed_insert _ _ _ _ Hi). cbn [th_prog th_type] in *. lia.
  - by destruct (step_settles _ _ _ (list.Forall_lookup_1 _ _ _ _ Hs Hi) Hst) as [_ []].
  - destruct (call_settles t Ht) as [Hset H0]. split; cbn [fst snd].
    + by rewrite owed_snoc, H0, Z.add_0_r.
    + apply list.Forall_app. by repeat constructor.
Qed.

Lemma mexec_counted s tr s' : counted s -> mexec s tr s' -> counted s'.
Proof. induction 2; [done|]. eauto using mstep_counted. Qed.

(** Every call has returned. *)
Definition quiet (pool : list (Thread aeff)) : Prop :=
  Forall (fun t => match th_prog t with Ret _ => True | _ => False end) pool.

Lemma quiet_owed pool : quiet pool -> owed pool = 0.
Proof.
  unfold owed. induction 1 as [|[A p] pool Hp _ IH]; [done|]. destruct p; [|done..]. cbn in *. lia.
Qed.

(** C33: whatever calls the program's tasks make and however they interleave,
    [LIVE] is the bytes of the live blocks less what the calls in progress have
    yet to count; when no call is in progress it is exactly the live bytes. *)
Theorem live_counted tr s :
  mexec mstart tr s ->
  LIVE s.1 = i64 (live_bytes (blocks s.1) - owed s.2) /\
  (quiet s.2 -> 0 <= live_bytes (blocks s.1) < 2 ^ 63 -> LIVE s.1 = live_bytes (blocks s.1)).
Proof.
  intros Hx. assert (counted s) as [Hl _] by (eapply mexec_counted; [|exact Hx]; by split).
  split; [exact Hl|]. intros Hq Hb. rewrite Hl, (quiet_owed _ Hq), i64_small; lia.
Qed.

(** ** The workloads *)

Section Workload.
Context `{Smpp34}.

(** [deliver_sm::new]: one of the codec's constructors. *)
Definition sample (esm_class : Z) (body : string) : option deliver_sm.t :=
  deliver_sm_build (deliver_sm.mk "" 1 1 "15550101" 1 1 "15550199" esm_class 0 0 "" "" 0 0 0 0 0
    (of_str body) []).

Definition dlr : option deliver_sm.t :=
  sample 0x04 "id:0a1b2c3d4e sub:001 dlvrd:001 submit date:2401011200 done date:2401011201 stat:DELIVRD err:000 text:leak check".
Definition mo : option deliver_sm.t := sample 0 "a typical mobile-originated message body".

(** One turn of the loop: what it hands to [black_box]; [None] is a panic. *)
Definition mapping_turn (d_dlr d_mo : deliver_sm.t) : option (bool * option Receipt.t * option Receipt.t) :=
  let p1 := from_deliver d_dlr in
  let seen := negb (Z.land (Pdu.esm_class p1) 0x04 =? 0) in
  r1 ← Receipt.parse (Pdu.short_message p1);
  let p2 := from_deliver d_mo in
  r2 ← Receipt.parse (Pdu.short_message p2);
  Some (seen, r1, r2).

Fixpoint turns_of {A} (iters : nat) (turn : option A) : option unit :=
  match iters with O => Some tt | S n => _ ← turn; turns_of n turn end.

Definition mapping_cycle (iters : nat) : option unit :=
  d_dlr ← dlr; d_mo ← mo; turns_of iters (mapping_turn d_dlr d_mo).

Lemma turns_of_ok {A} n (a : A) : turns_of n (Some a) = Some tt.
Proof. by induction n. Qed.

(** The mapping workload never panics, and its two messages take the two paths it
    is meant to measure: the first parses as the receipt it is, the second as none. *)
Lemma mapping_paths `{!Smpp34Laws} : exists d_dlr d_mo r,
  dlr = Some d_dlr /\ mo = Some d_mo /\ mapping_turn d_dlr d_mo = Some (true, Some r, None) /\
  Receipt.id r = Some (of_str "0a1b2c3d4e") /\ Receipt.stat r = Some (of_str "DELIVRD") /\
  Receipt.text r = Some (of_str "leak check").
Proof.
  unfold dlr, mo, sample. rewrite !deliver_sm_build_spec. do 3 eexists.
  split; [reflexivity|]. split; [reflexivity|]. split; [vm_compute; reflexivity|]. by vm_compute.
Qed.

Lemma mapping_cycle_returns `{!Smpp34Laws} iters : mapping_cycle iters = Some tt.
Proof.
  destruct mapping_paths as (d1 & d2 & r & E1 & E2 & E & _). unfold mapping_cycle. rewrite E1, E2. cbn.
  rewrite E. apply turns_of_ok.
Qed.
End Workload.

Section ConfigWorkload.
Context `{Serde} (parse : bytes -> result failure node) (SAMPLE_YAML : bytes).

(** [from_yaml(SAMPLE_YAML).unwrap()], then [listen()]. *)
Definition config_turn : option (string * Z) :=
  match from_yaml parse SAMPLE_YAML with Ok cfg => Some (listen cfg) | Err _ => None end.
Definition config_cycle (iters : nat) : option unit := turns_of iters config_turn.
End ConfigWorkload.

(** ** [main] *)

Inductive phase : Set := Mapping | Configuration.

(** What is printed, as values. *)
Inductive line : Set :=
| Header (p : phase) (cycles : nat) (iters : Z)
| Cycle (c cycles : nat) (live growth : Z)
| Blank
| Failed (p : phase) (growth budget : Z)
| Passed (map_growth map_budget cfg_growth cfg_budget : Z).

Inductive leff : Type -> Type :=
(** [mapping_cycle(iters)], [config_cycle(iters)]. *)
| Work (p : phase) (iters : Z) : leff unit
(** [live()]. *)
| Live : leff Z
| Println (l : line) : leff unit
| Eprintln (l : line) : leff unit.

Definition MAP_ITERS : Z := 200000.
Definition MAP_CYCLES : nat := 10.
Definition MAP_BUDGET : Z := 256 * 1024.
Definition CFG_ITERS : Z := 20000.
Definition CFG_CYCLES : nat := 10.
Definition CFG_BUDGET : Z := 256 * 1024.

(** [live() - base]. *)
Definition growth_since (base : Z) : prog leff Z :=
  now <- trigger Live;
  Ret (i64 (now - base)).

Definition report (c cycles : nat) (base : Z) : prog leff Z :=
  growth <- growth_since base;
  shown <- trigger Live;
  trigger (Println (Cycle c cycles shown growth)) ;;
  Ret growth.

(** [for c in from..from + n]. *)
Fixpoint measured (p : phase) (iters : Z) (cycles from n : nat) (base : Z) : prog leff unit :=
  match n with
  | O => Ret tt
  | S n =>
      trigger (Work p iters) ;;
      report from cycles base ;;
      measured p iters cycles (S from) n base
  end.

(** A phase: warm up, measure, and how much the live bytes grew. *)
Definition run_phase (p : phase) (iters : Z) (cycles : nat) : prog leff Z :=
  trigger (Println (Header p cycles iters)) ;;
  trigger (Work p iters) ;;
  base <- trigger Live;
  measured p iters cycles 1 cycles base ;;
  growth_since base.

Definition check (p : phase) (growth budget : Z) (ok : bool) : prog leff bool :=
  if budget <? growth then trigger (Eprintln (Failed p growth budget)) ;; Ret false else Ret ok.

(** The exit status. *)
Definition main : prog leff Z :=
  map_growth <- run_phase Mapping MAP_ITERS MAP_CYCLES;
  trigger (Println Blank) ;;
  cfg_growth <- run_phase Configuration CFG_ITERS CFG_CYCLES;
  trigger (Println Blank) ;;
  ok <- check Mapping map_growth MAP_BUDGET true;
  ok <- check Configuration cfg_growth CFG_BUDGET ok;
  if negb ok then Ret 1
  else trigger (Println (Passed map_growth MAP_BUDGET cfg_growth CFG_BUDGET)) ;; Ret 0.

(** What [live()] answered, in order. *)
Definition reading (ev : event leff) : option Z :=
  match ev with
  | Ev e x => match e in leff X return X -> option Z with Live => fun z => Some z | _ => fun _ => None end x
  end.
Definition readings (tr : trace leff) : list Z := omap reading tr.

Definition worked (ev : event leff) : option (phase * Z) :=
  match ev with Ev (Work p iters) _ => Some (p, iters) | _ => None end.
Definition work (tr : trace leff) : list (phase * Z) := omap worked tr.

Lemma readings_app tr1 tr2 : readings (tr1 ++ tr2) = readings tr1 ++ readings tr2.
Proof. apply omap_app. Qed.
Lemma work_app tr1 tr2 : work (tr1 ++ tr2) = work tr1 ++ work tr2.
Proof. apply omap_app. Qed.

Lemma measured_runs p iters cycles from n base tr u :
  runs (measured p iters cycles from n base) tr u ->
  length (readings tr) = (2 * n)%nat /\ work tr = replicate n (p, iters).
Proof.
  revert from tr u. induction n as [|n IH]; intros from tr u Hr; cbn [measured] in Hr.
  - by apply runs_ret in Hr as [-> _].
  - unfold report, growth_since in Hr. repeat run_step. destruct (IH _ _ _ Hrun2) as [E1 E2].
    rewrite !readings_app, !work_app, E2, !length_app, E1. cbn. split; [lia|done].
Qed.

Lemma run_phase_runs p iters cycles tr g :
  runs (run_phase p iters cycles) tr g ->
  exists base mid last,
    readings tr = base :: mid ++ [last] /\ length mid = (2 * cycles)%nat /\
    work tr = replicate (S cycles) (p, iters) /\ g = i64 (last - base).
Proof.
  unfold run_phase, growth_since. intros Hr. repeat run_step.
  match goal with H : runs (measured _ _ _ _ _ _) _ _ |- _ => apply measured_runs in H as [E1 E2] end.
  eexists _, _, _. rewrite !readings_app, !work_app, E2.
  split; [done|]. split; [done|]. split; [|done]. cbn. by rewrite app_nil_r.
Qed.

Lemma check_runs p g budget ok tr ok' :
  runs (check p g budget ok) tr ok' ->
  readings tr = [] /\ work tr = [] /\ ok' = negb (budget <? g) && ok.
Proof. unfold check. destruct (budget <? g); intros Hr; repeat run_step; by subst. Qed.

(** The check runs each workload once to warm up and [CYCLES] times more, and its
    verdict is about the first and the last reading of each phase: the exit
    status is 0 exactly when neither phase grew past its budget. *)
Theorem leak_verdict tr status :
  runs main tr status ->
  work tr = replicate 11 (Mapping, MAP_ITERS) ++ replicate 11 (Configuration, CFG_ITERS) /\
  exists map_base map_mid map_last cfg_base cfg_mid cfg_last,
    readings tr = map_base :: map_mid ++ map_last :: cfg_base :: cfg_mid ++ [cfg_last] /\
    length map_mid = 20%nat /\ length cfg_mid = 20%nat /\
    status = if (i64 (map_last - map_base) <=? MAP_BUDGET) && (i64 (cfg_last - cfg_base) <=? CFG_BUDGET)
             then 0 else 1.
Proof.
  unfold main. intros Hr. repeat run_step.
  match goal with H : runs (if negb ?ok then _ else _) ?tr _ |- _ =>
    assert (readings tr = [] /\ work tr = [] /\ status = if ok then 0 else 1) as (R5 & W5 & ->)
      by (destruct ok; cbn [negb] in H; repeat run_step; by subst)
  end.
  repeat match goal with
    | H : runs (check _ _ _ _) _ _ |- _ => apply check_runs in H as (? & ? & ->)
    end.
  repeat match goal with
    | H : runs (run_phase _ _ _) _ _ |- _ => apply run_phase_runs in H as (? & ? & ? & ? & ? & ? & ->)
    end.
  rewrite !work_app, !readings_app.
  repeat match goal with
    | H : readings ?t = _ |- context [readings ?t] => rewrite H
    | H : work ?t = _ |- context [work ?t] => rewrite H
    end.
  change (readings [Ev (Println Blank) ?x]) with (@nil Z). change (work [Ev (Println Blank) ?x]) with (@nil (phase * Z)).
  cbn [app]. rewrite !app_nil_r. split; [done|].
  eexists _, _, _, _, _, _. split; [rewrite <-app_assoc; cbn [app]; reflexivity|].
  split; [done|]. split; [done|]. by rewrite andb_true_r, andb_comm, !Z.leb_antisym.
Qed.

(** ** Examples *)

Module LeakExample.
#[local] Existing Instance YamlExample.yaml.
Import YamlExample.

(** The sample document as the parser shows it. *)
Definition sample_yaml : doc :=
  Map [("server", Map [("bind_address", Str "0.0.0.0"); ("port", Num 2775)]);
       ("binds", Seq [
          Map [("name", Str "alpha"); ("host", Str "smsc-a.example.net"); ("port", Num 2775);
               ("system_id", Str "alpha_esme"); ("password", Str "secret-a"); ("max_msg_per_sec", Num 50)];
          Map [("name", Str "beta"); ("host", Str "smsc-b.example.org"); ("port", Num 2775);
               ("system_id", Str "beta_esme"); ("password", Str "secret-b")]]);
       ("routing", Map [("default_chain", Seq [Str "bind:beta"]);
          ("rules", Seq [Map [("prefix", Str "1555"); ("name", Str "na"); ("chain", Seq [Str "bind:alpha"])]])])].

Lemma config_cycle_returns yaml iters : config_cycle (fun _ => Ok sample_yaml) yaml iters = Some tt.
Proof.
  unfold config_cycle.
  assert (config_turn (fun _ => Ok sample_yaml) yaml = Some ("0.0.0.0", 2775)) as -> by (vm_compute; reflexivity).
  apply turns_of_ok.
Qed.

Definition block : Layout := mkLayout 24 8.
Definition moved : Memory := mkMemory {[64 := mkLayout 100 8]} 24.

(** Task [i] goes on; its effect is answered [x]. *)
Ltac turn i x :=
  eapply (exec_run _ _ _ _ _ i); [reflexivity|exists x; split; reflexivity|cbn; repeat split; reflexivity|];
  cbn.

(** A block is given out, and moved to a larger one by a call that has not counted
    it yet. *)
Lemma moving : exists tr pool, mexec mstart tr (moved, pool) /\ owed pool = 76.
Proof.
  eexists _, _. split.
  - eapply exec_spawn; [apply (call_alloc block); split; done|]. cbn.
    turn O (Some 16). turn O tt.
    eapply exec_spawn; [apply (call_realloc 16 block 100); split; done|]. cbn.
    turn 1%nat (Some 64). apply exec_refl.
  - reflexivity.
Qed.

Lemma live_counted_witness : exists tr pool,
  mexec mstart tr (moved, pool) /\ 24 = i64 (100 - 76).
Proof.
  destruct moving as (tr & pool & Hx & Ho). exists tr, pool. split; [exact Hx|].
  rewrite <-Ho. exact (proj1 (live_counted tr _ Hx)).
Defined.

End LeakExample.
