(* ===== verification/Conformance.v ===== *)
(** * The repository's unit tests, replayed on the model

    Each definition is a [#[test]] of the crate, as a check on the definitions of
    this library: every [assert!] of the test, joined by [&&], with the same
    inputs.  The codec is [Smpp34Example.codec].  A Python value is a [PyObj]; a
    YAML text stands for the tree its parser shows; an [expect] that fails, or a
    raised error, makes the check false.  Where a test looks for a phrase in an
    exception's text, the check is on the data the exception carries; where it
    frames a parameter with the codec, on what is framed.  Left out are the tests
    that decode or compare whole PDUs of the codec, and those about the YAML text
    itself or the metrics text. *)

From Stdlib Require Import QArith.
From S2P Require Import Prelude RustStr Py Status Smpp34 Tlv Pdu Receipt Outcome Config Yaml.
From S2P Require Import F64 RateLimit Async Effects Metrics Supervisor Sends.
#[local] Open Scope Z_scope.
#[local] Existing Instance Smpp34Example.codec.

#[local] Notation "a == b" := (bool_decide (a = b)) (at level 70, no associativity).

(** A test: its name and its outcome. *)
Definition test : Type := string * bool.
Definition passes (tests : list test) : Prop := Forall (fun t => t.2 = true) tests.

(** [expect_err(..)] of a given class. *)
Definition is_value_error {A} (r : result PyErr A) : bool :=
  match r with Err (ValueError _) => true | _ => false end.
Definition is_type_error {A} (r : result PyErr A) : bool :=
  match r with Err (TypeError _) => true | _ => false end.
Definition is_err {E A} (r : result E A) : bool := match r with Err _ => true | Ok _ => false end.
(** [expect(..)] in a check. *)
Definition expect {E A} (r : result E A) (check : A -> bool) : bool :=
  match r with Ok a => check a | Err _ => false end.
Definition expect_some {A} (o : option A) (check : A -> bool) : bool :=
  match o with Some a => check a | None => false end.

Definition octets (l : list Z) : bytes := byte_of_Z <$> l.
Definition py_bytes (s : string) : PyObj := PyBytes (of_str s).
Definition py_str (s : string) : PyObj := PyStr (Some s).

(** ** [tlv.rs] *)

Module TlvTests.

(** What goes to the codec's [Tlv::encode], which frames it with its length. *)
Definition encode (t : string) (v : PyObj) : option (Z * bytes) :=
  t ← tag_from_name t;
  match value_to_bytes t v with Ok b => Some (t, b) | Err _ => None end.

Definition message_payload_bytes_encode_to_spec_layout : bool :=
  encode "MESSAGE_PAYLOAD" (py_bytes "hi") == Some (0x0424, octets [0x68; 0x69]).

Definition receipted_message_id_str_is_nul_terminated : bool :=
  encode "RECEIPTED_MESSAGE_ID" (py_str "0a1b2") == Some (0x001E, octets [0x30; 0x61; 0x31; 0x62; 0x32; 0x00]).

Definition integer_tags_use_their_spec_width_not_the_value : bool :=
  let two := PyInt 2 in
  (encode "MESSAGE_STATE" two == Some (0x0427, octets [0x02]))
  && (encode "SAR_MSG_REF_NUM" two == Some (0x020C, octets [0x00; 0x02]))
  && (encode "QOS_TIME_TO_LIVE" two == Some (0x0017, octets [0x00; 0x00; 0x00; 0x02])).

Definition sar_msg_ref_num_is_big_endian : bool :=
  encode "SAR_MSG_REF_NUM" (PyInt 4660) == Some (0x020C, octets [0x12; 0x34]).

Definition tag_names_are_case_insensitive_and_accept_the_tlv_prefix : bool :=
  (tag_from_name "MESSAGE_PAYLOAD" == Some 0x0424)
  && (tag_from_name "message_payload" == Some 0x0424)
  && (tag_from_name "TLV_MESSAGE_PAYLOAD" == Some 0x0424)
  && (tag_from_name "  MESSAGE_STATE  " == Some 0x0427)
  && (tag_from_name "NOPE" == None).

Definition every_int_width_tag_is_a_known_tag : bool :=
  forallb (fun row : TlvTag * nat =>
    is_some (name_for_tag (tag_u16 row.1)) && bool_decide (row.2 ∈ [1; 2; 4]%nat)) INT_WIDTHS.

Definition unknown_tag_name_is_a_value_error : bool :=
  is_value_error (tag_from_py (py_str "NOT_A_TAG")).

Definition raw_integer_tags_pass_through_and_range_is_checked : bool :=
  expect (tag_from_py (PyInt 0x1400)) (fun t => t == 0x1400)
  && is_value_error (tag_from_py (PyInt 70000)).

Definition non_integer_tag_rejects_an_int_value : bool :=
  is_value_error (value_to_bytes 0x0424 (PyInt 2)) && is_value_error (value_to_bytes 0x1400 (PyInt 2)).

Definition integer_value_must_fit_the_spec_width : bool :=
  is_value_error (value_to_bytes 0x0427 (PyInt 300)).

Definition unsupported_value_type_is_a_type_error : bool :=
  is_type_error (value_to_bytes 0x0424 (PyOther "list")).

Definition duplicate_tags_are_rejected : bool :=
  is_value_error (tlvs_from_py (Some [(py_str "MESSAGE_STATE", PyInt 2);
                                      (PyInt 0x0427, PyBytes (octets [2]))])).

Definition round_trip_through_the_python_dict_shape : bool :=
  expect (tlvs_from_py (Some [(py_str "MESSAGE_PAYLOAD", py_bytes "hi");
                              (PyInt 0x1400, PyBytes (octets [1]))])) (fun tlvs =>
    (length tlvs == 2%nat)
    && let back := tlvs_to_py tlvs in
       (dict_get back 0x0424 == Some (of_str "hi")) && (dict_get back 0x1400 == Some (octets [1]))).

Definition no_tlvs_is_an_empty_list : bool := expect (tlvs_from_py None) (fun tlvs => tlvs == []).

Definition tests : list test :=
  [("message_payload_bytes_encode_to_spec_layout", message_payload_bytes_encode_to_spec_layout);
   ("receipted_message_id_str_is_nul_terminated", receipted_message_id_str_is_nul_terminated);
   ("integer_tags_use_their_spec_width_not_the_value", integer_tags_use_their_spec_width_not_the_value);
   ("sar_msg_ref_num_is_big_endian", sar_msg_ref_num_is_big_endian);
   ("tag_names_are_case_insensitive_and_accept_the_tlv_prefix",
    tag_names_are_case_insensitive_and_accept_the_tlv_prefix);
   ("every_int_width_tag_is_a_known_tag", every_int_width_tag_is_a_known_tag);
   ("unknown_tag_name_is_a_value_error", unknown_tag_name_is_a_value_error);
   ("raw_integer_tags_pass_through_and_range_is_checked", raw_integer_tags_pass_through_and_range_is_checked);
   ("non_integer_tag_rejects_an_int_value", non_integer_tag_rejects_an_int_value);
   ("integer_value_must_fit_the_spec_width", integer_value_must_fit_the_spec_width);
   ("unsupported_value_type_is_a_type_error", unsupported_value_type_is_a_type_error);
   ("duplicate_tags_are_rejected", duplicate_tags_are_rejected);
   ("round_trip_through_the_python_dict_shape", round_trip_through_the_python_dict_shape);
   ("no_tlvs_is_an_empty_list", no_tlvs_is_an_empty_list)].

Lemma tlv_tests_pass : passes tests.
Proof. repeat constructor. Qed.

End TlvTests.

(** ** [outcome.rs] *)

Module OutcomeTests.

(** SMPP 3.4, Table 5-2. *)
Definition TABLE_5_2 : list (string * Z) :=
  [("ESME_ROK", 0x00000000); ("ESME_RINVMSGLEN", 0x00000001); ("ESME_RINVCMDLEN", 0x00000002);
   ("ESME_RINVCMDID", 0x00000003); ("ESME_RINVBNDSTS", 0x00000004); ("ESME_RALYBND", 0x00000005);
   ("ESME_RINVPRTFLG", 0x00000006); ("ESME_RINVREGDLVFLG", 0x00000007); ("ESME_RSYSERR", 0x00000008);
   ("ESME_RINVSRCADR", 0x0000000A); ("ESME_RINVDSTADR", 0x0000000B); ("ESME_RINVMSGID", 0x0000000C);
   ("ESME_RBINDFAIL", 0x0000000D); ("ESME_RINVPASWD", 0x0000000E); ("ESME_RINVSYSID", 0x0000000F);
   ("ESME_RCANCELFAIL", 0x00000011); ("ESME_RREPLACEFAIL", 0x00000013); ("ESME_RMSGQFUL", 0x00000014);
   ("ESME_RINVSERTYP", 0x00000015); ("ESME_RINVNUMDESTS", 0x00000033); ("ESME_RINVDLNAME", 0x00000034);
   ("ESME_RINVDESTFLAG", 0x00000040); ("ESME_RINVSUBREP", 0x00000042); ("ESME_RINVESMCLASS", 0x00000043);
   ("ESME_RCNTSUBDL", 0x00000044); ("ESME_RSUBMITFAIL", 0x00000045); ("ESME_RINVSRCTON", 0x00000048);
   ("ESME_RINVSRCNPI", 0x00000049); ("ESME_RINVDSTTON", 0x00000050); ("ESME_RINVDSTNPI", 0x00000051);
   ("ESME_RINVSYSTYP", 0x00000053); ("ESME_RINVREPFLAG", 0x00000054); ("ESME_RINVNUMMSGS", 0x00000055);
   ("ESME_RTHROTTLED", 0x00000058); ("ESME_RINVSCHED", 0x00000061); ("ESME_RINVEXPIRY", 0x00000062);
   ("ESME_RINVDFTMSGID", 0x00000063); ("ESME_RX_T_APPN", 0x00000064); ("ESME_RX_P_APPN", 0x00000065);
   ("ESME_RX_R_APPN", 0x00000066); ("ESME_RQUERYFAIL", 0x00000067); ("ESME_RINVOPTPARSTREAM", 0x000000C0);
   ("ESME_ROPTPARNOTALLWD", 0x000000C1); ("ESME_RINVPARLEN", 0x000000C2); ("ESME_RMISSINGOPTPARAM", 0x000000C3);
   ("ESME_RINVOPTPARAMVAL", 0x000000C4); ("ESME_RDELIVERYFAILURE", 0x000000FE); ("ESME_RUNKNOWNERR", 0x000000FF)].

Definition TIMER : Z := from_secs 30.
Definition millis (n : Z) : Z := n * 1000000.

Definition every_table_5_2_status_is_named_as_the_specification_names_it : bool :=
  forallb (fun row : string * Z => status_name row.2 == row.1) TABLE_5_2.

Definition a_status_outside_the_table_keeps_its_value_instead_of_borrowing_a_name : bool :=
  (status_name 0x00000401 == "0x00000401") && (status_name 0x00000009 == "0x00000009")
  && (status_name 0x000000FF == "ESME_RUNKNOWNERR").

Definition only_the_two_back_off_statuses_count_as_throttling : bool :=
  forallb (fun row : string * Z =>
    is_throttle row.2 == bool_decide (row.1 ∈ ["ESME_RTHROTTLED"; "ESME_RMSGQFUL"])) TABLE_5_2.

Definition a_generic_nack_status_is_reported_as_the_nack_it_was : bool :=
  (classify ESME_RINVCMDID 0 TIMER false == Nack ESME_RINVCMDID)
  && (classify ESME_RTHROTTLED TIMER TIMER true == Nack ESME_RTHROTTLED).

Definition a_failure_after_the_response_timer_is_a_timeout : bool :=
  (classify ESME_RSYSERR TIMER TIMER false == Timeout TIMER)
  && (classify ESME_RSYSERR (TIMER + millis 3) TIMER true == Timeout TIMER).

Definition an_early_failure_on_a_session_that_is_gone_is_a_close : bool :=
  classify ESME_RSYSERR (millis 20) TIMER true == Closed.

Definition an_early_failure_on_a_live_session_is_not_given_a_cause_it_may_not_have : bool :=
  classify ESME_RSYSERR (millis 20) TIMER false == Unanswered.

(** An attribute of the exception. *)
Definition attr (v : SendErrorValue) (name : string) : option PyObj := dget (instance_attrs v) name.
Definition dquote : Ascii.ascii := Ascii.ascii_of_nat 34.
Definition quoted (s : string) : string := String dquote (s +:+ String dquote "").
Definition contains (phrase text : string) : bool := is_some (str_find (of_str phrase) (of_str text)).

Definition the_exception_carries_the_reason_and_the_nack_status : bool :=
  match into_pyerr (Nack ESME_RINVCMDLEN) "submit_sm" ("bind " +:+ quoted "upstream") with
  | SmppSendError v =>
      (attr v "reason" == Some (py_str "nack")) && (attr v "command" == Some (py_str "submit_sm"))
      && (attr v "command_status" == Some (py_str "ESME_RINVCMDLEN"))
      && (attr v "command_status_code" == Some (PyInt 0x00000002))
      && contains "generic_nack ESME_RINVCMDLEN" (se_message v)
  | _ => false
  end.

Definition a_failure_with_no_response_has_no_status_to_report : bool :=
  forallb (fun row : SendFailure * string =>
    match into_pyerr row.1 "deliver_sm" ("session " +:+ quoted "abc") with
    | SmppSendError v =>
        (attr v "reason" == Some (py_str row.2)) && (attr v "command_status" == Some PyNone)
        && (attr v "command_status_code" == Some PyNone)
    | _ => false
    end) [(Timeout TIMER, "timeout"); (Closed, "closed"); (Unanswered, "unanswered")]
  && match into_pyerr (Timeout TIMER) "deliver_sm" ("session " +:+ quoted "abc") with
     | SmppSendError v => contains "no response within 30000 ms" (se_message v)
     | _ => false
     end.

Definition tests : list test :=
  [("every_table_5_2_status_is_named_as_the_specification_names_it",
    every_table_5_2_status_is_named_as_the_specification_names_it);
   ("a_status_outside_the_table_keeps_its_value_instead_of_borrowing_a_name",
    a_status_outside_the_table_keeps_its_value_instead_of_borrowing_a_name);
   ("only_the_two_back_off_statuses_count_as_throttling", only_the_two_back_off_statuses_count_as_throttling);
   ("a_generic_nack_status_is_reported_as_the_nack_it_was", a_generic_nack_status_is_reported_as_the_nack_it_was);
   ("a_failure_after_the_response_timer_is_a_timeout", a_failure_after_the_response_timer_is_a_timeout);
   ("an_early_failure_on_a_session_that_is_gone_is_a_close",
    an_early_failure_on_a_session_that_is_gone_is_a_close);
   ("an_early_failure_on_a_live_session_is_not_given_a_cause_it_may_not_have",
    an_early_failure_on_a_live_session_is_not_given_a_cause_it_may_not_have);
   ("the_exception_carries_the_reason_and_the_nack_status", the_exception_carries_the_reason_and_the_nack_status);
   ("a_failure_with_no_response_has_no_status_to_report", a_failure_with_no_response_has_no_status_to_report)].

Lemma outcome_tests_pass : passes tests.
Proof. repeat constructor. Qed.

End OutcomeTests.

(** ** [pyclasses.rs] *)

Module PyclassesTests.

Definition make_pdu (esm_class : Z) : Pdu.t := {|
  Pdu.command := "submit_sm";
  Pdu.message_id := "";
  Pdu.service_type := "";
  Pdu.source_addr_ton := 1;
  Pdu.source_addr_npi := 1;
  Pdu.source_addr := "12345";
  Pdu.dest_addr_ton := 1;
  Pdu.dest_addr_npi := 1;
  Pdu.destination_addr := "67890";
  Pdu.esm_class := esm_class;
  Pdu.protocol_id := 0;
  Pdu.priority_flag := 0;
  Pdu.schedule_delivery_time := "";
  Pdu.validity_period := "";
  Pdu.registered_delivery := 0;
  Pdu.replace_if_present_flag := 0;
  Pdu.data_coding := 0;
  Pdu.sm_default_msg_id := 0;
  Pdu.sm_length := 0;
  Pdu.destinations := [];
  Pdu.short_message := [];
  Pdu.tlvs := [];
|}.

(** [make_pdu] with fields a test sets afterwards. *)
Definition pdu_with (command message_id : string) (esm_class : Z) (short_message : bytes) (tlvs : list Tlv)
    : Pdu.t := {|
  Pdu.command := command;
  Pdu.message_id := message_id;
  Pdu.service_type := Pdu.service_type (make_pdu esm_class);
  Pdu.source_addr_ton := Pdu.source_addr_ton (make_pdu esm_class);
  Pdu.source_addr_npi := Pdu.source_addr_npi (make_pdu esm_class);
  Pdu.source_addr := Pdu.source_addr (make_pdu esm_class);
  Pdu.dest_addr_ton := Pdu.dest_addr_ton (make_pdu esm_class);
  Pdu.dest_addr_npi := Pdu.dest_addr_npi (make_pdu esm_class);
  Pdu.destination_addr := Pdu.destination_addr (make_pdu esm_class);
  Pdu.esm_class := esm_class;
  Pdu.protocol_id := Pdu.protocol_id (make_pdu esm_class);
  Pdu.priority_flag := Pdu.priority_flag (make_pdu esm_class);
  Pdu.schedule_delivery_time := Pdu.schedule_delivery_time (make_pdu esm_class);
  Pdu.validity_period := Pdu.validity_period (make_pdu esm_class);
  Pdu.registered_delivery := Pdu.registered_delivery (make_pdu esm_class);
  Pdu.replace_if_present_flag := Pdu.replace_if_present_flag (make_pdu esm_class);
  Pdu.data_coding := Pdu.data_coding (make_pdu esm_class);
  Pdu.sm_default_msg_id := Pdu.sm_default_msg_id (make_pdu esm_class);
  Pdu.sm_length := Pdu.sm_length (make_pdu esm_class);
  Pdu.destinations := Pdu.destinations (make_pdu esm_class);
  Pdu.short_message := short_message;
  Pdu.tlvs := tlvs;
|}.
Definition submit_with (esm_class : Z) (short_message : string) (tlvs : list Tlv) : Pdu.t :=
  pdu_with "submit_sm" "" esm_class (of_str short_message) tlvs.

Definition parse_smpp_status_known_values : bool :=
  expect (parse_smpp_status "ESME_ROK") (fun e => e == ESME_ROK)
  && expect (parse_smpp_status "ESME_RSUBMITFAIL") (fun e => e == ESME_RSUBMITFAIL)
  && expect (parse_smpp_status "ESME_RINVDSTADR") (fun e => e == ESME_RINVDSTADR)
  && expect (parse_smpp_status "ESME_RX_T_APPN") (fun e => e == ESME_RX_T_APPN).

Definition every_table_5_2_status_can_be_named_in_a_reply : bool :=
  forallb (fun row : string * Z => expect (parse_smpp_status row.1) (fun parsed => error_code parsed == row.2))
    OutcomeTests.TABLE_5_2.

Definition parse_smpp_status_unknown_is_value_error : bool :=
  match parse_smpp_status "ESME_NOPE" with
  | Err (ValueError (UnknownStatus s)) => s == "ESME_NOPE"
  | _ => false
  end.

Definition pdu_reply_default_ok : bool :=
  let r := PduReply.default_ok in
  (PduReply.command_status r == ESME_ROK) && (PduReply.message_id r == None).

Definition pdu_reply_new_accept_with_message_id : bool :=
  expect (PduReply_new "ESME_ROK" (Some "msg-123") None) (fun r =>
    (PduReply.command_status r == ESME_ROK) && (PduReply.message_id r == Some "msg-123")).

Definition pdu_reply_new_reject_with_status : bool :=
  expect (PduReply_new "ESME_RSUBMITFAIL" None None) (fun r =>
    (PduReply.command_status r == ESME_RSUBMITFAIL) && (PduReply.message_id r == None)).

Definition pdu_reply_new_rejects_unknown_status : bool := is_err (PduReply_new "ESME_BOGUS" None None).

Definition pdu_reply_default_signature_is_rok : bool :=
  expect (PduReply_new "ESME_ROK" None None) (fun r =>
    (PduReply.command_status r == ESME_ROK) && (PduReply.message_id r == None)).

Definition pdu_reply_builds_via_pdu_reply_method : bool :=
  let pdu := make_pdu 0x00 in
  expect (reply pdu "ESME_ROK" (Some "abc") None) (fun ok =>
    (PduReply.command_status ok == ESME_ROK) && (PduReply.message_id ok == Some "abc"))
  && expect (reply pdu "ESME_RINVDSTADR" None None) (fun rej => PduReply.command_status rej == ESME_RINVDSTADR).

Definition pdu_reply_query_builds_query_reply : bool :=
  let pdu := pdu_with "query_sm" "msg-42" 0x00 [] [] in
  let r := reply_query pdu 2 None "2401011200" 0 in
  let r2 := reply_query pdu 7 (Some "other") "" 9 in
  (PduReply.command_status r == ESME_ROK) && (PduReply.message_state r == Some 2)
  && (PduReply.message_id r == Some "msg-42") && (PduReply.final_date r == "2401011200")
  && (PduReply.message_id r2 == Some "other") && (PduReply.error_code r2 == 9).

Definition pdu_from_query_maps_fields : bool :=
  let pdu := from_query (query_sm.mk "qid-7" 1 1 "15550101") in
  (Pdu.command pdu == "query_sm") && (Pdu.message_id pdu == "qid-7") && (Pdu.source_addr pdu == "15550101").

(** [DestAddress::sme] is at TON 1, NPI 1. *)
Definition sme (addr : string) : DestAddress := Sme 1 1 addr.

Definition pdu_from_submit_multi_maps_destinations : bool :=
  expect_some (submit_sm_multi_build (submit_sm_multi.mk "" 1 1 "15550100"
      [sme "15550101"; sme "15550102"; DistributionList "vip"] 0 0 0 "" "" 0 0 0 0 0 (of_str "hi") []))
    (fun m =>
      let pdu := from_submit_multi m in
      (Pdu.command pdu == "submit_sm_multi") && (Pdu.source_addr pdu == "15550100")
      && (Pdu.destinations pdu == ["15550101"; "15550102"; "vip"])
      && (Pdu.short_message pdu == of_str "hi")).

Definition commands_without_scheduling_fields_read_as_unset : bool :=
  let pdu := from_query (query_sm.mk "id-1" 1 1 "5550100") in
  (Pdu.validity_period pdu == "") && (Pdu.schedule_delivery_time pdu == "")
  && (Pdu.replace_if_present_flag pdu == 0) && (Pdu.sm_default_msg_id pdu == 0).

Definition pdu_is_tpdu_reflects_udhi_bit : bool :=
  is_tpdu (make_pdu 0x40) && is_tpdu (make_pdu 0xC0)
  && negb (is_tpdu (make_pdu 0x00)) && negb (is_tpdu (make_pdu 0x01)).

Definition pdu_is_dlr_reflects_receipt_bit : bool :=
  is_dlr (make_pdu 0x04) && is_dlr (make_pdu 0x44)
  && negb (is_dlr (make_pdu 0x00)) && negb (is_dlr (make_pdu 0x40)).

(** [Receipt::parse] without a panic. *)
Definition parses (text : string) (check : Receipt.t -> bool) : bool :=
  match Receipt.parse (of_str text) with Some (Some r) => check r | _ => false end.
Definition text (s : string) : option bytes := Some (of_str s).

Definition receipt_parses_canonical_form : bool :=
  parses "id:0a1b2c3d sub:001 dlvrd:001 submit date:2401011200 done date:2401011201 stat:DELIVRD err:000 text:Hello world"
    (fun r =>
      (Receipt.id r == text "0a1b2c3d") && (Receipt.sub r == text "001") && (Receipt.dlvrd r == text "001")
      && (Receipt.submit_date r == text "2401011200") && (Receipt.done_date r == text "2401011201")
      && (Receipt.stat r == text "DELIVRD") && (Receipt.err r == text "000")
      && (Receipt.text r == text "Hello world")).

Definition receipt_tolerates_missing_keys : bool :=
  parses "id:XYZ stat:EXPIRED" (fun r =>
    (Receipt.id r == text "XYZ") && (Receipt.stat r == text "EXPIRED")
    && (Receipt.sub r == None) && (Receipt.text r == None)).

Definition receipt_non_receipt_body_is_none : bool :=
  match Receipt.parse (of_str "hey are we still on for lunch?") with Some None => true | _ => false end.

(** [pdu.receipt] as a dict of which [check] looks some keys up; or [None]. *)
Definition receipt_has (pdu : Pdu.t) (rows : list (string * PyObj)) : bool :=
  match receipt pdu with
  | Some (Some d) => forallb (fun row : string * PyObj => dget d row.1 == Some row.2) rows
  | _ => false
  end.
Definition no_receipt (pdu : Pdu.t) : bool := match receipt pdu with Some None => true | _ => false end.

Definition receipt_getter_only_fires_for_dlr : bool :=
  no_receipt (submit_with 0x00 "id:1 stat:DELIVRD" [])
  && receipt_has (submit_with 0x04 "id:1 stat:DELIVRD err:000" [])
       [("id", py_str "1"); ("stat", py_str "DELIVRD")].

(** [Tlv::from_tag]. *)
Definition tlv (t : TlvTag) (value : bytes) : Tlv := mkTlv (tag_u16 t) value.

Definition body_prefers_message_payload_over_short_message : bool :=
  let pdu := submit_with 0x00 "ignored" [tlv MessagePayload (of_str "the real body")] in
  (body pdu == of_str "the real body") && (pdu_message_payload pdu == Some (of_str "the real body"))
  && (Pdu.short_message pdu == of_str "ignored").

Definition body_falls_back_to_short_message : bool :=
  let pdu := submit_with 0x00 "plain" [] in
  (body pdu == of_str "plain") && (pdu_message_payload pdu == None).

Definition tlvs_dict_is_keyed_by_raw_tag : bool :=
  let d := pdu_tlvs (submit_with 0x00 "" [tlv MessagePayload (of_str "hi"); mkTlv 0x1400 (octets [0x01])]) in
  (dict_get d 0x0424 == Some (of_str "hi")) && (dict_get d 0x1400 == Some (octets [0x01])).

Definition tlv_lookup_works_by_name_and_by_raw_tag : bool :=
  let pdu := submit_with 0x00 "" [tlv MessagePayload (of_str "hi")] in
  expect (pdu_tlv pdu (py_str "MESSAGE_PAYLOAD")) (fun v => v == Some (of_str "hi"))
  && expect (pdu_tlv pdu (PyInt 0x0424)) (fun v => v == Some (of_str "hi"))
  && expect (pdu_tlv pdu (py_str "MESSAGE_STATE")) (fun v => v == None).

Definition concatenation_shortcuts_decode_at_their_spec_widths : bool :=
  let pdu := submit_with 0x00 ""
    [tlv SarMsgRefNum (octets [0x12; 0x34]); tlv SarTotalSegments (octets [0x03]);
     tlv SarSegmentSeqnum (octets [0x02]); tlv UserMessageReference (octets [0x00; 0x07]);
     tlv MoreMessagesToSend (octets [0x01]); mkTlv 0x0423 (octets [0x03; 0x00; 0x1A])] in
  (pdu_sar_msg_ref_num pdu == Some 0x1234) && (pdu_sar_total_segments pdu == Some 3)
  && (pdu_sar_segment_seqnum pdu == Some 2) && (pdu_user_message_reference pdu == Some 7)
  && (pdu_more_messages_to_send pdu == Some 1) && (pdu_network_error_code pdu == Some (3, 0x001A)).

Definition message_state_names_cover_the_3_4_range : bool :=
  forallb (fun row : Z * string => Receipt.message_state_name row.1 == Some row.2)
    [(1, "ENROUTE"); (2, "DELIVRD"); (3, "EXPIRED"); (4, "DELETED"); (5, "UNDELIV"); (6, "ACCEPTD");
     (7, "UNKNOWN"); (8, "REJECTD")]
  && (Receipt.message_state_name 0 == None) && (Receipt.message_state_name 9 == None).

Definition cstr (s : string) : bytes := of_str s ++ octets [0].

Definition receipt_builds_from_tlvs_when_there_is_no_text_body : bool :=
  receipt_has (submit_with 0x04 "" [tlv ReceiptedMessageId (cstr "0a1b2"); tlv MessageStateTlv (octets [2])])
    [("id", py_str "0a1b2"); ("stat", py_str "DELIVRD"); ("message_state", PyInt 2)].

Definition receipt_text_body_wins_over_disagreeing_tlvs : bool :=
  let dlr := submit_with 0x04 "id:FROM_TEXT stat:EXPIRED"
    [tlv ReceiptedMessageId (cstr "FROM_TLV"); tlv MessageStateTlv (octets [2])] in
  receipt_has dlr [("id", py_str "FROM_TEXT"); ("stat", py_str "EXPIRED")]
  && (pdu_receipted_message_id dlr == Some "FROM_TLV") && (pdu_message_state dlr == Some 2).

Definition receipt_tlvs_fill_only_the_keys_the_text_omitted : bool :=
  receipt_has (submit_with 0x04 "stat:DELIVRD err:000" [tlv ReceiptedMessageId (cstr "0a1b2")])
    [("id", py_str "0a1b2"); ("stat", py_str "DELIVRD")].

Definition receipt_reads_a_body_delivered_via_message_payload : bool :=
  receipt_has (submit_with 0x04 "" [tlv MessagePayload (of_str "id:0a1b2 stat:UNDELIV err:042")])
    [("id", py_str "0a1b2"); ("err", py_str "042")].

Definition receipt_stays_none_without_a_body_or_receipt_tlvs : bool :=
  no_receipt (submit_with 0x04 "not receipt shaped" [tlv SarMsgRefNum (octets [0x12; 0x34])]).

Definition reply_tlvs_are_rejected_off_the_data_sm_path : bool :=
  match reply (make_pdu 0x00) "ESME_ROK" None
          (Some [(py_str "ADDITIONAL_STATUS_INFO_TEXT", py_str "nope")]) with
  | Err (ValueError (ReplyTlvsUnsupported _)) => true
  | _ => false
  end.

Definition reply_tlvs_ride_along_on_the_data_sm_path : bool :=
  expect (reply (pdu_with "data_sm" "" 0x00 [] []) "ESME_RSUBMITFAIL" None
            (Some [(py_str "DELIVERY_FAILURE_REASON", PyInt 1)]))
    (fun r => match PduReply.tlvs r with
              | [t] => (tag t == tag_u16 DeliveryFailureReason) && (value t == octets [0x01])
              | _ => false
              end).

Definition b : Bind.t := Bind.mk "esme1" "pw" "203.0.113.5:5000".

Definition bind_accept_yields_accept_result : bool :=
  let r := Bind.accept b in BindResult.accept r && (BindResult.status r == ESME_ROK).

Definition bind_reject_carries_status_and_reason : bool :=
  expect (Bind.reject b "ESME_RINVPASWD" "bad password") (fun r =>
    negb (BindResult.accept r) && (BindResult.status r == ESME_RINVPASWD)
    && (BindResult.reason r == "bad password"))
  && expect (Bind.reject b "ESME_RBINDFAIL" "") (fun d =>
       (BindResult.status d == ESME_RBINDFAIL) && (BindResult.reason d == "")).

Definition bind_reject_unknown_status_errors : bool := is_err (Bind.reject (Bind.mk "x" "y" "z") "ESME_BOGUS" "").

Definition bind_result_bool_reflects_accept : bool :=
  BindResult_bool (BindResult.mk true ESME_ROK "")
  && negb (BindResult_bool (BindResult.mk false ESME_RBINDFAIL "nope")).

Definition session_kind_renders_string : bool :=
  (Session.kind_name (Session.mk SourceBind "s1" "agg" "198.51.100.7:2775") == "bind")
  && (Session.kind_name (Session.mk EsmeServer "s2" "client" "198.51.100.8:1234") == "esme").

Definition tests : list test :=
  [("parse_smpp_status_known_values", parse_smpp_status_known_values);
   ("every_table_5_2_status_can_be_named_in_a_reply",
    every_table_5_2_status_can_be_named_in_a_reply);
   ("parse_smpp_status_unknown_is_value_error", parse_smpp_status_unknown_is_value_error);
   ("pdu_reply_default_ok", pdu_reply_default_ok);
   ("pdu_reply_new_accept_with_message_id", pdu_reply_new_accept_with_message_id);
   ("pdu_reply_new_reject_with_status", pdu_reply_new_reject_with_status);
   ("pdu_reply_new_rejects_unknown_status", pdu_reply_new_rejects_unknown_status);
   ("pdu_reply_default_signature_is_rok", pdu_reply_default_signature_is_rok);
   ("pdu_reply_builds_via_pdu_reply_method", pdu_reply_builds_via_pdu_reply_method);
   ("pdu_reply_query_builds_query_reply", pdu_reply_query_builds_query_reply);
   ("pdu_from_query_maps_fields", pdu_from_query_maps_fields);
   ("pdu_from_submit_multi_maps_destinations", pdu_from_submit_multi_maps_destinations);
   ("commands_without_scheduling_fields_read_as_unset",
    commands_without_scheduling_fields_read_as_unset);
   ("pdu_is_tpdu_reflects_udhi_bit", pdu_is_tpdu_reflects_udhi_bit);
   ("pdu_is_dlr_reflects_receipt_bit", pdu_is_dlr_reflects_receipt_bit);
   ("receipt_parses_canonical_form", receipt_parses_canonical_form);
   ("receipt_tolerates_missing_keys", receipt_tolerates_missing_keys);
   ("receipt_non_receipt_body_is_none", receipt_non_receipt_body_is_none);
   ("receipt_getter_only_fires_for_dlr", receipt_getter_only_fires_for_dlr);
   ("body_prefers_message_payload_over_short_message",
    body_prefers_message_payload_over_short_message);
   ("body_falls_back_to_short_message", body_falls_back_to_short_message);
   ("tlvs_dict_is_keyed_by_raw_tag", tlvs_dict_is_keyed_by_raw_tag);
   ("tlv_lookup_works_by_name_and_by_raw_tag", tlv_lookup_works_by_name_and_by_raw_tag);
   ("concatenation_shortcuts_decode_at_their_spec_widths",
    concatenation_shortcuts_decode_at_their_spec_widths);
   ("message_state_names_cover_the_3_4_range", message_state_names_cover_the_3_4_range);
   ("receipt_builds_from_tlvs_when_there_is_no_text_body",
    receipt_builds_from_tlvs_when_there_is_no_text_body);
   ("receipt_text_body_wins_over_disagreeing_tlvs", receipt_text_body_wins_over_disagreeing_tlvs);
   ("receipt_tlvs_fill_only_the_keys_the_text_omitted",
    receipt_tlvs_fill_only_the_keys_the_text_omitted);
   ("receipt_reads_a_body_delivered_via_message_payload",
    receipt_reads_a_body_delivered_via_message_payload);
   ("receipt_stays_none_without_a_body_or_receipt_tlvs",
    receipt_stays_none_without_a_body_or_receipt_tlvs);
   ("reply_tlvs_are_rejected_off_the_data_sm_path", reply_tlvs_are_rejected_off_the_data_sm_path);
   ("reply_tlvs_ride_along_on_the_data_sm_path", reply_tlvs_ride_along_on_the_data_sm_path);
   ("bind_accept_yields_accept_result", bind_accept_yields_accept_result);
   ("bind_reject_carries_status_and_reason", bind_reject_carries_status_and_reason);
   ("bind_reject_unknown_status_errors", bind_reject_unknown_status_errors);
   ("bind_result_bool_reflects_accept", bind_result_bool_reflects_accept);
   ("session_kind_renders_string", session_kind_renders_string)].

Lemma pyclasses_tests_pass : passes tests.
Proof. repeat constructor. Qed.

End PyclassesTests.

(** ** [config.rs] *)

Module ConfigTests.
Import YamlExample.
#[local] Existing Instance YamlExample.yaml.
(** The names in the tests are ASCII. *)
#[local] Instance lower : UnicodeLower := to_ascii_lowercase.

Definition loaded (d : doc) (check : SmppConfig.t -> bool) : bool := expect (SmppConfig_de d) check.

Definition nth_bind (cfg : SmppConfig.t) (i : nat) (check : BindConfig.t -> bool) : bool :=
  expect_some (SmppConfig.binds cfg !! i) check.
Definition nth_rule (cfg : SmppConfig.t) (i : nat) (check : RoutingRule.t -> bool) : bool :=
  expect_some (RoutingConfig.rules (SmppConfig.routing cfg) !! i) check.

(** [SAMPLE_YAML]. *)
Definition sample_yaml : doc :=
  Map [("server", Map [("bind_address", Str "127.0.0.1"); ("port", Num 9999);
                       ("session_init_timer_ms", Num 1000); ("enquire_link_timer_ms", Num 15000);
                       ("max_msg_per_sec", Num 200); ("throttle_action", Str "reject")]);
       ("binds", Seq [
         Map [("name", Str "alpha"); ("host", Str "smsc-a.example.net"); ("port", Num 2776);
              ("system_id", Str "alpha_esme"); ("password", Str "secret-a");
              ("bind_type", Str "transmitter"); ("max_msg_per_sec", Num 50)];
         Map [("name", Str "beta"); ("host", Str "smsc-b.example.org"); ("port", Num 2775);
              ("system_id", Str "beta_esme"); ("password", Str "secret-b")]]);
       ("routing", Map [
         ("default_chain", Seq [Str "ims"; Str "ss7"; Str "queue"]);
         ("rules", Seq [
           Map [("prefix", Str "3120"); ("name", Str "amsterdam");
                ("chain", Seq [Str "bind:alpha"; Str "queue"]); ("options", Map [("rate_cap", Num 10)])];
           Map [("prefix", Str ""); ("chain", Seq [Str "bind:beta"])]])])].

Definition parses_full_config : bool :=
  loaded sample_yaml (fun cfg =>
    let server := SmppConfig.server cfg in
    (ServerConfig.bind_address server == Some "127.0.0.1") && (ServerConfig.port server == Some 9999)
    && (ServerConfig.session_init_timer_ms server == 1000)
    && (ServerConfig.enquire_link_timer_ms server == 15000)
    && (ServerConfig.max_msg_per_sec server == 200)
    && (throttle_action_as_str (ServerConfig.throttle_action server) == "reject")
    && (ServerConfig.inactivity_timer_ms server == default_inactivity)
    && (ServerConfig.response_timer_ms server == default_response)
    && negb (is_some (ServerConfig.tls server))
    && (length (SmppConfig.binds cfg) == 2%nat)
    && nth_bind cfg 0 (fun alpha =>
         (BindConfig.name alpha == "alpha") && (BindConfig.host alpha == "smsc-a.example.net")
         && (BindConfig.port alpha == 2776) && (BindConfig.system_id alpha == "alpha_esme")
         && (BindConfig.password alpha == "secret-a") && (BindConfig.bind_type alpha == "transmitter")
         && (BindConfig.max_msg_per_sec alpha == 50) && (BindConfig.system_type alpha == "")
         && (BindConfig.enquire_link_timer_ms alpha == default_enquire_link)
         && (BindConfig.response_timer_ms alpha == default_response)
         && negb (is_some (BindConfig.tls alpha)))
    && nth_bind cfg 1 (fun beta =>
         (BindConfig.name beta == "beta") && (BindConfig.port beta == 2775)
         && (BindConfig.bind_type beta == default_bind_type) && (BindConfig.max_msg_per_sec beta == 0))
    && (RoutingConfig.default_chain (SmppConfig.routing cfg) == ["ims"; "ss7"; "queue"])
    && (length (RoutingConfig.rules (SmppConfig.routing cfg)) == 2%nat)
    && nth_rule cfg 0 (fun rule0 =>
         (RoutingRule.prefix rule0 == "3120") && (RoutingRule.name rule0 == "amsterdam")
         && (RoutingRule.chain rule0 == ["bind:alpha"; "queue"])
         && is_some (btree_get (RoutingRule.options rule0) "rate_cap"))
    && nth_rule cfg 1 (fun rule1 =>
         (RoutingRule.prefix rule1 == "") && (RoutingRule.name rule1 == "")
         && (length (RoutingRule.options rule1) == O) && (RoutingRule.chain rule1 == ["bind:beta"]))).

Definition empty_config_uses_all_defaults : bool :=
  loaded (Map []) (fun cfg =>
    let server := SmppConfig.server cfg in
    (length (SmppConfig.binds cfg) == O)
    && (RoutingConfig.default_chain (SmppConfig.routing cfg) == [])
    && (length (RoutingConfig.rules (SmppConfig.routing cfg)) == O)
    && (ServerConfig.bind_address server == None) && (ServerConfig.port server == None)
    && (SmppConfig.bind_address cfg == None) && (SmppConfig.port cfg == None)
    && (ServerConfig.session_init_timer_ms server == 0) && (ServerConfig.enquire_link_timer_ms server == 0)
    && (ServerConfig.inactivity_timer_ms server == 0) && (ServerConfig.response_timer_ms server == 0)).

Definition server_timer_field_defaults_apply_when_server_present : bool :=
  loaded (Map [("server", Map [("port", Num 2775)])]) (fun cfg =>
    let server := SmppConfig.server cfg in
    (ServerConfig.session_init_timer_ms server == default_session_init)
    && (ServerConfig.enquire_link_timer_ms server == default_enquire_link)
    && (ServerConfig.inactivity_timer_ms server == default_inactivity)
    && (ServerConfig.response_timer_ms server == default_response)
    && (ServerConfig.max_msg_per_sec server == 0)
    && (throttle_action_as_str (ServerConfig.throttle_action server) == "pace")).

Definition server_config_default_values : bool :=
  let s := ServerConfig.default in
  (ServerConfig.session_init_timer_ms s == 0) && (ServerConfig.bind_address s == None)
  && negb (is_some (ServerConfig.tls s)).

Definition missing_required_bind_field_is_a_parse_error : bool :=
  match SmppConfig_de (Map [("binds", Seq [Map [("name", Str "broken"); ("port", Num 2775);
                                                ("system_id", Str "x"); ("password", Str "y")]])]) with
  | Err (_, error) => OutcomeTests.contains "host" error
  | Ok _ => false
  end.

Definition an_empty_value_in_a_string_field_is_an_empty_string : bool :=
  loaded (Map [("binds", Seq [Map [("name", Str "a"); ("host", Str "h.example.net"); ("port", Num 2775);
                                   ("system_id", Null); ("password", Null); ("system_type", Null)]]);
               ("routing", Map [("default_chain", Seq [Str "bind:a"]);
                                ("rules", Seq [Map [("prefix", Null); ("chain", Seq [Str "bind:a"])]])])])
    (fun cfg =>
      nth_bind cfg 0 (fun b =>
        (BindConfig.system_id b == "") && (BindConfig.password b == "") && (BindConfig.system_type b == ""))
      && nth_rule cfg 0 (fun r => RoutingRule.prefix r == "")).

Definition listen_prefers_nested_server : bool :=
  loaded (Map [("server", Map [("bind_address", Str "10.0.0.1"); ("port", Num 5000)]);
               ("bind_address", Str "9.9.9.9"); ("port", Num 1234)])
    (fun cfg => listen cfg == ("10.0.0.1", 5000)).

Definition listen_falls_back_to_flat_then_default : bool :=
  loaded (Map [("bind_address", Str "8.8.8.8"); ("port", Num 4321)]) (fun flat => listen flat == ("8.8.8.8", 4321))
  && loaded (Map []) (fun empty => listen empty == ("0.0.0.0", 2775)).

Definition newline : bytes := octets [10].

Definition expand_env_vars_substitutes_and_defaults : bool :=
  let out := expand_env_vars [("SMPP_TEST_EXPAND_HOST", "expanded.example.com")]
    (of_str "host: ${SMPP_TEST_EXPAND_HOST}" ++ newline ++ of_str "port: ${SMPP_TEST_EXPAND_MISSING:-2775}" ++ newline) in
  is_some (str_find (of_str "host: expanded.example.com") out) && is_some (str_find (of_str "port: 2775") out).

Definition expand_env_vars_unclosed_is_left_literal : bool :=
  expand_env_vars [] (of_str "a ${UNCLOSED literal") == of_str "a ${UNCLOSED literal".

Definition expand_env_vars_missing_without_default_is_empty : bool :=
  expand_env_vars [] (of_str "v=[${SMPP_TEST_DEFINITELY_UNSET_XYZ}]") == of_str "v=[]".

(** [binds_from_env] under an environment, and the bind of a name. *)
Abbreviation discovered := (binds_from_env (YamlError := string)).
Definition found (binds : list BindConfig.t) (name : string) : option BindConfig.t :=
  iter_find (fun b => BindConfig.name b == name) binds.

Definition binds_from_env_discovers_full_bind : bool :=
  expect (discovered
    [("SMPP_BIND_ENVALPHA_HOST", "env-a.example.net"); ("SMPP_BIND_ENVALPHA_PORT", "2779");
     ("SMPP_BIND_ENVALPHA_SYSTEM_ID", "env_alpha"); ("SMPP_BIND_ENVALPHA_PASSWORD", "env-pass");
     ("SMPP_BIND_ENVALPHA_SYSTEM_TYPE", "VMS"); ("SMPP_BIND_ENVALPHA_BIND_TYPE", "receiver");
     ("SMPP_BIND_ENVALPHA_MAX_MPS", "75"); ("SMPP_BIND_ENVALPHA_ENQUIRE_LINK_MS", "12000");
     ("SMPP_BIND_ENVALPHA_RESPONSE_MS", "8000"); ("SMPP_BIND_ENVALPHA_TLS", "true")]) (fun binds =>
    expect_some (found binds "envalpha") (fun b =>
      (BindConfig.name b == "envalpha") && (BindConfig.host b == "env-a.example.net")
      && (BindConfig.port b == 2779) && (BindConfig.system_id b == "env_alpha")
      && (BindConfig.password b == "env-pass") && (BindConfig.system_type b == "VMS")
      && (BindConfig.bind_type b == "receiver") && (BindConfig.max_msg_per_sec b == 75)
      && (BindConfig.enquire_link_timer_ms b == 12000) && (BindConfig.response_timer_ms b == 8000)
      && is_some (BindConfig.tls b))).

Definition binds_from_env_applies_defaults : bool :=
  expect (discovered [("SMPP_BIND_ENVMIN_HOST", "min.example.net"); ("SMPP_BIND_ENVMIN_SYSTEM_ID", "min_id");
                      ("SMPP_BIND_ENVMIN_PASSWORD", "min_pw")]) (fun binds =>
    expect_some (found binds "envmin") (fun b =>
      (BindConfig.port b == 2775) && (BindConfig.max_msg_per_sec b == 0) && (BindConfig.system_type b == "")
      && (BindConfig.bind_type b == default_bind_type)
      && (BindConfig.enquire_link_timer_ms b == default_enquire_link)
      && (BindConfig.response_timer_ms b == default_response) && negb (is_some (BindConfig.tls b)))).

Definition binds_from_env_without_host_is_ignored : bool :=
  expect (discovered [("SMPP_BIND_ENVGHOST_SYSTEM_ID", "ghost"); ("SMPP_BIND_ENVGHOST_PASSWORD", "boo")])
    (fun binds => forallb (fun b => negb (BindConfig.name b == "envghost")) binds).

Definition binds_from_env_missing_required_field_errors : bool :=
  match discovered [("SMPP_BIND_ENVMISS_HOST", "miss.example.net"); ("SMPP_BIND_ENVMISS_SYSTEM_ID", "miss_id")] with
  | Err (EnvBindMissing bind field) => (bind == "envmiss") && (field == "PASSWORD")
  | _ => false
  end.

Definition binds_from_env_invalid_numeric_value_errors : bool :=
  match discovered [("SMPP_BIND_ENVBADPORT_HOST", "bad.example.net"); ("SMPP_BIND_ENVBADPORT_SYSTEM_ID", "bad_id");
                    ("SMPP_BIND_ENVBADPORT_PASSWORD", "bad_pw"); ("SMPP_BIND_ENVBADPORT_PORT", "not-a-number")] with
  | Err (EnvBindInvalid bind field value) =>
      (bind == "envbadport") && (field == "PORT") && (value == "not-a-number")
  | _ => false
  end.

(** [from_file] on a file whose tree is [d], under one variable. *)
Definition file_with (d : doc) (name value : string) (check : ServerConfig.t -> bool) : bool :=
  expect (from_file (from_yaml (fun _ => Ok d)) (Some []) "test.yaml" [(name, value)])
    (fun cfg => check (SmppConfig.server cfg)).
Definition server (fields : list (string * doc)) : doc := Map [("server", Map (("port", Num 2775) :: fields))].

Definition server_max_mps_env_overrides_yaml : bool :=
  file_with (server [("max_msg_per_sec", Num 10)]) "SMPP_SERVER_MAX_MPS" "500"
    (fun s => ServerConfig.max_msg_per_sec s == 500).
Definition server_max_mps_env_invalid_is_ignored : bool :=
  file_with (server [("max_msg_per_sec", Num 42)]) "SMPP_SERVER_MAX_MPS" "not-a-number"
    (fun s => ServerConfig.max_msg_per_sec s == 42).
Definition server_throttle_action_env_overrides_yaml : bool :=
  file_with (server [("max_msg_per_sec", Num 10)]) "SMPP_SERVER_THROTTLE_ACTION" "REJECT"
    (fun s => throttle_action_as_str (ServerConfig.throttle_action s) == "reject").
Definition server_throttle_action_env_invalid_is_ignored : bool :=
  file_with (server [("throttle_action", Str "reject")]) "SMPP_SERVER_THROTTLE_ACTION" "nonsense"
    (fun s => throttle_action_as_str (ServerConfig.throttle_action s) == "reject").

Definition tests : list test :=
  [("parses_full_config", parses_full_config);
   ("empty_config_uses_all_defaults", empty_config_uses_all_defaults);
   ("server_timer_field_defaults_apply_when_server_present",
    server_timer_field_defaults_apply_when_server_present);
   ("server_config_default_values", server_config_default_values);
   ("missing_required_bind_field_is_a_parse_error", missing_required_bind_field_is_a_parse_error);
   ("an_empty_value_in_a_string_field_is_an_empty_string",
    an_empty_value_in_a_string_field_is_an_empty_string);
   ("listen_prefers_nested_server", listen_prefers_nested_server);
   ("listen_falls_back_to_flat_then_default", listen_falls_back_to_flat_then_default);
   ("expand_env_vars_substitutes_and_defaults", expand_env_vars_substitutes_and_defaults);
   ("expand_env_vars_unclosed_is_left_literal", expand_env_vars_unclosed_is_left_literal);
   ("expand_env_vars_missing_without_default_is_empty",
    expand_env_vars_missing_without_default_is_empty);
   ("binds_from_env_discovers_full_bind", binds_from_env_discovers_full_bind);
   ("binds_from_env_applies_defaults", binds_from_env_applies_defaults);
   ("binds_from_env_without_host_is_ignored", binds_from_env_without_host_is_ignored);
   ("binds_from_env_missing_required_field_errors", binds_from_env_missing_required_field_errors);
   ("binds_from_env_invalid_numeric_value_errors", binds_from_env_invalid_numeric_value_errors);
   ("server_max_mps_env_overrides_yaml", server_max_mps_env_overrides_yaml);
   ("server_max_mps_env_invalid_is_ignored", server_max_mps_env_invalid_is_ignored);
   ("server_throttle_action_env_overrides_yaml", server_throttle_action_env_overrides_yaml);
   ("server_throttle_action_env_invalid_is_ignored", server_throttle_action_env_invalid_is_ignored)].

Lemma config_tests_pass : passes tests.
Proof. repeat constructor. Qed.

End ConfigTests.

(** ** [runtime.rs], [sends.rs], [metrics.rs] *)

Module RuntimeTests.

Definition DEADLINE : Z := from_secs 15.

Definition awaiting_bind_waits_while_the_attempt_is_still_open : bool :=
  awaiting_bind false false 0 DEADLINE && awaiting_bind false false (from_secs 14) DEADLINE.
Definition awaiting_bind_stops_once_the_session_is_up : bool := negb (awaiting_bind true false 0 DEADLINE).
Definition awaiting_bind_stops_immediately_on_a_failed_connect : bool :=
  negb (awaiting_bind false true 0 DEADLINE) && negb (awaiting_bind false true (from_millis 1) DEADLINE).
Definition awaiting_bind_stops_at_the_deadline : bool :=
  negb (awaiting_bind false false DEADLINE DEADLINE) && negb (awaiting_bind false false (from_secs 16) DEADLINE).
Definition awaiting_bind_never_outlives_a_live_session_or_a_failure : bool :=
  forallb (fun waited =>
    negb (awaiting_bind true false waited DEADLINE) && negb (awaiting_bind false true waited DEADLINE)
    && negb (awaiting_bind true true waited DEADLINE)) [0; from_secs 3; DEADLINE].

(** [n] calls of [acquire] or [try_acquire], all at [now]: the bucket, and the
    answers. *)
Fixpoint calls {X} (section : Z -> Bucket -> Bucket * X) (now : Z) (n : nat) (b : Bucket) : Bucket * list X :=
  match n with
  | O => (b, [])
  | S n => let '(b, x) := section now b in let '(b, xs) := calls section now n b in (b, x :: xs)
  end.

(** The burst passes at once; the next call sleeps for the ten milliseconds a
    token takes, at least the five the test asks for. *)
Definition rate_limiter_paces_to_configured_rate : bool :=
  let '(b, waits) := calls acquire_section 0 100 (new_bucket 100 0) in
  forallb (fun w : option Z => w == None) waits
  && match (acquire_section 0 b).2 with
     | Some wait => (from_millis 5 <=? wait) && (wait <=? from_millis 11)
     | None => false
     end.

Definition rate_limiter_new_clamps_zero_to_one : bool := Qeq_bool (RateLimit.max (new_bucket 0 0)) 1.

Definition try_acquire_drains_burst_then_refuses : bool :=
  let '(b, taken) := calls try_acquire_section 0 5 (new_bucket 5 0) in
  forallb (fun t => t) taken && negb (try_acquire_section 0 b).2.

Definition tests : list test :=
  [("awaiting_bind_waits_while_the_attempt_is_still_open",
    awaiting_bind_waits_while_the_attempt_is_still_open);
   ("awaiting_bind_stops_once_the_session_is_up", awaiting_bind_stops_once_the_session_is_up);
   ("awaiting_bind_stops_immediately_on_a_failed_connect",
    awaiting_bind_stops_immediately_on_a_failed_connect);
   ("awaiting_bind_stops_at_the_deadline", awaiting_bind_stops_at_the_deadline);
   ("awaiting_bind_never_outlives_a_live_session_or_a_failure",
    awaiting_bind_never_outlives_a_live_session_or_a_failure);
   ("rate_limiter_paces_to_configured_rate", rate_limiter_paces_to_configured_rate);
   ("rate_limiter_new_clamps_zero_to_one", rate_limiter_new_clamps_zero_to_one);
   ("try_acquire_drains_burst_then_refuses", try_acquire_drains_burst_then_refuses)].

Lemma runtime_tests_pass : passes tests.
Proof. repeat constructor. Qed.

End RuntimeTests.

Module SendsTests.

Definition build (short_message : string) (tlvs : list Tlv) : result PyErr data_sm.t :=
  build_data_sm "" 1 1 "5550100" 1 1 "5550199" 0 1 0 (of_str short_message) tlvs.

Definition a_body_given_twice_is_rejected_rather_than_silently_halved : bool :=
  match build "from short_message" [mkTlv (tag_u16 MessagePayload) (of_str "from tlv")] with
  | Err (ValueError (BodyGivenTwice _)) => true
  | _ => false
  end.

(** Whether the exception points at [MESSAGE_PAYLOAD]. *)
Definition over_limit (r : result PyErr unit) (payload : bool) : bool :=
  match r with Err (ValueError (ShortMessageTooLong _ _ available)) => Bool.eqb available payload | _ => false end.

Definition short_message_limit_is_the_254_byte_spec_maximum : bool :=
  expect (check_short_message "submit_sm" 254 true) (fun _ => true)
  && over_limit (check_short_message "submit_sm" 255 true) true
  && over_limit (check_short_message "replace_sm" 255 false) false.

Definition tests : list test :=
  [("a_body_given_twice_is_rejected_rather_than_silently_halved",
    a_body_given_twice_is_rejected_rather_than_silently_halved);
   ("short_message_limit_is_the_254_byte_spec_maximum",
    short_message_limit_is_the_254_byte_spec_maximum)].

Lemma sends_tests_pass : passes tests.
Proof. repeat constructor. Qed.

End SendsTests.

Module MetricsTests.

(** The locks answer with the two lists' contents. *)
Definition empty_lists (X : Type) (e : eff X) : option X :=
  match e in eff X return option X with
  | LockBinds f => Some (f []).2
  | LockEsmes f => Some (f []).2
  | _ => None
  end.

(** A program's result when every effect is answered by [h]. *)
Fixpoint result_with (h : forall X, eff X -> option X) {A} (p : task A) : option A :=
  match p with
  | Ret a => Some a
  | Vis e k => match h _ e with Some x => result_with h (k x) | None => None end
  | Iter _ _ _ => None
  end.

Definition sample_binds_empty_is_zero : bool := result_with empty_lists sample_binds == Some (0, 0).

Definition tests : list test :=
  [("sample_binds_empty_is_zero", sample_binds_empty_is_zero)].

Lemma metrics_tests_pass : passes tests.
Proof. repeat constructor. Qed.

End MetricsTests.
