(* ===== verification/System.v ===== *)
(** * The running gateway

    Every task of the program over the one shared state: the two session
    registries, the limiters' buckets, the clock.  [service] lists the tasks, the
    callbacks of both listeners, the helpers a script awaits, the metrics sampler,
    the supervisors and the server; [wstep] says how the shared state answers an
    effect, and leaves every answer of the outside (peers, scripts, the executor,
    the metrics engine) open.  Tasks interleave as in [Threads.v]. *)

From Stdlib Require Import QArith Lqa.
From S2P Require Import Prelude RustStr Py Status Smpp34 Tlv Pdu Async Threads F64 RateLimit.
From S2P Require Import Effects Metrics Outcome Dispatch Runtime Inbound Config Yaml Sends Supervisor.
#[local] Open Scope Z_scope.
#[local] Open Scope async_scope.

(** ** The shared state *)

Record World : Type := mkWorld {
  w_binds : list BindSession;
  w_esmes : list EsmeSession;
  w_buckets : gmap Limiter Bucket;
  w_smscs : gmap nat SMSC.t;
  w_arcs : gmap nat ESME.t;
  w_clock : Z;
}.

Definition with_binds (w : World) (l : list BindSession) : World :=
  mkWorld l (w_esmes w) (w_buckets w) (w_smscs w) (w_arcs w) (w_clock w).
Definition with_esmes (w : World) (l : list EsmeSession) : World :=
  mkWorld (w_binds w) l (w_buckets w) (w_smscs w) (w_arcs w) (w_clock w).
Definition with_bucket (w : World) (l : Limiter) (b : Bucket) : World :=
  mkWorld (w_binds w) (w_esmes w) (<[l := b]> (w_buckets w)) (w_smscs w) (w_arcs w) (w_clock w).
Definition with_smsc (w : World) (a : Arc SMSC.t) : World :=
  mkWorld (w_binds w) (w_esmes w) (w_buckets w) (<[ptr a := get a]> (w_smscs w)) (w_arcs w) (w_clock w).
Definition with_arc (w : World) (a : Arc ESME.t) : World :=
  mkWorld (w_binds w) (w_esmes w) (w_buckets w) (w_smscs w) (<[ptr a := get a]> (w_arcs w)) (w_clock w).
Definition with_clock (w : World) (t : Z) : World :=
  mkWorld (w_binds w) (w_esmes w) (w_buckets w) (w_smscs w) (w_arcs w) t.

Definition started (t : Z) : World := mkWorld [] [] ∅ ∅ ∅ t.

(** A section runs alone, on the state as it is; an allocation answers with an
    address not given before (whoever compares addresses holds an [Arc] that keeps
    its own in use); the rest is answered from outside. *)
Definition wstep (w : World) X (e : eff X) : X -> World -> Prop :=
  match e in eff X return X -> World -> Prop with
  | LockBinds f => fun x w' => w' = with_binds w (f (w_binds w)).1 /\ x = (f (w_binds w)).2
  | LockEsmes f => fun x w' => w' = with_esmes w (f (w_esmes w)).1 /\ x = (f (w_esmes w)).2
  | LockBucket l f => fun x w' => exists b, w_buckets w !! l = Some b /\
      w' = with_bucket w l (f (w_clock w) b).1 /\ x = (f (w_clock w) b).2
  | NewSmsc s => fun a w' => w_smscs w !! ptr a = None /\ get a = s /\ w' = with_smsc w a
  | NewEsme s => fun a w' => w_arcs w !! ptr a = None /\ get a = s /\ w' = with_arc w a
  | NewLimiter f => fun l w' => w_buckets w !! l = None /\ w' = with_bucket w l (f (w_clock w))
  | Now => fun x w' => x = w_clock w /\ w' = w
  | _ => fun _ w' => w' = w
  end.

Definition tick (w w' : World) : Prop := exists t, w_clock w <= t /\ w' = with_clock w t.

(** What the answer of an allocation tells the task. *)
Inductive fact : Type :=
| KLimiter (l : Limiter) (f : Z -> Bucket)
| KSmsc (a : Arc SMSC.t)
| KEsme (a : Arc ESME.t).

(** ** The tasks *)

Section System.
Context `{!Smpp34, !Smpp34Laws} (conf : SmppConfig.t).

Definition state : StateConfig := state_config (SmppConfig.server conf).

(** The callbacks that tell of a session: bound and unbound, of both listeners. *)
Inductive callback : Type :=
| EsmeBound (esme : ESME.t) (sid : string)
| EsmeUnbound (sid : string)
| SmscBound (b : BindConfig.t) (smsc : SMSC.t) (sid : string)
| SmscUnbound (b : BindConfig.t) (sid : string).

Definition callback_of (c : callback) : Thread eff :=
  match c with
  | EsmeBound esme sid => mkThread (on_esme_bound state esme sid)
  | EsmeUnbound sid => mkThread (on_esme_unbound sid)
  | SmscBound b smsc sid => mkThread (on_smsc_bound (bind_listener b) smsc sid)
  | SmscUnbound b sid => mkThread (on_smsc_unbound (bind_listener b) sid)
  end.

(** A bind's listener is made from its configuration. *)
Definition installed (c : callback) : Prop :=
  match c with
  | SmscBound b _ _ | SmscUnbound b _ => b ∈ SmppConfig.binds conf
  | _ => True
  end.

(** Every other task. *)
Inductive handler : Thread eff -> Prop :=
| hd_inbound i conn sid : handler (mkThread (handle_inbound state i conn sid))
| hd_transmitter Req Resp reject (r : Req) :
    handler (mkThread (on_bind_transmitter (Resp := Resp) reject r))
| hd_receiver Req Resp reject (r : Req) : handler (mkThread (on_bind_receiver (Resp := Resp) reject r))
| hd_transceiver r conn : handler (mkThread (on_bind_transceiver r conn))
| hd_timeout sid : handler (mkThread (on_timeout sid))
| hd_listen_failed error : handler (mkThread (on_listen_failed error))
| hd_bind b i conn sid :
    b ∈ SmppConfig.binds conf -> handler (mkThread (handle_bind (bind_listener b) i conn sid))
| hd_alert b a conn sid :
    b ∈ SmppConfig.binds conf -> handler (mkThread (on_alert_notification (bind_listener b) a conn sid))
| hd_bind_timeout sid : handler (mkThread (bind_on_timeout sid))
| hd_connection_failed b error :
    b ∈ SmppConfig.binds conf -> handler (mkThread (on_connection_failed (bind_listener b) error))
| hd_submit_via kw p : submit_via (Some state) kw = Ok p -> handler (mkThread p)
| hd_submit_multi_via kw p : submit_multi_via (Some state) kw = Ok p -> handler (mkThread p)
| hd_data_via kw p : data_via (Some state) kw = Ok p -> handler (mkThread p)
| hd_cancel_via kw p : cancel_via (Some state) kw = Ok p -> handler (mkThread p)
| hd_query_via kw p : query_via (Some state) kw = Ok p -> handler (mkThread p)
| hd_replace_via kw p : replace_via (Some state) kw = Ok p -> handler (mkThread p)
| hd_deliver_to kw p : deliver_to (Some state) kw = Ok p -> handler (mkThread p)
| hd_data_to kw p : data_to (Some state) kw = Ok p -> handler (mkThread p)
| hd_alert_to kw p : alert_to (Some state) kw = Ok p -> handler (mkThread p)
| hd_sampler : handler (mkThread sampler)
| hd_supervisor b : b ∈ SmppConfig.binds conf -> handler (mkThread (run_bind_loop b))
| hd_server addr args : handler (mkThread (server_task addr args)).

Inductive service : Thread eff -> Prop :=
| sv_callback c : installed c -> service (callback_of c)
| sv_handler t : handler t -> service t.

Abbreviation running := (exec wstep tick service).

(** ** The protocol *)

Definition gain X (e : eff X) : X -> list fact :=
  match e in eff X return X -> list fact with
  | NewLimiter f => fun l => [KLimiter l f]
  | NewSmsc _ => fun a => [KSmsc a]
  | NewEsme _ => fun a => [KEsme a]
  | _ => fun _ => []
  end.

(** A metric update names a registered series, with exactly its labels. *)
Definition same_kind (k k' : series_kind) : bool :=
  match k, k' with
  | Gauge, Gauge | Counter, Counter | Histogram _, Histogram _ => true
  | _, _ => false
  end.

Definition declared (name : string) (labels : list (string * string)) (kind : series_kind) : bool :=
  existsb (fun s => String.eqb (s_name s) name && bool_decide (s_labels s = labels.*1)
                    && same_kind (s_kind s) kind) all_series.

(** The three things a section does to a registry: read it, add a session, drop
    a session id. *)
Inductive section {S} (removal : forall X : Type, (list S -> list S * X) -> Prop) (good : S -> Prop)
    : forall X : Type, (list S -> list S * X) -> Prop :=
| sec_read {X} (g : list S -> X) : section removal good X (reading g)
| sec_push s : good s -> section removal good unit (fun l => (l ++ [s], tt))
| sec_drop {X} (f : list S -> list S * X) : removal X f -> section removal good X f.

Inductive smsc_removal : forall X : Type, (list BindSession -> list BindSession * X) -> Prop :=
| smsc_removal_intro sid : smsc_removal bool (smsc_remove sid).
Inductive esme_removal : forall X : Type, (list EsmeSession -> list EsmeSession * X) -> Prop :=
| esme_removal_intro sid : esme_removal (option (string * string)) (esme_remove sid).

(** A limiter's section is one of its two methods'. *)
Inductive bucket_section : forall X : Type, (Z -> Bucket -> Bucket * X) -> Prop :=
| bucket_acquire : bucket_section (option Z) acquire_section
| bucket_try : bucket_section bool try_acquire_section.

(** The throttle of a session with a cap, and of one without. *)
Definition throttle_known (k : list fact) (throttle : option Limiter) (cap : Z) : Prop :=
  match throttle with
  | Some l => 0 < cap /\ KLimiter l (new_bucket cap) ∈ k
  | None => cap <= 0
  end.

Definition bind_known (k : list fact) (s : BindSession) : Prop :=
  exists b, b ∈ SmppConfig.binds conf /\ bs_name s = BindConfig.name b /\
    bs_response_timer s = from_millis (BindConfig.response_timer_ms b) /\
    throttle_known k (bs_throttle s) (BindConfig.max_msg_per_sec b) /\ KSmsc (bs_smsc s) ∈ k.

Definition esme_known (k : list fact) (s : EsmeSession) : Prop :=
  es_response_timer s = inbound_response_timer state /\
  throttle_known k (es_throttle s) (inbound_max_mps state) /\ KEsme (es_esme s) ∈ k.

Definition protocol (k : list fact) X (e : eff X) : Prop :=
  match e with
  | LockBinds f => section smsc_removal (bind_known k) _ f
  | LockEsmes f => section esme_removal (esme_known k) _ f
  | LockBucket l f => bucket_section _ f
  | NewLimiter f => exists cap, 0 < cap < 2 ^ 32 /\ f = new_bucket cap
  | CounterInc name labels v => declared name labels Counter = true /\ v = 1
  | GaugeSet name labels _ => declared name labels Gauge = true
  | HistogramObserve name labels _ => declared name labels (Histogram []) = true
  | Panic => False
  | _ => True
  end.

Lemma throttle_known_mono k k' t cap : k ⊆ k' -> throttle_known k t cap -> throttle_known k' t cap.
Proof. destruct t; cbn; set_solver. Qed.

Lemma bind_known_mono k k' s : k ⊆ k' -> bind_known k s -> bind_known k' s.
Proof.
  intros Hk (b & ? & ? & ? & Ht & ?). exists b. repeat split; try done; [|set_solver].
  by eapply throttle_known_mono.
Qed.

Lemma esme_known_mono k k' s : k ⊆ k' -> esme_known k s -> esme_known k' s.
Proof.
  intros Hk (? & Ht & ?). repeat split; try done; [|set_solver]. by eapply throttle_known_mono.
Qed.

Lemma section_mono {S} rem (good good' : S -> Prop) X f :
  (forall s, good s -> good' s) -> section rem good X f -> section rem good' X f.
Proof. intros Hg Hs. destruct Hs; constructor; auto. Qed.

Lemma protocol_mono k k' X (e : eff X) : k ⊆ k' -> protocol k X e -> protocol k' X e.
Proof.
  intros Hk. destruct e; try done; cbn; apply section_mono; intros s;
    [by apply bind_known_mono|by apply esme_known_mono].
Qed.

(** ** Every task follows it *)

(** What an effect leaves of the two registries. *)
Definition binds_after {X} (e : eff X) (l : list BindSession) : list BindSession :=
  match e with LockBinds f => (f l).1 | _ => l end.
Definition esmes_after {X} (e : eff X) (l : list EsmeSession) : list EsmeSession :=
  match e with LockEsmes f => (f l).1 | _ => l end.

Definition readonly X (e : eff X) : Prop :=
  (forall l, binds_after e l = l) /\ (forall l, esmes_after e l = l).

(** The effects that need no knowledge, and leave the registries as they are. *)
Definition calm X (e : eff X) : Prop := (forall k, protocol k X e) /\ readonly X e.

Lemma calm_reading_binds {X} (g : list BindSession -> X) : calm X (LockBinds (reading g)).
Proof. split; [intros k; constructor|done]. Qed.
Lemma calm_reading_esmes {X} (g : list EsmeSession -> X) : calm X (LockEsmes (reading g)).
Proof. split; [intros k; constructor|done]. Qed.
Lemma calm_acquire l : calm (option Z) (LockBucket l acquire_section).
Proof. split; [intros k; constructor|done]. Qed.
Lemma calm_try_acquire l : calm bool (LockBucket l try_acquire_section).
Proof. split; [intros k; constructor|done]. Qed.

Create HintDb calm.
#[local] Hint Resolve calm_reading_binds calm_reading_esmes calm_acquire calm_try_acquire : calm.
#[local] Hint Extern 3 (calm _ _) =>
  (split; [intros ?; cbn; first [exact I | reflexivity | split; reflexivity]|split; intros ?; reflexivity]) : calm.

Ltac calm_tac := autounfold with metrics; always_tac; auto with calm nocore.

Lemma calm_call_with {T} h a s (convert : PyVal -> T) : always calm (call_with h a s convert).
Proof. unfold call_with, arguments, invoke, submit_coroutine. calm_tac. Qed.

Lemma calm_settle_started {T} (convert : PyVal -> T) s : always calm (settle_started convert s).
Proof. unfold settle_started. calm_tac. Qed.

Lemma calm_on_executor {T} (job : task T) : always calm job -> always calm (on_executor job).
Proof. intros Hj. unfold on_executor. calm_tac. Qed.

Lemma calm_event {T} kind wanted a s (convert : PyVal -> T) :
  always calm (run_event kind wanted a s convert).
Proof.
  unfold run_event, first_matching. apply always_bind.
  - apply calm_on_executor. calm_tac. apply calm_call_with.
  - intros [[st|]|e]; calm_tac. apply calm_settle_started.
Qed.

Lemma calm_session event s : always calm (Dispatch.session event s).
Proof.
  assert (forall l, always calm (run_session s l)) as Hrun.
  { induction l as [|h l IH]; [done|]. cbn [run_session]. apply always_bind; [apply calm_call_with|].
    by intros [|]. }
  unfold Dispatch.session. apply always_bind.
  - apply calm_on_executor. calm_tac.
  - intros step. calm_tac; [apply calm_settle_started|by apply calm_on_executor].
Qed.

Lemma calm_bind b : always calm (Dispatch.bind b).
Proof.
  unfold Dispatch.bind, first_matching. apply always_bind.
  - apply calm_on_executor. calm_tac. apply calm_call_with.
  - intros [[st|]|e]; calm_tac. apply calm_settle_started.
Qed.

Lemma calm_alert a s : always calm (Dispatch.alert a s).
Proof. unfold Dispatch.alert. apply always_bind; [apply calm_event|]. intros. calm_tac. Qed.
Lemma calm_pdu command p s : always calm (Dispatch.pdu command p s).
Proof. apply calm_event. Qed.
#[local] Hint Resolve calm_alert calm_pdu calm_session calm_bind : calm.

Lemma calm_limiter_acquire l : always calm (acquire l).
Proof. unfold acquire. calm_tac. Qed.
#[local] Hint Resolve calm_limiter_acquire : calm.

Lemma calm_dispatch_opt command p s : always calm (dispatch_pdu_opt command p s).
Proof. unfold dispatch_pdu_opt. calm_tac. Qed.
#[local] Hint Resolve calm_dispatch_opt : calm.

Lemma calm_dispatch command p s : always calm (dispatch_pdu command p s).
Proof. unfold dispatch_pdu. calm_tac. Qed.

Lemma calm_admit sid : always calm (admit_inbound state sid).
Proof. unfold admit_inbound, try_acquire. calm_tac. Qed.
#[local] Hint Resolve calm_dispatch calm_admit : calm.

Lemma calm_inbound i conn sid : always calm (handle_inbound state i conn sid).
Proof.
  destruct i; cbn [handle_inbound];
    unfold on_submit_sm, on_data_sm, on_cancel_sm, on_query_sm, on_replace_sm, on_submit_sm_multi,
      esme_session; calm_tac.
Qed.

Lemma calm_handle_bind self i conn sid : always calm (handle_bind self i conn sid).
Proof. destruct i; cbn [handle_bind]; unfold on_deliver_sm, bind_on_data_sm; calm_tac. Qed.

Lemma calm_pace t : always calm (pace t).
Proof. destruct t; unfold pace; calm_tac. Qed.

Lemma calm_settle {R} (send : task (result SmppError R)) timer gone :
  always calm send -> always calm gone -> always calm (settle send timer gone).
Proof. intros. apply always_settle; [auto with calm nocore|done..]. Qed.
#[local] Hint Resolve calm_pace : calm.

Ltac calm_helper :=
  match goal with Hok : _ = Ok _ |- _ => helper_body Hok end;
  unfold bind_handle, esme_handle, send_built, settle_on_bind, settle_on_esme, bind_gone, esme_gone;
  calm_tac; try (apply calm_settle; calm_tac).

Lemma handler_calm t : handler t -> always calm (th_prog t).
Proof.
  intros Ht. destruct Ht; cbn [th_prog].
  - apply calm_inbound.
  - unfold on_bind_transmitter. calm_tac.
  - unfold on_bind_receiver. calm_tac.
  - unfold on_bind_transceiver. calm_tac.
  - unfold on_timeout. calm_tac.
  - unfold on_listen_failed. calm_tac.
  - apply calm_handle_bind.
  - unfold on_alert_notification. calm_tac.
  - unfold bind_on_timeout. calm_tac.
  - unfold on_connection_failed. calm_tac.
  - calm_helper.
  - calm_helper.
  - calm_helper.
  - calm_helper.
  - calm_helper.
  - calm_helper.
  - calm_helper.
  - calm_helper.
  - calm_helper.
  - unfold sampler, sample_binds, set_binds. calm_tac.
  - unfold run_bind_loop, attempt, await_turn, hold_session, was_healthy. calm_tac.
  - unfold server_task. calm_tac.
Qed.

(** The configuration is one that loads: [Yaml.loaded_typed] shows it well typed. *)
Context (Hconf : config_typed conf).

Lemma wp_calm {A} k (p : task A) : always calm p -> wp protocol gain k p (fun _ _ => True).
Proof. intros Hp. apply always_wp. eapply always_mono; [|exact Hp]. by intros X e [? _]. Qed.

Lemma wp_new_throttle k cap :
  fits 32 cap = true ->
  wp protocol gain k (new_throttle cap) (fun k' t => throttle_known k' t cap).
Proof.
  intros Hfit%fits_spec. unfold new_throttle. destruct (Z.ltb_spec 0 cap) as [Hc|Hc]; [|exact Hc].
  split; [exists cap; split; [lia|done]|]. intros l. cbn. split; [done|]. left.
Qed.

Lemma wp_esme_bound k esme sid :
  wp protocol gain k (on_esme_bound state esme sid) (fun _ _ => True).
Proof.
  unfold on_esme_bound. apply wp_bind. eapply wp_post; [apply wp_new_throttle, Hconf|].
  intros k' t _ Ht. split; [exact I|]. intros arc. split.
  - apply sec_push. repeat split; [|left]. eapply throttle_known_mono; [|exact Ht].
    cbn. set_solver.
  - intros u. apply wp_calm, calm_session.
Qed.

Lemma wp_smsc_bound k b smsc sid :
  b ∈ SmppConfig.binds conf ->
  wp protocol gain k (on_smsc_bound (bind_listener b) smsc sid) (fun _ _ => True).
Proof.
  intros Hb. unfold on_smsc_bound. apply wp_bind. eapply wp_post.
  - apply wp_new_throttle. destruct Hconf as [_ Hf _]. rewrite list.Forall_forall in Hf. by apply Hf.
  - intros k' t _ Ht. split; [exact I|]. intros arc. split.
    + apply sec_push. exists b. repeat split; [done| |left].
      eapply throttle_known_mono; [|exact Ht]. cbn. set_solver.
    + intros u. apply wp_calm, calm_session.
Qed.

Lemma wp_esme_unbound k sid : wp protocol gain k (on_esme_unbound sid) (fun _ _ => True).
Proof.
  split; [apply sec_drop; constructor|]. intros removed.
  cbn [app gain Async.bind]. destruct (default ("", "") removed) as [system_id client_addr]. apply wp_calm, calm_session.
Qed.

Lemma wp_smsc_unbound k b sid :
  wp protocol gain k (on_smsc_unbound (bind_listener b) sid) (fun _ _ => True).
Proof.
  split; [apply sec_drop; constructor|]. intros []; [apply wp_calm, calm_session|done].
Qed.

Lemma service_wp t : service t -> wp protocol gain [] (th_prog t) (fun _ _ => True).
Proof.
  intros [[esme sid|sid|b smsc sid|b sid] Hc|t' Ht].
  - apply wp_esme_bound.
  - apply wp_esme_unbound.
  - by apply wp_smsc_bound.
  - apply wp_smsc_unbound.
  - by apply wp_calm, handler_calm.
Qed.

(** ** The invariant *)

(** The bucket behind a session's throttle: none without a cap, else one of
    exactly that capacity and rate. *)
Definition throttled_at (w : World) (throttle : option Limiter) (cap : Z) : Prop :=
  match throttle with
  | Some l => 0 < cap /\ exists b, w_buckets w !! l = Some b /\ bucket_wf cap b
  | None => cap <= 0
  end.

Record bind_installed (w : World) (s : BindSession) : Prop := {
  bi_bind : exists b, b ∈ SmppConfig.binds conf /\ bs_name s = BindConfig.name b /\
    bs_response_timer s = from_millis (BindConfig.response_timer_ms b) /\
    throttled_at w (bs_throttle s) (BindConfig.max_msg_per_sec b);
  bi_arc : w_smscs w !! ptr (bs_smsc s) = Some (get (bs_smsc s));
}.

Record esme_installed (w : World) (s : EsmeSession) : Prop := {
  ei_timer : es_response_timer s = inbound_response_timer state;
  ei_throttle : throttled_at w (es_throttle s) (inbound_max_mps state);
  ei_arc : w_arcs w !! ptr (es_esme s) = Some (get (es_esme s));
}.

Record world_ok (w : World) : Prop := {
  wo_buckets l b : w_buckets w !! l = Some b -> (exists r, bucket_wf r b) /\ last b <= w_clock w;
  wo_binds : Forall (bind_installed w) (w_binds w);
  wo_esmes : Forall (esme_installed w) (w_esmes w);
}.

Definition valid (w : World) (f : fact) : Prop :=
  match f with
  | KLimiter l mk => forall cap, mk = new_bucket cap -> 0 < cap ->
      exists b, w_buckets w !! l = Some b /\ bucket_wf cap b
  | KSmsc a => w_smscs w !! ptr a = Some (get a)
  | KEsme a => w_arcs w !! ptr a = Some (get a)
  end.

(** What later states keep: buckets with their rates, and addresses. *)
Record later (w w' : World) : Prop := {
  la_buckets l b r : w_buckets w !! l = Some b -> bucket_wf r b ->
    exists b', w_buckets w' !! l = Some b' /\ bucket_wf r b';
  la_smscs p s : w_smscs w !! p = Some s -> w_smscs w' !! p = Some s;
  la_arcs p s : w_arcs w !! p = Some s -> w_arcs w' !! p = Some s;
}.

Lemma later_refl w : later w w.
Proof. split; eauto. Qed.

Lemma later_valid w w' f : later w w' -> valid w f -> valid w' f.
Proof.
  intros [Hb Hs Ha]. destruct f as [l mk|a|a]; cbn; auto.
  intros Hv cap E Hc. destruct (Hv cap E Hc) as (b & Hl & Hwf). eauto.
Qed.

Lemma later_throttled w w' t cap : later w w' -> throttled_at w t cap -> throttled_at w' t cap.
Proof. intros [Hb _ _]. destruct t as [l|]; [|done]. intros [? (b & Hl & Hwf)]. split; eauto. Qed.

Lemma later_bind w w' s : later w w' -> bind_installed w s -> bind_installed w' s.
Proof.
  intros Hl [(b & ? & ? & ? & Ht) Ha]. split; [|by eapply la_smscs].
  exists b. repeat split; try done. by eapply later_throttled.
Qed.

Lemma later_esme w w' s : later w w' -> esme_installed w s -> esme_installed w' s.
Proof.
  intros Hl [? Ht Ha]. split; [done|by eapply later_throttled|by eapply la_arcs].
Qed.

Lemma later_binds w w' l : later w w' -> Forall (bind_installed w) l -> Forall (bind_installed w') l.
Proof. intros Hl Hf. eapply list.Forall_impl; [exact Hf|]. intros s. by apply later_bind. Qed.

Lemma later_esmes w w' l : later w w' -> Forall (esme_installed w) l -> Forall (esme_installed w') l.
Proof. intros Hl Hf. eapply list.Forall_impl; [exact Hf|]. intros s. by apply later_esme. Qed.

Lemma throttle_known_at w k t cap :
  (forall f, f ∈ k -> valid w f) -> throttle_known k t cap -> throttled_at w t cap.
Proof.
  intros Hk. destruct t as [l|]; [|done]. intros [Hc Hl]. split; [done|]. exact (Hk _ Hl cap eq_refl Hc).
Qed.

Lemma bind_known_installed w k s :
  (forall f, f ∈ k -> valid w f) -> bind_known k s -> bind_installed w s.
Proof.
  intros Hk (b & ? & ? & ? & Ht & Ha). split; [|exact (Hk _ Ha)].
  exists b. repeat split; try done. by eapply throttle_known_at.
Qed.

Lemma esme_known_installed w k s :
  (forall f, f ∈ k -> valid w f) -> esme_known k s -> esme_installed w s.
Proof. intros Hk (? & Ht & Ha). split; [done|by eapply throttle_known_at|exact (Hk _ Ha)]. Qed.

(** An allowed section leaves only old sessions and good new ones. *)
Lemma section_Forall {S} rem (good Q : S -> Prop) X f l :
  (forall X f, rem X f -> exists p, forall l, (f l).1 = List.filter p l) ->
  section rem good X f -> (forall s, good s -> Q s) -> Forall Q l -> Forall Q (f l).1.
Proof.
  intros Hrem Hs Hg Hl. destruct Hs as [X g|s Hs|X f Hf]; cbn; [done| |].
  - apply list.Forall_app. split; [done|]. constructor; [by apply Hg|done].
  - destruct (Hrem _ _ Hf) as (p & Hp). rewrite Hp. rewrite list.Forall_forall in *.
    intros x Hx. apply Hl. apply list_elem_of_In in Hx. apply List.filter_In in Hx as [Hx _].
    by apply list_elem_of_In.
Qed.

Lemma smsc_removal_filter X (f : list BindSession -> list BindSession * X) :
  smsc_removal X f -> exists p, forall l, (f l).1 = List.filter p l.
Proof. intros [sid]. by eexists. Qed.

Lemma esme_removal_filter X (f : list EsmeSession -> list EsmeSession * X) :
  esme_removal X f -> exists p, forall l, (f l).1 = List.filter p l.
Proof. intros [sid]. by eexists. Qed.

Lemma bucket_section_try X (f : Z -> Bucket -> Bucket * X) now b :
  bucket_section X f -> (f now b).1 = (try_acquire_section now b).1.
Proof. intros [|]; [by rewrite acquire_try|done]. Qed.

Lemma later_with_binds w l : later w (with_binds w l).
Proof. split; eauto. Qed.
Lemma later_with_esmes w l : later w (with_esmes w l).
Proof. split; eauto. Qed.
Lemma later_with_clock w t : later w (with_clock w t).
Proof. split; eauto. Qed.
Lemma later_with_smsc w a : w_smscs w !! ptr a = None -> later w (with_smsc w a).
Proof.
  intros Hn. split; eauto. intros p s Hs. cbn. rewrite lookup_insert_ne; [done|]. congruence.
Qed.
Lemma later_with_arc w a : w_arcs w !! ptr a = None -> later w (with_arc w a).
Proof.
  intros Hn. split; eauto. intros p s Hs. cbn. rewrite lookup_insert_ne; [done|]. congruence.
Qed.
Lemma later_with_bucket w l b :
  (forall b0 r, w_buckets w !! l = Some b0 -> bucket_wf r b0 -> bucket_wf r b) ->
  later w (with_bucket w l b).
Proof.
  intros Hb. split; eauto. intros l' b0 r Hl Hwf. cbn. destruct (decide (l = l')) as [->|Hne].
  - rewrite lookup_insert_eq. eauto.
  - rewrite lookup_insert_ne by done. eauto.
Qed.

(** The invariant carries over to a later state whose registries hold nothing
    new. *)
Lemma world_ok_later w w' :
  later w w' -> w_clock w <= w_clock w' -> w_binds w' = w_binds w -> w_esmes w' = w_esmes w ->
  (forall l b, w_buckets w' !! l = Some b -> w_buckets w !! l = Some b \/
     (exists r, bucket_wf r b) /\ last b <= w_clock w') ->
  world_ok w -> world_ok w'.
Proof.
  intros Hl Hc Eb Ee Hbk [Hb Hbi Hes]. split.
  - intros l b H'. destruct (Hbk l b H') as [Hold|Hnew]; [|done].
    destruct (Hb l b Hold) as [? ?]. split; [done|lia].
  - rewrite Eb. by eapply later_binds.
  - rewrite Ee. by eapply later_esmes.
Qed.

Lemma tick_ok w w' : world_ok w -> tick w w' -> world_ok w' /\ forall f, valid w f -> valid w' f.
Proof.
  intros Hok (t & Ht & ->). pose proof (later_with_clock w t) as Hl. split.
  - apply (world_ok_later w); [done..| |done]. auto.
  - intros f. by apply later_valid.
Qed.

Lemma wstep_bucket_ok w l X (f : Z -> Bucket -> Bucket * X) b :
  world_ok w -> bucket_section X f -> w_buckets w !! l = Some b ->
  later w (with_bucket w l (f (w_clock w) b).1) /\ world_ok (with_bucket w l (f (w_clock w) b).1).
Proof.
  intros Hok Hs Hl. rewrite (bucket_section_try _ _ _ _ Hs).
  assert (later w (with_bucket w l (try_acquire_section (w_clock w) b).1)) as Hlater.
  { apply later_with_bucket. intros b0 r E Hwf. rewrite Hl in E. injection E as <-.
    by apply try_acquire_wf. }
  split; [done|]. apply (world_ok_later w); try done. intros l' b'. cbn.
  destruct (decide (l = l')) as [<-|Hne].
  - rewrite lookup_insert_eq. intros [= <-]. right. rewrite try_acquire_last. split; [|done].
    destruct (wo_buckets _ Hok _ _ Hl) as [[r Hwf] _]. exists r. by apply try_acquire_wf.
  - rewrite lookup_insert_ne by done. auto.
Qed.

Lemma wstep_limiter_ok w l cap :
  world_ok w -> 0 < cap < 2 ^ 32 -> w_buckets w !! l = None ->
  later w (with_bucket w l (new_bucket cap (w_clock w))) /\
  world_ok (with_bucket w l (new_bucket cap (w_clock w))).
Proof.
  intros Hok Hc Hl.
  assert (later w (with_bucket w l (new_bucket cap (w_clock w)))) as Hlater
    by (apply later_with_bucket; congruence).
  split; [done|]. apply (world_ok_later w); try done. intros l' b'. cbn.
  destruct (decide (l = l')) as [<-|Hne].
  - rewrite lookup_insert_eq. intros [= <-]. right. split; [|done].
    eexists. apply new_bucket_wf. lia.
  - rewrite lookup_insert_ne by done. auto.
Qed.

Lemma wstep_ok w k X (e : eff X) x w' :
  world_ok w -> (forall f, f ∈ k -> valid w f) -> protocol k X e -> wstep w X e x w' ->
  world_ok w' /\ (forall f, valid w f -> valid w' f) /\ (forall f, f ∈ gain X e x -> valid w' f).
Proof.
  intros Hok Hk Hp Hw.
  assert (later w w' /\ world_ok w' /\ (forall f, f ∈ gain X e x -> valid w' f)) as (Hl & ? & ?);
    [|split; [done|split; [intros f; by apply later_valid|done]]].
  destruct e; cbn in Hw; try (subst w'; split; [apply later_refl|split; [done|set_solver]]; fail).
  - destruct Hw as [-> ->]. pose proof (later_with_binds w (f (w_binds w)).1) as Hl.
    split; [done|]. split; [|set_solver]. destruct Hok as [Hb Hbi Hes]. split; [done| |by eapply later_esmes].
    eapply later_binds; [done|].
    eapply section_Forall; [apply smsc_removal_filter|exact Hp| |done].
    intros s. by apply bind_known_installed.
  - destruct Hw as [-> ->]. pose proof (later_with_esmes w (f (w_esmes w)).1) as Hl.
    split; [done|]. split; [|set_solver]. destruct Hok as [Hb Hbi Hes]. split; [done|by eapply later_binds|].
    eapply later_esmes; [done|].
    eapply section_Forall; [apply esme_removal_filter|exact Hp| |done].
    intros s. by apply esme_known_installed.
  - destruct Hw as (b & Hl & -> & ->). destruct (wstep_bucket_ok w l X f b) as [? ?]; [done..|].
    split; [done|]. split; [done|set_solver].
  - destruct Hw as (Hn & <- & ->). pose proof (later_with_smsc w x Hn) as Hl. split; [done|].
    split; [by apply (world_ok_later w); auto|]. intros f ->%list_elem_of_singleton. cbn.
    by rewrite lookup_insert_eq.
  - destruct Hw as (Hn & <- & ->). pose proof (later_with_arc w x Hn) as Hl. split; [done|].
    split; [by apply (world_ok_later w); auto|]. intros f ->%list_elem_of_singleton. cbn.
    by rewrite lookup_insert_eq.
  - destruct Hw as (Hn & ->). destruct Hp as (cap & Hc & ->).
    destruct (wstep_limiter_ok w x cap) as [? ?]; [done..|]. split; [done|]. split; [done|].
    intros f' ->%list_elem_of_singleton. cbn. intros cap' E Hc'. rewrite lookup_insert_eq.
    eexists. split; [done|]. rewrite E. rewrite <-(Z.max_l cap' 1) at 1 by lia.
    apply new_bucket_wf. split; [lia|].
    assert (max (new_bucket cap 0) = max (new_bucket cap' 0)) as Em by (by rewrite E).
    cbn in Em. injection Em as Em. lia.
  - destruct Hw as [-> ->]. split; [apply later_refl|split; [done|set_solver]].
Qed.

Lemma gateway_sound : sound wstep tick service protocol gain world_ok valid.
Proof. split; [exact protocol_mono|exact wstep_ok|exact tick_ok|exact service_wp]. Qed.

Lemma started_ok t : sys_ok protocol gain world_ok valid (started t, []).
Proof. split; [|done]. split; [|done..]. intros l b. cbn. by rewrite lookup_empty. Qed.

(** The states reached from an empty start. *)
Definition reachable (s : sys (W := World)) : Prop := exists t tr, running (started t, []) tr s.

Lemma reachable_ok s : reachable s -> sys_ok protocol gain world_ok valid s.
Proof.
  intros (t & tr & Hr). by destruct (exec_ok _ _ _ _ _ _ _ gateway_sound _ _ _ (started_ok t) Hr).
Qed.

(** ** No panic *)

(** C8: no task of the gateway ever trips an assertion of the codec's
    constructors: in no reachable state, whatever scripts passed and peers sent,
    is a task about to panic over a [short_message] or a destination list that
    exceeds its field. *)
Theorem no_task_panics s t (k : Empty_set -> task (th_type t)) :
  reachable s -> t ∈ s.2 -> th_prog t <> Vis Panic k.
Proof.
  intros [_ Hp]%reachable_ok Ht E. rewrite list.Forall_forall in Hp.
  destruct (Hp t Ht) as (kn & _ & Hwp). rewrite E in Hwp. by destruct Hwp.
Qed.

(** ** Metrics *)

(** A metric update that the registered series account for. *)
Definition metric_ok (ev : event eff) : Prop :=
  match ev with
  | Ev (CounterInc name labels v) _ =>
      v = 1 /\ exists help, mkSeries name help labels.*1 Counter ∈ all_series
  | Ev (GaugeSet name labels _) _ => exists help, mkSeries name help labels.*1 Gauge ∈ all_series
  | Ev (HistogramObserve name labels _) _ =>
      exists help buckets, mkSeries name help labels.*1 (Histogram buckets) ∈ all_series
  | _ => True
  end.

Lemma declared_series name labels kind :
  declared name labels kind = true ->
  exists help kind', mkSeries name help labels.*1 kind' ∈ all_series /\ same_kind kind' kind = true.
Proof.
  unfold declared. intros ([n h ls k] & Hin & Hs)%existsb_exists.
  cbn [s_name s_labels s_kind] in Hs.
  apply andb_true_iff in Hs as [[->%String.eqb_eq ->%bool_decide_eq_true]%andb_true_iff Hk].
  exists h, k. split; [by apply list_elem_of_In|done].
Qed.

(** C6: whatever runs, every metric update names a series [register_all]
    registered, of that kind and with exactly its labels in order, and a counter
    moves by one: no update is lost to an unknown name or a label mismatch. *)
Theorem metrics_declared s tr s' : reachable s -> running s tr s' -> Forall metric_ok tr.
Proof.
  intros Hs%reachable_ok Hr. destruct (exec_ok _ _ _ _ _ _ _ gateway_sound _ _ _ Hs Hr) as [_ Hp].
  eapply list.Forall_impl; [exact Hp|]. intros [X e x] (k & He). destruct e; try done; cbn [protocol] in He; cbn [metric_ok].
  - destruct He as [(h & k' & Hin & Hk)%declared_series ->]. destruct k'; try done.
    split; [done|eauto].
  - destruct (declared_series _ _ _ He) as (h & k' & Hin & Hk). destruct k'; try done. eauto.
  - destruct (declared_series _ _ _ He) as (h & k' & Hin & Hk). destruct k'; try done. eauto.
Qed.

End System.

(** ** A short execution *)

Module SystemExample.
#[local] Existing Instance Smpp34Example.codec.
#[local] Existing Instance Smpp34Example.codec_laws.

Definition conf : SmppConfig.t :=
  SmppConfig.mk (ServerConfig.set_max_msg_per_sec ServerConfig.empty_section 5)
    [] (RoutingConfig.mk [] []) None None.

Lemma conf_typed : config_typed conf.
Proof. by repeat split. Qed.

Definition esme : ESME.t := ESME.mk "s1" "acme" "10.0.0.1" true.
Definition timer : Z := inbound_response_timer (state conf).
Definition session : EsmeSession := mkEsmeSession (mkArc 1%nat esme) (Some 0%nat) timer.

Abbreviation executes := (exec wstep tick (service conf)).

(** Start a task and let it perform these effects. *)
Lemma spawned {A} (p : task A) w pool tr w' p' :
  service conf (mkThread p) -> alone wstep w p tr w' p' ->
  executes (w, pool) tr (w', pool ++ [mkThread p']).
Proof. intros Hs Ha. eapply exec_spawn; [exact Hs|]. by apply exec_alone. Qed.

Ltac performs := eapply alone_run; [cbn; repeat split|cbn].
Ltac answers x := eapply (alone_run _ _ _ _ _ x); [cbn; repeat split|cbn].

(** A session binds: its limiter, its handle, the registry. *)
Definition after_bind : World :=
  mkWorld [] [session] {[0%nat := new_bucket 5 0]} ∅ {[1%nat := esme]} 0.

Lemma bound_reachable : exists pool, reachable conf (after_bind, pool).
Proof.
  eexists. exists 0, [Ev (NewLimiter (new_bucket 5)) 0%nat; Ev (NewEsme esme) (mkArc 1%nat esme);
    Ev (LockEsmes (fun l => (l ++ [session], tt))) tt].
  eapply (spawned (on_esme_bound (state conf) esme "s1"));
    [by apply (sv_callback conf (EsmeBound esme "s1"))|].
  do 3 performs. apply alone_refl.
Qed.

Lemma metrics_declared_witness : exists pool,
  reachable conf (after_bind, pool) /\ Forall metric_ok [Ev MetricsStore true;
    Ev (CounterInc BIND_REQUESTS [("result", REJECTED)] 1) tt].
Proof.
  destruct bound_reachable as [pool Hr]. exists pool. split; [exact Hr|].
  eapply (metrics_declared conf conf_typed _ _ _ Hr).
  eapply (spawned (on_bind_receiver (fun u (_ : SmppError) => u) tt)); [by apply sv_handler, hd_receiver|].
  do 2 performs. apply alone_refl.
Defined.

Lemma no_task_panics_witness : exists p,
  submit_via (Some (state conf)) SendsExample.kw = Ok p /\ reachable conf (started 0, [mkThread p]) /\
  forall k, p <> Vis Panic k.
Proof.
  destruct (submit_via (Some (state conf)) SendsExample.kw) as [p|] eqn:E; [|discriminate E].
  exists p. split; [reflexivity|].
  assert (reachable conf (started 0, [mkThread p])) as Hr.
  { exists 0, []. apply (spawned p (started 0) [] [] (started 0) p); [by eapply sv_handler, hd_submit_via|apply alone_refl]. }
  split; [exact Hr|]. intros k.
  exact (no_task_panics conf conf_typed _ (mkThread p) k Hr ltac:(left)).
Defined.

End SystemExample.
