(* ===== verification/Sessions.v ===== *)
(** * The life of a session

    What the two session registries hold, told from the callbacks alone: the bound
    callbacks of the listeners add a session, the unbound ones drop an id, and no
    other task changes anything, however all of them interleave.  From it follows
    what the reason of a failed send says: a script is told that its session was
    closed only when it was. *)

From S2P Require Import Prelude RustStr Py Status Smpp34 Tlv Pdu Async Threads F64 RateLimit.
From S2P Require Import Effects Metrics Outcome Dispatch Runtime Inbound Config Yaml Sends Supervisor.
From S2P Require Import System.
#[local] Open Scope Z_scope.
#[local] Open Scope async_scope.

Abbreviation Log := (list (entry (E := eff) (W := World))).

(** ** When a callback acts *)

(** [Arc::new] and the limiter of a new session, which nobody else sees yet. *)
Definition is_alloc {X} (e : eff X) : bool :=
  match e with NewSmsc _ | NewEsme _ | NewLimiter _ => true | _ => false end.
Definition alloc_event (ev : event eff) : bool := let 'Ev e _ := ev in is_alloc e.

(** A callback acts on its registry with the first effect that is not an
    allocation: after [tr], with [e]. *)
Definition acts (tr : trace eff) {X} (e : eff X) : bool := forallb alloc_event tr && negb (is_alloc e).

Definition acts_at (log : Log) (en : entry (E := eff) (W := World)) : bool :=
  let 'Ev e _ := en_event en in acts (own (en_task en) log) e.

(** Allocations answer with what they were given. *)
Definition honest (tr : trace eff) : Prop :=
  (forall s a, Ev (NewSmsc s) a ∈ tr -> get a = s) /\ (forall s a, Ev (NewEsme s) a ∈ tr -> get a = s).

(** ** Registries *)

(** What the two have in common: where the list is and what an effect leaves of
    it; the id of a session, its handle and what is known of it; and, per callback,
    the session it adds or the id it drops. *)
Class Registry (S : Type) : Type := {
  reg : World -> list S;
  after : forall X, eff X -> list S -> list S;
  id_of : S -> string;
  handle : S -> nat;
  known_as : S -> fact;
  joins : callback -> option (S -> Prop);
  leaves : callback -> option string;
}.

Definition is_id {S} `{Registry S} (sid : string) (s : S) : bool := bool_decide (id_of s = sid).

(** What a callback makes of the list. *)
Definition change {S} `{Registry S} (c : callback) (l l' : list S) : Prop :=
  match joins c, leaves c with
  | Some new, _ => exists s, new s /\ l' = l ++ [s]
  | None, Some sid => l' = List.filter (fun s => negb (is_id sid s)) l
  | None, None => l' = l
  end.

Section Sessions.
Context {codec : Smpp34} {codec_laws : Smpp34Laws} (conf : SmppConfig.t).

#[local] Instance bind_registry : Registry BindSession := {
  reg := w_binds;
  after X e l := binds_after e l;
  id_of s := SMSC.session_id (get (bs_smsc s));
  handle s := ptr (bs_smsc s);
  known_as s := KSmsc (bs_smsc s);
  joins c := match c with
             | SmscBound b smsc _ => Some (fun s => bs_name s = BindConfig.name b /\
                 get (bs_smsc s) = smsc /\
                 bs_response_timer s = from_millis (BindConfig.response_timer_ms b))
             | _ => None
             end;
  leaves c := match c with SmscUnbound _ sid => Some sid | _ => None end;
}.

#[local] Instance esme_registry : Registry EsmeSession := {
  reg := w_esmes;
  after X e l := esmes_after e l;
  id_of s := ESME.session_id (get (es_esme s));
  handle s := ptr (es_esme s);
  known_as s := KEsme (es_esme s);
  joins c := match c with
             | EsmeBound esme _ => Some (fun s => get (es_esme s) = esme /\
                 es_response_timer s = inbound_response_timer (state conf))
             | _ => None
             end;
  leaves c := match c with EsmeUnbound sid => Some sid | _ => None end;
}.

(** The tasks [ts] performed [h] after [log], and the list went from [l] to [l']:
    each callback changed it once, when it acted; nothing else did. *)
Inductive lives {S} `{Registry S} (ts : list (Thread eff)) : Log -> list S -> Log -> list S -> Prop :=
| lives_nil log l : lives ts log l [] l
| lives_callback log l en c l' h l'' :
    ts !! en_task en = Some (callback_of conf c) -> acts_at log en = true -> change c l l' ->
    lives ts (log ++ [en]) l' h l'' -> lives ts log l (en :: h) l''
| lives_waiting log l en c h l'' :
    ts !! en_task en = Some (callback_of conf c) -> acts_at log en = false ->
    lives ts (log ++ [en]) l h l'' -> lives ts log l (en :: h) l''
| lives_handler log l en t h l'' :
    ts !! en_task en = Some t -> handler conf t ->
    lives ts (log ++ [en]) l h l'' -> lives ts log l (en :: h) l''.

(** ** The callbacks *)

Definition callback_rule {S} `{Registry S} (c : callback) (tr : trace eff) X (e : eff X) : Prop :=
  honest tr ->
  if acts tr e then forall l, change c l (after X e l) else forall l, after X e l = l.

(** What an implementation owes: the list changes by the effects alone, as the
    callbacks say; and two sessions with one handle have one id. *)
Class RegistryLaws (S : Type) `{Registry S} : Prop := {
  reg_after w X (e : eff X) x w' : wstep w X e x w' -> reg w' = after X e (reg w);
  reg_tick w w' : tick w w' -> reg w' = reg w;
  reg_readonly X (e : eff X) l : readonly X e -> after X e l = l;
  reg_rule c : obeys (callback_rule c) [] (th_prog (callback_of conf c));
  reg_known w s : world_ok conf w -> s ∈ reg w -> valid w (known_as s);
  reg_alias w s s' :
    valid w (known_as s) -> valid w (known_as s') -> handle s = handle s' -> id_of s = id_of s';
}.

(** A rule for one of the callbacks: allocations are free, and so is reading once
    it has acted. *)
Record lenient (R : trace eff -> forall X, eff X -> Prop) : Prop := {
  len_alloc tr X e : is_alloc e = true -> R tr X e;
  len_read tr X e : forallb alloc_event tr = false -> readonly X e -> R tr X e;
}.

Lemma rule_lenient {S} `{RegistryLaws S} c : lenient (callback_rule (S := S) c).
Proof.
  split; intros tr X e He; unfold callback_rule, acts.
  - rewrite He, andb_false_r. intros _ l. apply reg_readonly. by destruct e.
  - intros Hr _. rewrite He. intros l. by apply reg_readonly.
Qed.

Section Obeying.
Context (R : trace eff -> forall X, eff X -> Prop) (HR : lenient R).

(** The handlers it runs once it has acted. *)
Lemma obeys_session (k : list (event eff)) ev event s :
  ev ∈ k -> alloc_event ev = false ->
  wp (allowed R) (@recorded eff) k (Dispatch.session event s) (fun _ _ => True).
Proof.
  intros Hin Hev. apply (wp_from _ _ (calm conf)); [apply calm_session|].
  intros k' X e Hk [_ Hr]. apply (len_read _ HR); [|exact Hr].
  apply not_true_iff_false. rewrite forallb_forall. intros Hall.
  rewrite (Hall ev) in Hev; [done|]. rewrite <-in_rev. by apply list_elem_of_In, Hk.
Qed.

Lemma obeys_new_throttle k cap (Q : list (event eff) -> option Limiter -> Prop) :
  (forall t k', k ⊆ k' -> forallb alloc_event k' = forallb alloc_event k -> Q k' t) ->
  wp (allowed R) (@recorded eff) k (new_throttle cap) Q.
Proof.
  intros HQ. unfold new_throttle. destruct (0 <? cap); [|by apply HQ].
  split; [by apply (len_alloc _ HR)|]. intros l. apply HQ; [set_solver|done].
Qed.

Lemma obeys_esme_bound esme sid :
  (forall tr arc throttle, Ev (NewEsme esme) arc ∈ tr -> forallb alloc_event tr = true ->
     R tr _ (LockEsmes (fun l =>
       (l ++ [mkEsmeSession arc throttle (inbound_response_timer (state conf))], tt)))) ->
  obeys R [] (on_esme_bound (state conf) esme sid).
Proof.
  intros Hpush. unfold obeys, on_esme_bound. apply wp_bind, obeys_new_throttle. intros t k _ Hk.
  split; [by apply (len_alloc _ HR)|]. intros arc. split.
  - unfold allowed. apply Hpush; [rewrite list_elem_of_In, <-in_rev, <-list_elem_of_In; left|].
    rewrite forallb_forall. intros ev Hin%in_rev. revert ev Hin. rewrite <-forallb_forall. cbn. by rewrite Hk.
  - intros u. eapply obeys_session; [left|done].
Qed.

Lemma obeys_smsc_bound b smsc sid :
  (forall tr arc throttle, Ev (NewSmsc smsc) arc ∈ tr -> forallb alloc_event tr = true ->
     R tr _ (LockBinds (fun l => (l ++ [mkBindSession (BindConfig.name b) arc throttle
       (from_millis (BindConfig.response_timer_ms b))], tt)))) ->
  obeys R [] (on_smsc_bound (bind_listener b) smsc sid).
Proof.
  intros Hpush. unfold obeys, on_smsc_bound. apply wp_bind, obeys_new_throttle. intros t k _ Hk.
  split; [by apply (len_alloc _ HR)|]. intros arc. split.
  - unfold allowed. apply Hpush; [rewrite list_elem_of_In, <-in_rev, <-list_elem_of_In; left|].
    rewrite forallb_forall. intros ev Hin%in_rev. revert ev Hin. rewrite <-forallb_forall. cbn. by rewrite Hk.
  - intros u. eapply obeys_session; [left|done].
Qed.

Lemma obeys_esme_unbound sid :
  R [] _ (LockEsmes (esme_remove sid)) -> obeys R [] (on_esme_unbound sid).
Proof.
  intros Hdrop. split; [exact Hdrop|]. intros removed. cbn [app recorded Async.bind].
  destruct (default ("", "") removed) as [system_id client_addr]. eapply obeys_session; [left|done].
Qed.

Lemma obeys_smsc_unbound b sid :
  R [] _ (LockBinds (smsc_remove sid)) -> obeys R [] (on_smsc_unbound (bind_listener b) sid).
Proof.
  intros Hdrop. split; [exact Hdrop|]. intros []; [|done]. eapply obeys_session; [left|done].
Qed.

End Obeying.

(** ** The two registries keep the rules *)

Lemma wstep_binds w X (e : eff X) x w' : wstep w X e x w' -> w_binds w' = binds_after e (w_binds w).
Proof. destruct e; cbn; naive_solver. Qed.
Lemma wstep_esmes w X (e : eff X) x w' : wstep w X e x w' -> w_esmes w' = esmes_after e (w_esmes w).
Proof. destruct e; cbn; naive_solver. Qed.

#[local] Instance bind_registry_laws : RegistryLaws BindSession.
Proof.
  split.
  - exact wstep_binds.
  - by intros w w' (t & _ & ->).
  - by intros X e l [Hb _].
  - assert (forall c, lenient (callback_rule (S := BindSession) c)) as Hlen.
    { intros c. split; intros tr X e He; unfold callback_rule, acts.
      - rewrite He, andb_false_r. by destruct e.
      - intros [Hb _] _. rewrite He. exact Hb. }
    intros [esme sid|sid|b smsc sid|b sid]; cbn [callback_of th_prog].
    + apply obeys_esme_bound; [done|]. intros tr arc t _ Ha _. unfold acts. by rewrite Ha.
    + apply obeys_esme_unbound; [done|]. by intros _.
    + apply obeys_smsc_bound; [done|]. intros tr arc t Hin Ha [Hs _]. unfold acts. rewrite Ha.
      intros l. eexists. split; [|done]. repeat split. by apply Hs.
    + apply obeys_smsc_unbound; [done|]. by intros _.
  - intros w s Hw Hs. pose proof (wo_binds _ _ Hw) as Hall. rewrite list.Forall_forall in Hall.
    apply (Hall _ Hs).
  - intros w s s' Hs Hs' Hh. cbn in *. rewrite Hh in Hs. congruence.
Qed.

#[local] Instance esme_registry_laws : RegistryLaws EsmeSession.
Proof.
  split.
  - exact wstep_esmes.
  - by intros w w' (t & _ & ->).
  - by intros X e l [_ He].
  - assert (forall c, lenient (callback_rule (S := EsmeSession) c)) as Hlen.
    { intros c. split; intros tr X e He; unfold callback_rule, acts.
      - rewrite He, andb_false_r. by destruct e.
      - intros [_ Hb] _. rewrite He. exact Hb. }
    intros [esme sid|sid|b smsc sid|b sid]; cbn [callback_of th_prog].
    + apply obeys_esme_bound; [done|]. intros tr arc t Hin Ha [_ He]. unfold acts. rewrite Ha.
      intros l. eexists. split; [|done]. split; [by apply He|done].
    + apply obeys_esme_unbound; [done|]. by intros _.
    + apply obeys_smsc_bound; [done|]. intros tr arc t _ Ha _. unfold acts. by rewrite Ha.
    + apply obeys_smsc_unbound; [done|]. by intros _.
  - intros w s Hw Hs. pose proof (wo_esmes _ _ Hw) as Hall. rewrite list.Forall_forall in Hall.
    apply (Hall _ Hs).
  - intros w s s' Hs Hs' Hh. cbn in *. rewrite Hh in Hs. congruence.
Qed.

(** ** The client's view, against the interface alone *)

Abbreviation history := (history (E := eff) (W := World)).
Abbreviation hstep := (hstep wstep tick (service conf)).
Abbreviation during := (during wstep tick (service conf)).
Abbreviation faithful := (faithful wstep (service conf)).

Definition world (H : history) : World := (h_state H).1.

Lemma faithful_honest H i : faithful H -> honest (own i (h_log H)).
Proof.
  intros Hf. pose proof (fa_answers _ _ _ Hf) as Ha. rewrite list.Forall_forall in Ha.
  split; intros s a (en & Hin & _ & Hev)%elem_of_own; destruct (Ha en Hin) as (w' & Hw);
    rewrite Hev in Hw; apply Hw.
Qed.

Lemma handler_readonly t : handler conf t -> obeys (fun _ => readonly) [] (th_prog t).
Proof.
  intros Ht. apply (wp_from _ _ (calm conf)); [by apply handler_calm|]. by intros k X e _ [_ Hr].
Qed.

Section View.
Context {S : Type} {Hreg : Registry S} {Hlaws : RegistryLaws S}.

(** What one effect of a task does. *)
Lemma hstep_lives H en H' :
  faithful H -> hstep H (Some en) H' ->
  (exists c, h_tasks H !! en_task en = Some (callback_of conf c) /\
     if acts_at (h_log H) en then change c (reg (world H)) (reg (world H'))
     else reg (world H') = reg (world H)) \/
  (exists t, h_tasks H !! en_task en = Some t /\ handler conf t /\ reg (world H') = reg (world H)).
Proof.
  intros Hf Hst. destruct (hstep_task _ _ _ _ _ _ Hf Hst) as (t & Ht & Hsv).
  pose proof (hstep_run_inv _ _ _ _ _ _ Hst) as (Hw & _ & _ & Hwst). unfold world. rewrite Hw.
  destruct Hsv as [c Hc|t Hh].
  - left. exists c. split; [done|].
    pose proof (hstep_obeys _ _ _ _ _ _ _ _ Hf Hst Ht (reg_rule (S := S) c)) as Hr.
    pose proof (faithful_honest _ (en_task en) Hf) as Hhon. unfold acts_at.
    destruct (en_event en) as [X e x]. rewrite (reg_after _ _ _ _ _ Hwst). specialize (Hr Hhon).
    destruct (acts _ e); apply Hr.
  - right. exists t. split; [done|]. split; [done|].
    pose proof (hstep_obeys _ _ _ _ _ _ _ _ Hf Hst Ht (handler_readonly t Hh)) as Hr.
    destruct (en_event en) as [X e x]. rewrite (reg_after _ _ _ _ _ Hwst). by apply reg_readonly.
Qed.

Lemma hstep_quiet H H' : hstep H None H' -> reg (world H') = reg (world H) /\ h_log H' = h_log H.
Proof.
  intros Hst. inversion Hst as [| | |ts log w pool w' Ht]; subst; [done..|].
  split; [|done]. cbn. by apply reg_tick.
Qed.

Lemma during_lives H h H' ts :
  faithful H -> during H h H' -> h_tasks H' `prefix_of` ts ->
  lives ts (h_log H) (reg (world H)) h (reg (world H')).
Proof.
  intros Hf Hd Hts. induction Hd as [H|H o H1 h H2 Hst Hd IH]; [constructor|].
  specialize (IH (hstep_faithful _ _ _ _ _ _ Hf Hst) Hts).
  destruct o as [en|]; cbn [option_list app].
  - assert (forall t, h_tasks H !! en_task en = Some t -> ts !! en_task en = Some t) as Hlook.
    { intros t Ht. pose proof (hstep_run_inv _ _ _ _ _ _ Hst) as (_ & _ & Et & _). rewrite <-Et in Ht.
      apply (prefix_lookup_Some _ _ _ _ Ht). etrans; [|exact Hts]. by apply during_log in Hd as [_ ?]. }
    pose proof (hstep_run_inv _ _ _ _ _ _ Hst) as (_ & El & _ & _). rewrite El in IH.
    destruct (hstep_lives _ _ _ Hf Hst) as [(c & Ht & Hc)|(t & Ht & Hh & E)].
    + destruct (acts_at (h_log H) en) eqn:Ea.
      * eapply lives_callback; [by apply Hlook|done|exact Hc|exact IH].
      * rewrite Hc in IH. eapply lives_waiting; [by apply Hlook|done|exact IH].
    + rewrite E in IH. eapply lives_handler; [by apply Hlook|done|exact IH].
  - apply hstep_quiet in Hst as [E El]. by rewrite E, El in IH.
Qed.
End View.

(** C5: the two session lists are what the callbacks say, whatever tasks
    interleave.  From any moment of an execution on, a bound callback adds its
    session, once, when it acts; an unbound callback takes away, when it acts, all
    sessions of its id and no others; and neither the rest of what they do nor any
    other task changes the lists: not the requests, not the timeouts, not the
    sends. *)
Theorem sessions_live t0 h0 H h H' :
  during (start (started t0)) h0 H -> during H h H' ->
  lives (S := BindSession) (h_tasks H') (h_log H) (w_binds (world H)) h (w_binds (world H')) /\
  lives (S := EsmeSession) (h_tasks H') (h_log H) (w_esmes (world H)) h (w_esmes (world H')).
Proof.
  intros H0 Hd. pose proof (during_faithful _ _ _ _ _ _ (start_faithful _ _ _) H0) as Hf. split.
  - exact (during_lives (S := BindSession) _ _ _ _ Hf Hd (reflexivity _)).
  - exact (during_lives (S := EsmeSession) _ _ _ _ Hf Hd (reflexivity _)).
Qed.

(** ** When a session is gone *)

(** A callback acted on the way. *)
Definition acted (ts : list (Thread eff)) (log h : Log) (c : callback) : Prop :=
  exists h1 en h2, h = h1 ++ en :: h2 /\ ts !! en_task en = Some (callback_of conf c) /\
    acts_at (log ++ h1) en = true.

Lemma acted_here ts log en h c :
  ts !! en_task en = Some (callback_of conf c) -> acts_at log en = true -> acted ts log (en :: h) c.
Proof. intros Ht Ha. exists [], en, h. by rewrite app_nil_r. Qed.

Lemma acted_later ts log en h c : acted ts (log ++ [en]) h c -> acted ts log (en :: h) c.
Proof.
  intros (h1 & en' & h2 & -> & Ht & Ha). exists (en :: h1), en', h2.
  rewrite <-app_assoc in Ha. by split.
Qed.

(** What [bind_gone] and [esme_gone] look for: no session of the list has the
    handle. *)
Definition absent {S} `{Registry S} (p : nat) (l : list S) : bool :=
  negb (existsb (fun c => (handle c =? p)%nat) l).

Section Presence.
Context {S : Type} {Hreg : Registry S} {Hlaws : RegistryLaws S}.

(** A session stays, unless a callback dropped its id. *)
Lemma lives_kept ts log l h l' b :
  lives ts log l h l' -> b ∈ l ->
  (exists c, leaves (S := S) c = Some (id_of b) /\ acted ts log h c) \/ b ∈ l'.
Proof.
  induction 1 as [log l|log l en c l' h l'' Ht Ha Hc Hl IH|log l en c h l'' Ht Ha Hl IH
    |log l en t h l'' Ht Hh Hl IH]; intros Hb; [by right|..].
  - assert ((exists c, leaves (S := S) c = Some (id_of b) /\ acted ts log (en :: h) c) \/ b ∈ l') as [?|Hb'];
      [|by left|].
    { unfold change in Hc. destruct (joins c) as [new|] eqn:Ej.
      - destruct Hc as (s & _ & ->). right. set_solver.
      - destruct (leaves c) as [sid|] eqn:El; [|by subst; right].
        destruct (decide (id_of b = sid)) as [<-|Hne].
        + left. exists c. split; [done|]. by apply acted_here.
        + right. subst l'. apply list_elem_of_In, List.filter_In. split; [by apply list_elem_of_In|].
          unfold is_id. by rewrite bool_decide_eq_false_2. }
    destruct (IH Hb') as [(c' & ? & ?%acted_later)|?]; [left; by exists c'|by right].
  - destruct (IH Hb) as [(c' & ? & ?%acted_later)|?]; [left; by exists c'|by right].
  - destruct (IH Hb) as [(c' & ? & ?%acted_later)|?]; [left; by exists c'|by right].
Qed.

(** Without a callback that adds one of the id, none appears. *)
Definition none_of (sid : string) (l : list S) : Prop := forall s, s ∈ l -> id_of s <> sid.

(** The callback adds a session with the id. *)
Definition adds (sid : string) (c : callback) : Prop :=
  exists new (s : S), joins c = Some new /\ new s /\ id_of s = sid.

Lemma lives_none ts log l h l' sid :
  lives ts log l h l' -> none_of sid l -> (forall c, adds sid c -> ~ acted ts log h c) -> none_of sid l'.
Proof.
  induction 1 as [log l|log l en c l' h l'' Ht Ha Hc Hl IH|log l en c h l'' Ht Ha Hl IH
    |log l en t h l'' Ht Hh Hl IH]; intros Hno Hnew; [done|..].
  2-3: apply IH; [done|]; intros c' Hc' Hx; by apply (Hnew c' Hc'), acted_later.
  apply IH; [|intros c' Hc' Hx; by apply (Hnew c' Hc'), acted_later].
  unfold change in Hc. destruct (joins c) as [new|] eqn:Ej.
  - destruct Hc as (s & Hs & ->). intros s' [Hin| ->%list_elem_of_singleton]%elem_of_app; [by apply Hno|].
    intros Hid. apply (Hnew c); [by exists new, s|]. by apply acted_here.
  - destruct (leaves c) as [sid'|]; subst l'; [|done]. intros s Hin.
    apply list_elem_of_In, List.filter_In in Hin as [Hin _]. apply Hno. by apply list_elem_of_In.
Qed.

(** A callback that drops an id leaves none of it. *)
Lemma hstep_drops H en H' c sid :
  faithful H -> hstep H (Some en) H' -> h_tasks H !! en_task en = Some (callback_of conf c) ->
  acts_at (h_log H) en = true -> joins (S := S) c = None -> leaves (S := S) c = Some sid ->
  none_of sid (reg (world H')).
Proof.
  intros Hf Hst Ht Ha Hj Hl. pose proof (hstep_run_inv _ _ _ _ _ _ Hst) as (Hw & _ & _ & Hwst).
  pose proof (hstep_obeys _ _ _ _ _ _ _ _ Hf Hst Ht (reg_rule (S := S) c)) as Hr.
  pose proof (faithful_honest _ (en_task en) Hf) as Hhon. unfold acts_at, world in *.
  destruct (en_event en) as [X e x]. rewrite (reg_after _ _ _ _ _ Hwst). specialize (Hr Hhon).
  rewrite Ha in Hr. specialize (Hr (reg (en_world en))). unfold change in Hr. rewrite Hj, Hl in Hr.
  rewrite Hr. intros s Hin. apply list_elem_of_In, List.filter_In in Hin as [_ Hn].
  unfold is_id in Hn. by apply negb_true_iff, bool_decide_eq_false in Hn.
Qed.

(** A session is found until a callback drops its id. *)
Lemma gone_dropped H h H' b :
  faithful H -> during H h H' -> b ∈ reg (world H) -> absent (handle b) (reg (world H')) = true ->
  exists c, leaves (S := S) c = Some (id_of b) /\ acted (h_tasks H') (h_log H) h c.
Proof.
  intros Hf Hd Hb Habs. pose proof (during_lives _ _ _ _ Hf Hd (reflexivity _)) as Hl.
  destruct (lives_kept _ _ _ _ _ b Hl Hb) as [?|Hin]; [done|exfalso].
  apply negb_true_iff, not_true_iff_false in Habs. apply Habs, existsb_exists. exists b.
  split; [by apply list_elem_of_In|by apply Nat.eqb_eq].
Qed.
End Presence.

Context (Hconf : config_typed conf).

Abbreviation ok := (sys_ok (protocol conf) gain (world_ok conf) valid).

Lemma during_ok H h H' : ok (h_state H) -> during H h H' -> ok (h_state H').
Proof.
  intros Hs Hd%during_exec. by destruct (exec_ok _ _ _ _ _ _ _ (gateway_sound _ Hconf) _ _ _ Hs Hd).
Qed.

Lemma during_valid H h H' f : ok (h_state H) -> during H h H' -> valid (world H) f -> valid (world H') f.
Proof. intros Hs Hd%during_exec. by apply (exec_valid _ _ _ _ _ _ _ (gateway_sound _ Hconf) _ _ _ _ Hs Hd). Qed.

Lemma start_ok t h H : during (start (started t)) h H -> ok (h_state H) /\ faithful H /\ h_log H = h.
Proof.
  intros Hd. split; [|split].
  - eapply during_ok; [|exact Hd]. apply started_ok.
  - eapply during_faithful; [|exact Hd]. apply start_faithful.
  - by apply during_log in Hd as [-> _].
Qed.

(** The task of an entry is the one of that number for good. *)
Lemma entry_task H en H1 ts t :
  faithful H -> hstep H (Some en) H1 -> h_tasks H1 `prefix_of` ts -> ts !! en_task en = Some t ->
  h_tasks H1 !! en_task en = Some t /\ h_tasks H !! en_task en = Some t.
Proof.
  intros Hf Hst Hp Ht. destruct (hstep_task _ _ _ _ _ _ Hf Hst) as (t' & Ht' & _).
  pose proof (hstep_run_inv _ _ _ _ _ _ Hst) as (_ & _ & Et & _). rewrite Et in *.
  rewrite (prefix_lookup_Some _ _ _ _ Ht' Hp) in Ht. by injection Ht as <-.
Qed.

(** Once a callback dropped its id, and until one adds it again, it is not found. *)
Lemma gone_since {S} {Hreg : Registry S} {Hlaws : RegistryLaws S} H ha en hb H' (b : S) c :
  ok (h_state H) -> faithful H -> during H (ha ++ en :: hb) H' -> b ∈ reg (world H) ->
  h_tasks H' !! en_task en = Some (callback_of conf c) -> acts_at (h_log H ++ ha) en = true ->
  joins (S := S) c = None -> leaves (S := S) c = Some (id_of b) ->
  (forall c', adds (S := S) (id_of b) c' -> ~ acted (h_tasks H') (h_log H ++ ha ++ [en]) hb c') ->
  absent (handle b) (reg (world H')) = true.
Proof.
  intros Hok Hf Hd Hb Ht Ha Hj Hl Hno.
  assert (valid (world H') (known_as b)) as Hvb.
  { eapply during_valid; [exact Hok|exact Hd|]. apply reg_known; [apply Hok|done]. }
  pose proof (during_ok _ _ _ Hok Hd) as Hok'.
  apply during_at in Hd as (H1 & H2 & Hd1 & Hst & Hd2).
  pose proof (during_faithful _ _ _ _ _ _ Hf Hd1) as Hf1.
  pose proof (hstep_faithful _ _ _ _ _ _ Hf1 Hst) as Hf2.
  pose proof (hstep_run_inv _ _ _ _ _ _ Hst) as (_ & El2 & _ & _).
  pose proof (proj1 (during_log _ _ _ _ _ _ Hd1)) as El1. rewrite El1 in El2. rewrite <-El1 in Ha.
  pose proof (entry_task _ _ _ _ _ Hf1 Hst (proj2 (during_log _ _ _ _ _ _ Hd2)) Ht) as [_ Ht1].
  pose proof (hstep_drops _ _ _ _ _ Hf1 Hst Ht1 Ha Hj Hl) as Hnone.
  pose proof (during_lives _ _ _ _ Hf2 Hd2 (reflexivity _)) as Hlives.
  apply lives_none with (sid := id_of b) in Hlives; [|done|by rewrite El2, <-app_assoc].
  apply negb_true_iff, not_true_iff_false. intros (s & Hs & Hh)%existsb_exists.
  apply list_elem_of_In in Hs. apply Nat.eqb_eq in Hh. apply (Hlives s Hs).
  eapply reg_alias; [by apply reg_known; [apply Hok'|]|exact Hvb|done].
Qed.

(** ** The reason of a failed send *)

(** The helpers that wait for an answer on a bind, and on a session. *)
Inductive bind_helper : string -> forall Out, task (result PyErr Out) -> Prop :=
| bh_submit kw p :
    submit_via (Some (state conf)) kw = Ok p -> bind_helper (MessageKw.target kw) SmppResp.t p
| bh_submit_multi kw p :
    submit_multi_via (Some (state conf)) kw = Ok p -> bind_helper (MessageKw.target kw) SmppResp.t p
| bh_data kw p : data_via (Some (state conf)) kw = Ok p -> bind_helper (DataKw.target kw) SmppResp.t p
| bh_cancel kw p : cancel_via (Some (state conf)) kw = Ok p -> bind_helper (CancelKw.bind kw) SmppResp.t p
| bh_query kw p : query_via (Some (state conf)) kw = Ok p -> bind_helper (QueryKw.bind kw) QueryResp.t p
| bh_replace kw p :
    replace_via (Some (state conf)) kw = Ok p -> bind_helper (ReplaceKw.bind kw) SmppResp.t p.

Inductive esme_helper : string -> forall Out, task (result PyErr Out) -> Prop :=
| eh_deliver kw p :
    deliver_to (Some (state conf)) kw = Ok p -> esme_helper (MessageKw.target kw) SmppResp.t p
| eh_data kw p : data_to (Some (state conf)) kw = Ok p -> esme_helper (DataKw.target kw) SmppResp.t p.

(** What a reason says of the answer to "is the session gone?". *)
Definition reason_says (v : SendErrorValue) (gone : bool) : Prop :=
  (se_reason v = "closed" -> gone = true) /\ (se_reason v = "unanswered" -> gone = false).

Lemma settle_asks {R Out} (send : task (result SmppError R)) timer (ask : eff bool) command target tr
    (report : R -> Out) v :
  runs (r <- (r <- settle send timer (trigger ask);
              Ret (map_err (fun failure => into_pyerr failure command target) r));
        match r with Ok resp => Ret (Ok (report resp)) | Err e => Ret (Err e) end) tr (Err (SmppSendError v)) ->
  exists mid gone, tr = mid ++ [Ev ask gone] /\ reason_says v gone.
Proof.
  intros Hr. run_step. run_step. unfold settle in *. run_step. run_step. run_step. run_step.
  match goal with a : result SmppError R |- _ => destruct a as [resp|e] end.
  { repeat run_step. cbn [map_err] in *. run_step. }
  repeat run_step. cbn [map_err] in *. run_step.
  match goal with |- context [[?now] ++ ?tr ++ [?later] ++ [Ev ask ?gone] ++ []] =>
    exists ([now] ++ tr ++ [later]), gone end.
  split; [by rewrite !app_nil_r, <-!app_assoc|]. unfold reason_says, classify. cbn [se_reason].
  repeat case_match; by destruct a2.
Qed.

(** What a helper that failed on a bind did first and last. *)
Definition asked_bind (name : string) (tr : trace eff) (v : SendErrorValue) : Prop :=
  exists t mid gone,
    tr = Ev (LockBinds (reading (find_bind name))) (Some t) :: mid ++
         [Ev (LockBinds (reading (absent (S := BindSession) (ptr (bt_smsc t))))) gone] /\
    reason_says v gone.

Definition asked_esme (sid : string) (tr : trace eff) (v : SendErrorValue) : Prop :=
  exists arc timer mid gone,
    tr = Ev (LockEsmes (reading (find_esme sid))) (Some (arc, timer)) :: mid ++
         [Ev (LockEsmes (reading (absent (S := EsmeSession) (ptr arc)))) gone] /\
    reason_says v gone.

Lemma via_asks {R Out} bind command (paced : bool) (req : Arc SMSC.t -> request (result SmppError R))
    (report : R -> Out) tr v :
  runs (target <-? bind_handle bind;
     (if paced then pace (bt_throttle target) else Ret tt) ;;
     resp <-? settle_on_bind target bind command (trigger (Request (req (bt_smsc target))));
     Ret (Ok (report resp)))%async tr (Err (SmppSendError v)) -> asked_bind bind tr v.
Proof.
  intros Hr. unfold bind_handle in Hr. run_step. run_step. run_step. run_step. run_step.
  match goal with t : option BindTarget |- _ => destruct t as [t|] end; cbn [ok_or] in *; [|by run_step].
  run_step. match goal with H : runs _ _ (Err (SmppSendError v)) |- _ => apply settle_asks in H as (mid & gone & -> & Hv) end.
  exists a0, (tr ++ mid), gone. split; [|exact Hv]. cbn [app]. rewrite <-!app_assoc. reflexivity.
Qed.

Lemma to_asks {R Out} sid command (receives : bool) (req : Arc ESME.t -> request (result SmppError R))
    (report : R -> Out) tr v :
  runs (found <-? esme_handle sid;
     let '(esme, response_timer) := (found : Arc ESME.t * Z) in
     if receives && negb (ESME.can_receive (get esme))
     then Ret (Err (RuntimeError (SessionCannotReceive sid command)))
     else
       resp <-? settle_on_esme esme response_timer sid command (trigger (Request (req esme)));
       Ret (Ok (report resp)))%async tr (Err (SmppSendError v)) -> asked_esme sid tr v.
Proof.
  intros Hr. unfold esme_handle in Hr. run_step. run_step. run_step. run_step. run_step.
  match goal with t : option (Arc ESME.t * Z) |- _ => destruct t as [[arc timer]|] end;
    cbn [ok_or] in *; [|by run_step].
  destruct (receives && _); [by run_step|].
  match goal with H : runs _ _ (Err (SmppSendError v)) |- _ => apply settle_asks in H as (mid & gone & -> & Hv) end.
  by eexists arc, timer, _, gone.
Qed.

Lemma bind_helper_asks name Out p tr v :
  bind_helper name Out p -> runs p tr (Err (SmppSendError v)) -> asked_bind name tr v.
Proof.
  intros Hp Hr. destruct Hp as [kw p Hok|kw p Hok|kw p Hok|kw p Hok|kw p Hok|kw p Hok];
    helper_body Hok.
  - exact (via_asks _ _ true (fun s => ReqSubmit s _) _ _ _ Hr).
  - exact (via_asks _ _ true (fun s => ReqSubmitMulti s _) _ _ _ Hr).
  - exact (via_asks _ _ true (fun s => ReqDataVia s _) _ _ _ Hr).
  - exact (via_asks _ _ false (fun s => ReqCancel s _) _ _ _ Hr).
  - exact (via_asks _ _ false (fun s => ReqQuery s _) _ _ _ Hr).
  - exact (via_asks _ _ false (fun s => ReqReplace s _) _ _ _ Hr).
Qed.

Lemma esme_helper_asks sid Out p tr v :
  esme_helper sid Out p -> runs p tr (Err (SmppSendError v)) -> asked_esme sid tr v.
Proof.
  intros Hp Hr. destruct Hp as [kw p Hok|kw p Hok]; helper_body Hok.
  - exact (to_asks _ _ true (fun e => ReqDeliver e _) _ _ _ Hr).
  - exact (to_asks _ _ false (fun e => ReqDataTo e _) _ _ _ Hr).
Qed.

(** Task [i] failed with [v] after it looked up a session [b], and the reason tells
    what became of it between the lookup and the question whether it is gone: it
    says closed only if an unbound callback acted for the session's id, and if one
    did, and none bound the id again, it does not say that the session is there but
    did not answer. *)
Definition told_truly {S} `{Registry S} (ts : list (Thread eff)) (h : Log) (i : nat)
    (looked_up : list S -> S -> Prop) (v : SendErrorValue) : Prop :=
  exists h1 asked h2 answered h3 b,
    h = h1 ++ asked :: h2 ++ answered :: h3 /\ en_task asked = i /\ en_task answered = i /\
    own i h1 = [] /\ own i h3 = [] /\ looked_up (reg (en_world asked)) b /\
    (se_reason v = "closed" ->
       exists c, leaves (S := S) c = Some (id_of b) /\ acted ts (h1 ++ [asked]) h2 c) /\
    (forall ha en hb c,
       h2 = ha ++ en :: hb -> ts !! en_task en = Some (callback_of conf c) ->
       acts_at ((h1 ++ [asked]) ++ ha) en = true ->
       joins (S := S) c = None -> leaves (S := S) c = Some (id_of b) ->
       (forall c', adds (S := S) (id_of b) c' -> ~ acted ts ((h1 ++ [asked]) ++ ha ++ [en]) hb c') ->
       se_reason v <> "unanswered").

Lemma reason_true {S} {Hreg : Registry S} {Hlaws : RegistryLaws S} t0 h H i X (e1 : eff X) x1 mid
    (e2 : eff bool) gone p (looked_up : list S -> S -> Prop) v :
  during (start (started t0)) h H -> own i h = Ev e1 x1 :: mid ++ [Ev e2 gone] ->
  readonly X e1 ->
  (forall w w', wstep w X e1 x1 w' -> exists b, looked_up (reg w) b /\ b ∈ reg w /\ handle b = p) ->
  (forall w w', wstep w bool e2 gone w' -> gone = absent p (reg w)) ->
  reason_says v gone -> told_truly (h_tasks H) h i looked_up v.
Proof.
  intros Hd Ho Hread Hlook Hgone [Hclosed Hunans].
  apply own_cons_inv in Ho as (h1 & asked & hr & -> & Hi1 & Hev1 & Ho1 & Ho).
  apply own_app_inv in Ho as (h2 & hr' & -> & _ & Ho).
  apply own_cons_inv in Ho as (h2' & answered & h3 & -> & Hi2 & Hev2 & _ & Ho3).
  apply during_at in Hd as (H1 & H2 & Hd1 & Hst1 & Hd2).
  pose proof (start_ok _ _ _ Hd1) as (Hok1 & Hf1 & El1).
  pose proof (hstep_run_inv _ _ _ _ _ _ Hst1) as (Hw1 & El2 & _ & Hwst). rewrite Hev1 in Hwst.
  destruct (Hlook _ _ Hwst) as (b & Hlb & Hb & Hp).
  assert (reg (world H2) = reg (en_world asked)) as Er.
  { unfold world. rewrite (reg_after _ _ _ _ _ Hwst). by apply reg_readonly. }
  assert (during H1 [asked] H2) as Hone.
  { rewrite <-(app_nil_r [asked]). eapply (during_step _ _ _ _ (Some asked)); [exact Hst1|constructor]. }
  pose proof (during_ok _ _ _ Hok1 Hone) as Hok2.
  pose proof (during_faithful _ _ _ _ _ _ Hf1 Hone) as Hf2. rewrite El1 in El2.
  rewrite app_assoc in Hd2. apply during_at in Hd2 as (H3 & H4 & Hd2 & Hst3 & Hd4).
  pose proof (hstep_run_inv _ _ _ _ _ _ Hst3) as (Hw3 & _ & Et3 & Hwst3). rewrite Hev2 in Hwst3.
  pose proof (Hgone _ _ Hwst3) as Hg. rewrite <-Hw3 in Hg. fold (world H3) in Hg.
  assert (h_tasks H3 `prefix_of` h_tasks H) as Hpre
    by (rewrite <-Et3; by apply during_log in Hd4 as [_ ?]).
  rewrite <-Er in Hb. exists h1, asked, (h2 ++ h2'), answered, h3, b.
  split; [by rewrite <-!app_assoc|]. do 3 (split; [done|]). split; [done|]. split; [done|].
  split.
  - intros Hr%Hclosed. rewrite Hr in Hg. symmetry in Hg. rewrite <-Hp in Hg.
    destruct (gone_dropped _ _ _ _ Hf2 Hd2 Hb Hg) as (c & Hc & ha & en & hb & Eh & Ht & Ha).
    exists c. split; [done|]. exists ha, en, hb. rewrite <-El2. split; [done|]. split; [|done].
    by eapply prefix_lookup_Some.
  - intros ha en hb c Eh Ht Ha Hj Hl Hno Hun%Hunans. rewrite <-El2 in Ha, Hno. rewrite Eh in Hd2.
    pose proof Hd2 as Hd2'. apply during_at in Hd2' as (H5 & H6 & Hd5 & Hst5 & Hd6).
    pose proof (during_faithful _ _ _ _ _ _ Hf2 Hd5) as Hf5.
    assert (h_tasks H3 !! en_task en = Some (callback_of conf c)) as Ht3.
    { apply during_log in Hd6 as [_ Hp6].
      destruct (entry_task _ _ _ _ _ Hf5 Hst5 (transitivity Hp6 Hpre) Ht) as [Ht6 _].
      by eapply prefix_lookup_Some. }
    assert (absent (handle b) (reg (world H3)) = true) as Habs.
    { apply (gone_since _ _ _ _ _ _ c Hok2 Hf2 Hd2 Hb Ht3 Ha Hj Hl). intros c' Hc' Hac.
      apply (Hno c' Hc'). destruct Hac as (k1 & en' & k2 & Ek & Htk & Hak). exists k1, en', k2.
      split; [done|]. split; [by eapply prefix_lookup_Some|done]. }
    rewrite Hp in Habs. congruence.
Qed.

(** C7: a script is told that its session was closed only when it was.  A helper
    that raises [SmppSendError] looked up a session, the first bound under the name
    or id it was given.  If the reason is closed, an unbound callback acted for that
    session's id after the lookup, before the helper asked whether the session was
    gone.  And if one did, and no bound callback brought the id back, the reason is
    not that the session is up but left the request unanswered.  Whatever else ran
    meanwhile, timeouts and other sends included, has no say in it. *)
Theorem closed_means_unbound t0 h H i v :
  during (start (started t0)) h H ->
  (forall name Out (p : task (result PyErr Out)),
     bind_helper name Out p -> h_tasks H !! i = Some (mkThread p) ->
     runs p (own i h) (Err (SmppSendError v)) ->
     told_truly (S := BindSession) (h_tasks H) h i (first_such (bound_as name)) v) /\
  (forall sid Out (p : task (result PyErr Out)),
     esme_helper sid Out p -> h_tasks H !! i = Some (mkThread p) ->
     runs p (own i h) (Err (SmppSendError v)) ->
     told_truly (S := EsmeSession) (h_tasks H) h i (first_such (bound_under sid)) v).
Proof.
  intros Hd. split; intros name Out p Hp _ Hr.
  - apply (bind_helper_asks _ _ _ _ _ Hp) in Hr as (t & mid & gone & Ho & Hv).
    eapply (reason_true (S := BindSession)); [exact Hd|exact Ho|done| |by intros w w' [_ ->]|exact Hv].
    intros w w' [_ E]. unfold reading in E. cbn [snd] in E.
    pose proof (find_bind_cases name (w_binds w)) as Hf. rewrite <-E in Hf.
    destruct Hf as (b & Hb & ->). exists b. split; [exact Hb|]. split; [by eapply first_such_in|done].
  - apply (esme_helper_asks _ _ _ _ _ Hp) in Hr as (arc & timer & mid & gone & Ho & Hv).
    eapply (reason_true (S := EsmeSession)); [exact Hd|exact Ho|done| |by intros w w' [_ ->]|exact Hv].
    intros w w' [_ E]. unfold reading in E. cbn [snd] in E.
    pose proof (find_esme_cases name (w_esmes w)) as Hf. rewrite <-E in Hf.
    destruct Hf as (b & Hb & [= -> ->]). exists b. split; [exact Hb|]. split; [by eapply first_such_in|done].
Qed.

End Sessions.

(** ** A session bound, used and unbound *)

Module SessionsExample.
#[local] Existing Instance Smpp34Example.codec.
#[local] Existing Instance Smpp34Example.codec_laws.
Import SystemExample.

#[local] Instance registry : Registry EsmeSession := esme_registry conf.
Abbreviation logged := (during wstep tick (service conf)).

(** Start a task and let it perform these effects. *)
Lemma spawn_alone {A} (p : task A) w pool tr w' p' ts log :
  service conf (mkThread p) -> alone wstep w p tr w' p' ->
  exists h, logged (mkHistory ts log (w, pool)) h
      (mkHistory (ts ++ [mkThread p]) (log ++ h) (w', pool ++ [mkThread p'])) /\
    en_event <$> h = tr /\ Forall (fun en => en_task en = length pool) h.
Proof.
  intros Hs Ha.
  destruct (during_alone wstep tick (service conf) _ _ _ _ _ (ts ++ [mkThread p]) pool [] Ha log)
    as (h & Hd & He & Ht).
  exists h. split; [|done]. by eapply (during_step _ _ _ _ None); [apply hstep_spawn|].
Qed.

Definition bound_task : task unit := on_esme_bound (state conf) esme "s1".

(** The bound callback has acted. *)
Lemma bound_logged : exists h (p : task unit),
  logged (start (started 0)) h (mkHistory [mkThread bound_task] h (after_bind, [mkThread p])) /\
  own 1 h = [].
Proof.
  destruct (spawn_alone bound_task (started 0) [] [Ev (NewLimiter (new_bucket 5)) 0%nat;
    Ev (NewEsme esme) (mkArc 1%nat esme); Ev (LockEsmes (fun l => (l ++ [session], tt))) tt]
    after_bind (Dispatch.session "bound" (Session.mk EsmeServer "s1" "acme" "10.0.0.1")) [] [])
    as (h & Hd & _ & Ht).
  { by apply (sv_callback conf (EsmeBound esme "s1")). }
  { do 3 performs. apply alone_refl. }
  exists h. eexists. split; [exact Hd|]. by apply (own_none 0).
Qed.

Definition after_unbind : World :=
  mkWorld [] [] {[0%nat := new_bucket 5 0]} ∅ {[1%nat := esme]} 0.

Lemma sessions_live_witness : exists H h H',
  world H = after_bind /\ world H' = after_unbind /\ own 1 h <> [] /\
  lives conf (S := EsmeSession) (h_tasks H') (h_log H) [session] h [].
Proof.
  destruct bound_logged as (h0 & p & H0 & _).
  destruct (spawn_alone (on_esme_unbound "s1") after_bind [mkThread p]
    [Ev (LockEsmes (esme_remove "s1")) (Some ("acme", "10.0.0.1"))] after_unbind
    (Dispatch.session "unbound" (Session.mk EsmeServer "s1" "acme" "10.0.0.1")) [mkThread bound_task] h0)
    as (h & Hd & He & Ht).
  { by apply (sv_callback conf (EsmeUnbound "s1")). }
  { performs. apply alone_refl. }
  eexists _, h, _. split; [|split; [|split; [|exact (proj2 (sessions_live conf _ _ _ _ _ H0 Hd))]]];
    [done|done|]. rewrite (own_all 1) by done. by rewrite He.
Defined.

Lemma unbinds : alone wstep after_bind (on_esme_unbound "s1")
  [Ev (LockEsmes (esme_remove "s1")) (Some ("acme", "10.0.0.1"))] after_unbind
  (Dispatch.session "unbound" (Session.mk EsmeServer "s1" "acme" "10.0.0.1")).
Proof. performs. apply alone_refl. Qed.

(** A task that does [tr1] while the session is bound, and [tr2] after it is not. *)
Lemma closing_logged {A} (p p1 p2 : task A) tr1 tr2 :
  service conf (mkThread p) -> alone wstep after_bind p tr1 after_bind p1 ->
  alone wstep after_unbind p1 tr2 after_unbind p2 ->
  exists h H, logged (start (started 0)) h H /\ h_tasks H !! 1%nat = Some (mkThread p) /\
    own 1 h = tr1 ++ tr2.
Proof.
  intros Hp Ha1 Ha2. destruct bound_logged as (h0 & q & H0 & T0).
  destruct (spawn_alone p _ [mkThread q] _ _ _ [mkThread bound_task] h0 Hp Ha1) as (h1 & H1 & E1 & T1).
  destruct (spawn_alone _ _ ([mkThread q] ++ [mkThread p1]) _ _ _
    ([mkThread bound_task] ++ [mkThread p]) (h0 ++ h1) (sv_callback conf (EsmeUnbound "s1") I) unbinds)
    as (h2 & H2 & _ & T2).
  destruct (during_alone wstep tick (service conf) _ _ _ _ _
    (([mkThread bound_task] ++ [mkThread p]) ++ [mkThread (on_esme_unbound "s1")]) [mkThread q]
    [mkThread (Dispatch.session "unbound" (Session.mk EsmeServer "s1" "acme" "10.0.0.1"))] Ha2
    ((h0 ++ h1) ++ h2)) as (h3 & H3 & E3 & T3).
  exists (h0 ++ h1 ++ h2 ++ h3). eexists. split; [|split; [|]].
  - eapply during_trans; [exact H0|]. eapply during_trans; [exact H1|].
    eapply during_trans; [exact H2|exact H3].
  - done.
  - rewrite !own_app, (own_all 1 h1), (own_none 2 1 h2), (own_all 1 h3), E1, E3 by done.
    by rewrite T0.
Qed.

Definition body : DataKw.t := DataKw.mk "s1" "1" "2" [] 1 1 1 1 "" 0 0 0 None.

(** A [data_sm] to the session fails; before its helper asks, the session is
    unbound. *)
Lemma closed_means_unbound_witness : exists p h ts v,
  data_to (Some (state conf)) body = Ok p /\ runs p (own 1 h) (Err (SmppSendError v)) /\
  se_reason v = "closed" /\
  told_truly conf (S := EsmeSession) ts h 1 (first_such (bound_under "s1")) v.
Proof.
  destruct (data_to (Some (state conf)) body) as [p|] eqn:E; [|discriminate E].
  assert (service conf (mkThread p)) as Hp by (by eapply sv_handler, hd_data_to).
  eassert (exists tr1 p1 tr2 v, alone wstep after_bind p tr1 after_bind p1 /\
    alone wstep after_unbind p1 tr2 after_unbind (Ret (Err (SmppSendError v))) /\
    runs p (tr1 ++ tr2) (Err (SmppSendError v)) /\ se_reason v = "closed") as (tr1 & p1 & tr2 & v & H1 & H2 & Hr & Hv).
  { injection E as <-. do 4 eexists. split; [|split; [|split]].
    - answers (Some (es_esme session, timer)). answers 0.
      answers (@Err SmppError data_sm_resp.t ESME_RSYSERR). answers 0. apply alone_refl.
    - answers true. apply alone_refl.
    - cbn [app]. do 5 (eexists _, _; split; [reflexivity|]). by split.
    - reflexivity. }
  destruct (closing_logged _ _ _ _ _ Hp H1 H2) as (h & H & Hd & Ht & Ho).
  exists p, h, (h_tasks H), v. rewrite Ho. split; [reflexivity|]. split; [exact Hr|]. split; [exact Hv|].
  rewrite <-Ho in Hr.
  exact (proj2 (closed_means_unbound conf conf_typed 0 h H 1 v Hd) "s1" _ p (eh_data conf body p E) Ht Hr).
Defined.

End SessionsExample.
