(* ===== verification/Caps.v ===== *)
(** * The configured caps, end to end

    [RateLimit.v] bounds what a limiter lets through; here the limiters are those
    of the sessions of a running gateway, and the messages those of its tasks.  In
    any stretch of an execution, a message that is handed on (an inbound one to the
    scripts, an outbound one to the peer) had a token of its session's limiter of
    its own, taken in that stretch; and the tokens taken are within the cap. *)

From Stdlib Require Import QArith Lqa.
From S2P Require Import Prelude RustStr Py Status Smpp34 Tlv Pdu Async Threads F64 RateLimit.
From S2P Require Import Effects Metrics Outcome Dispatch Runtime Inbound Config Yaml Sends Supervisor.
From S2P Require Import System Sessions.
#[local] Open Scope Z_scope.
#[local] Open Scope async_scope.

Abbreviation Entry := (entry (E := eff) (W := World)).

(** ** What a stretch did to a limiter *)

(** A section of the limiter [l], and whether there was a token for it. *)
Definition called (l : Limiter) (en : Entry) : bool :=
  match en_event en with Ev (LockBucket l' _) _ => (l' =? l)%nat | _ => false end.

Definition granted (l : Limiter) (en : Entry) : bool :=
  called l en &&
  match w_buckets (en_world en) !! l with
  | Some b => (try_acquire_section (w_clock (en_world en)) b).2
  | None => false
  end.

Definition calls (l : Limiter) (h : Log) : nat := length (List.filter (called l) h).
Definition grants (l : Limiter) (h : Log) : nat := length (List.filter (granted l) h).

(** In a stretch [h] of [elapsed] nanoseconds, no more tokens of [l] were taken
    than a cap of [cap] per second allows: a burst of it, its rate over the time, and
    the rounding of the bucket's arithmetic. *)
Definition within_cap (l : Limiter) (cap : Z) (h : Log) (elapsed : Z) : Prop :=
  (inject_Z (Z.of_nat (grants l h))
   <= inject_Z cap + inject_Z cap * secs elapsed * (1 + (1 # 1125899906842624))
      + inject_Z (Z.of_nat (calls l h)) * (inject_Z cap * (1 # 4503599627370496)))%Q.

(** The calls as [RateLimit.v] replays them. *)
Definition calls_on (l : Limiter) (h : Log) : list (call * Z) :=
  (fun en => (CTryAcquire, w_clock (en_world en))) <$> List.filter (called l) h.

Lemma calls_on_length l h : length (calls_on l h) = calls l h.
Proof. apply length_map. Qed.

Section Caps.
Context {codec : Smpp34} {codec_laws : Smpp34Laws} (conf : SmppConfig.t) (Hconf : config_typed conf).

Abbreviation history := (history (E := eff) (W := World)).
Abbreviation hstep := (hstep wstep tick (service conf)).
Abbreviation during := (during wstep tick (service conf)).
Abbreviation faithful := (faithful wstep (service conf)).
Abbreviation ok := (sys_ok (protocol conf) gain (world_ok conf) valid).

(** What one effect does to a limiter: a call at the current clock, or nothing. *)
Lemma wstep_limiter w k X (e : eff X) x w' l b i :
  protocol conf k X e -> wstep w X e x w' -> w_buckets w !! l = Some b ->
  w_clock w' = w_clock w /\
  w_buckets w' !! l = Some (if called l (mkEntry i w (Ev e x))
                            then (try_acquire_section (w_clock w) b).1 else b).
Proof.
  intros Hp Hw Hl. destruct e; cbn in Hw |- *; try (by subst w'; split); try (destruct Hw as [_ ->]; done);
    try (destruct Hw as [-> _]; done).
  - destruct Hw as (b' & Hl' & -> & _). split; [done|]. cbn. destruct (Nat.eqb_spec l0 l) as [->|Hne].
    + rewrite lookup_insert_eq. rewrite Hl in Hl'. injection Hl' as <-.
      by rewrite (bucket_section_try _ _ _ _ Hp).
    + by rewrite lookup_insert_ne.
  - by destruct Hw as (_ & _ & ->).
  - by destruct Hw as (_ & _ & ->).
  - destruct Hw as [Hn ->]. split; [done|]. cbn. by rewrite lookup_insert_ne by congruence.
Qed.

Lemma hstep_limiter H en H' l b :
  ok (h_state H) -> hstep H (Some en) H' -> w_buckets (world H) !! l = Some b ->
  w_clock (world H') = w_clock (world H) /\ w_clock (en_world en) = w_clock (world H) /\
  granted l en = called l en && (try_acquire_section (w_clock (world H)) b).2 /\
  w_buckets (world H') !! l = Some (if called l en then (try_acquire_section (w_clock (world H)) b).1 else b).
Proof.
  intros Hok Hst Hl. pose proof (hstep_sstep _ _ _ _ _ _ Hst) as Hss.
  destruct (sstep_ok _ _ _ _ _ _ _ (gateway_sound _ Hconf) _ _ _ Hok Hss) as [_ Ho].
  pose proof (hstep_run_inv _ _ _ _ _ _ Hst) as (Hw & _ & _ & Hwst). unfold world in *.
  destruct en as [i w ev]. cbn [fmap option_fmap option_map en_event en_world] in *. subst w.
  destruct ev as [X e x]. destruct Ho as (k & _ & Hp & _).
  destruct (wstep_limiter _ _ _ _ _ _ _ _ i Hp Hwst Hl) as [Hc Hb].
  split; [done|]. split; [done|]. split; [|exact Hb]. unfold granted. cbn [en_world]. by rewrite Hl.
Qed.

(** A stretch, seen from one limiter, is a history of [RateLimit.v]. *)
Lemma during_calls H h H' l b :
  ok (h_state H) -> during H h H' -> w_buckets (world H) !! l = Some b ->
  w_clock (world H) <= w_clock (world H') /\
  (run_calls b (calls_on l h)).2 = Z.of_nat (grants l h) /\
  clock_ok (w_clock (world H)) (calls_on l h) /\
  end_time (w_clock (world H)) (calls_on l h) <= w_clock (world H').
Proof.
  intros Hok Hd. revert b Hok. induction Hd as [H|H o H1 h H2 Hst Hd IH]; intros b Hok Hl; [done|].
  pose proof (hstep_sstep _ _ _ _ _ _ Hst) as Hss.
  destruct (sstep_ok _ _ _ _ _ _ _ (gateway_sound _ Hconf) _ _ _ Hok Hss) as [Hok1 Ho].
  destruct o as [en|]; cbn [option_list app].
  - change (option_list (Some en) ++ h) with (en :: h).
    destruct (hstep_limiter _ _ _ _ _ Hok Hst Hl) as (Hc & Hce & Hg & Hl1).
    specialize (IH _ Hok1 Hl1). unfold calls_on, grants in *. cbn [List.filter].
    rewrite Hg. rewrite Hc in IH.
    destruct (called l en); cbn [andb]; [|exact IH].
    rewrite fmap_cons, Hce. cbn [run_calls run_call end_time clock_ok].
    destruct (try_acquire_section _ b) as [b' g]. cbn [fst snd] in *.
    destruct (run_calls b' _) as [b'' n]. cbn [snd] in *. destruct IH as (? & -> & ? & ?).
    destruct g; cbn [Z.b2z length]; repeat split; try done; lia.
  - change (option_list (@None Entry) ++ h) with h.
    assert (w_buckets (world H1) !! l = Some b /\ w_clock (world H) <= w_clock (world H1)) as [Hl1 Hc].
    { unfold world. destruct Ho as [->|(t & Ht & ->)]; by split. }
    destruct (IH _ Hok1 Hl1) as (Hle & Hg & Hok' & He). split; [lia|]. split; [done|].
    destruct (calls_on l h) as [|[c now] cs]; cbn [clock_ok end_time] in *; [split; [done|lia]|]. split; [|done]. split; [lia|apply Hok'].
Qed.

Lemma secs_mono t t' : t <= t' -> (secs t <= secs t')%Q.
Proof. intros Ht. unfold secs, Qdiv. apply Qmult_le_compat_r; [by rewrite <-Zle_Qle|discriminate]. Qed.

Lemma during_within H h H' l b r :
  ok (h_state H) -> during H h H' -> w_buckets (world H) !! l = Some b -> bucket_wf r b ->
  within_cap l r h (w_clock (world H') - w_clock (world H)).
Proof.
  intros Hs Hd Hl Hwf. destruct (during_calls _ _ _ _ _ Hs Hd Hl) as (Hle & Hg & Hok & He).
  unfold within_cap. rewrite <-Hg, <-calls_on_length.
  destruct Hs as [Hw _]. destruct (wo_buckets _ _ Hw _ _ Hl) as [_ Hlast].
  assert (clock_ok (last b) (calls_on l h)) as Hc.
  { destruct (calls_on l h) as [|[c now] cs]; [done|]. destruct Hok. unfold world in *. split; [lia|done]. }
  pose proof (run_calls_window _ _ _ Hwf Hc) as Hb.
  assert (1 <= inject_Z r)%Q by (apply (inject_Z_le 1); destruct Hwf; lia).
  assert (secs (end_time (last b) (calls_on l h) - start_time (last b) (calls_on l h))
          <= secs (w_clock (world H') - w_clock (world H)))%Q as Hsec.
  { apply secs_mono. destruct (calls_on l h) as [|[c now] cs]; cbn in *; lia. }
  set (x := secs (end_time _ _ - _)) in *. set (y := secs (w_clock _ - _)) in *.
  assert (inject_Z r * x <= inject_Z r * y)%Q
    by (rewrite !(Qmult_comm (inject_Z r)); apply Qmult_le_compat_r; [exact Hsec|lra]).
  set (rx := (inject_Z r * x)%Q) in *. set (ry := (inject_Z r * y)%Q) in *. lra.
Qed.

(** ** A message and its token *)

(** An event that took a token of [l]. *)
Inductive took (l : Limiter) : event eff -> Prop :=
| took_acquire : took l (Ev (LockBucket l acquire_section) None)
| took_try : took l (Ev (LockBucket l try_acquire_section) true).

(** A message is handed on: to the scripts' executor, or to the peer. *)
Definition hands {X} (e : eff X) : bool :=
  match e with JobStart | Request _ => true | _ => false end.

(** Nothing is handed on before a token is taken. *)
Definition token_first (l : Limiter) (tr : trace eff) X (e : eff X) : Prop :=
  hands e = true -> exists ev, ev ∈ tr /\ took l ev.

Definition has_token (l : Limiter) (k : list (event eff)) : Prop := exists ev, ev ∈ k /\ took l ev.

Abbreviation follows l k p := (wp (allowed (token_first l)) (@recorded eff) k p).

Lemma follows_token {A} l k (p : task A) : has_token l k -> follows l k p (fun _ _ => True).
Proof.
  intros (ev & Hev & Ht). apply (wp_from _ _ (fun _ _ => True)).
  - induction p; cbn; auto.
  - intros k' X e Hk _ _. exists ev. split; [|done].
    apply list_elem_of_In. rewrite <-in_rev. by apply list_elem_of_In, Hk.
Qed.

Lemma follows_idle {A} l k (p : task A) :
  always (fun X e => hands e = false) p -> follows l k p (fun _ _ => True).
Proof.
  intros Hp. apply (wp_from _ _ _ _ _ Hp). intros k' X e _ He Hh. congruence.
Qed.

Lemma follows_acquire l k : follows l k (acquire l) (fun k' _ => has_token l k').
Proof.
  intros k' s _. split; [done|]. intros [wait|]; [by split|].
  eexists. split; [left|apply took_acquire].
Qed.

Lemma follows_pace l k : follows l k (pace (Some l)) (fun k' _ => has_token l k').
Proof.
  apply wp_bind. eapply wp_post; [apply follows_acquire|]. intros k' waited _ Ht.
  eapply wp_post; [by apply follows_token|]. intros k2 u Hk _. destruct Ht as (ev & Hev & Ht).
  exists ev. split; [by apply Hk|done].
Qed.

(** The message a task carries, by the limiters its session can have: the inbound
    requests that are gated, and the sends that are paced. *)
Definition inbound_limiter (sid : string) (w : World) (l : Limiter) : Prop :=
  exists e, first_such (bound_under sid) (w_esmes w) e /\ es_throttle e = Some l.
Definition outbound_limiter (name : string) (w : World) (l : Limiter) : Prop :=
  exists b, first_such (bound_as name) (w_binds w) b /\ bs_throttle b = Some l.

Inductive carries : Thread eff -> (World -> Limiter -> Prop) -> Prop :=
| carries_inbound i conn sid :
    gated i = true -> carries (mkThread (handle_inbound (state conf) i conn sid)) (inbound_limiter sid)
| carries_submit kw p :
    submit_via (Some (state conf)) kw = Ok p ->
    carries (mkThread p) (outbound_limiter (MessageKw.target kw))
| carries_submit_multi kw p :
    submit_multi_via (Some (state conf)) kw = Ok p ->
    carries (mkThread p) (outbound_limiter (MessageKw.target kw))
| carries_data kw p :
    data_via (Some (state conf)) kw = Ok p -> carries (mkThread p) (outbound_limiter (DataKw.target kw)).

(** Such a task first looks its session up, and then takes a token of the limiter
    it found before it hands the message on. *)
Definition token_of {A} (looks : World -> Limiter -> Prop) (p : task A) : Prop :=
  exists X (e : eff X) k, p = Vis e k /\
    forall w x w' l, wstep w X e x w' -> looks w l -> obeys (token_first l) [] (k x).

Lemma inbound_limiter_found sid w l :
  inbound_limiter sid w l <-> session_limiter sid (w_esmes w) = Some l.
Proof.
  unfold inbound_limiter, session_limiter, esme_is.
  pose proof (iter_find_cases (fun e => ESME.session_id (get (es_esme e)) = sid) (w_esmes w)) as Hf.
  destruct (iter_find _ (w_esmes w)) as [e'|]; (split; [intros (e & He & Hl)|intros Hl]).
  - by rewrite (first_such_unique _ _ _ _ Hf He).
  - by exists e'.
  - destruct (Hf e); [by eapply first_such_in|]. by destruct He as (l1 & l2 & _ & ? & _).
  - done.
Qed.

Lemma outbound_limiter_found name w l :
  outbound_limiter name w l -> exists t, find_bind name (w_binds w) = Some t /\ bt_throttle t = Some l.
Proof.
  intros (b & Hb & Hl). pose proof (find_bind_cases name (w_binds w)) as Hf.
  destruct (find_bind name (w_binds w)) as [t|].
  - destruct Hf as (b' & Hb' & ->). exists (mkBindTarget (bs_smsc b') (bs_throttle b') (bs_response_timer b')).
    split; [done|]. by rewrite (first_such_unique _ _ _ _ Hb' Hb).
  - destruct (Hf b); [by eapply first_such_in|]. by destruct Hb as (l1 & l2 & _ & ? & _).
Qed.

(** What [admit_inbound] does with a limiter it found: it lets through only what
    took a token. *)
Definition admit_found (l : Limiter) : task InboundAdmit :=
  match inbound_throttle_action (state conf) with
  | Pace => waited <- acquire l; (if waited : bool then record_throttled INBOUND else Ret tt) ;; Ret Proceed
  | Reject => granted <- try_acquire l;
              if granted : bool then Ret Proceed else record_throttled INBOUND ;; Ret Throttled
  end.

Lemma follows_admit l k :
  follows l k (admit_found l) (fun k' verdict => verdict = Throttled \/ has_token l k').
Proof.
  unfold admit_found. destruct (inbound_throttle_action _); apply wp_bind.
  - eapply wp_post; [apply follows_acquire|]. intros k1 waited _ (ev & Hev & Ht).
    apply wp_bind. eapply wp_post; [apply follows_token; by exists ev|].
    intros k2 u Hk _. right. exists ev. split; [by apply Hk|done].
  - split; [done|]. intros []; [right; eexists; split; [left|apply took_try]|].
    apply wp_bind. eapply wp_post; [apply follows_idle; by autounfold with metrics; always_tac|].
    intros k2 u _ _. by left.
Qed.

Lemma inbound_token i conn sid :
  gated i = true -> token_of (inbound_limiter sid) (handle_inbound (state conf) i conn sid).
Proof.
  intros Hi. destruct i; try discriminate Hi; cbn [handle_inbound];
    eexists _, _, _; (split; [reflexivity|]); intros w x w' l [_ ->] Hl%inbound_limiter_found;
    unfold reading; cbn [snd]; rewrite Hl; fold (admit_found l); unfold obeys;
    apply wp_bind, wp_bind; (eapply wp_post; [apply follows_admit|]);
    intros k' [] _ Hv; (eapply wp_post; [|done]);
    (destruct Hv as [Hv|Ht]; [try discriminate Hv|by apply follows_token]);
    apply follows_idle; by autounfold with metrics; always_tac.
Qed.

Lemma paced_token {A} name (rest : BindTarget -> task (result PyErr A)) :
  token_of (outbound_limiter name) (target <-? bind_handle name; pace (bt_throttle target) ;; rest target).
Proof.
  eexists _, _, _. split; [reflexivity|]. intros w x w' l [_ ->] (t & Ht & Hl)%outbound_limiter_found.
  unfold reading. cbn [snd Async.bind]. rewrite Ht. cbn [ok_or]. rewrite Hl.
  apply wp_bind. eapply wp_post; [apply follows_pace|]. intros k' u _ Htok. by apply follows_token.
Qed.

Lemma carries_token t looks : carries t looks -> token_of looks (th_prog t).
Proof.
  intros Hc. destruct Hc as [i conn sid Hi|kw p Hok|kw p Hok|kw p Hok]; cbn [th_prog];
    [by apply inbound_token|helper_body Hok; apply paced_token..].
Qed.

(** The message of task [j] was handed on in the stretch [h] after [log], on the
    limiter [l]: it looked its session up there, as the first thing it did, when the
    first session of that id or name had the limiter [l]. *)
Definition passed (ts : list (Thread eff)) (log h : Log) (l : Limiter) (j : nat) : Prop :=
  exists t looks h1 en h2 X (e : eff X) x,
    ts !! j = Some t /\ carries t looks /\
    h = h1 ++ en :: h2 /\ en_task en = j /\ own j (log ++ h1) = [] /\ looks (en_world en) l /\
    Ev e x ∈ own j h2 /\ hands e = true.

Lemma took_granted H en l :
  faithful H -> en ∈ h_log H -> took l (en_event en) -> granted l en = true.
Proof.
  intros Hf Hin Ht. pose proof (fa_answers _ _ _ Hf) as Ha. rewrite list.Forall_forall in Ha.
  destruct (Ha en Hin) as (w' & Hw). unfold granted, called.
  destruct Ht; destruct Hw as (b & Hl & _ & Hx); rewrite Nat.eqb_refl, Hl; cbn [andb];
    [by rewrite acquire_try; cbn [snd]; rewrite <-Hx|by rewrite <-Hx].
Qed.

(** It has a token of its own, taken in that stretch. *)
Lemma passed_token H l j log h :
  faithful H -> h_log H = log ++ h -> passed (h_tasks H) log h l j ->
  exists en, en ∈ h /\ en_task en = j /\ granted l en = true.
Proof.
  intros Hf El (t & looks & h1 & en & h2 & X & e & x & Ht & Hc & -> & Hj & Hfirst & Hl & Hin & Hh).
  apply carries_token in Hc as (Y & look & k & Ep & Hob).
  destruct (fa_own _ _ _ Hf j t Ht) as (t' & _ & q & _ & Hs).
  assert (own j (h_log H) = en_event en :: own j h2) as Eo.
  { rewrite El, app_assoc, own_app, Hfirst. change (en :: h2) with ([en] ++ h2). rewrite own_app.
    destruct en as [i w ev]. cbn in Hj. subst i. by rewrite own_same. }
  rewrite Eo, Ep in Hs. apply steps_vis_inv in Hs as (y & Ey & Hs).
  pose proof (fa_answers _ _ _ Hf) as Ha. rewrite list.Forall_forall in Ha.
  destruct (Ha en) as (w' & Hw); [rewrite El; set_solver|]. rewrite Ey in Hw.
  apply list_elem_of_split in Hin as (tr1 & tr2 & Et). rewrite Et in Hs.
  apply steps_split in Hs as (p1 & p2 & Hs1 & Hst & _).
  destruct (obeys_next _ _ _ _ _ _ _ _ _ (Hob _ _ _ _ Hw Hl) Hs1 Hst Hh) as (ev & Hev & Htook).
  assert (ev ∈ own j h2) as (en' & Hen' & Hj' & <-)%elem_of_own by (rewrite Et; set_solver).
  exists en'. split; [set_solver|]. split; [done|]. apply (took_granted H); [done| |done].
  rewrite El. set_solver.
Qed.

(** So as many messages as one likes, each with a different task, are no more than
    the tokens. *)
Lemma passed_grants H l log h js :
  faithful H -> h_log H = log ++ h -> NoDup js -> (forall j, j ∈ js -> passed (h_tasks H) log h l j) ->
  (length js <= grants l h)%nat.
Proof.
  intros Hf El Hnd Hall. unfold grants. rewrite <-(length_map en_task (List.filter (granted l) h)).
  apply List.NoDup_incl_length; [by apply NoDup_ListNoDup|]. intros j Hj%list_elem_of_In.
  destruct (passed_token _ _ _ _ _ Hf El (Hall j Hj)) as (en & Hin & <- & Hg).
  apply List.in_map, List.filter_In. split; [by apply list_elem_of_In|done].
Qed.

(** C3: the configured caps hold end to end, whatever the tasks do and however they
    interleave.  Take any moment of an execution, a session of either registry then,
    and what happens from then on.  If its cap is zero it has no limiter.  Otherwise
    the tokens taken of its limiter are within the cap, [server.max_msg_per_sec] for
    a session that bound to us and the bind's [max_msg_per_sec] for one of ours; and
    no more messages are handed on for the session, to the scripts or to the peer,
    than tokens are taken: each of those requests and sends has one of its own. *)
Theorem caps_hold t0 h0 H h H' :
  during (start (started t0)) h0 H -> during H h H' ->
  let capped (throttle : option Limiter) (cap : Z) :=
    match throttle with
    | Some l =>
        within_cap l cap h (w_clock (world H') - w_clock (world H)) /\
        forall js, NoDup js -> (forall j, j ∈ js -> passed (h_tasks H') h0 h l j) ->
          (length js <= grants l h)%nat
    | None => cap <= 0
    end in
  (forall e, e ∈ w_esmes (world H) ->
     capped (es_throttle e) (ServerConfig.max_msg_per_sec (SmppConfig.server conf))) /\
  (forall c, c ∈ w_binds (world H) -> exists b, b ∈ SmppConfig.binds conf /\
     bs_name c = BindConfig.name b /\ capped (bs_throttle c) (BindConfig.max_msg_per_sec b)).
Proof.
  intros H0 Hd capped. destruct (start_ok _ Hconf _ _ _ H0) as (Hok & Hf & El).
  pose proof (during_faithful _ _ _ _ _ _ Hf Hd) as Hf'.
  pose proof (proj1 (during_log _ _ _ _ _ _ Hd)) as El'. rewrite El in El'.
  assert (forall t cap, throttled_at (world H) t cap -> capped t cap) as Hcap.
  { intros [l|] cap Ht; [|exact Ht]. destruct Ht as (_ & b & Hl & Hwf).
    split; [by eapply during_within|]. intros js Hnd Hall. by eapply passed_grants. }
  destruct (proj1 Hok) as [_ Hbi Hes]. rewrite list.Forall_forall in Hbi. rewrite list.Forall_forall in Hes.
  split.
  - intros e He. destruct (Hes e He) as [_ Ht _]. by apply Hcap.
  - intros c Hc. destruct (Hbi c Hc) as [(b & Hb & Hn & _ & Ht) _]. exists b.
    split; [done|]. split; [done|]. by apply Hcap.
Qed.

End Caps.

(** ** A message of a capped session *)

Module CapsExample.
#[local] Existing Instance Smpp34Example.codec.
#[local] Existing Instance Smpp34Example.codec_laws.
Import SystemExample SessionsExample.

Definition request : task Z :=
  handle_inbound (state conf) (InSubmit (submit_pdu SendsExample.kw [])) example_conn "s1".

(** It takes a token and reaches the scripts. *)
Lemma request_alone : exists tr w' p',
  alone wstep after_bind request (Ev (LockEsmes (reading (session_limiter "s1"))) (Some 0%nat) :: tr) w' p' /\
  Ev JobStart None ∈ tr /\ w_clock w' = 0.
Proof.
  do 3 eexists. split.
  - eapply alone_run; [cbn; repeat split|]. eapply alone_turn; [cbn; by split|]. cbn.
    eapply (alone_run _ _ _ _ _ None); [cbn; eexists; repeat split|]. cbn.
    performs. answers false. answers (@None JobFailure). apply alone_refl.
  - split; [|done]. do 3 right. left.
Qed.

Lemma caps_hold_witness : exists h0 h ts,
  passed conf ts h0 h 0%nat 1 /\ within_cap 0%nat 5 h 0 /\ (1 <= grants 0%nat h)%nat.
Proof.
  destruct bound_logged as (h0 & q & H0 & T0). destruct request_alone as (tr & w' & p' & Ha & Hj & Hc).
  assert (handler conf (mkThread request)) as Hh by apply hd_inbound.
  destruct (spawn_alone request _ [mkThread q] _ _ _ [mkThread bound_task] h0 (sv_handler conf _ Hh) Ha)
    as (h & Hd & E & T).
  pose proof (own_all 1 h T) as Ho. rewrite E in Ho.
  destruct (own_cons_inv _ _ _ _ Ho) as (h1 & en & h2 & Eh & Hi & Hev & Ho1 & Ho2).
  assert (passed conf ([mkThread bound_task] ++ [mkThread request]) h0 h 0%nat 1) as Hpassed.
  { do 5 eexists. exists _, JobStart, None. split; [reflexivity|]. split; [by apply carries_inbound|].
    split; [exact Eh|]. split; [exact Hi|]. split; [by rewrite own_app, T0|]. split; [|by rewrite Ho2].
    apply inbound_limiter_found. rewrite Eh in Hd. apply during_at in Hd as (H1 & H2 & _ & Hst & _).
    apply hstep_run_inv in Hst as (_ & _ & _ & Hw). rewrite Hev in Hw. symmetry. apply Hw. }
  exists h0, h, ([mkThread bound_task] ++ [mkThread request]). split; [exact Hpassed|].
  destruct (proj1 (caps_hold conf conf_typed 0 _ _ _ _ H0 Hd) session ltac:(left)) as [Hcap Hmsgs].
  unfold world in Hcap. cbn [h_state fst] in Hcap. rewrite Hc in Hcap. split; [exact Hcap|].
  apply (Hmsgs [1%nat]); [apply NoDup_singleton|]. by intros j ->%list_elem_of_singleton.
Defined.

End CapsExample.
