(* ===== verification/Progress.v ===== *)
(** * Every request is served to its end

    The theorems about what a task does ([Inbound], [Sends]) are about its
    finished runs.  Here a task runs among the others of a reachable state: before
    each of its effects, and while it sleeps, they run on as they please; peers,
    scripts and the host answer what they please, or never.  The task never goes
    on forever, and the only place it can stop at is an effect whose answer the
    outside withholds; if the outside answers, it returns.  This takes that others
    use each limiter finitely often meanwhile: under an overload that never ends a
    paced message may wait for ever.  Only the loops that are meant to run as long
    as the program do not return; of the supervisors', each turn does, once its
    client is dead. *)

From stdpp Require Import relations.
From S2P Require Import Prelude RustStr Py Status Smpp34 Tlv Pdu Async Threads Returns.
From S2P Require Import F64 RateLimit Effects Metrics Outcome Dispatch Runtime Inbound.
From S2P Require Import Config Yaml Sends Supervisor System.
#[local] Open Scope Z_scope.
#[local] Open Scope async_scope.

(** ** One task among the others *)

(** The state of the system without the task; how many more times the others
    use each limiter, and the task's client, if it has one, is found alive; how
    often the task has slept. *)
Record Env : Type := mkEnv {
  e_sys : sys (E := eff) (W := World);
  e_uses : Limiter -> nat;
  e_alive : nat;
  e_slept : nat;
}.

Definition here (a : Env) : World := (e_sys a).1.

Definition is_use (l : Limiter) (ev : event eff) : bool :=
  match ev with
  | Ev (LockBucket l' _) _ => (l' =? l)%nat
  | _ => false
  end.
Definition uses (l : Limiter) (tr : trace eff) : nat := length (List.filter (is_use l) tr).

Section Around.
Context `{!Smpp34, !Smpp34Laws} (conf : SmppConfig.t).
(** Who outside never answers, and when: a Python call that loops, a peer that
    does not respond. *)
Context (silent : Env -> forall X, eff X -> Prop).

Abbreviation running := (exec wstep tick (service conf)).

Definition others (a a' : Env) : Prop :=
  exists tr, running (e_sys a) tr (e_sys a') /\ e_slept a' = e_slept a /\ e_alive a' = e_alive a /\
    forall l, e_uses a l = (uses l tr + e_uses a' l)%nat.

(** The task's own effect.  A sleep is over at some clock past its deadline, and
    the others run meanwhile; a client is found alive so many times. *)
Definition own (a : Env) X (e : eff X) : X -> Env -> Prop :=
  match e in eff X return X -> Env -> Prop with
  | Sleep ns => fun _ a' => exists a1, others a a1 /\ w_clock (here a) + ns < w_clock (here a1) /\
      a' = mkEnv (e_sys a1) (e_uses a1) (e_alive a1) (S (e_slept a1))
  | ClientAlive => fun alive a' => exists n, e_alive a = (Nat.b2n alive + n)%nat /\
      a' = mkEnv (e_sys a) (e_uses a) n (e_slept a)
  | e => fun x a' => exists w', wstep (here a) _ e x w' /\
      a' = mkEnv (w', (e_sys a).2) (e_uses a) (e_alive a) (e_slept a)
  end.

Definition among (a : Env) X (e : eff X) (x : X) (a' : Env) : Prop :=
  exists a1, others a a1 /\ ~ silent a1 X e /\ own a1 X e x a'.

(** ** What the others leave *)

Lemma others_refl a : others a a.
Proof. exists []. split; [constructor|]. by split. Qed.

Lemma others_trans a a1 a2 : others a a1 -> others a1 a2 -> others a a2.
Proof.
  intros (tr1 & H1 & E1 & A1 & U1) (tr2 & H2 & E2 & A2 & U2). exists (tr1 ++ tr2).
  split; [by eapply exec_trans|]. split; [congruence|]. split; [congruence|]. intros l. unfold uses.
  rewrite filter_app, length_app. specialize (U1 l). specialize (U2 l). unfold uses in *. lia.
Qed.

Lemma others_uses a a' l : others a a' -> (e_uses a' l <= e_uses a l)%nat.
Proof. intros (tr & _ & _ & _ & U). rewrite (U l). lia. Qed.

Lemma others_slept a a' : others a a' -> e_slept a' = e_slept a.
Proof. by intros (tr & _ & -> & _). Qed.

Lemma others_alive a a' : others a a' -> e_alive a' = e_alive a.
Proof. by intros (tr & _ & _ & -> & _). Qed.

Lemma wstep_clock w X (e : eff X) x w' : wstep w X e x w' -> w_clock w' = w_clock w.
Proof. destruct e; cbn; naive_solver. Qed.

Lemma running_clock s tr s' : running s tr s' -> w_clock s.1 <= w_clock s'.1.
Proof.
  induction 1 as [s|s o s1 tr s2 Hst _ IH]; [done|]. etrans; [|exact IH].
  destruct Hst as [w pool i A p p' X e x w' _ _ Hw| | |w pool w' (t & Ht & ->)]; cbn; try done.
  by rewrite (wstep_clock _ _ _ _ _ Hw).
Qed.

Lemma others_clock a a' : others a a' -> w_clock (here a) <= w_clock (here a').
Proof. intros (tr & Hr & _). by eapply running_clock. Qed.

(** A limiter nobody uses keeps its bucket. *)
Lemma wstep_unused w X (e : eff X) x w' l b :
  wstep w X e x w' -> is_use l (Ev e x) = false -> w_buckets w !! l = Some b -> w_buckets w' !! l = Some b.
Proof.
  destruct e; cbn; try naive_solver.
  - intros (b' & _ & -> & _) Hne%Nat.eqb_neq Hl. cbn. by rewrite lookup_insert_ne.
  - intros (Hn & ->) _ Hl. cbn. rewrite lookup_insert_ne; [done|]. congruence.
Qed.

Lemma running_unused s tr s' l b :
  running s tr s' -> uses l tr = 0%nat -> w_buckets s.1 !! l = Some b -> w_buckets s'.1 !! l = Some b.
Proof.
  induction 1 as [s|s o s1 tr s2 Hst _ IH]; [done|]. unfold uses. rewrite filter_app, length_app.
  intros Hu Hl. apply IH; [unfold uses; lia|].
  destruct Hst as [w pool i A p p' X e x w' _ _ Hw| | |w pool w' (t & Ht & ->)]; cbn; try done.
  eapply wstep_unused; [exact Hw| |exact Hl]. cbn [events_of List.filter] in Hu.
  destruct (is_use l (Ev e x)); [cbn in Hu; lia|done].
Qed.

Lemma others_unused a a' l b :
  others a a' -> e_uses a' l = e_uses a l ->
  w_buckets (here a) !! l = Some b -> w_buckets (here a') !! l = Some b.
Proof. intros (tr & Hr & _ & _ & U) E. eapply running_unused; [exact Hr|]. specialize (U l). lia. Qed.

(** ** The invariant around a task *)

Context (Hconf : config_typed conf).
(** The effects the outside may leave without an answer. *)
Context (waits : forall X, eff X -> bool) (Hsilent : forall a X e, silent a X e -> waits X e = true).

Definition env_ok (a : Env) : Prop := sys_ok (protocol conf) gain (world_ok conf) valid (e_sys a).
Definition holds (k : list fact) (a : Env) : Prop := forall f, f ∈ k -> valid (here a) f.

Lemma others_ok a a' :
  env_ok a -> others a a' -> env_ok a' /\ forall f, valid (here a) f -> valid (here a') f.
Proof.
  intros Ha (tr & Hr & _). split.
  - by destruct (exec_ok _ _ _ _ _ _ _ (gateway_sound _ Hconf) _ _ _ Ha Hr).
  - intros f. by eapply exec_valid; [apply (gateway_sound _ Hconf)|..].
Qed.

(** The effects that are answered whatever the state: neither a limiter's section
    nor one of those nothing answers. *)
Definition open X (e : eff X) : Prop :=
  match e with LockBucket _ _ | Park | Panic => False | _ => True end.

Lemma sleep_over a ns : exists a', own a unit (Sleep ns) tt a'.
Proof.
  destruct a as [[w pool] u m n].
  eexists _, (mkEnv (with_clock w (w_clock w + Z.max 0 ns + 1), pool) u m n).
  split; [exists []|split; [cbn; lia|done]]. split; [|by split].
  eapply exec_tick; [|constructor]. exists (w_clock w + Z.max 0 ns + 1). split; [lia|done].
Qed.

#[local] Instance result_inhabited {E A} `{Inhabited E} : Inhabited (result E A) := populate (Err inhabitant).
#[local] Instance received_inhabited {A} : Inhabited (Received A) := populate RecvDropped.
#[local] Instance string_inhabited : Inhabited string := populate "".
#[local] Instance status_inhabited : Inhabited SmppError := populate ESME_ROK.

Lemma answer_inhabited R : request R -> Inhabited R.
Proof. intros r. destruct r; apply _. Qed.

Lemma gmap_has_room {V} (m : gmap nat V) : exists p, m !! p = None.
Proof. exists (fresh (dom m)). apply not_elem_of_dom, is_fresh. Qed.

Lemma open_answer a X (e : eff X) : open X e -> exists x a', own a X e x a'.
Proof.
  destruct e; intros Ho; try done; cbn [own wstep]; try (exists inhabitant; by eexists _, _).
  - by eexists _, _, _.
  - by eexists _, _, _.
  - destruct (gmap_has_room (w_smscs (here a))) as [p Hp]. by exists (mkArc p s); eexists _, _.
  - destruct (gmap_has_room (w_arcs (here a))) as [p Hp]. by exists (mkArc p e); eexists _, _.
  - destruct (gmap_has_room (w_buckets (here a))) as [p Hp]. by exists p; eexists _, _.
  - by eexists _, _, _.
  - exists tt. apply sleep_over.
  - destruct (answer_inhabited _ r) as [x]. by exists x; eexists _, _.
  - by exists false; eexists _, _.
Qed.

(** The task's own effects keep the invariant too, as the protocol is followed. *)
Lemma own_ok a k X (e : eff X) x a' :
  env_ok a -> holds k a -> protocol conf k X e -> own a X e x a' ->
  env_ok a' /\ holds (gain X e x ++ k) a' /\ (forall f, valid (here a) f -> valid (here a') f) /\
  exists w, world_ok conf w /\ wstep w X e x (here a').
Proof.
  intros Ha Hk Hp Ho.
  assert (match e with Sleep _ | ClientAlive => True | _ =>
     forall w', wstep (here a) X e x w' ->
     a' = mkEnv (w', (e_sys a).2) (e_uses a) (e_alive a) (e_slept a) ->
     env_ok a' /\ holds (gain X e x ++ k) a' /\ (forall f, valid (here a) f -> valid (here a') f) /\
     exists w, world_ok conf w /\ wstep w X e x (here a') end) as Hstep.
  { destruct e; try exact I; intros w' Hw ->.
    all: destruct (wstep_ok conf Hconf _ _ _ _ _ _ (proj1 Ha) Hk Hp Hw) as (Hw' & Hv & Hg).
    all: split; [split; [exact Hw'|eapply pool_mono; [exact Hv|apply Ha]]|].
    all: split; [intros f' [?|?]%elem_of_app; [by apply Hg|by apply Hv, Hk]|].
    all: split; [exact Hv|exists (here a); split; [apply Ha|exact Hw]]. }
  destruct e; try (destruct Ho as (w' & Hw & E); exact (Hstep w' Hw E)); cycle 1.
  { destruct Ho as (n & _ & ->). split; [exact Ha|]. split; [exact Hk|]. split; [done|].
    exists (here a). split; [apply Ha|done]. }
  destruct Ho as (a1 & Hoth & _ & ->). destruct (others_ok _ _ Ha Hoth) as [[Hw1 Hp1] Hv].
  split; [by split|]. split; [intros f' [[]%elem_of_nil|?]%elem_of_app; by apply Hv, Hk|].
  split; [exact Hv|]. by exists (here a1).
Qed.

(** ** Proving that a task ends *)

Lemma among_answer a X (e : eff X) :
  (exists x a', own a X e x a') -> waits X e = true \/ exists x a', among a X e x a'.
Proof.
  intros (x & a' & Hx). destruct (waits X e) eqn:E; [by left|right]. exists x, a', a.
  split; [apply others_refl|]. split; [|done]. intros Hs%Hsilent. congruence.
Qed.

(** An allowed effect is answered, or waited for, and what comes of it. *)
Lemma open_vis k a X (e : eff X) :
  env_ok a -> holds k a -> protocol conf k X e -> open X e ->
  (waits X e = true \/ exists x a', among a X e x a') /\
  forall x a', among a X e x a' ->
    env_ok a' /\ holds (gain X e x ++ k) a' /\ exists w, world_ok conf w /\ wstep w X e x (here a').
Proof.
  intros Ha Hk Hp Ho. split; [by apply among_answer, open_answer|].
  intros x a' (a1 & Hoth & _ & Hown). destruct (others_ok _ _ Ha Hoth) as [Ha1 Hv].
  destruct (own_ok a1 k X e x a') as (Ha' & Hk' & _ & w & Hw & Hs);
    [done|intros f Hf; by apply Hv, Hk|done|done|]. eauto.
Qed.

Lemma ends_vis {A} k a X (e : eff X) (c : X -> task A) Q :
  env_ok a -> holds k a -> protocol conf k X e -> open X e ->
  (forall a' x w, env_ok a' -> holds (gain X e x ++ k) a' -> world_ok conf w ->
     wstep w X e x (here a') -> ends among waits (c x) Q a') ->
  ends among waits (Vis e c) Q a.
Proof.
  intros Ha Hk Hp Ho Hc. destruct (open_vis k a X e Ha Hk Hp Ho) as [Hx Hall]. split; [exact Hx|].
  intros x a' (Ha' & Hk' & w & Hw & Hs)%Hall. by eapply Hc.
Qed.

(** Whatever the state around it, the task ends. *)
Definition ok {A} (p : task A) : Prop := forall a, env_ok a -> ends among waits p (fun a' _ => env_ok a') a.

(** Effects that need no knowledge and are always answered. *)
Definition plain X (e : eff X) : Prop := calm conf X e /\ open X e.

Lemma ok_ret {A} (x : A) : ok (Ret x).
Proof. by intros a Ha. Qed.

Lemma ok_vis {A X} (e : eff X) (c : X -> task A) : plain X e -> (forall x, ok (c x)) -> ok (Vis e c).
Proof.
  intros [Hcalm Ho] Hc a Ha. apply (ends_vis []); [done|by intros f ?%elem_of_nil|apply Hcalm|done|].
  intros a' x w Ha' _ _ _. by apply Hc.
Qed.

Lemma ok_trigger {X} (e : eff X) : plain X e -> ok (trigger e).
Proof. intros He. apply ok_vis; [done|]. intros x. apply ok_ret. Qed.

Lemma ok_bind {A B} (p : task A) (f : A -> task B) : ok p -> (forall x, ok (f x)) -> ok (Async.bind f p).
Proof.
  intros Hp Hf a Ha. apply ends_bind. eapply ends_post; [by apply Hp|]. intros a' x Ha'. by apply Hf.
Qed.

Create HintDb flows.
#[local] Hint Resolve calm_reading_binds calm_reading_esmes : flows.
#[local] Hint Extern 3 (calm _ _ _) =>
  (split; [intros ?; cbn; first [exact I | reflexivity | split; reflexivity]|split; intros ?; reflexivity]) : flows.
#[local] Hint Extern 2 (plain _ _) => (split; [|exact I]) : flows.

Ltac ok_tac :=
  autounfold with metrics;
  repeat match goal with
    | |- ok (Async.bind _ _) => apply ok_bind
    | |- ok (try _ _) => unfold try
    | |- ok (trigger _) => apply ok_trigger
    | |- ok (Ret _) => apply ok_ret
    | |- ok (Vis _ _) => apply ok_vis
    | |- ok (match ?x with _ => _ end) => destruct x
    | |- forall _, _ => intros
    end; auto with flows nocore.

(** *** Running handlers *)

Lemma ok_settle_started {T} (convert : PyVal -> T) s : ok (settle_started convert s).
Proof. unfold settle_started. ok_tac. Qed.

Lemma ok_call_with {T} h x s (convert : PyVal -> T) : ok (call_with h x s convert).
Proof. unfold call_with, arguments, invoke, submit_coroutine. ok_tac. Qed.

Lemma ok_on_executor {T} (job : task T) : ok job -> ok (on_executor job).
Proof. intros Hj. unfold on_executor. ok_tac. Qed.
#[local] Hint Resolve ok_settle_started ok_call_with ok_on_executor : flows.

Lemma ok_event {T} kind wanted x s (convert : PyVal -> T) : ok (run_event kind wanted x s convert).
Proof.
  unfold run_event, first_matching. apply ok_bind; [apply ok_on_executor|]; ok_tac.
Qed.

Lemma ok_dispatch_bind b : ok (Dispatch.bind b).
Proof. unfold Dispatch.bind, first_matching. apply ok_bind; [apply ok_on_executor|]; ok_tac. Qed.

Lemma ok_pdu command p s : ok (Dispatch.pdu command p s).
Proof. apply ok_event. Qed.

Lemma ok_alert x s : ok (Dispatch.alert x s).
Proof. unfold Dispatch.alert. apply ok_bind; [apply ok_event|]; ok_tac. Qed.
#[local] Hint Resolve ok_event ok_dispatch_bind ok_pdu ok_alert : flows.

Lemma ok_dispatch_opt command p s : ok (dispatch_pdu_opt command p s).
Proof. unfold dispatch_pdu_opt. ok_tac. Qed.
#[local] Hint Resolve ok_dispatch_opt : flows.

Lemma ok_dispatch command p s : ok (dispatch_pdu command p s).
Proof. unfold dispatch_pdu. ok_tac. Qed.
#[local] Hint Resolve ok_dispatch : flows.

(** What is left of a session event's handlers. *)
Definition left_to_run (r : result DispatchError SessionStep) : nat :=
  match r with
  | Ok (Awaiting _ remaining) => S (length remaining)
  | _ => 0
  end.

Lemma run_session_shrinks s l a :
  env_ok a ->
  ends among waits (run_session s l)
    (fun a' step => env_ok a' /\ (left_to_run (Ok step) <= length l)%nat) a.
Proof.
  revert a. induction l as [|h l IH]; intros a Ha; cbn [run_session]; [by split|].
  apply ends_bind. eapply ends_post; [by apply ok_call_with|]. intros a1 [r|timeout] Ha1.
  - eapply ends_post; [by apply IH|]. cbn [length]. intros a2 step [? ?]. split; [done|lia].
  - split; [done|]. cbn. lia.
Qed.

Lemma ends_on_executor {T} (job : task T) (R : T -> Prop) a :
  env_ok a -> (forall a', env_ok a' -> ends among waits job (fun a2 x => env_ok a2 /\ R x) a') ->
  ends among waits (on_executor job) (fun a' r => env_ok a' /\ forall x, r = Ok x -> R x) a.
Proof.
  intros Ha Hj. unfold on_executor. apply ends_bind.
  eapply ends_post; [by apply ok_trigger; auto with flows nocore|]. intros a1 [p|] Ha1; [by split|].
  apply ends_bind. eapply ends_post; [by apply Hj|]. intros a2 x [Ha2 HR].
  apply ends_bind. eapply ends_post; [by apply ok_trigger; auto with flows nocore|].
  intros a3 [p|] Ha3; (split; [done|]); [done|]. by intros y [= <-].
Qed.

Lemma ok_session event s : ok (Dispatch.session event s).
Proof.
  intros a Ha. unfold Dispatch.session. apply ends_bind. eapply ends_post.
  { apply ok_on_executor; [|exact Ha]. apply ok_bind; [ok_tac|]. intros l a' Ha'.
    eapply ends_post; [by apply run_session_shrinks|]. by intros ? ? [? _]. }
  intros a1 step Ha1.
  apply (ends_iter among waits (fun n st a' => env_ok a' /\ n = left_to_run st) _ _ _ (left_to_run step));
    [|done].
  intros n st a2 [Ha2 ->]. destruct st as [[|p l]|e]; [done| |done].
  apply ends_bind. eapply ends_post; [by apply ok_settle_started|]. intros a3 r Ha3.
  apply ends_bind. eapply ends_post.
  { apply (ends_on_executor _ (fun step => (left_to_run (Ok step) <= length l)%nat)); [done|].
    intros a' Ha'. by apply run_session_shrinks. }
  intros a4 st [Ha4 Hle]. exists (left_to_run st). split; [|done]. cbn [left_to_run].
  destruct st as [st|e]; [specialize (Hle st eq_refl); lia|cbn; lia].
Qed.
#[local] Hint Resolve ok_session : flows.

(** *** Waiting for a limiter *)

(** A limiter some session was given. *)
Definition limited (a : Env) (l : Limiter) : Prop :=
  exists cap, valid (here a) (KLimiter l (new_bucket cap)) /\ 0 < cap.

Lemma limited_bucket a l :
  limited a l -> exists cap b, w_buckets (here a) !! l = Some b /\ bucket_wf cap b.
Proof. intros (cap & Hv & Hc). exists cap. exact (Hv cap eq_refl Hc). Qed.

Lemma limited_mono a a' l :
  (forall f, valid (here a) f -> valid (here a') f) -> limited a l -> limited a' l.
Proof. intros Hv (cap & Hl & Hc). exists cap. by split; [apply Hv|]. Qed.

(** A section of a limiter is answered, the state being as the others left it. *)
Lemma ends_section {A X} a l (f : Z -> Bucket -> Bucket * X) (c : X -> task A) Q :
  env_ok a -> limited a l -> bucket_section X f ->
  (forall a1 a' b, others a a1 -> w_buckets (here a1) !! l = Some b ->
     (exists r, bucket_wf r b) -> env_ok a' -> limited a' l ->
     here a' = with_bucket (here a1) l (f (w_clock (here a1)) b).1 ->
     e_uses a' l = e_uses a1 l -> e_slept a' = e_slept a1 ->
     ends among waits (c (f (w_clock (here a1)) b).2) Q a') ->
  ends among waits (Vis (LockBucket l f) c) Q a.
Proof.
  intros Ha Hl Hs Hc. cbn. split.
  - destruct (limited_bucket _ _ Hl) as (cap & b & Hb & _).
    apply among_answer. eexists _, _, _. split; [|done]. by exists b.
  - intros x a' (a1 & Hoth & _ & Hown). destruct (others_ok _ _ Ha Hoth) as [Ha1 Hv].
    pose proof (limited_mono _ _ _ Hv Hl) as Hl1.
    assert (protocol conf [] X (LockBucket l f)) as Hp by done.
    destruct (own_ok a1 [] _ _ x a' Ha1 ltac:(by intros ? ?%elem_of_nil) Hp Hown)
      as (Ha' & _ & Hv' & _).
    destruct Hown as (w' & (b & Hb & -> & ->) & ->).
    eapply Hc; [exact Hoth|exact Hb| |exact Ha'|by eapply limited_mono|done..].
    by destruct (wo_buckets _ _ (proj1 Ha1) _ _ Hb).
Qed.

(** A wait for the limiter is over, and nobody used it since it was asked for. *)
Definition waited_for (a : Env) (l : Limiter) : Prop :=
  exists r b b1 now wait, bucket_wf r b /\ acquire_section now b = (b1, Some wait) /\
    now + wait < w_clock (here a) /\ w_buckets (here a) !! l = Some b1.

Lemma waited_granted a a1 l b :
  waited_for a l -> others a a1 -> e_uses a1 l = e_uses a l -> w_buckets (here a1) !! l = Some b ->
  (acquire_section (w_clock (here a1)) b).2 = None.
Proof.
  intros (r & b0 & b1 & now & wait & Hwf & Hs & Hc & Hl) Hoth Hu Hb.
  rewrite (others_unused _ _ _ _ Hoth Hu Hl) in Hb. injection Hb as <-.
  apply others_clock in Hoth. eapply acquire_wakes; [exact Hwf|exact Hs|lia].
Qed.

(** A turn needs a token, or another use by someone else, to come after the wait
    before it. *)
Definition may_wait (l : Limiter) (start total n : nat) (waited : bool) (a : Env) : Prop :=
  env_ok a /\ limited a l /\ (e_slept a + n <= total)%nat /\
  ((e_uses a l < n)%nat \/ waited_for a l /\ (e_uses a l <= n)%nat) /\
  (start <= e_slept a)%nat /\ (waited = true <-> (start < e_slept a)%nat).

(** A token was taken in the end. *)
Definition paced (l : Limiter) (start total : nat) (a : Env) (waited : bool) : Prop :=
  env_ok a /\ (e_slept a + e_uses a l <= total)%nat /\ (waited = true <-> (start < e_slept a)%nat).

Lemma sleep_then {A} a ns (c : unit -> task A) Q :
  env_ok a ->
  (forall a', env_ok a' -> (forall f, valid (here a) f -> valid (here a') f) ->
     (exists a1, others a a1 /\ w_clock (here a) + ns < w_clock (here a1) /\
        a' = mkEnv (e_sys a1) (e_uses a1) (e_alive a) (S (e_slept a))) -> ends among waits (c tt) Q a') ->
  ends among waits (Vis (Sleep ns) c) Q a.
Proof.
  intros Ha Hc. cbn. split.
  - apply among_answer. exists tt. apply sleep_over.
  - intros [] a' (a1 & H1 & _ & a2 & H2 & Hclock & ->).
    pose proof (others_trans _ _ _ H1 H2) as H12. destruct (others_ok _ _ Ha H12) as [Ha2 Hv].
    apply Hc; [exact Ha2|exact Hv|]. exists a2. split; [done|].
    rewrite (others_slept _ _ H12), (others_alive _ _ H12). split; [|done]. pose proof (others_clock _ _ H1). lia.
Qed.

Lemma acquire_turn l start total n waited a :
  may_wait l start total n waited a ->
  ends among waits
    (Async.bind (fun wait => match wait with
       | None => Ret (inr waited : bool + bool)
       | Some wait => Async.bind (fun _ => Ret (inl true)) (trigger (Sleep wait))
       end) (trigger (LockBucket l acquire_section)))
    (fun a' r => match r with
       | inl waited => exists n', (n' < n)%nat /\ may_wait l start total n' waited a'
       | inr waited => paced l start total a' waited
       end) a.
Proof.
  intros (Ha & Hl & Ht & Hn & Hst & Hwaited). apply ends_section; [done|done|constructor|].
  intros a1 a2 b Hoth Hb Hwf Ha2 Hl2 Hw2 Hu2 Hs2.
  pose proof (others_uses _ _ l Hoth) as Hle. pose proof (others_slept _ _ Hoth) as Hs1.
  destruct (acquire_section (w_clock (here a1)) b) as [b1 [wait|]] eqn:Es; cbn [fst snd] in *.
  - assert (e_uses a1 l < n)%nat as Hlt.
    { destruct Hn as [?|[Hwait Hn]]; [lia|]. destruct (decide (e_uses a1 l = e_uses a l)); [|lia].
      pose proof (waited_granted _ _ _ _ Hwait Hoth e Hb) as Hg. by rewrite Es in Hg. }
    apply sleep_then; [done|]. intros a' Ha' Hv (a3 & Hoth3 & Hclock & ->).
    exists (n - 1)%nat. split; [lia|]. split; [done|]. split; [by eapply limited_mono|].
    split; [cbn; lia|]. pose proof (others_uses _ _ l Hoth3) as Hle3.
    split; [|cbn; split; [lia|]; split; [lia|done]].
    destruct (decide (e_uses a3 l = e_uses a2 l)) as [He|]; [right|left; cbn; lia].
    split; [|cbn; lia]. destruct Hwf as [r Hwf]. exists r, b, b1, (w_clock (here a1)), wait.
    split; [done|]. split; [done|]. split.
    + rewrite Hw2 in Hclock. exact Hclock.
    + apply (others_unused _ _ _ _ Hoth3 He). rewrite Hw2. cbn. by rewrite lookup_insert_eq.
  - split; [done|]. split; [destruct Hn as [?|[_ ?]]; lia|]. by rewrite Hs2, Hs1.
Qed.

Lemma ends_acquire l a :
  env_ok a -> limited a l ->
  ends among waits (acquire l) (paced l (e_slept a) (e_slept a + e_uses a l + 1)) a.
Proof.
  intros Ha Hl.
  apply (ends_iter among waits (may_wait l (e_slept a) (e_slept a + e_uses a l + 1)) _ _ _
           (S (e_uses a l))).
  - intros n waited a' Hm. by apply acquire_turn.
  - split; [done|]. split; [done|]. split; [lia|]. split; [left; lia|]. split; [lia|].
    split; [done|lia].
Qed.

Lemma ends_try_acquire l a :
  env_ok a -> limited a l -> ends among waits (try_acquire l) (fun a' _ => env_ok a') a.
Proof. intros Ha Hl. by apply ends_section; [..|constructor|]. Qed.

(** ** Where limiters come from *)

Lemma throttled_limited a t cap l : throttled_at (here a) t cap -> t = Some l -> limited a l.
Proof.
  intros Ht ->. destruct Ht as [Hc (b & Hb & Hwf)]. exists cap. split; [|done].
  intros cap' E Hc'. exists b. split; [done|].
  assert (max (new_bucket cap 0) = max (new_bucket cap' 0)) as Em by (by rewrite E).
  cbn in Em. injection Em as Em. by replace cap' with cap by lia.
Qed.

Lemma esme_limited w l0 a sid l :
  world_ok conf w -> here a = with_esmes w l0 -> session_limiter sid (w_esmes w) = Some l -> limited a l.
Proof.
  intros Hw Ea. unfold session_limiter.
  destruct (iter_find (esme_is sid) (w_esmes w)) as [e|] eqn:Ef; [|done]. intros Hl.
  apply iter_find_in in Ef as [Hin _]. pose proof (wo_esmes _ _ Hw) as Hall.
  rewrite list.Forall_forall in Hall. destruct (Hall _ Hin) as [_ Ht _].
  eapply throttled_limited; [|exact Hl]. rewrite Ea. exact Ht.
Qed.

Lemma bind_limited w l0 a name t l :
  world_ok conf w -> here a = with_binds w l0 -> find_bind name (w_binds w) = Some t ->
  bt_throttle t = Some l -> limited a l.
Proof.
  intros Hw Ea. unfold find_bind.
  destruct (iter_find _ (w_binds w)) as [b|] eqn:Ef; [|done]. intros [= <-] Hl.
  apply iter_find_in in Ef as [Hin _]. pose proof (wo_binds _ _ Hw) as Hall.
  rewrite list.Forall_forall in Hall. destruct (Hall _ Hin) as [(b' & _ & _ & _ & Ht) _].
  eapply throttled_limited; [|exact Hl]. rewrite Ea. exact Ht.
Qed.

Lemma ends_pace t a :
  env_ok a -> (forall l, t = Some l -> limited a l) -> ends among waits (pace t) (fun a' _ => env_ok a') a.
Proof.
  intros Ha Hl. destruct t as [l|]; [|done]. unfold pace. apply ends_bind.
  eapply ends_post; [by apply ends_acquire, Hl|]. intros a' waited [Ha' _].
  assert (ok (if waited : bool then record_throttled EGRESS else Ret tt)) as Hok by ok_tac. by apply Hok.
Qed.

Lemma ok_admit sid : ok (admit_inbound (state conf) sid).
Proof.
  intros a Ha. unfold admit_inbound.
  apply (ends_vis []); [done|by intros ? ?%elem_of_nil|constructor|done|].
  intros a' limiter w Ha' _ Hw [E ->]. unfold reading in *. cbn [fst snd] in *.
  destruct (session_limiter sid (w_esmes w)) as [l|] eqn:El; [|exact Ha'].
  pose proof (esme_limited _ _ _ _ _ Hw E El) as Hl.
  destruct (inbound_throttle_action (state conf)); apply ends_bind.
  - eapply ends_post; [by apply ends_acquire|]. intros a2 waited [Ha2 _].
    assert (ok ((if waited : bool then record_throttled INBOUND else Ret tt) ;; Ret Proceed)) as Hok
      by ok_tac. by apply Hok.
  - eapply ends_post; [by apply ends_try_acquire|]. intros a2 granted Ha2.
    assert (ok (if granted : bool then Ret Proceed else record_throttled INBOUND ;; Ret Throttled)) as Hok
      by ok_tac. by apply Hok.
Qed.
#[local] Hint Resolve ok_admit : flows.

(** A helper on a bind: it is found, paced, and then used. *)
Lemma ok_paced {A} name (rest : BindTarget -> task (result PyErr A)) :
  (forall target, ok (rest target)) ->
  ok (target <-? bind_handle name; pace (bt_throttle target) ;; rest target).
Proof.
  intros Hr a Ha. unfold try, bind_handle.
  apply (ends_vis []); [done|by intros ? ?%elem_of_nil|constructor|done|].
  intros a' found w Ha' _ Hw [E ->]. unfold reading in *. cbn [fst snd Async.bind] in *.
  destruct (find_bind name (w_binds w)) as [t|] eqn:Et; [|exact Ha'].
  cbn [ok_or]. apply ends_bind. eapply ends_post.
  - apply ends_pace; [done|]. intros l. by eapply bind_limited.
  - intros a2 u Ha2. by apply Hr.
Qed.

Lemma ok_settle {R} (send : task (result SmppError R)) timer gone :
  ok send -> ok gone -> ok (settle send timer gone).
Proof. intros Hs Hg. unfold settle. ok_tac. Qed.

(** *** The callbacks that add a session *)

Lemma ends_new_throttle {A} cap (c : option Limiter -> task A) Q a :
  env_ok a -> fits 32 cap = true ->
  (forall a' t k, env_ok a' -> holds k a' -> throttle_known k t cap -> ends among waits (c t) Q a') ->
  ends among waits (Async.bind c (new_throttle cap)) Q a.
Proof.
  intros Ha Hfit%fits_spec Hc. unfold new_throttle. destruct (Z.ltb_spec 0 cap) as [Hcap|Hcap].
  - apply (ends_vis []); [done|by intros ? ?%elem_of_nil|exists cap; split; [lia|done]|done|].
    intros a' l w Ha' Hk _ _. apply (Hc _ _ _ Ha' Hk). split; [done|]. left.
  - apply (Hc _ _ []); [done|by intros ? ?%elem_of_nil|exact Hcap].
Qed.

Lemma ok_esme_bound esme sid : ok (on_esme_bound (state conf) esme sid).
Proof.
  intros a Ha. unfold on_esme_bound. apply ends_new_throttle; [done|apply Hconf|].
  intros a1 t k Ha1 Hk Ht. apply (ends_vis k); [done..|]. intros a2 arc w Ha2 Hk2 _ _.
  apply (ends_vis (gain _ (NewEsme esme) arc ++ k)); [done..| |done|].
  - apply sec_push. split; [done|]. split; [|left]. eapply throttle_known_mono; [|exact Ht]. set_solver.
  - intros a3 u w3 Ha3 _ _ _. by apply ok_session.
Qed.

Lemma ok_smsc_bound b smsc sid :
  b ∈ SmppConfig.binds conf -> ok (on_smsc_bound (bind_listener b) smsc sid).
Proof.
  intros Hb a Ha. unfold on_smsc_bound. apply ends_new_throttle; [done| |].
  - destruct Hconf as [_ Hf _]. rewrite list.Forall_forall in Hf. by apply Hf.
  - intros a1 t k Ha1 Hk Ht. apply (ends_vis k); [done..|]. intros a2 arc w Ha2 Hk2 _ _.
    apply (ends_vis (gain _ (NewSmsc smsc) arc ++ k)); [done..| |done|].
    + apply sec_push. exists b. repeat split; [done| |left].
      eapply throttle_known_mono; [|exact Ht]. set_solver.
    + intros a3 u w3 Ha3 _ _ _. by apply ok_session.
Qed.

(** *** Every task *)

Lemma ok_inbound i conn sid : ok (handle_inbound (state conf) i conn sid).
Proof.
  destruct i; cbn [handle_inbound];
    unfold on_submit_sm, on_data_sm, on_cancel_sm, on_query_sm, on_replace_sm, on_submit_sm_multi,
      esme_session; ok_tac.
Qed.

Lemma ok_handle_bind self i conn sid : ok (handle_bind self i conn sid).
Proof. destruct i; cbn [handle_bind]; unfold on_deliver_sm, bind_on_data_sm; ok_tac. Qed.

Ltac ok_helper :=
  match goal with Hok : _ = Ok _ |- _ => helper_body Hok end;
  first [apply ok_paced; intros | unfold bind_handle];
  unfold esme_handle, send_built, settle_on_bind, settle_on_esme, bind_gone, esme_gone;
  ok_tac; try (apply ok_settle; ok_tac).

(** The three tasks that last as long as the program. *)
Inductive background : Thread eff -> Prop :=
| bg_sampler : background (mkThread sampler)
| bg_supervisor b : background (mkThread (run_bind_loop b))
| bg_server addr args : background (mkThread (server_task addr args)).

Lemma ok_esme_unbound sid : ok (on_esme_unbound sid).
Proof.
  intros a Ha. apply (ends_vis []); [done|by intros ? ?%elem_of_nil|apply sec_drop; constructor|done|].
  intros a' removed w Ha' _ _ _. cbn [Async.bind].
  destruct (default ("", "") removed) as [system_id client_addr]. by apply ok_session.
Qed.

Lemma ok_smsc_unbound b sid : ok (on_smsc_unbound (bind_listener b) sid).
Proof.
  intros a Ha. apply (ends_vis []); [done|by intros ? ?%elem_of_nil|apply sec_drop; constructor|done|].
  intros a' [] w Ha' _ _ _; [by apply ok_session|exact Ha'].
Qed.

Lemma callback_ok c : installed conf c -> ok (th_prog (callback_of conf c)).
Proof.
  destruct c as [esme sid|sid|b smsc sid|b sid]; intros Hc.
  - apply ok_esme_bound.
  - apply ok_esme_unbound.
  - by apply ok_smsc_bound.
  - apply ok_smsc_unbound.
Qed.

Lemma handler_ok t : handler conf t -> background t \/ ok (th_prog t).
Proof.
  intros Ht. destruct Ht; cbn [th_prog]; try (left; constructor); right.
  - apply ok_inbound.
  - unfold on_bind_transmitter. ok_tac.
  - unfold on_bind_receiver. ok_tac.
  - unfold on_bind_transceiver. ok_tac.
  - unfold on_timeout. ok_tac.
  - unfold on_listen_failed. ok_tac.
  - apply ok_handle_bind.
  - unfold on_alert_notification. ok_tac.
  - unfold bind_on_timeout. ok_tac.
  - unfold on_connection_failed. ok_tac.
  - ok_helper.
  - ok_helper.
  - ok_helper.
  - ok_helper.
  - ok_helper.
  - ok_helper.
  - ok_helper.
  - ok_helper.
  - ok_helper.
Qed.

Lemma service_ok t : service conf t -> background t \/ ok (th_prog t).
Proof. intros [c Hc|t' Ht]; [right; by apply callback_ok|by apply handler_ok]. Qed.

(** *** An attempt of a supervisor *)

(** The effects that neither sleep nor look at the client. *)
Definition quiet X (e : eff X) : Prop :=
  plain X e /\ match e with Sleep _ | ClientAlive => False | _ => True end.

(** What a quiet effect leaves: the counts, and a clock that went on. *)
Record goes_on (a a' : Env) : Prop := {
  go_ok : env_ok a';
  go_slept : e_slept a' = e_slept a;
  go_alive : e_alive a' = e_alive a;
  go_clock : w_clock (here a) <= w_clock (here a');
  go_uses l : (e_uses a' l <= e_uses a l)%nat;
}.

Lemma goes_on_refl a : env_ok a -> goes_on a a.
Proof. by split. Qed.

Lemma goes_on_trans a a1 a2 : goes_on a a1 -> goes_on a1 a2 -> goes_on a a2.
Proof. intros [? ? ? ? U1] [? ? ? ? U2]. split; [done|congruence|congruence|lia|].
  intros l. specialize (U1 l). specialize (U2 l). lia. Qed.

Lemma quiet_vis {A} a X (e : eff X) (c : X -> task A) Q :
  env_ok a -> quiet X e ->
  (forall a' x w, goes_on a a' -> wstep w X e x (here a') -> ends among waits (c x) Q a') ->
  ends among waits (Vis e c) Q a.
Proof.
  intros Ha [[Hcalm Ho] Hq] Hc. cbn. split.
  - by apply among_answer, open_answer.
  - intros x a' (a1 & Hoth & _ & Hown). destruct (others_ok _ _ Ha Hoth) as [Ha1 _].
    destruct (own_ok a1 [] X e x a') as (Ha' & _ & _ & w & _ & Hs);
      [done|by intros ? ?%elem_of_nil|apply Hcalm|done|].
    pose proof (others_clock _ _ Hoth) as Hcl. eapply Hc; [|exact Hs].
    assert (e_slept a' = e_slept a1 /\ e_alive a' = e_alive a1 /\ e_uses a' = e_uses a1 /\
            w_clock (here a') = w_clock (here a1)) as (E1 & E2 & E3 & E4).
    { destruct e; try done; destruct Hown as (w' & Hw & ->); cbn;
        by rewrite <-(wstep_clock _ _ _ _ _ Hw). }
    split; [done| | |lia|].
    + by rewrite E1, (others_slept _ _ Hoth).
    + by rewrite E2, (others_alive _ _ Hoth).
    + intros l. rewrite E3. by apply others_uses.
Qed.

(** Each time the client is found alive is one of those it has left. *)
Lemma alive_vis {A} a (c : bool -> task A) Q :
  env_ok a ->
  (forall a' alive, env_ok a' -> e_slept a' = e_slept a -> w_clock (here a) <= w_clock (here a') ->
     e_alive a = (Nat.b2n alive + e_alive a')%nat -> ends among waits (c alive) Q a') ->
  ends among waits (Vis ClientAlive c) Q a.
Proof.
  intros Ha Hc. cbn. split.
  - apply among_answer. exists false. by eexists _, _.
  - intros alive a' (a1 & Hoth & _ & n & Hn & ->). destruct (others_ok _ _ Ha Hoth) as [Ha1 _].
    apply Hc; [exact Ha1|cbn; by rewrite (others_slept _ _ Hoth)|exact (others_clock _ _ Hoth)|].
    by rewrite <-(others_alive _ _ Hoth).
Qed.

(** Within a budget of sleeps and live polls. *)
Definition within (total : nat) (a : Env) : Prop := env_ok a /\ (e_slept a + e_alive a <= total)%nat.

Definition second : Z := 1000000000.

(** With [n] turns of the wait left, that many seconds of the deadline are. *)
Definition still_waiting (started : Z) (total n : nat) (_ : unit) (a : Env) : Prop :=
  env_ok a /\ (e_slept a + e_alive a + n <= total)%nat /\ (n <= 15)%nat /\
  started + (15 - Z.of_nat n) * second <= w_clock (here a).

Lemma await_shrinks started total n u a :
  still_waiting started total n u a ->
  ends among waits (await_turn started u)
    (fun a' r => match r with
       | inl u => exists n', (n' < n)%nat /\ still_waiting started total n' u a'
       | inr _ => within total a'
       end) a.
Proof.
  intros (Ha & Ht & Hn & Hc). unfold await_turn.
  apply alive_vis; [done|]. intros a1 alive Ha1 S1 C1 A1. cbn [Async.bind trigger].
  apply quiet_vis; [done|by split; auto with flows nocore|]. intros a2 failed w2 [Ha2 S2 A2 C2 _] _.
  apply quiet_vis; [done|by split; auto with flows nocore|]. intros a3 now w3 [Ha3 S3 A3 C3 _] [-> Ew].
  assert (w_clock w3 = w_clock (here a3)) as -> by (by rewrite Ew).
  unfold awaiting_bind, duration_since.
  destruct alive, failed; cbn [negb andb]; try (split; [done|lia]).
  destruct (Z.ltb_spec (Z.max 0 (w_clock (here a3) - started)) bind_deadline) as [Hd|Hd];
    [|split; [done|lia]].
  change bind_deadline with (15 * second) in Hd.
  apply sleep_then; [done|]. intros a' Ha' _ (a4 & Hoth & Hclock & ->).
  change poll_interval with second in Hclock. unfold second in *.
  pose proof (others_alive _ _ Hoth) as A4. cbn [Nat.b2n] in A1.
  exists (n - 1)%nat. split; [lia|]. split; [done|]. cbn [e_slept e_alive]. split; [lia|].
  split; [lia|]. unfold second. change (here (mkEnv _ _ _ _)) with (here a4). lia.
Qed.

Lemma hold_shrinks total n u a :
  within total a /\ n = e_alive a ->
  ends among waits
    (Async.bind (fun alive => if alive : bool
       then Async.bind (fun _ => Ret (inl tt : unit + unit)) (trigger (Sleep poll_interval))
       else Ret (inr u)) (trigger ClientAlive))
    (fun a' r => match r with
       | inl _ => exists n', (n' < n)%nat /\ within total a' /\ n' = e_alive a'
       | inr _ => within total a'
       end) a.
Proof.
  intros [[Ha Ht] ->]. apply alive_vis; [done|]. intros a1 alive Ha1 S1 _ A1.
  destruct alive; cbn [Nat.b2n] in A1; [|split; [done|lia]].
  apply sleep_then; [done|]. intros a' Ha' _ (a2 & Hoth & _ & ->).
  pose proof (others_alive _ _ Hoth) as A2. cbn. exists (e_alive a1). split; [lia|].
  split; [split; [done|]|]; cbn; lia.
Qed.

Lemma quiet_goes_on {A} (p : task A) a :
  always quiet p -> loop_free p -> env_ok a -> ends among waits p (fun a' _ => goes_on a a') a.
Proof.
  revert a. induction p as [A x|A X e k IH|A T B body _ s k _]; intros a; cbn [always loop_free].
  - intros _ _. apply goes_on_refl.
  - intros [He Hk] Hl Ha. apply quiet_vis; [done|done|]. intros a' x w Hgo _.
    eapply ends_post; [apply IH; [apply Hk|apply Hl|apply Hgo]|]. intros a2 y. by apply goes_on_trans.
  - done.
Qed.

Lemma quiet_ends {A} total (p : task A) a :
  always quiet p -> loop_free p -> within total a -> ends among waits p (fun a' _ => within total a') a.
Proof.
  intros Hq Hl [Ha Ht]. eapply ends_post; [by apply quiet_goes_on|]. intros a' x [Ha' S' A' _ _].
  split; [done|lia].
Qed.

Ltac quiet_tac :=
  autounfold with metrics; always_tac; (split; [auto with flows nocore|exact I]).

Lemma ends_hold_session total a :
  within total a -> ends among waits hold_session (fun a' _ => within total a') a.
Proof.
  intros [Ha Ht]. unfold hold_session.
  apply alive_vis; [done|]. intros a1 alive Ha1 S1 _ A1. destruct alive; cbn [Nat.b2n] in A1.
  - apply quiet_vis; [done|by split; auto with flows nocore|]. intros a2 now w [Ha2 S2 A2 _ _] _.
    apply (ends_iter among waits (fun n _ a' => within total a' /\ n = e_alive a') _ _ _ (e_alive a2)).
    + intros n u a' Hin. eapply ends_post; [by apply hold_shrinks|]. by intros a3 [u'|[]].
    + split; [split; [done|lia]|done].
  - apply quiet_ends; [quiet_tac|done|split; [done|lia]].
Qed.

Lemma ends_attempt b backoff_ms a :
  env_ok a ->
  ends among waits (attempt b backoff_ms)
    (fun a' _ => within (e_slept a + e_alive a + 16) a') a.
Proof.
  intros Ha. set (total := (e_slept a + e_alive a + 15)%nat). unfold attempt.
  apply quiet_vis; [done|by split; auto with flows nocore|]. intros a1 u1 w1 [Ha1 S1 A1 _ _] _.
  apply quiet_vis; [done|by split; auto with flows nocore|]. intros a2 u2 w2 [Ha2 S2 A2 _ _] _.
  apply quiet_vis; [done|by split; auto with flows nocore|]. intros a3 started w3 [Ha3 S3 A3 _ _] [-> Ew].
  apply (ends_iter among waits (still_waiting (w_clock w3) total) _ _ _ 15).
  2: { split; [done|]. split; [unfold total; lia|]. split; [lia|]. rewrite Ew. lia. }
  intros n u a4 Hin. eapply ends_post; [by apply await_shrinks|]. intros a5 [u5|u5]; [done|].
  intros Hw5. apply ends_bind. eapply ends_post; [by apply ends_hold_session|]. intros a6 bound_at Hw6.
  apply ends_bind. eapply ends_post.
  { apply quiet_ends; [|by destruct bound_at|exact Hw6]. unfold was_healthy. quiet_tac. }
  intros a7 healthy Hw7. apply ends_bind. eapply ends_post.
  { apply (quiet_ends total); [| |exact Hw7]; destruct (is_some bound_at); [quiet_tac|done| |done].
    by intros []. }
  intros a8 u8 Hw8. apply ends_bind. eapply ends_post.
  { apply (quiet_ends total); [quiet_tac|done|exact Hw8]. }
  intros a9 u9 [Ha9 H9]. apply sleep_then; [done|]. intros a' Ha' _ (a10 & Hoth & _ & ->).
  pose proof (others_alive _ _ Hoth). split; [done|]. cbn [e_slept e_alive]. unfold total in *. lia.
Qed.

(** *** Pacing, and what it counts *)

Definition is_sleep (ev : event eff) : bool := match ev with Ev (Sleep _) _ => true | _ => false end.
Definition sleeps (tr : trace eff) : nat := length (List.filter is_sleep tr).

Lemma sleeps_app tr1 tr2 : sleeps (tr1 ++ tr2) = (sleeps tr1 + sleeps tr2)%nat.
Proof. unfold sleeps. by rewrite filter_app, length_app. Qed.

(** Along a task's own effects its sleeps are counted, and the others' uses only
    get fewer. *)
Lemma among_counts a X (e : eff X) x a' :
  among a X e x a' ->
  e_slept a' = (e_slept a + sleeps [Ev e x])%nat /\ forall l, (e_uses a' l <= e_uses a l)%nat.
Proof.
  intros (a1 & Hoth & _ & Hown). pose proof (others_slept _ _ Hoth) as Hs.
  pose proof (fun l => others_uses _ _ l Hoth) as Hu. unfold sleeps.
  destruct e; cbn [own] in Hown; cbn [is_sleep List.filter length];
    try (destruct Hown as (w' & _ & ->); cbn [e_slept e_uses]; split; [lia|done]; fail).
  destruct Hown as (a2 & Hoth2 & _ & ->). pose proof (others_slept _ _ Hoth2).
  cbn [e_slept e_uses]. split; [lia|]. intros l. pose proof (others_uses _ _ l Hoth2). specialize (Hu l). lia.
Qed.

Lemma answers_sleeps a tr a' : answers among a tr a' -> e_slept a' = (e_slept a + sleeps tr)%nat.
Proof.
  induction 1 as [a|a X e x a1 tr a2 Ha _ IH]; [cbn; lia|]. apply among_counts in Ha as [Hs _].
  change (Ev e x :: tr) with ([Ev e x] ++ tr). rewrite sleeps_app. lia.
Qed.

(** A stretch [tr] of a task between [a] and [a'] that took a token of [l]: it slept
    at most once more than the others used the limiter meanwhile, and counted the
    message as throttled exactly when it slept. *)
Definition paced_by (l : Limiter) (direction : string) (a a' : Env) (tr : trace eff) : Prop :=
  (sleeps tr + e_uses a' l <= e_uses a l + 1)%nat /\
  (metrics_on tr ->
     counted THROTTLED tr = if (0 <? sleeps tr)%nat then [[("direction", direction)]] else []).

(** [waited] says whether it slept, and waiting counts nothing. *)
Lemma acquire_runs l tr waited :
  runs (acquire l) tr waited -> waited = (0 <? sleeps tr)%nat /\ counted THROTTLED tr = [].
Proof.
  intros Hr%runs_iter. cut (waited = (false || (0 <? sleeps tr)%nat) /\ counted THROTTLED tr = []); [done|].
  revert Hr. generalize false. intros w0 Ht.
  induction Ht as [w0 tr b Hr|w0 tr w1 tr' b Hr _ [-> IH]]; run_step; run_step.
  - destruct a; repeat run_step. cbn. by rewrite orb_false_r.
  - destruct a; repeat run_step. rewrite app_nil_r, counted_app, IH, sleeps_app. by destruct w0.
Qed.

(** What follows a wait: counted exactly when there was one. *)
Lemma record_if_runs (waited : bool) direction tr u :
  runs (if waited then record_throttled direction else Ret tt) tr u -> sleeps tr = 0%nat /\
  (metrics_on tr -> counted THROTTLED tr = if waited then [[("direction", direction)]] else []).
Proof.
  intros Hr. split.
  - destruct waited; [|by run_step]. unfold record_throttled, when_store in Hr.
    run_step. run_step. destruct a; repeat run_step; done.
  - intros Hon. destruct waited; [exact (when_store_counted _ THROTTLED _ _ _ _ Hr Hon)|by run_step].
Qed.

Lemma taken l direction a a' waited tr1 tr2 u :
  runs (acquire l) tr1 waited -> runs (if waited : bool then record_throttled direction else Ret tt) tr2 u ->
  answers among a (tr1 ++ tr2) a' -> (e_slept a' + e_uses a' l <= e_slept a + e_uses a l + 1)%nat ->
  paced_by l direction a a' (tr1 ++ tr2).
Proof.
  intros [-> Hc1]%acquire_runs [Hs2 Hc2]%record_if_runs Hs%answers_sleeps Hle. split; [lia|].
  intros [_ Hon]%metrics_on_app. by rewrite counted_app, Hc1, sleeps_app, Hs2, Nat.add_0_r, Hc2.
Qed.

Lemma ends_acquire_then {A} l (f : bool -> task A) a :
  env_ok a -> limited a l -> (forall waited, always quiet (f waited) /\ loop_free (f waited)) ->
  ends among waits (Async.bind f (acquire l))
    (fun a' _ => (e_slept a' + e_uses a' l <= e_slept a + e_uses a l + 1)%nat) a.
Proof.
  intros Ha Hl Hf. apply ends_bind. eapply ends_post; [by apply ends_acquire|].
  intros a1 waited (Ha1 & Hle & _). destruct (Hf waited) as [Hq Hlf].
  eapply ends_post; [by apply quiet_goes_on|]. intros a2 u [_ S2 _ _ U2]. specialize (U2 l). lia.
Qed.

Ltac quiet_record := intros []; (split; [quiet_tac|try done; by intros []]).

Lemma pace_rests l a :
  env_ok a -> limited a l ->
  rests among waits
    (fun a' _ => exists tr, runs (pace (Some l)) tr tt /\ paced_by l EGRESS a a' tr) a (pace (Some l)).
Proof.
  intros Ha Hl. eapply rests_post.
  - apply rests_run, ends_rests, ends_acquire_then; [done|done|]. quiet_record.
  - intros a' [] (Hle & tr & Hr & Htr). exists tr. split; [done|]. unfold pace in Hr. run_step.
    by eapply taken.
Qed.

(** What [admit_inbound] did after it looked up the session's limiter. *)
Definition admission (limiter : option Limiter) (a a' : Env) (tr : trace eff) (verdict : InboundAdmit)
    : Prop :=
  match limiter with
  | None => tr = [] /\ verdict = Proceed
  | Some l =>
      match inbound_throttle_action (state conf) with
      | Pace => verdict = Proceed /\ paced_by l INBOUND a a' tr
      | Reject => exists granted tr', tr = Ev (LockBucket l try_acquire_section) granted :: tr' /\
          sleeps tr' = 0%nat /\ verdict = (if granted then Proceed else Throttled) /\
          (metrics_on tr ->
             counted THROTTLED tr = if granted then [] else [[("direction", INBOUND)]])
      end
  end.

Lemma admit_rests sid a :
  env_ok a ->
  rests among waits
    (fun a' verdict => exists limiter tr,
       runs (admit_inbound (state conf) sid)
         (Ev (LockEsmes (reading (session_limiter sid))) limiter :: tr) verdict /\
       admission limiter a a' tr verdict)
    a (admit_inbound (state conf) sid).
Proof.
  intros Ha. unfold admit_inbound, admission.
  destruct (open_vis [] a _ (LockEsmes (reading (session_limiter sid)))) as [Hx Hall];
    [done|by intros ? ?%elem_of_nil|constructor|done|].
  apply rests_vis; [exact Hx|]. intros limiter a1 Hm.
  destruct (Hall _ _ Hm) as (Ha1 & _ & w & Hw & E & El). unfold reading in E, El. cbn [fst snd] in E, El.
  destruct (among_counts _ _ _ _ _ Hm) as [Hs1 Hu1]. change (sleeps _) with 0%nat in Hs1.
  destruct limiter as [l|]; [|by apply rests_ret; exists None, []; repeat eexists].
  pose proof (esme_limited _ _ _ _ _ Hw E (eq_sym El)) as Hl. specialize (Hu1 l).
  destruct (inbound_throttle_action (state conf)); cbn [Async.bind].
  - eapply rests_post.
    { apply rests_run, ends_rests, ends_acquire_then; [done|done|]. quiet_record. }
    intros a' verdict (Hle & tr & Hr & Htr). exists (Some l), tr. split; [by exists (Some l), tr|].
    run_step. run_step. run_step. split; [done|]. rewrite app_nil_r in *.
    destruct (taken _ INBOUND _ _ _ _ _ _ Hrun Hrun1 Htr Hle) as [? ?]. split; [lia|done].
  - eapply rests_post.
    { apply (rests_run _ _ (fun _ _ => True)), ends_rests, ends_bind.
      eapply ends_post; [by apply ends_try_acquire|].
      intros a2 granted Ha2. eapply ends_post; [apply quiet_goes_on; [destruct granted; quiet_tac| |done]|done].
      destruct granted; [done|by intros []]. }
    intros a' verdict (_ & tr & Hr & _). exists (Some l), tr. split; [by exists (Some l), tr|].
    unfold try_acquire in Hr. run_step. run_step. eexists _, _. split; [done|]. destruct a0; repeat run_step.
    + done.
    + match goal with H : runs (record_throttled _) _ _ |- _ =>
        apply (record_if_runs true) in H as [Hs Hc] end.
      rewrite app_nil_r. split; [done|]. split; [done|]. intros [_ Hon]%metrics_on_app.
      by rewrite counted_app, Hc.
Qed.

End Around.

(** ** What holds of the program *)

(** The effects whose answer is the outside's to give: siphon's executor and
    metrics engine, the Python interpreter and its pool, the peer.  The wait for a
    coroutine is not one of them, for it has a deadline. *)
Definition outside X (e : eff X) : bool :=
  match e with
  | MetricsStore | CounterInc _ _ _ | HistogramObserve _ _ _ | GaugeSet _ _ _
  | JobStart | JobEnd | PyHandlers _ | PyNewArg _ | PyCall _ _ | PyClose
  | PoolTimeout | PoolWrap | PoolSubmit | Request _ => true
  | _ => false
  end.

(** The outside answers whatever it is asked. *)
Definition answering (a : Env) X (e : eff X) : Prop := False.

Section Program.
Context `{!Smpp34, !Smpp34Laws} (conf : SmppConfig.t) (Hconf : config_typed conf).

Lemma session_limited a l :
  env_ok conf a ->
  (exists b, b ∈ w_binds (here a) /\ bs_throttle b = Some l) \/
  (exists e, e ∈ w_esmes (here a) /\ es_throttle e = Some l) -> limited a l.
Proof.
  intros Ha Hl. destruct (proj1 Ha) as [_ Hbs Hes].
  rewrite list.Forall_forall in Hbs. rewrite list.Forall_forall in Hes.
  destruct Hl as [(b & Hin & Hl)|(e & Hin & Hl)].
  - destruct (Hbs _ Hin) as [(b' & _ & _ & _ & Ht) _]. by eapply throttled_limited.
  - destruct (Hes _ Hin) as [_ Ht _]. by eapply throttled_limited.
Qed.

(** C4: no task of the gateway keeps itself from returning.  Start any of them (a
    request of a peer, a session callback, a script's send) in any state the
    gateway can reach, the other tasks running on as they please.  It never goes on
    forever, and stops nowhere but at its result, or at an effect whose answer is
    the outside's to give and does not come (a handler that loops, a peer that
    stays silent): never at a limiter that is gone, a panic or an answer lost on
    the way.  If the outside answers, it returns; what it did is then a run, of
    which the theorems about runs say what it was.  Two things are assumed: that the
    clock passes a sleep's deadline, and that the others use each limiter finitely
    often while this task runs ([others_use] times, however many), for under an
    overload that never ends a paced task may wait its turn forever.  Three tasks
    are meant to last. *)
Theorem tasks_return s t silent others_use alive :
  reachable conf s -> service conf t -> (forall a X e, silent a X e -> outside X e = true) ->
  let start := mkEnv s others_use alive 0 in
  background t \/
  rests (among conf silent) outside (fun _ r => exists tr, runs (th_prog t) tr r) start (th_prog t) /\
  returns (among conf answering) (fun _ r => exists tr, runs (th_prog t) tr r) start (th_prog t).
Proof.
  intros Hs%(reachable_ok _ Hconf) Ht Hsilent start.
  assert (forall silent waits, (forall a X e, silent a X e -> waits X e = true) -> background t \/
    rests (among conf silent) waits (fun _ r => exists tr, runs (th_prog t) tr r) start (th_prog t)) as Hrests.
  { intros silent' waits Hw. destruct (service_ok conf _ Hconf _ Hw _ Ht) as [Hb|Hok]; [by left|right].
    eapply rests_post; [by apply rests_run, ends_rests, Hok|]. intros a' r (_ & tr & Hr & _). by exists tr. }
  destruct (Hrests silent outside Hsilent) as [?|Hr]; [by left|].
  destruct (Hrests answering (fun _ _ => false)) as [?|Hr']; [done|by left|right].
  split; [exact Hr|]. by eapply rests_returns; [|exact Hr'].
Qed.


(** C13: a bind is never given up.  Every attempt of a supervisor ends, whatever
    the peer and the other tasks do, provided its client does not live for ever:
    after at most sixteen sleeps (fifteen for the deadline of the connect, one to
    back off) more than polls that found the client alive; and then the supervisor
    makes the next one.  No turn of the wait goes round again once the session is up
    or the connect is known to have failed, so a refused connect costs no
    deadline. *)
Theorem bind_retried b backoff_ms a :
  reachable conf (e_sys a) ->
  returns (among conf answering)
    (fun a' _ => (e_slept a' + e_alive a' <= e_slept a + e_alive a + 16)%nat)
    a (attempt b backoff_ms) /\
  forall started tr, runs (await_turn started tt) tr (inl tt) ->
    Ev ClientAlive false ∈ tr /\ Ev FlagLoad false ∈ tr.
Proof.
  intros Ha%(reachable_ok _ Hconf). split.
  - apply (rests_returns _ (fun _ _ => false)); [done|]. apply ends_rests.
    eapply ends_post; [by apply ends_attempt|]. by intros a' r [_ H'].
  - intros started tr (now & -> & _)%await_turn_continues. set_solver.
Qed.

End Program.

(** ** In a short execution *)

Module ProgressExample.
#[local] Existing Instance Smpp34Example.codec.
#[local] Existing Instance Smpp34Example.codec_laws.
Import SystemExample.

Definition request : task Z :=
  handle_inbound (state conf) (InSubmit (submit_pdu SendsExample.kw [])) example_conn "s1".

(** A Python call is never answered. *)
Definition handler_loops (a : Env) X (e : eff X) : Prop :=
  match e with PyCall _ _ => True | _ => False end.

(** A message of the session that just bound is answered, however often the
    others use its limiter, unless its handler loops. *)
Lemma tasks_return_witness : exists pool, reachable conf (after_bind, pool) /\
  rests (among conf handler_loops) outside (fun _ status => exists tr, runs request tr status)
    (mkEnv (after_bind, pool) (fun _ => 7%nat) 0 0) request /\
  returns (among conf answering) (fun _ status => exists tr, runs request tr status)
    (mkEnv (after_bind, pool) (fun _ => 7%nat) 0 0) request.
Proof.
  destruct bound_reachable as [pool Hr]. exists pool. split; [exact Hr|].
  pose proof (sv_handler conf _ (hd_inbound conf (InSubmit (submit_pdu SendsExample.kw [])) example_conn "s1")) as Hsv.
  assert (forall a X e, handler_loops a X e -> outside X e = true) as Hout by (by intros a X []).
  destruct (tasks_return conf conf_typed _ _ handler_loops (fun _ => 7%nat) 0%nat Hr Hsv Hout)
    as [Hb|Hret]; [|exact Hret].
  inversion Hb.
Defined.


(** A client that is found alive three times. *)
Lemma bind_retried_witness : exists pool, reachable conf (after_bind, pool) /\
  returns (among conf answering) (fun a' _ => (e_slept a' + e_alive a' <= 19)%nat)
    (mkEnv (after_bind, pool) (fun _ => 0%nat) 3 0) (attempt SupervisorExample.cfg 1000).
Proof.
  destruct bound_reachable as [pool Hr]. exists pool. split; [exact Hr|].
  exact (proj1 (bind_retried conf conf_typed SupervisorExample.cfg 1000
    (mkEnv (after_bind, pool) (fun _ => 0%nat) 3 0) Hr)).
Defined.

End ProgressExample.
